(** * The Scrypted runtime: device tables, mixin invalidation, upsert, removal,
      startup repair and plugin auto-restart

    A shallow embedding of [ScryptedRuntime] and of the [unhandledRejection]
    handler, both of server/src/scrypted-server-main.ts.

    Conventions of the embedding.
    - A JS object used as a table whose values are enumerated
      ([this.pluginDevices], [this.devices]) is a list in [Object.values]
      order: the keys that are array indices in ascending order, then the
      other keys in the order in which they were added ([storeDevice],
      [storeProxy]); its key is the [_id] (resp. the handler's [id]) of the
      value, as every writer of the tables stores a value under that key.
    - A JS object that is only looked up, assigned and deleted by key
      ([this.plugins], a device's [state]) is a [gmap string _].
    - [PluginHost] objects are compared by identity in the source; they live
      in a heap ([hosts]) and are referred to by their address.
    - Every effect on a collaborator (console, datastore, plugin process,
      state manager, mixin release and rebuild) is appended to [trace].
    - An [async] method is run to completion; the restart timer, whose
      behaviour depends on what happens while it is pending, is split at its
      suspension points into separate events. *)

From stdpp Require Import base option list gmap strings sorting pretty.

(** ** Data model *)

(** [ScryptedInterface.ScryptedPlugin], the marker of plugin-root devices. *)
Definition ScryptedPlugin : string := "ScryptedPlugin".

(** [ScryptedNativeId = string | undefined]; JSON over RPC and persisted
    records also carry [null]. *)
Inductive ScryptedNativeId :=
| NidUndefined
| NidNull
| NidString (s : string).

(** The values kept in a device's state. In an array [None] is a [null] or
    [undefined] element (found in dirty persisted [mixins] lists). *)
Inductive JsValue :=
| JUndefined
| JNull
| JString (s : string)
| JArray (l : list (option string))
| JInfo (manufacturer version : option string).

Global Instance ScryptedNativeId_eq_dec : EqDecision ScryptedNativeId.
Proof. solve_decision. Defined.
Global Instance JsValue_eq_dec : EqDecision JsValue.
Proof. solve_decision. Defined.

(** JS truthiness of the values the runtime tests with [!x] or [x || d]. *)
Definition truthy_string (s : string) : bool := negb (String.eqb s "").

Definition truthy_nativeId (n : ScryptedNativeId) : bool :=
  match n with
  | NidString s => truthy_string s
  | _ => false
  end.

Definition js_of_nativeId (n : ScryptedNativeId) : JsValue :=
  match n with
  | NidUndefined => JUndefined
  | NidNull => JNull
  | NidString s => JString s
  end.

Definition js_of_string (o : option string) : JsValue :=
  match o with
  | Some s => JString s
  | None => JUndefined
  end.

(** [PluginDevice] (db-types): the persisted record backing one device. *)
Record PluginDevice := {
  pd_id : string;
  pd_pluginId : string;
  pd_nativeId : ScryptedNativeId;
  pd_stateVersion : nat;
  pd_state : option (gmap string JsValue);
}.

(** [Plugin] (db-types). *)
Record Plugin := {
  plugin_id : string;
  packageJson_name : string;
  packageJson_version : string;
}.

(** [Device] (types): what a plugin reports to [upsertDevice]. *)
Record Device := {
  dev_name : option string;
  dev_nativeId : ScryptedNativeId;
  dev_type : option string;
  dev_interfaces : list string;
  dev_info : option JsValue;
  dev_providerNativeId : ScryptedNativeId;
  dev_room : option string;
}.

(** One entry of a handler's [mixinTable]; [entry] is the wrapped object. *)
Record MixinTableEntry := {
  mixinProviderId : option string;
  entry : nat;
}.

(** The part of [PluginDeviceProxyHandler] that the runtime reads and writes. *)
Record PluginDeviceProxyHandler := {
  h_id : string;
  h_mixinTable : option (list MixinTableEntry);
}.

(** A [PluginHost] object. [host_exitListener] tells whether the listener
    registered with [worker.once('exit', ...)] is still to run, and
    [host_unreachable] whether a call to its [remote] is rejected although
    the host was not killed (the process hangs or has died). *)
Record PluginHost := {
  host_pluginId : string;
  host_killed : bool;
  host_exitListener : bool;
  host_unreachable : bool;
}.

(** The persistent store ([Level]): the two collections the runtime uses. *)
Record Level := {
  ds_devices : list PluginDevice;
  ds_plugins : list Plugin;
  ds_nextId : nat;
}.

Inductive Event :=
| EvConsoleLog (msg : string)
| EvConsoleWarn (msg : string)
| EvConsoleError (msg : string)
| EvInvalidateEntry (did : string) (e : MixinTableEntry)
| EvRebuildMixinTable (did : string)
| EvInvalidate (did : string)
| EvProbe (did : string)
| EvPropertyEvent (did property : string) (changed : bool)
| EvUpdateDescriptor (did : string)
| EvInterfaceEvent (did iface : string)
| EvStateManagerRemoveDevice (did : string)
| EvDatastoreUpsert (did : string)
| EvDatastoreRemove (did : string)
| EvDatastoreRemoveId (pluginId : string)
| EvRimraf (pluginId : string)
| EvHostKill (host : nat)
| EvHostStart (host : nat) (pluginId : string)
| EvSetNativeId (pluginId : string) (nativeId : ScryptedNativeId)
| EvSetTimeout (host : nat) (timeout : N).

(** A timer armed by [setTimeout]: when it is due and the host it closes over. *)
Record Timer := {
  timer_due : N;
  timer_host : nat;
}.

Record ScryptedRuntime := {
  datastore : Level;
  plugins : gmap string nat;
  pluginDevices : list PluginDevice;
  devices : list PluginDeviceProxyHandler;
  hosts : list PluginHost;
  timers : list Timer;
  lookups : list nat;
  now : N;
  trace : list Event;
}.

Global Instance MixinTableEntry_eq_dec : EqDecision MixinTableEntry.
Proof. solve_decision. Defined.
Global Instance Handler_eq_dec : EqDecision PluginDeviceProxyHandler.
Proof. solve_decision. Defined.
Global Instance Event_eq_dec : EqDecision Event.
Proof. solve_decision. Defined.

(** Field updates. *)
Definition set_datastore (v : Level) (rt : ScryptedRuntime) : ScryptedRuntime :=
  {| datastore := v; plugins := plugins rt; pluginDevices := pluginDevices rt;
     devices := devices rt; hosts := hosts rt; timers := timers rt;
     lookups := lookups rt; now := now rt; trace := trace rt |}.
Definition set_plugins (v : gmap string nat) (rt : ScryptedRuntime) : ScryptedRuntime :=
  {| datastore := datastore rt; plugins := v; pluginDevices := pluginDevices rt;
     devices := devices rt; hosts := hosts rt; timers := timers rt;
     lookups := lookups rt; now := now rt; trace := trace rt |}.
Definition set_pluginDevices (v : list PluginDevice) (rt : ScryptedRuntime) : ScryptedRuntime :=
  {| datastore := datastore rt; plugins := plugins rt; pluginDevices := v;
     devices := devices rt; hosts := hosts rt; timers := timers rt;
     lookups := lookups rt; now := now rt; trace := trace rt |}.
Definition set_devices (v : list PluginDeviceProxyHandler) (rt : ScryptedRuntime) : ScryptedRuntime :=
  {| datastore := datastore rt; plugins := plugins rt; pluginDevices := pluginDevices rt;
     devices := v; hosts := hosts rt; timers := timers rt;
     lookups := lookups rt; now := now rt; trace := trace rt |}.
Definition set_hosts (v : list PluginHost) (rt : ScryptedRuntime) : ScryptedRuntime :=
  {| datastore := datastore rt; plugins := plugins rt; pluginDevices := pluginDevices rt;
     devices := devices rt; hosts := v; timers := timers rt;
     lookups := lookups rt; now := now rt; trace := trace rt |}.
Definition set_timers (v : list Timer) (rt : ScryptedRuntime) : ScryptedRuntime :=
  {| datastore := datastore rt; plugins := plugins rt; pluginDevices := pluginDevices rt;
     devices := devices rt; hosts := hosts rt; timers := v;
     lookups := lookups rt; now := now rt; trace := trace rt |}.
Definition set_lookups (v : list nat) (rt : ScryptedRuntime) : ScryptedRuntime :=
  {| datastore := datastore rt; plugins := plugins rt; pluginDevices := pluginDevices rt;
     devices := devices rt; hosts := hosts rt; timers := timers rt;
     lookups := v; now := now rt; trace := trace rt |}.
Definition set_now (v : N) (rt : ScryptedRuntime) : ScryptedRuntime :=
  {| datastore := datastore rt; plugins := plugins rt; pluginDevices := pluginDevices rt;
     devices := devices rt; hosts := hosts rt; timers := timers rt;
     lookups := lookups rt; now := v; trace := trace rt |}.
Definition emit (evs : list Event) (rt : ScryptedRuntime) : ScryptedRuntime :=
  {| datastore := datastore rt; plugins := plugins rt; pluginDevices := pluginDevices rt;
     devices := devices rt; hosts := hosts rt; timers := timers rt;
     lookups := lookups rt; now := now rt; trace := trace rt ++ evs |}.

(** ** Mixin invalidation *)

(** The state of the first pass of [invalidateMixins]: the set [ret] in
    insertion order, and the array [remaining] as a stack, its last element
    (the one [pop] takes and after which [push] adds) at the head. *)
Record Pass := {
  p_ret : list string;
  p_remaining : list string;
  p_trace : list Event;
}.

(** Modelled from the spec: [PluginDeviceProxyHandler.invalidateEntry] is not
    under src/. §4.3 has the spliced entries "released"; the release itself is
    a call to the mixin provider, recorded in the trace. *)
Definition invalidateEntry (did : string) (e : MixinTableEntry) : list Event :=
  [EvConsoleLog "invalidating mixin"; EvInvalidateEntry did e].

(** The body of the loop over [Object.values(this.devices)] for one device. *)
Definition scanDevice (id : string) (device : PluginDeviceProxyHandler) (st : Pass)
  : PluginDeviceProxyHandler * Pass :=
  match h_mixinTable device with
  | None => (device, st)
  | Some table =>
    match list_find (λ mt, mixinProviderId mt = Some id) table with
    | None => (device, st)
    | Some (foundIndex, _) =>
      let did := h_id device in
      let st1 :=
        if decide (did ∈ p_ret st) then st
        else {| p_ret := p_ret st ++ [did];
                p_remaining := did :: p_remaining st;
                p_trace := p_trace st |} in
      if decide (foundIndex = length table - 1) then
        (device,
         {| p_ret := p_ret st1; p_remaining := p_remaining st1;
            p_trace := p_trace st1
              ++ [EvConsoleWarn "attempt to invalidate mixin on actual device?"] |})
      else
        let removed := take (foundIndex + 1) table in
        ({| h_id := h_id device;
            h_mixinTable := Some (drop (foundIndex + 1) table) |},
         {| p_ret := p_ret st1; p_remaining := p_remaining st1;
            p_trace := p_trace st1 ++ (removed ≫= invalidateEntry did) |})
    end
  end.

Fixpoint scanDevices (id : string) (ds : list PluginDeviceProxyHandler) (st : Pass)
  : list PluginDeviceProxyHandler * Pass :=
  match ds with
  | [] => ([], st)
  | device :: ds' =>
    let '(device', st1) := scanDevice id device st in
    let '(ds'', st2) := scanDevices id ds' st1 in
    (device' :: ds'', st2)
  end.

(** [while (remaining.length)]: [None] when the fuel runs out first. *)
Fixpoint whileRemaining (fuel : nat) (ds : list PluginDeviceProxyHandler) (st : Pass)
  : option (list PluginDeviceProxyHandler * Pass) :=
  match p_remaining st with
  | [] => Some (ds, st)
  | id :: rest =>
    match fuel with
    | 0 => None
    | S fuel' =>
      let '(ds', st') :=
        scanDevices id ds
          {| p_ret := p_ret st; p_remaining := rest; p_trace := p_trace st |} in
      whileRemaining fuel' ds' st'
    end
  end.

(** The first pass. Each turn of the loop pops one id, and an id is pushed
    only together with a device id new to [ret], so the loop makes at most
    [length ids + length ds] turns ([firstPass_total]). *)
Definition firstPass (ds : list PluginDeviceProxyHandler) (ids : list string)
  : option (list PluginDeviceProxyHandler * Pass) :=
  whileRemaining (length ids + length ds) ds
    {| p_ret := []; p_remaining := reverse ids; p_trace := [] |}.

(** Modelled from the spec: [PluginDeviceProxyHandler.rebuildMixinTable] is
    not under src/. §4.3: "force its proxy to rebuild its mixin chain
    eagerly". The rebuild is started and not awaited: the chain that it
    installs and the interfaces that it writes back to the record of the
    device are decided by the replies of the mixin providers, after the
    caller has gone on. The model records that the rebuild is started, and
    nothing of what it does later: a state of the model is the state that
    the caller leaves, and what is said of the record or of the chain of a
    device for which [EvRebuildMixinTable] is in the trace holds until that
    rebuild completes. *)
Definition rebuildMixinTable (did : string) : list Event :=
  [EvRebuildMixinTable did].

(** The second pass: [for (const id of ret)]. *)
Definition secondPass (ret : list string) : list Event :=
  ret ≫= rebuildMixinTable.

Definition invalidateMixins (rt : ScryptedRuntime) (ids : list string)
  : option (ScryptedRuntime * list string) :=
  '(ds, st) ← firstPass (devices rt) ids;
  Some (emit (p_trace st ++ secondPass (p_ret st)) (set_devices ds rt), p_ret st).


(** ** Device state *)

(** Modelled from the spec: the enum [ScryptedInterfaceProperty] is not under
    src/. Its members are the property names of §3 of the spec and of
    [ScryptedDevice]; each is the key of the property in a device's [state]. *)
Abbreviation Property_nativeId := "nativeId" (only parsing).
Abbreviation Property_pluginId := "pluginId" (only parsing).
Abbreviation Property_providedInterfaces := "providedInterfaces" (only parsing).
Abbreviation Property_interfaces := "interfaces" (only parsing).
Abbreviation Property_mixins := "mixins" (only parsing).
Abbreviation Property_info := "info" (only parsing).
Abbreviation Property_providerId := "providerId" (only parsing).
Abbreviation Property_providedName := "providedName" (only parsing).
Abbreviation Property_providedType := "providedType" (only parsing).
Abbreviation Property_providedRoom := "providedRoom" (only parsing).
Abbreviation Property_name := "name" (only parsing).
Abbreviation Property_type := "type" (only parsing).
Abbreviation Property_room := "room" (only parsing).

Definition PLUGIN_DEVICE_STATE_VERSION : nat := 2.

(** Modelled from the spec: [getState] (state.ts) is not under src/. §3: the
    state maps a property name to its recorded value; a property that was
    never recorded, or a device without state, reads as [undefined]. *)
Definition getState (pluginDevice : PluginDevice) (property : string) : JsValue :=
  match pd_state pluginDevice with
  | Some st => default JUndefined (st !! property)
  | None => JUndefined
  end.

(** Modelled from the spec: [setState] (state.ts) is not under src/. §4.2:
    "compares against the last recorded value; ... returns whether the value
    actually changed". The times kept next to the value are left out. *)
Definition setState (pluginDevice : PluginDevice) (property : string) (value : JsValue)
  : PluginDevice * bool :=
  match pd_state pluginDevice with
  | Some st =>
    ({| pd_id := pd_id pluginDevice; pd_pluginId := pd_pluginId pluginDevice;
        pd_nativeId := pd_nativeId pluginDevice;
        pd_stateVersion := pd_stateVersion pluginDevice;
        pd_state := Some (<[property := value]> st) |},
     bool_decide (getState pluginDevice property ≠ value))
  | None => (pluginDevice, false)
  end.

(** Modelled from the spec: [ScryptedStateManager.setPluginDeviceState] is not
    under src/. §2: all writes of device state go through the State Manager,
    which "emits change notifications"; the result is that of [setState]. *)
Definition setPluginDeviceState (pluginDevice : PluginDevice) (property : string)
    (value : JsValue) : PluginDevice * bool * list Event :=
  let '(pluginDevice', changed) := setState pluginDevice property value in
  (pluginDevice', changed, [EvPropertyEvent (pd_id pluginDevice) property changed]).

(** [x || []] for a value declared [string[]]. *)
Definition as_array (v : JsValue) : list (option string) :=
  match v with
  | JArray l => l
  | _ => []
  end.

(** The strings of an array. *)
Definition strings (l : list (option string)) : list string := omap id l.

Definition js_of_strings (l : list string) : JsValue := JArray (Some <$> l).

(** The order of [Array.prototype.sort] without comparator: by code units,
    which for strings of one-byte characters is [String.compare]. *)
Definition string_le (a b : string) : Prop := String.leb a b = true.

Global Instance string_le_dec : RelDecision string_le.
Proof. intros a b. unfold string_le. apply _. Defined.

(** Modelled from the spec: [PluginDeviceProxyHandler.sortInterfaces] is not
    under src/. §3: the resolved list is a "union ... sorted
    deterministically": the elements without repetition, in ascending order. *)
Definition sortInterfaces (interfaces : list string) : list string :=
  merge_sort string_le (remove_dups interfaces).

(** Modelled from the spec: infer-defaults.ts is not under src/ and the spec
    does not describe it. The six functions of it that [upsertDevice] calls
    are taken as given. *)
Class InferDefaults := {
  getDisplayType : PluginDevice → JsValue;
  getProvidedTypeOrDefault : PluginDevice → JsValue;
  getDisplayName : PluginDevice → JsValue;
  getProvidedNameOrDefault : PluginDevice → JsValue;
  getDisplayRoom : PluginDevice → JsValue;
  getProvidedRoomOrDefault : PluginDevice → JsValue;
}.

(** ** Device tables *)

(** [a == b] on native ids: [null] and [undefined] are equal to each other
    and to nothing else. *)
Definition looseEq (a b : ScryptedNativeId) : bool :=
  match a, b with
  | NidString s, NidString t => bool_decide (s = t)
  | NidString _, _ | _, NidString _ => false
  | _, _ => true
  end.

Definition normalizeNativeId (nativeId : ScryptedNativeId) : ScryptedNativeId :=
  match nativeId with
  | NidNull => NidUndefined
  | _ => nativeId
  end.

Definition findPluginDevice (rt : ScryptedRuntime) (pluginId : string)
    (nativeId : ScryptedNativeId) : option PluginDevice :=
  let nativeId := normalizeNativeId nativeId in
  snd <$> list_find
    (λ device, pd_pluginId device = pluginId
               ∧ looseEq (pd_nativeId device) nativeId = true)
    (pluginDevices rt).

Definition findPluginDeviceById (rt : ScryptedRuntime) (id : string)
  : option PluginDevice :=
  snd <$> list_find (λ device, pd_id device = id) (pluginDevices rt).

(** ** The order of the keys of an object *)

(** [Object.values], [Object.keys] and [for ... in] enumerate the keys of an
    object that are array indices first, in ascending order, and then the
    other keys in the order in which they were added. A table is the list
    of its values in that order. *)

(** The value of a decimal digit. *)
Definition digitValue (c : Ascii.ascii) : option N :=
  let n := Ascii.N_of_ascii c in
  if (48 <=? n)%N && (n <=? 57)%N then Some (n - 48)%N else None.

(** The value of a string of decimal digits, read after the digits whose
    value is [acc]. *)
Fixpoint digitsValue (acc : N) (s : string) : option N :=
  match s with
  | EmptyString => Some acc
  | String c s' => d ← digitValue c; digitsValue (10 * acc + d) s'
  end.

(** The array index that a key is: a decimal numeral without leading zero
    whose value is below [2^32 - 1]. *)
Definition arrayIndex (key : string) : option N :=
  match key with
  | EmptyString => None
  | String c rest =>
    if (Ascii.N_of_ascii c =? 48)%N && negb (bool_decide (rest = EmptyString)) then None
    else n ← digitsValue 0 key; if (n <? 4294967295)%N then Some n else None
  end.

(** A key [a] that is added to an object is enumerated before the key [b]
    that the object has. *)
Definition keyBefore (a b : string) : bool :=
  match arrayIndex a, arrayIndex b with
  | Some m, Some n => (m <? n)%N
  | Some _, None => true
  | None, _ => false
  end.

(** [table[pluginDevice._id] = pluginDevice]: in place when the key exists,
    and otherwise before the first key that is enumerated after the new
    one, last when there is none. (On a list that no object enumerates to,
    where a key that should come later comes first, the existing key is
    replaced all the same.) *)
Fixpoint storeDevice (pluginDevice : PluginDevice) (table : list PluginDevice)
  : list PluginDevice :=
  match table with
  | [] => [pluginDevice]
  | x :: table' =>
    if decide (pd_id x = pd_id pluginDevice) then pluginDevice :: table'
    else if keyBefore (pd_id pluginDevice) (pd_id x)
            && bool_decide (pd_id pluginDevice ∉ pd_id <$> table')
    then pluginDevice :: x :: table'
    else x :: storeDevice pluginDevice table'
  end.

(** [delete table[id]]. *)
Definition deleteDevice (id : string) (table : list PluginDevice) : list PluginDevice :=
  filter (λ x, pd_id x ≠ id) table.

(** Modelled from the spec: [Level] is not under src/. §2: "durable key-value
    storage keyed by entity id ...; supports get/upsert/remove/iterate-all";
    [nextId] hands out the next number of a counter. The order in which the
    store iterates is not specified: the model keeps the records of the
    store as it keeps a table, and no statement depends on their order. *)
Definition nextId (ds : Level) : nat * Level :=
  (ds_nextId ds,
   {| ds_devices := ds_devices ds; ds_plugins := ds_plugins ds;
      ds_nextId := S (ds_nextId ds) |}).

Definition datastore_upsert (pluginDevice : PluginDevice) (rt : ScryptedRuntime)
  : ScryptedRuntime :=
  emit [EvDatastoreUpsert (pd_id pluginDevice)]
    (set_datastore
       {| ds_devices := storeDevice pluginDevice (ds_devices (datastore rt));
          ds_plugins := ds_plugins (datastore rt);
          ds_nextId := ds_nextId (datastore rt) |} rt).

Definition datastore_remove (id : string) (rt : ScryptedRuntime) : ScryptedRuntime :=
  emit [EvDatastoreRemove id]
    (set_datastore
       {| ds_devices := deleteDevice id (ds_devices (datastore rt));
          ds_plugins := ds_plugins (datastore rt);
          ds_nextId := ds_nextId (datastore rt) |} rt).

Definition datastore_removeId (pluginId : string) (rt : ScryptedRuntime)
  : ScryptedRuntime :=
  emit [EvDatastoreRemoveId pluginId]
    (set_datastore
       {| ds_devices := ds_devices (datastore rt);
          ds_plugins := filter (λ p, plugin_id p ≠ pluginId) (ds_plugins (datastore rt));
          ds_nextId := ds_nextId (datastore rt) |} rt).

Definition datastore_tryGet (rt : ScryptedRuntime) (pluginId : string) : option Plugin :=
  snd <$> list_find (λ p, plugin_id p = pluginId) (ds_plugins (datastore rt)).

Definition persisted (rt : ScryptedRuntime) (id : string) : option PluginDevice :=
  snd <$> list_find (λ device, pd_id device = id) (ds_devices (datastore rt)).

(** ** [upsertDevice] *)

(** The local [providedInterfaces] of [upsertDevice]. *)
Definition providedInterfacesOf (device : Device) : list string :=
  let nativeId := normalizeNativeId (dev_nativeId device) in
  sortInterfaces
    (if truthy_nativeId nativeId
     then filter (λ iface, iface ≠ ScryptedPlugin) (dev_interfaces device)
     else dev_interfaces device ++ [ScryptedPlugin]).

(** The local [mixinInterfaces] of [upsertDevice]. *)
Definition mixinInterfacesOf (pluginDevice : PluginDevice)
    (providedInterfaces : list string) : list string :=
  let mixins := as_array (getState pluginDevice Property_mixins) in
  sortInterfaces
    ((if decide (length mixins = 0) then []
      else strings (as_array (getState pluginDevice Property_interfaces)))
     ++ providedInterfaces).

Definition notifyPluginDeviceDescriptorChanged (pluginDevice : PluginDevice)
    (rt : ScryptedRuntime) : ScryptedRuntime :=
  emit [EvUpdateDescriptor (pd_id pluginDevice);
        EvInterfaceEvent (pd_id pluginDevice) "ScryptedDevice"]
    (datastore_upsert pluginDevice rt).

Record UpsertResult := {
  pluginDevicePromise : PluginDevice;
  interfacesChanged : bool;
}.

(** [upsertDevice], in the three stages of its body. [pluginDevice] is the
    object that the table holds under its id from the second statement of
    the stage on: the model enters it there (with the two fields that
    [findPluginDevice] reads) and writes it back when the call ends. *)

(** Find or create the record, set its fields and its [nativeId] property. *)
Definition upsertRecord (rt : ScryptedRuntime) (pluginId : string)
    (nativeId : ScryptedNativeId) : PluginDevice * ScryptedRuntime :=
  let '(pluginDevice, rt) :=
    match findPluginDevice rt pluginId nativeId with
    | Some pluginDevice => (pluginDevice, rt)
    | None =>
      let '(n, ds) := nextId (datastore rt) in
      ({| pd_id := pretty n; pd_pluginId := pluginId; pd_nativeId := nativeId;
          pd_stateVersion := PLUGIN_DEVICE_STATE_VERSION; pd_state := None |},
       set_datastore ds rt)
    end in
  let pluginDevice :=
    {| pd_id := pd_id pluginDevice; pd_pluginId := pluginId; pd_nativeId := nativeId;
       pd_stateVersion := pd_stateVersion pluginDevice;
       pd_state := Some (default ∅ (pd_state pluginDevice)) |} in
  (if decide (getState pluginDevice Property_nativeId ≠ js_of_nativeId nativeId)
   then (setState pluginDevice Property_nativeId (js_of_nativeId nativeId)).1
   else pluginDevice,
   set_pluginDevices (storeDevice pluginDevice (pluginDevices rt)) rt).

(** [providedInterfaces], [mixinInterfaces] and the properties set from them. *)
Definition upsertInterfaces (pluginDevice : PluginDevice) (pluginId : string)
    (device : Device) : PluginDevice * bool * list Event :=
  let providedInterfaces := providedInterfacesOf device in
  let mixinInterfaces := mixinInterfacesOf pluginDevice providedInterfaces in
  let '(pluginDevice, _, ev1) :=
    setPluginDeviceState pluginDevice Property_pluginId (JString pluginId) in
  let '(pluginDevice, changed1, ev2) :=
    setPluginDeviceState pluginDevice Property_providedInterfaces
      (js_of_strings providedInterfaces) in
  let '(pluginDevice, changed2, ev3) :=
    setPluginDeviceState pluginDevice Property_interfaces
      (js_of_strings mixinInterfaces) in
  (pluginDevice, changed2 || changed1, ev1 ++ ev2 ++ ev3).

(** [info], the provider and the provided and displayed name, type and room. *)
Definition upsertDescriptor `{InferDefaults} (rt : ScryptedRuntime)
    (pluginDevice : PluginDevice) (pluginId : string) (device : Device)
    (isUsingDefaultType isUsingDefaultName isUsingDefaultRoom : bool)
  : PluginDevice * list Event :=
  let '(pluginDevice, ev4) :=
    match dev_info device with
    | Some info =>
      let '(pd, _, ev) := setPluginDeviceState pluginDevice Property_info info in (pd, ev)
    | None => (pluginDevice, [])
    end in
  let provider := findPluginDevice rt pluginId (dev_providerNativeId device) in
  let '(pluginDevice, _, ev5) :=
    setPluginDeviceState pluginDevice Property_providerId
      (js_of_string (pd_id <$> provider)) in
  let '(pluginDevice, _, ev6) :=
    setPluginDeviceState pluginDevice Property_providedName
      (js_of_string (dev_name device)) in
  let '(pluginDevice, _, ev7) :=
    setPluginDeviceState pluginDevice Property_providedType
      (js_of_string (dev_type device)) in
  let '(pluginDevice, ev8) :=
    if isUsingDefaultType then
      let '(pd, _, ev) :=
        setPluginDeviceState pluginDevice Property_type
          (getProvidedTypeOrDefault pluginDevice) in (pd, ev)
    else (pluginDevice, []) in
  let '(pluginDevice, ev9) :=
    if isUsingDefaultName then
      let '(pd, _, ev) :=
        setPluginDeviceState pluginDevice Property_name
          (getProvidedNameOrDefault pluginDevice) in (pd, ev)
    else (pluginDevice, []) in
  let '(pluginDevice, _, ev10) :=
    setPluginDeviceState pluginDevice Property_providedRoom
      (js_of_string (dev_room device)) in
  let '(pluginDevice, ev11) :=
    if isUsingDefaultRoom then
      let '(pd, _, ev) :=
        setPluginDeviceState pluginDevice Property_room
          (getProvidedRoomOrDefault pluginDevice) in (pd, ev)
    else (pluginDevice, []) in
  (pluginDevice, ev4 ++ ev5 ++ ev6 ++ ev7 ++ ev8 ++ ev9 ++ ev10 ++ ev11).

Definition upsertDevice `{InferDefaults} (rt : ScryptedRuntime) (pluginId : string)
    (device : Device) : ScryptedRuntime * UpsertResult :=
  let nativeId := normalizeNativeId (dev_nativeId device) in
  let '(pluginDevice, rt) := upsertRecord rt pluginId nativeId in
  let isUsingDefaultType :=
    bool_decide (getDisplayType pluginDevice = getProvidedTypeOrDefault pluginDevice) in
  let isUsingDefaultName :=
    bool_decide (getDisplayName pluginDevice = getProvidedNameOrDefault pluginDevice) in
  let isUsingDefaultRoom :=
    bool_decide (getDisplayRoom pluginDevice = getProvidedRoomOrDefault pluginDevice) in
  let '(pluginDevice, interfacesChanged, evs1) :=
    upsertInterfaces pluginDevice pluginId device in
  let '(pluginDevice, evs2) :=
    upsertDescriptor rt pluginDevice pluginId device
      isUsingDefaultType isUsingDefaultName isUsingDefaultRoom in
  let rt :=
    emit (evs1 ++ evs2)
      (set_pluginDevices (storeDevice pluginDevice (pluginDevices rt)) rt) in
  (notifyPluginDeviceDescriptorChanged pluginDevice rt,
   {| pluginDevicePromise := pluginDevice; interfacesChanged := interfacesChanged |}).

(** ** Plugin hosts and device proxies *)

(** Modelled from the spec: [PluginHost.kill] is not under src/. §4.1:
    "marks the handle dead and terminates the worker; idempotent". *)
Definition host_kill (pluginHost : nat) (rt : ScryptedRuntime) : ScryptedRuntime :=
  emit [EvHostKill pluginHost]
    (set_hosts
       (alter (λ host, {| host_pluginId := host_pluginId host; host_killed := true;
                          host_exitListener := host_exitListener host;
                          host_unreachable := host_unreachable host |})
          pluginHost (hosts rt)) rt).

Definition killPlugin (rt : ScryptedRuntime) (pluginId : string) : ScryptedRuntime :=
  match plugins rt !! pluginId with
  | Some existing => host_kill existing (set_plugins (delete pluginId (plugins rt)) rt)
  | None => rt
  end.

(** [this.devices[id]]. *)
Definition lookupDevice (rt : ScryptedRuntime) (id : string)
  : option PluginDeviceProxyHandler :=
  snd <$> list_find (λ h, h_id h = id) (devices rt).

(** A handler of the table, mutated in place. *)
Fixpoint alterDevice (id : string)
    (f : PluginDeviceProxyHandler → PluginDeviceProxyHandler)
    (ds : list PluginDeviceProxyHandler) : list PluginDeviceProxyHandler :=
  match ds with
  | [] => []
  | h :: ds' => if decide (h_id h = id) then f h :: ds' else h :: alterDevice id f ds'
  end.

(** Modelled from the spec: [PluginDeviceProxyHandler.invalidate] is not under
    src/. §4.3: "invalidation only discards its internal chain so the next
    access triggers a rebuild". *)
Definition invalidate (h : PluginDeviceProxyHandler) : PluginDeviceProxyHandler :=
  {| h_id := h_id h; h_mixinTable := None |}.

Definition invalidatePluginDevice (rt : ScryptedRuntime) (id : string)
  : ScryptedRuntime :=
  match lookupDevice rt id with
  | None => rt
  | Some _ => emit [EvInvalidate id] (set_devices (alterDevice id invalidate (devices rt)) rt)
  end.

(** [this.devices[id] = { proxy, handler }] for an id that the table does
    not have: the new key takes the place in which it is enumerated. *)
Fixpoint storeProxy (handler : PluginDeviceProxyHandler)
    (ds : list PluginDeviceProxyHandler) : list PluginDeviceProxyHandler :=
  match ds with
  | [] => [handler]
  | x :: ds' =>
    if keyBefore (h_id handler) (h_id x) then handler :: x :: ds'
    else x :: storeProxy handler ds'
  end.

(** [getDevice]: the proxy of [id], created on first use. *)
Definition getDevice (rt : ScryptedRuntime) (id : string) : ScryptedRuntime * bool :=
  match lookupDevice rt id with
  | Some _ => (rt, true)
  | None =>
    match findPluginDeviceById rt id with
    | None => (emit [EvConsoleWarn "device not found"] rt, false)
    | Some _ =>
      (set_devices (storeProxy {| h_id := id; h_mixinTable := None |} (devices rt)) rt,
       true)
    end
  end.

Definition findPluginDevices (rt : ScryptedRuntime) (pluginId : string)
  : list PluginDevice :=
  filter (λ e, is_Some (pd_state e) ∧ pd_pluginId e = pluginId) (pluginDevices rt).

(** [this.getDevice(pluginDevice._id)?.probe()]. *)
Definition probeDevice (rt : ScryptedRuntime) (pluginDevice : PluginDevice)
  : ScryptedRuntime :=
  let '(rt, found) := getDevice rt (pd_id pluginDevice) in
  if found then emit [EvProbe (pd_id pluginDevice)] rt else rt.

(** [runPlugin]. [new PluginHost(...)] is a new object: the next free address
    of the heap; [setupPluginHostAutoRestart] registers its exit listener. *)
Definition runPlugin (rt : ScryptedRuntime) (plugin : Plugin) : ScryptedRuntime * nat :=
  let pluginId := plugin_id plugin in
  let rt := killPlugin rt pluginId in
  let pluginDevices := findPluginDevices rt pluginId in
  let rt := foldl (λ rt pluginDevice, invalidatePluginDevice rt (pd_id pluginDevice))
              rt pluginDevices in
  let pluginHost := length (hosts rt) in
  let rt :=
    emit [EvHostStart pluginHost pluginId]
      (set_hosts (hosts rt ++ [{| host_pluginId := pluginId; host_killed := false;
                                  host_exitListener := true;
                                  host_unreachable := false |}]) rt) in
  let rt := set_plugins (<[pluginId := pluginHost]> (plugins rt)) rt in
  let rt := foldl probeDevice rt pluginDevices in
  (rt, pluginHost).

(** ** Automatic restart *)

(** The listener that [setupPluginHostAutoRestart] registers, run when the
    worker of [pluginHost] exits; [None] when no such listener is registered. *)
Definition workerExit (rt : ScryptedRuntime) (pluginHost : nat)
  : option ScryptedRuntime :=
  host ← hosts rt !! pluginHost;
  if host_exitListener host then
    let rt :=
      set_hosts
        (alter (λ host, {| host_pluginId := host_pluginId host;
                           host_killed := host_killed host;
                           host_exitListener := false;
                           host_unreachable := host_unreachable host |})
           pluginHost (hosts rt)) rt in
    if host_killed host then Some rt
    else
      let rt := host_kill pluginHost rt in
      let timeout := 60000%N in
      Some (set_timers
              (timers rt ++ [{| timer_due := (now rt + timeout)%N; timer_host := pluginHost |}])
              (emit [EvConsoleError "plugin unexpectedly exited, restarting in 60000ms";
                     EvSetTimeout pluginHost timeout] rt))
  else None.

(** The timer callback up to [await this.datastore.tryGet(...)]. *)
Definition restartTimerFired (rt : ScryptedRuntime) (pluginHost : nat)
  : ScryptedRuntime :=
  match hosts rt !! pluginHost with
  | None => rt
  | Some host =>
    let existing := plugins rt !! host_pluginId host in
    if decide (existing ≠ Some pluginHost) then
      emit [EvConsoleLog "scheduled plugin restart cancelled, plugin was restarted by user"] rt
    else set_lookups (lookups rt ++ [pluginHost]) rt
  end.

(** The timer callback from the result of [tryGet] on. *)
Definition restartLookupDone (rt : ScryptedRuntime) (pluginHost : nat)
  : ScryptedRuntime :=
  match hosts rt !! pluginHost with
  | None => rt
  | Some host =>
    match datastore_tryGet rt (host_pluginId host) with
    | None =>
      emit [EvConsoleLog "scheduled plugin restart cancelled, plugin no longer exists"] rt
    | Some plugin => (runPlugin rt plugin).1
    end
  end.

(** What can happen to the supervisor between two turns of the event loop. *)
Inductive Action :=
| ActWorkerExit (pluginHost : nat)
| ActTimer (pluginHost : nat)
| ActLookup (pluginHost : nat)
| ActRunPlugin (plugin : Plugin)
| ActKillPlugin (pluginId : string)
| ActRemovePluginRecord (pluginId : string)
| ActElapse (ms : N).

(** Remove the first occurrence of [x]; [None] when there is none. *)
Fixpoint take_out {A} `{EqDecision A} (x : A) (l : list A) : option (list A) :=
  match l with
  | [] => None
  | y :: l' => if decide (y = x) then Some l' else (y ::.) <$> take_out x l'
  end.

Global Instance Timer_eq_dec : EqDecision Timer.
Proof. solve_decision. Defined.

(** One turn: [None] when the action cannot happen in [rt] (no such
    listener, no such timer, a timer that is not due yet, no such lookup). *)
Definition step (rt : ScryptedRuntime) (a : Action) : option ScryptedRuntime :=
  match a with
  | ActWorkerExit pluginHost => workerExit rt pluginHost
  | ActTimer pluginHost =>
    match list_find (λ t, timer_host t = pluginHost ∧ (timer_due t ≤ now rt)%N) (timers rt) with
    | None => None
    | Some (_, t) =>
      rest ← take_out t (timers rt);
      Some (restartTimerFired (set_timers rest rt) pluginHost)
    end
  | ActLookup pluginHost =>
    rest ← take_out pluginHost (lookups rt);
    Some (restartLookupDone (set_lookups rest rt) pluginHost)
  | ActRunPlugin plugin => Some (runPlugin rt plugin).1
  | ActKillPlugin pluginId => Some (killPlugin rt pluginId)
  | ActRemovePluginRecord pluginId => Some (datastore_removeId pluginId rt)
  | ActElapse ms => Some (set_now (now rt + ms)%N rt)
  end.

Fixpoint run (rt : ScryptedRuntime) (acts : list Action) : option ScryptedRuntime :=
  match acts with
  | [] => Some rt
  | a :: acts' => rt' ← step rt a; run rt' acts'
  end.

(** ** [removeDevice] *)

(** [device.state = undefined], seen through the table. *)
Definition clearState (id : string) (table : list PluginDevice) : list PluginDevice :=
  (λ x, if decide (pd_id x = id)
        then {| pd_id := pd_id x; pd_pluginId := pd_pluginId x;
                pd_nativeId := pd_nativeId x; pd_stateVersion := pd_stateVersion x;
                pd_state := None |}
        else x) <$> table.

(** How the [try] block at the end of [removeDevice] goes: reading
    [plugin.remote] throws when the plugin has no host, and the call is
    rejected when its host is dead or unreachable. *)
Inductive NotifyOutcome := NoPluginHost | Rejected | Delivered.

Definition notifyOutcome (rt : ScryptedRuntime) (device : PluginDevice)
  : NotifyOutcome :=
  match plugins rt !! pd_pluginId device with
  | None => NoPluginHost
  | Some plugin =>
    match hosts rt !! plugin with
    | None => NoPluginHost
    | Some host =>
      if host_killed host || host_unreachable host then Rejected else Delivered
    end
  end.

Definition notifyRemoved (rt : ScryptedRuntime) (device : PluginDevice)
  : ScryptedRuntime :=
  let warning :=
    EvConsoleWarn "error while reporting device removal to plugin remote" in
  match notifyOutcome rt device with
  | NoPluginHost => emit [warning] rt
  | Rejected =>
    emit [EvSetNativeId (pd_pluginId device) (pd_nativeId device); warning] rt
  | Delivered => emit [EvSetNativeId (pd_pluginId device) (pd_nativeId device)] rt
  end.

(** [removeDevice] after the loop over the provided devices. *)
Definition removeRecord (rt : ScryptedRuntime) (device : PluginDevice)
  : option ScryptedRuntime :=
  let rt := set_pluginDevices (clearState (pd_id device) (pluginDevices rt)) rt in
  let rt := invalidatePluginDevice rt (pd_id device) in
  let rt := set_pluginDevices (deleteDevice (pd_id device) (pluginDevices rt)) rt in
  let rt := datastore_remove (pd_id device) rt in
  let rt := emit [EvStateManagerRemoveDevice (pd_id device)] rt in
  '(rt, _) ← invalidateMixins rt [pd_id device];
  Some (if truthy_nativeId (pd_nativeId device) then notifyRemoved rt device
        else
          let rt := killPlugin rt (pd_pluginId device) in
          let rt := datastore_removeId (pd_pluginId device) rt in
          emit [EvRimraf (pd_pluginId device)] rt).

(** The loop over [providedDevices]; [provided === device] compares objects
    of the table, which are the same object when they have the same key. *)
Fixpoint removeProvided (removeDevice : ScryptedRuntime → PluginDevice → option ScryptedRuntime)
    (device : PluginDevice) (providedDevices : list PluginDevice)
    (rt : ScryptedRuntime) : option ScryptedRuntime :=
  match providedDevices with
  | [] => Some rt
  | provided :: rest =>
    if decide (pd_id provided = pd_id device)
    then removeProvided removeDevice device rest rt
    else rt' ← removeDevice rt provided; removeProvided removeDevice device rest rt'
  end.

Definition providedDevices (rt : ScryptedRuntime) (device : PluginDevice)
  : list PluginDevice :=
  filter (λ pluginDevice,
            getState pluginDevice Property_providerId = JString (pd_id device))
    (pluginDevices rt).

(** [removeDevice]; [fuel] bounds the depth of the recursion, [None] when it
    is exceeded. *)
Fixpoint removeDevice (fuel : nat) (rt : ScryptedRuntime) (device : PluginDevice)
  : option ScryptedRuntime :=
  match fuel with
  | 0 => None
  | S fuel' =>
    rt' ← removeProvided (removeDevice fuel') device (providedDevices rt device) rt;
    removeRecord rt' device
  end.

(** ** The mixin cycle check *)

(** Modelled from the spec: mixin/mixin-cycle.ts is not under src/. §4.3,
    cycle guard: "the chain-of-ownership graph (device → its mixin provider
    ids, transitively) is checked for cycles"; §9: "run explicit cycle
    detection (DFS with a visiting-set)". [getMixins] is the edge list of a
    device: its [mixins] property, nothing for an id without device. *)
Definition getMixins (rt : ScryptedRuntime) (id : string) : list string :=
  match findPluginDeviceById rt id with
  | None => []
  | Some pluginDevice => strings (as_array (getState pluginDevice Property_mixins))
  end.

(** The depth-first search: [stack] holds the ids still to visit, [visited]
    the visiting set. *)
Fixpoint visitMixins (fuel : nat) (rt : ScryptedRuntime) (stack visited : list string)
  : list string :=
  match fuel with
  | 0 => visited
  | S fuel' =>
    match stack with
    | [] => visited
    | mixin :: rest =>
      if decide (mixin ∈ visited) then visitMixins fuel' rt rest visited
      else visitMixins fuel' rt (getMixins rt mixin ++ rest) (mixin :: visited)
    end
  end.

(** The number of devices and of mixin edges that are not behind an id of
    [visited]: what the search can still push and pop. *)
Definition mixinWeight (T : list PluginDevice) (visited : list string) : nat :=
  sum_list ((λ pd, if decide (pd_id pd ∈ visited) then 0
                   else S (length (strings (as_array (getState pd Property_mixins)))))
              <$> T).

(** [id] is reached from its own mixins. The fuel is enough for the search
    to end with an empty stack ([visitMixins_closed]). *)
Definition hasMixinCycle (rt : ScryptedRuntime) (id : string) : bool :=
  bool_decide
    (id ∈ visitMixins
            (S (length (getMixins rt id) + mixinWeight (pluginDevices rt) []))
            rt (getMixins rt id) []).

(** ** [start] *)

Definition truthy (v : JsValue) : bool :=
  match v with
  | JUndefined | JNull => false
  | JString s => truthy_string s
  | _ => true
  end.

Definition truthy_element (e : option string) : bool :=
  match e with
  | Some s => truthy_string s
  | None => false
  end.

(** The four repairs of the loop over the persisted devices; each returns
    the device and whether it became dirty. *)

(** [null] entries in [mixins]. *)
Definition repairMixins (pluginDevice : PluginDevice) : PluginDevice * bool :=
  let mixins := as_array (getState pluginDevice Property_mixins) in
  if bool_decide (None ∈ mixins)
  then ((setState pluginDevice Property_mixins
           (JArray (filter (λ e, truthy_element e) mixins))).1, true)
  else (pluginDevice, false).

(** The missing [ScryptedPlugin] marker; [None] when it throws ([includes]
    or [push] on a [providedInterfaces] that is not an array). *)
Definition repairMarker (pluginDevice : PluginDevice) : option (PluginDevice * bool) :=
  if truthy_nativeId (pd_nativeId pluginDevice) then Some (pluginDevice, false)
  else
    match getState pluginDevice Property_providedInterfaces with
    | JArray interfaces =>
      if bool_decide (Some ScryptedPlugin ∈ interfaces)
      then Some (pluginDevice, false)
      else
        Some ((setState pluginDevice Property_providedInterfaces
                 (js_of_strings
                    (sortInterfaces (strings (interfaces ++ [Some ScryptedPlugin]))))).1,
              true)
    | _ => None
    end.

(** The missing [pluginId] property. *)
Definition repairPluginId (pluginDevice : PluginDevice) : PluginDevice * bool :=
  if truthy (getState pluginDevice Property_pluginId) then (pluginDevice, false)
  else ((setState pluginDevice Property_pluginId
           (JString (pd_pluginId pluginDevice))).1, true).

(** The [nativeId] property that differs from the field. *)
Definition repairNativeId (pluginDevice : PluginDevice) : PluginDevice * bool :=
  if decide (getState pluginDevice Property_nativeId
             ≠ js_of_nativeId (pd_nativeId pluginDevice))
  then ((setState pluginDevice Property_nativeId
           (js_of_nativeId (pd_nativeId pluginDevice))).1, true)
  else (pluginDevice, false).

(** The body of the loop over the persisted devices; [None] when it throws.
    [pluginDevice] is the object entered in the table: the model enters it
    after the repairs. *)
Definition loadDevice (rt : ScryptedRuntime) (pluginDevice : PluginDevice)
  : option ScryptedRuntime :=
  match pd_state pluginDevice with
  | None => Some (datastore_remove (pd_id pluginDevice) rt)
  | Some _ =>
    let '(pluginDevice, dirty1) := repairMixins pluginDevice in
    '(pluginDevice, dirty2) ← repairMarker pluginDevice;
    let '(pluginDevice, dirty3) := repairPluginId pluginDevice in
    let '(pluginDevice, dirty4) := repairNativeId pluginDevice in
    let rt := set_pluginDevices (storeDevice pluginDevice (pluginDevices rt)) rt in
    Some (if dirty1 || dirty2 || dirty3 || dirty4
          then datastore_upsert pluginDevice rt else rt)
  end.

Fixpoint loadDevices (l : list PluginDevice) (rt : ScryptedRuntime)
  : option ScryptedRuntime :=
  match l with
  | [] => Some rt
  | pluginDevice :: l' => rt' ← loadDevice rt pluginDevice; loadDevices l' rt'
  end.

(** The body of the loop over the ids of [getSystemState()]. *)
Definition clearMixinCycle (rt : ScryptedRuntime) (id : string) : ScryptedRuntime :=
  if hasMixinCycle rt id then
    let rt :=
      emit [EvConsoleWarn ("initialize: " +:+ id +:+ " has a mixin cycle. Clearing mixins.")]
        rt in
    match findPluginDeviceById rt id with
    | None => rt
    | Some pluginDevice =>
      set_pluginDevices
        (storeDevice (setState pluginDevice Property_mixins (JArray [])).1
           (pluginDevices rt)) rt
    end
  else rt.

(** Modelled from the spec: [getSystemState] is not under src/. §4.2: "a
    snapshot mapping every device id to its full property-state map"; its
    keys are the ids of the device table, which [Object.keys] enumerates
    as the table is enumerated: array indices in ascending order first. *)
Definition cycleGuard (rt : ScryptedRuntime) : ScryptedRuntime :=
  foldl clearMixinCycle rt (pd_id <$> pluginDevices rt).

(** The body of the loop over the persisted plugins, with its [catch]:
    [setState] on the [undefined] that [findPluginDevice] returns for a
    plugin without root device throws. *)
Definition launchPlugin (rt : ScryptedRuntime) (plugin : Plugin) : ScryptedRuntime :=
  match findPluginDevice rt (plugin_id plugin) NidUndefined with
  | None => emit [EvConsoleError "error starting plugin"] rt
  | Some pluginDevice =>
    let pluginDevice :=
      (setState pluginDevice Property_info
         (JInfo (Some (packageJson_name plugin)) (Some (packageJson_version plugin)))).1 in
    let rt := set_pluginDevices (storeDevice pluginDevice (pluginDevices rt)) rt in
    (runPlugin rt plugin).1
  end.

(** [start], from the loop over the persisted devices on. *)
Definition start (rt : ScryptedRuntime) : option ScryptedRuntime :=
  rt ← loadDevices (ds_devices (datastore rt)) rt;
  let rt := cycleGuard rt in
  Some (foldl launchPlugin rt (ds_plugins (datastore rt))).

(** ** Unhandled rejections *)

(** [error?.constructor] as the handler compares it: the two classes it
    names, any other constructor, and [None] for a rejection with [null] or
    [undefined]. *)
Inductive ErrorConstructor :=
| RPCResultError
| PluginError
| OtherConstructor (name : string).

Global Instance ErrorConstructor_eq_dec : EqDecision ErrorConstructor.
Proof. solve_decision. Defined.

Inductive RejectionOutcome :=
| HostContinues
| Rethrown.

(** The listener of [process.on('unhandledRejection', ...)]. *)
Definition unhandledRejection (constructor : option ErrorConstructor)
  : list Event * RejectionOutcome :=
  if bool_decide (constructor ≠ Some RPCResultError)
     && bool_decide (constructor ≠ Some PluginError)
  then ([EvConsoleError "pending crash"], Rethrown)
  else ([EvConsoleWarn "unhandled rejection of RPC Result"], HostContinues).

(** ** Vocabulary of the statements about [invalidateMixins] *)

(** The chain of [device] has an entry whose [mixinProviderId] is [p]. *)
Definition chainMentions (device : PluginDeviceProxyHandler) (p : string) : Prop :=
  ∃ table e, h_mixinTable device = Some table ∧ e ∈ table
             ∧ mixinProviderId e = Some p.

(** [R] holds the id of every device whose chain mentions an id of [S] or [R]. *)
Definition closedUnder (ds : list PluginDeviceProxyHandler) (S : list string)
    (R : string → Prop) : Prop :=
  ∀ device p, device ∈ ds → chainMentions device p → p ∈ S ∨ R p → R (h_id device).

(** [h] is [h0] after some entries were spliced off the head of its chain. *)
Definition shrunk (h0 h : PluginDeviceProxyHandler) : Prop :=
  h_id h = h_id h0 ∧
  (h = h0 ∨ ∃ t k, h_mixinTable h0 = Some t ∧ h_mixinTable h = Some (drop k t)).

(** The events of the first pass: console output and releases for devices of [ret]. *)
Definition firstPassEvent (ret : list string) (e : Event) : Prop :=
  match e with
  | EvConsoleLog _ | EvConsoleWarn _ => True
  | EvInvalidateEntry did _ => did ∈ ret
  | _ => False
  end.

(** [h] is [h0] shrunk, and is [h0] itself unless its device is in [ret]. *)
Definition touched (ret : list string) (h0 h : PluginDeviceProxyHandler) : Prop :=
  shrunk h0 h ∧ (h = h0 ∨ h_id h0 ∈ ret).

(** The ids that are not in [ret] yet: what bounds the pushes still to come. *)
Definition unvisited (all ret : list string) : nat :=
  length (filter (λ x, x ∉ ret) all).

(** What the first pass maintains, for the devices [ds0] and the ids [S] it
    started from. *)
Definition passInv (ds0 : list PluginDeviceProxyHandler) (S : list string)
    (ds : list PluginDeviceProxyHandler) (st : Pass) : Prop :=
  Forall2 (touched (p_ret st)) ds0 ds
  ∧ (∀ R, closedUnder ds0 S R → ∀ x, x ∈ p_ret st → R x)
  ∧ (∀ x, x ∈ p_remaining st → x ∈ S ∨ x ∈ p_ret st)
  ∧ (∀ p, p ∈ S ∨ p ∈ p_ret st →
       p ∈ p_remaining st
       ∨ ∀ h0, h0 ∈ ds0 → chainMentions h0 p → h_id h0 ∈ p_ret st)
  ∧ Forall (firstPassEvent (p_ret st)) (p_trace st)
  ∧ NoDup (p_ret st).


(** What the first pass has made of the chain of [h0], seen in [h], for the
    ids [R] it has met and the ids [P] among them that it has dealt with;
    [evs] are its events. The first [k] entries of the chain are spliced
    out, never the last one; the splice ends at an entry that matched an id
    of [R]; every spliced entry is released; and for every id of [P] the
    first entry that matches it is spliced out with the entries before it,
    unless it is the last entry of the chain: then the warning is logged. *)
Definition splicedThrough (R P : string → Prop) (evs : list Event)
    (h0 h : PluginDeviceProxyHandler) : Prop :=
  h_id h = h_id h0
  ∧ match h_mixinTable h0 with
    | None => h_mixinTable h = None
    | Some table =>
      ∃ k, h_mixinTable h = Some (drop k table)
        ∧ (k = 0 ∨ k < length table)
        ∧ (k = 0 ∨ ∃ e p, table !! (k - 1) = Some e ∧ mixinProviderId e = Some p ∧ R p)
        ∧ (∀ e, e ∈ take k table → EvInvalidateEntry (h_id h0) e ∈ evs)
        ∧ ∀ p i e,
            P p → table !! i = Some e → mixinProviderId e = Some p →
            (∀ j e', table !! j = Some e' → mixinProviderId e' = Some p → i ≤ j) →
            (i ≠ length table - 1 → i < k)
            ∧ (i = length table - 1 →
               EvConsoleWarn "attempt to invalidate mixin on actual device?" ∈ evs)
    end.

(** Every release among [evs] is of an entry that is spliced out of the
    chain of a device: [ds0] are the devices before and [ds] after. *)
Definition releasesSpliced (ds0 ds : list PluginDeviceProxyHandler)
    (evs : list Event) : Prop :=
  ∀ did e, EvInvalidateEntry did e ∈ evs →
    ∃ i h0 h table rest,
      ds0 !! i = Some h0 ∧ ds !! i = Some h ∧ h_id h0 = did
      ∧ h_mixinTable h0 = Some table ∧ h_mixinTable h = Some rest
      ∧ e ∈ take (length table - length rest) table.

(** What the first pass maintains about the chains, for the devices [ds0]
    and the ids [S] it started from: an id is dealt with when it is met and
    no longer waits in [remaining]. *)
Definition spliceInv (ds0 : list PluginDeviceProxyHandler) (S : list string)
    (ds : list PluginDeviceProxyHandler) (st : Pass) : Prop :=
  Forall2 (splicedThrough (λ p, p ∈ S ∨ p ∈ p_ret st)
             (λ p, (p ∈ S ∨ p ∈ p_ret st) ∧ p ∉ p_remaining st) (p_trace st)) ds0 ds
  ∧ releasesSpliced ds0 ds (p_trace st)
  ∧ (∀ x, x ∈ p_remaining st → x ∈ S ∨ x ∈ p_ret st).


(** ** Vocabulary of the statements about [upsertDevice] *)

(** The record that [upsertDevice] works on: the one found, else a new one. *)
Definition upsertBase (rt : ScryptedRuntime) (pluginId : string)
    (nativeId : ScryptedNativeId) : PluginDevice :=
  match findPluginDevice rt pluginId nativeId with
  | Some pluginDevice => pluginDevice
  | None =>
    {| pd_id := pretty (ds_nextId (datastore rt)); pd_pluginId := pluginId;
       pd_nativeId := nativeId; pd_stateVersion := PLUGIN_DEVICE_STATE_VERSION;
       pd_state := None |}
  end.

(** [pd'] is [pd] up to properties other than the three that resolve the
    interfaces. *)
Definition agree (pd pd' : PluginDevice) : Prop :=
  pd_id pd' = pd_id pd ∧ pd_pluginId pd' = pd_pluginId pd
  ∧ pd_nativeId pd' = pd_nativeId pd ∧ is_Some (pd_state pd')
  ∧ getState pd' Property_interfaces = getState pd Property_interfaces
  ∧ getState pd' Property_providedInterfaces = getState pd Property_providedInterfaces
  ∧ getState pd' Property_mixins = getState pd Property_mixins.


(** ** Vocabulary of the statements about [removeDevice] *)

(** [c] is a device of [T] whose [providerId] is [p], another device. *)
Definition provides (T : list PluginDevice) (p c : string) : Prop :=
  ∃ pd, pd ∈ T ∧ pd_id pd = c
        ∧ getState pd Property_providerId = JString p ∧ c ≠ p.

(** The provider relation has no cycle other than self-loops. *)
Definition acyclicProviders (T : list PluginDevice) : Prop :=
  ∀ x, ¬ tc (provides T) x x.

(** Every device of [T] finds in [T] its provider, when that is another
    device of [T0]. *)
Definition providersKept (T0 T : list PluginDevice) : Prop :=
  ∀ pd y, pd ∈ T → getState pd Property_providerId = JString y → pd_id pd ≠ y →
          y ∈ pd_id <$> T0 → y ∈ pd_id <$> T.

(** [removeDevice] on [device] removes a root device of the plugin [q]: a
    device of [q] whose native id is undefined, null or empty, and which is
    [device] itself or a device that [device] provides, directly or through
    other devices. *)
Definition removesRootOf (T : list PluginDevice) (device : PluginDevice) (q : string)
  : Prop :=
  ∃ x, x ∈ T ∧ rtc (provides T) (pd_id device) (pd_id x)
       ∧ truthy_nativeId (pd_nativeId x) = false ∧ pd_pluginId x = q.

(** What [removeDevice] on [device] maintains from the runtime [rt0], whose
    table is [T0], to the runtime [rt] it has reached: for every root device
    that has left the table, the plugin is gone and the events of its
    removal are there; such events are there for no other plugin; and the
    registration and the record of every other plugin are as in [rt0]. *)
Definition rootsFollowed (T0 : list PluginDevice) (device : PluginDevice)
    (rt0 rt : ScryptedRuntime) : Prop :=
  (∀ y, y ∈ pluginDevices rt → y ∈ T0)
  ∧ ∃ evs, trace rt = trace rt0 ++ evs
    ∧ (∀ x, x ∈ T0 → pd_id x ∉ pd_id <$> pluginDevices rt →
         truthy_nativeId (pd_nativeId x) = false →
         EvDatastoreRemoveId (pd_pluginId x) ∈ evs ∧ EvRimraf (pd_pluginId x) ∈ evs
         ∧ plugins rt !! pd_pluginId x = None
         ∧ datastore_tryGet rt (pd_pluginId x) = None
         ∧ ∀ h, plugins rt0 !! pd_pluginId x = Some h → EvHostKill h ∈ evs)
    ∧ (∀ q, EvDatastoreRemoveId q ∈ evs ∨ EvRimraf q ∈ evs → removesRootOf T0 device q)
    ∧ (∀ h, EvHostKill h ∈ evs →
         ∃ q, removesRootOf T0 device q ∧ plugins rt0 !! q = Some h)
    ∧ (∀ q, (plugins rt !! q = plugins rt0 !! q
             ∧ datastore_tryGet rt q = datastore_tryGet rt0 q)
            ∨ (plugins rt !! q = None ∧ removesRootOf T0 device q
               ∧ ∀ h, plugins rt0 !! q = Some h → EvHostKill h ∈ evs)).

(** ** Vocabulary of the statements about [start] *)

(** [y] is a mixin of the device [x]. *)
Definition mixes (rt : ScryptedRuntime) (x y : string) : Prop := y ∈ getMixins rt x.

(** [x] is on a mixin cycle. *)
Definition inMixinCycle (rt : ScryptedRuntime) (x : string) : Prop := tc (mixes rt) x x.

(** The plugin-root devices of the table carry the [ScryptedPlugin] marker. *)
Definition rootMarked (T : list PluginDevice) : Prop :=
  ∀ pd, pd ∈ T → pd_nativeId pd = NidUndefined →
        ScryptedPlugin ∈ strings (as_array (getState pd Property_providedInterfaces)).

(** Every persisted device with a state and a falsy native id has an array
    as its [providedInterfaces], as every record that [upsertDevice] wrote. *)
Definition storeWellTyped (l : list PluginDevice) : Prop :=
  ∀ pd, pd ∈ l → is_Some (pd_state pd) → truthy_nativeId (pd_nativeId pd) = false →
        ∃ interfaces, getState pd Property_providedInterfaces = JArray interfaces.

(** A repair that sets another property than [providedInterfaces]. *)
Definition keepsProvided (pd pd' : PluginDevice) : Prop :=
  pd_id pd' = pd_id pd ∧ pd_nativeId pd' = pd_nativeId pd
  ∧ (is_Some (pd_state pd) → is_Some (pd_state pd'))
  ∧ getState pd' Property_providedInterfaces = getState pd Property_providedInterfaces.

(** ** Vocabulary of the statements about the automatic restart *)

(** The host [h] is registered for no plugin and no restart lookup for it
    is pending. *)
Definition retired (h : nat) (rt : ScryptedRuntime) : Prop :=
  (∀ q, plugins rt !! q ≠ Some h) ∧ (h ∉ lookups rt) ∧ h < length (hosts rt).


(** ** Concrete runtimes for the examples *)

Definition emptyRuntime : ScryptedRuntime :=
  {| datastore := {| ds_devices := []; ds_plugins := []; ds_nextId := 1 |};
     plugins := ∅; pluginDevices := []; devices := []; hosts := [];
     timers := []; lookups := []; now := 0%N; trace := [] |}.

(** An [InferDefaults] that infers nothing. *)
Definition noInferredDefaults : InferDefaults :=
  {| getDisplayType := λ _, JUndefined;
     getProvidedTypeOrDefault := λ _, JUndefined;
     getDisplayName := λ _, JUndefined;
     getProvidedNameOrDefault := λ _, JUndefined;
     getDisplayRoom := λ _, JUndefined;
     getProvidedRoomOrDefault := λ _, JUndefined |}.

(** A device declaration with a native id and interfaces, nothing else. *)
Definition declare (nativeId : ScryptedNativeId) (interfaces : list string) : Device :=
  {| dev_name := None; dev_nativeId := nativeId; dev_type := None;
     dev_interfaces := interfaces; dev_info := None;
     dev_providerNativeId := NidUndefined; dev_room := None |}.

(** A persisted device with the given mixins and provided interfaces. *)
Definition deviceRecord (id : string) (nativeId : ScryptedNativeId)
    (mixins providedInterfaces : list string) (providerId : JsValue) : PluginDevice :=
  {| pd_id := id; pd_pluginId := "p"; pd_nativeId := nativeId;
     pd_stateVersion := PLUGIN_DEVICE_STATE_VERSION;
     pd_state := Some (<[Property_mixins := js_of_strings mixins]>
                       (<[Property_providedInterfaces := js_of_strings providedInterfaces]>
                        (<[Property_interfaces := js_of_strings providedInterfaces]>
                         (<[Property_pluginId := JString "p"]>
                          (<[Property_providerId := providerId]>
                           (<[Property_nativeId := js_of_nativeId nativeId]> ∅)))))) |}.

(** Plugin [p] with its root device [1], the device [2] that [1] provides and
    the device [3] that [2] provides; its host is alive. *)
Definition familyDevices : list PluginDevice :=
  [deviceRecord "1" NidUndefined [] ["ScryptedPlugin"] (JString "1");
   deviceRecord "2" (NidString "c1") [] ["OnOff"] (JString "1");
   deviceRecord "3" (NidString "c2") [] ["Battery"] (JString "2")].

Definition familyRuntime : ScryptedRuntime :=
  {| datastore := {| ds_devices := familyDevices;
                     ds_plugins := [{| plugin_id := "p"; packageJson_name := "p";
                                       packageJson_version := "1.0.0" |}];
                     ds_nextId := 4 |};
     plugins := {["p" := 0]};
     pluginDevices := familyDevices;
     devices := [];
     hosts := [{| host_pluginId := "p"; host_killed := false;
                  host_exitListener := true; host_unreachable := false |}];
     timers := []; lookups := []; now := 0%N; trace := [] |}.

(** The same plugin with a device whose native id is the empty string. *)
Definition emptyNativeIdDevice : PluginDevice :=
  deviceRecord "2" (NidString "") [] ["OnOff"] (JString "1").

Definition emptyNativeIdRuntime : ScryptedRuntime :=
  set_pluginDevices
    [deviceRecord "1" NidUndefined [] ["ScryptedPlugin"] (JString "1");
     emptyNativeIdDevice] familyRuntime.

(** Two devices, each the provider of the other. *)
Definition loopDevices : list PluginDevice :=
  [deviceRecord "1" (NidString "a") [] [] (JString "2");
   deviceRecord "2" (NidString "b") [] [] (JString "1")].

Definition loopRuntime : ScryptedRuntime := set_pluginDevices loopDevices familyRuntime.


(** A store that iterates the device [10] before the device [9]; each is a
    mixin of the other. *)
Definition numberedStore : ScryptedRuntime :=
  set_datastore
    {| ds_devices := [deviceRecord "10" (NidString "a") ["9"] ["OnOff"] JUndefined;
                      deviceRecord "9" (NidString "b") ["10"] ["OnOff"] JUndefined];
       ds_plugins := []; ds_nextId := 11 |} emptyRuntime.

(** A store with the root device of plugin [p], persisted without its
    marker, and a device that it provides. *)
Definition unmarkedStore : ScryptedRuntime :=
  set_datastore
    {| ds_devices := [deviceRecord "1" NidUndefined [] ["OnOff"] (JString "1");
                      deviceRecord "2" (NidString "c1") [] ["Battery"] (JString "1")];
       ds_plugins := [{| plugin_id := "p"; packageJson_name := "p";
                         packageJson_version := "1.0.0" |}];
       ds_nextId := 3 |} emptyRuntime.

(** Proxies with live chains: [A] is wrapped by the mixins [B] and [C], [B]
    by [C], [D] by [A], and [E] by nothing. The last entry of a chain is the
    device itself. *)
Definition chainRuntime : ScryptedRuntime :=
  set_devices
    [{| h_id := "A";
        h_mixinTable := Some [{| mixinProviderId := Some "B"; entry := 1 |};
                              {| mixinProviderId := Some "C"; entry := 2 |};
                              {| mixinProviderId := None; entry := 3 |}] |};
     {| h_id := "B";
        h_mixinTable := Some [{| mixinProviderId := Some "C"; entry := 4 |};
                              {| mixinProviderId := None; entry := 5 |}] |};
     {| h_id := "D";
        h_mixinTable := Some [{| mixinProviderId := Some "A"; entry := 6 |};
                              {| mixinProviderId := None; entry := 7 |}] |};
     {| h_id := "E";
        h_mixinTable := Some [{| mixinProviderId := None; entry := 8 |}] |}]
    emptyRuntime.

(** Device [c1] of plugin [p], persisted with the mixin [m] and the
    interface [Zed]. *)
Definition mixedRuntime : ScryptedRuntime :=
  set_pluginDevices
    [deviceRecord "7" (NidString "c1") ["m"] ["Zed"] JUndefined] emptyRuntime.

(** ** Vocabulary of the statements about the tables and the hosts *)

(** The properties that [upsertDevice] may write. *)
Definition upsertWrites : list string :=
  [Property_nativeId; Property_pluginId; Property_providedInterfaces;
   Property_interfaces; Property_info; Property_providerId; Property_providedName;
   Property_providedType; Property_type; Property_name; Property_providedRoom;
   Property_room].

(** The [nativeId] property of a record mirrors its [nativeId] field. *)
Definition mirrorsNativeId (pd : PluginDevice) : Prop :=
  getState pd Property_nativeId = js_of_nativeId (pd_nativeId pd).

(** Every host that was not killed is the one registered for its plugin. *)
Definition liveHostsRegistered (rt : ScryptedRuntime) : Prop :=
  ∀ h host, hosts rt !! h = Some host → host_killed host = false →
            plugins rt !! host_pluginId host = Some h.

(** Every registered host exists and belongs to the plugin it is registered
    for. *)
Definition registeredHostsOwned (rt : ScryptedRuntime) : Prop :=
  ∀ p h, plugins rt !! p = Some h →
         ∃ host, hosts rt !! h = Some host ∧ host_pluginId host = p.

(** [x] is [device] or one of the devices it provides, directly or through
    other devices. *)
Definition providedBy (T : list PluginDevice) (device x : string) : Prop :=
  rtc (provides T) device x.

(** The table of hosts and the registrations agree. *)
Definition hostsConsistent (rt : ScryptedRuntime) : Prop :=
  liveHostsRegistered rt ∧ registeredHostsOwned rt.

(** ** Vocabulary of the further statements about [invalidateMixins] *)

(** [h] is [h0] after [k] entries were spliced off the head of its chain,
    fewer than the chain has. *)
Definition splicedBy (k : nat) (h0 h : PluginDeviceProxyHandler) : Prop :=
  h_id h = h_id h0
  ∧ match h_mixinTable h0 with
    | None => h_mixinTable h = None ∧ k = 0
    | Some t => h_mixinTable h = Some (drop k t) ∧ (k = 0 ∨ k < length t)
    end.

Definition keepsTerminal (h0 h : PluginDeviceProxyHandler) : Prop :=
  ∃ k, splicedBy k h0 h.

(** ** Vocabulary of the further statements about [start] *)

(** The four repairs that [start] makes on a persisted device, in their
    order, and whether one of them made the device dirty; [None] when the
    marker repair throws. *)
Definition repairDevice (pluginDevice : PluginDevice) : option (PluginDevice * bool) :=
  let '(pluginDevice, dirty1) := repairMixins pluginDevice in
  '(pluginDevice, dirty2) ← repairMarker pluginDevice;
  let '(pluginDevice, dirty3) := repairPluginId pluginDevice in
  let '(pluginDevice, dirty4) := repairNativeId pluginDevice in
  Some (pluginDevice, dirty1 || dirty2 || dirty3 || dirty4).

(** A record that none of the four repairs changes. *)
Definition stateClean (pd : PluginDevice) : Prop :=
  (None ∉ as_array (getState pd Property_mixins))
  ∧ (truthy_nativeId (pd_nativeId pd) = false →
     ∃ interfaces, getState pd Property_providedInterfaces = JArray interfaces
                   ∧ Some ScryptedPlugin ∈ interfaces)
  ∧ truthy (getState pd Property_pluginId) = true
  ∧ mirrorsNativeId pd.

(** What [start] and [upsertDevice] keep of every record of the table. *)
Definition tableSound (T : list PluginDevice) : Prop :=
  ∀ pd, pd ∈ T →
    is_Some (pd_state pd) ∧ mirrorsNativeId pd
    ∧ (None ∉ as_array (getState pd Property_mixins)).

(** The persisted device records. *)
Definition devices_of_store (rt : ScryptedRuntime) : list PluginDevice :=
  ds_devices (datastore rt).

(** Plugin [q] has a registered host that was not killed. *)
Definition pluginRunning (rt : ScryptedRuntime) (q : string) : Prop :=
  ∃ h host, plugins rt !! q = Some h ∧ hosts rt !! h = Some host
            ∧ host_killed host = false ∧ host_pluginId host = q.

(** Plugin [q] has a root device in the table. *)
Definition hasRootDevice (rt : ScryptedRuntime) (q : string) : Prop :=
  is_Some (findPluginDevice rt q NidUndefined).

(** * The HTTP side: access control, authentication and login

    The handlers of the server entry point and the HTTP methods of
    [ScryptedRuntime]. A request is the record of the fields that a handler
    reads, a response what it sets and sends; the libraries that a handler
    calls ([crypto], [URL], [UserToken], [http-auth]) are parameters of its
    section. Header values and tokens are strings of one-byte characters.
    The [ScryptedUser] documents of the database are a map from their [_id];
    [db.tryGet] is its lookup, [db.upsert] its insertion, [db.getCount] its
    size and [db.removeAll] empties it. What a handler writes to the console
    is an event that carries the first argument of the call. *)

(** ** Strings as the handlers use them *)

(** The characters [','], ['#'] and ['.']. *)
Definition comma : Ascii.ascii := Ascii.Ascii false false true true false true false false.
Definition hash : Ascii.ascii := Ascii.Ascii true true false false false true false false.
Definition dot : Ascii.ascii := Ascii.Ascii false true true true false true false false.

(** [s.split(sep)] for a separator of one character. *)
Fixpoint split (sep : Ascii.ascii) (s : string) : list string :=
  match s with
  | EmptyString => [EmptyString]
  | String c s' =>
    if Ascii.eqb c sep then EmptyString :: split sep s'
    else
      match split sep s' with
      | part :: parts => String c part :: parts
      | [] => [String c EmptyString]
      end
  end.

(** [parts.join(sep)]. *)
Fixpoint join (sep : string) (parts : list string) : string :=
  match parts with
  | [] => EmptyString
  | [part] => part
  | part :: parts' => part +:+ sep +:+ join sep parts'
  end.

(** [s.startsWith(p)]. *)
Definition startsWith (s p : string) : bool := String.prefix p s.

(** [s.substring(n)]. *)
Fixpoint substring_from (n : nat) (s : string) : string :=
  match n, s with
  | 0, _ => s
  | S n', String _ s' => substring_from n' s'
  | S _, EmptyString => EmptyString
  end.

(** [s.includes(t)], also [s.indexOf(t) !== -1]. *)
Fixpoint includes (s t : string) : bool :=
  String.prefix t s
  || match s with
     | EmptyString => false
     | String _ s' => includes s' t
     end.

(** The character [c] occurs in [s]. *)
Fixpoint occurs (c : Ascii.ascii) (s : string) : bool :=
  match s with
  | EmptyString => false
  | String c' s' => Ascii.eqb c' c || occurs c s'
  end.

(** [a + b] where [b] may be [undefined]. *)
Definition concat_js (a : string) (b : option string) : string :=
  a +:+ default "undefined" b.

(** JS truthiness of a value that is a string or [undefined]. *)
Definition truthy_opt (v : option string) : bool :=
  match v with
  | Some s => truthy_string s
  | None => false
  end.

(** ** Access control headers *)

(** The request headers that [getAccessControlAllowOrigin] reads. *)
Record IncomingHttpHeaders := {
  hdr_origin : option string;
  hdr_referer : option string;
}.

Section cors.
(** [new URL(s).origin]; [None] when the constructor throws. *)
Variable urlOrigin : string → option string.

(** [env] is [process.env.SCRYPTED_ACCESS_CONTROL_ALLOW_ORIGINS] and [cors]
    the [server] fields of [this.cors]. *)
Definition getAccessControlAllowOrigin (env : option string) (cors : list string)
    (headers : IncomingHttpHeaders) : option string :=
  let origin :=
    if negb (truthy_opt (hdr_origin headers)) && truthy_opt (hdr_referer headers)
    then
      match hdr_referer headers ≫= urlOrigin with
      | Some o => Some (Some o)
      | None => None
      end
    else Some (hdr_origin headers) in
  match origin with
  | None => None
  | Some origin =>
    if negb (truthy_opt origin) then None
    else
      let servers := default [] (split comma <$> env) ++ cors in
      match origin with
      | Some o => if bool_decide (o ∈ servers) then Some o else None
      | None => None
      end
  end.

(** The headers that [addAccessControlHeaders] sets on the response. *)
Definition addAccessControlHeaders (env : option string) (cors : list string)
    (headers : IncomingHttpHeaders) : list (string * string) :=
  ("Vary", "Origin,Referer")
  :: match getAccessControlAllowOrigin env cors headers with
     | Some header =>
       if truthy_string header then [("Access-Control-Allow-Origin", header)] else []
     | None => []
     end.
End cors.

(** ** Digests, users and requests *)

(** One hexadecimal digit. *)
Definition hexDigit (n : N) : string :=
  match n with
  | 0 => "0" | 1 => "1" | 2 => "2" | 3 => "3" | 4 => "4" | 5 => "5" | 6 => "6"
  | 7 => "7" | 8 => "8" | 9 => "9" | 10 => "a" | 11 => "b" | 12 => "c" | 13 => "d"
  | 14 => "e" | _ => "f"
  end%N.

(** [buffer.toString('hex')]. *)
Fixpoint toHex (buffer : list Byte.byte) : string :=
  match buffer with
  | [] => ""
  | b :: buffer' =>
    hexDigit (Byte.to_N b / 16) +:+ hexDigit (Byte.to_N b mod 16) +:+ toHex buffer'
  end.

(** [c.toLowerCase()] for a character of one byte: the letters [A]-[Z] and
    the capital letters of Latin-1. *)
Definition toLowerCaseChar (c : Ascii.ascii) : Ascii.ascii :=
  let n := Ascii.N_of_ascii c in
  if ((65 <=? n) && (n <=? 90) || (192 <=? n) && (n <=? 222) && negb (n =? 215))%N
  then Ascii.ascii_of_N (n + 32)
  else c.

(** [s.toLowerCase()]. *)
Fixpoint toLowerCase (s : string) : string :=
  match s with
  | EmptyString => EmptyString
  | String c s' => String (toLowerCaseChar c) (toLowerCase s')
  end.

(** [ScryptedUser] (db-types). A user stored before tokens existed has none. *)
Record ScryptedUser := {
  su_id : string;
  su_salt : string;
  su_passwordHash : string;
  su_passwordDate : Z;
  su_token : option string;
}.

(** What the handlers of the entry point read of a request. *)
Record Request := {
  req_secure : bool;
  req_protocol : string;
  req_signedCookies : gmap string string;
  req_authorization : option string;
  req_headers : IncomingHttpHeaders;
}.

(** The body of a [POST /login], as the login form posts it: every field is
    a string or is absent. *)
Record LoginBody := {
  body_username : option string;
  body_password : option string;
  body_change_password : option string;
  body_maxAge : option string;
}.

(** The users of the database and the [hasLogin] flag of [start];
    [resetLogin] tells whether the file [reset-login] is in the volume. *)
Record LoginState := {
  users : gmap string ScryptedUser;
  hasLogin : bool;
  resetLogin : bool;
}.

(** The cookie that [res.cookie] sets; it is always [signed] and [httpOnly]. *)
Record Cookie := {
  cookie_name : string;
  cookie_value : string;
  cookie_maxAge : Z;
  cookie_secure : bool;
}.

(** What a login handler sends, one constructor for each [res.send]. *)
Inductive LoginReply :=
| SendError (error : string) (hasLogin : bool)
| SendLogin (authorization username : string) (expiration : Z) (addresses : list string)
| SendRegistered (authorization username token : string) (expiration : Z)
    (addresses : list string)
| SendToken (username : string) (token : option string) (addresses : list string)
    (hostname : option string)
| SendAnonymous (expiration : Z) (addresses : list string) (hostname : option string)
| SendSession (authorization : string) (expiration : Z) (username : string)
    (addresses : list string) (hostname : option string)
| SendLoginError (error : string) (hasLogin : bool) (addresses : list string)
    (hostname : option string).

(** How [GET /login] ends: with a reply; without one because the basic-auth
    library has answered the request; or by throwing. *)
Inductive GetLoginOutcome :=
| Replied (reply : LoginReply)
| AnsweredByBasicAuth
| Throws.

(** How a request leaves the handlers that guard [/web/component/*]: passed
    on with [res.locals.username], answered with 401 by the guard, or
    answered by the basic-auth library. *)
Inductive GuardOutcome :=
| Next (username : option string)
| NotAuthorized
| BasicUnauthorized.

(** [getLoginUserToken]. *)
Definition getLoginUserToken (reqSecure : bool) : string :=
  if reqSecure then "login_user_token" else "login_user_token_insecure".

(** [getSignedLoginUserTokenRawValue]. *)
Definition getSignedLoginUserTokenRawValue (req : Request) : option string :=
  req_signedCookies req !! getLoginUserToken (req_secure req).

(** [let hasLogin = await db.getCount(ScryptedUser) > 0]. *)
Definition openLogin (db : gmap string ScryptedUser) (resetLogin : bool) : LoginState :=
  {| users := db; hasLogin := bool_decide (0 < size db); resetLogin := resetLogin |}.

(** [checkResetLogin]; [rmThrows] tells whether [fs.rmSync] fails. *)
Definition checkResetLogin (rmThrows : bool) (st : LoginState) : LoginState :=
  if resetLogin st then
    if rmThrows then st
    else {| users := ∅; hasLogin := false; resetLogin := false |}
  else st.

(** ** Authentication and login *)

Section entry.
(** [crypto.createHash('sha256').update(s).digest()]. *)
Variable sha256 : string → list Byte.byte.
(** [buffer.toString('base64')]. *)
Variable toBase64 : list Byte.byte → string.
(** The string that [+] makes of [authSalt], the bytes drawn at start-up. *)
Variable authSalt : string.
(** The class [UserToken]: its constructor, whose third argument is
    optional, [toString], the fields that the handlers read, and
    [UserToken.validateToken], which returns the token or throws an error
    of which the handlers read the [message]. A token is made of the time
    at which it was issued and of a duration, so what
    [UserToken.validateToken] makes of a string depends on the time at which
    it is called: its first argument here. *)
Variable UserToken : Type.
Variable UserToken_new : string → Z → option Z → UserToken.
Variable UserToken_toString : UserToken → string.
Variable ut_username : UserToken → string.
Variable ut_timestamp : UserToken → Z.
Variable ut_duration : UserToken → Z.
Variable UserToken_validateToken : Z → string → option string + UserToken.
(** [httpAuth.basic({ realm }, checker)] and then [basicAuth.check(callback)]
    on a request: [Some user] when it calls [callback] with [req.user],
    [None] when it answers the request itself. *)
Variable httpAuth_basic : (string → string → bool) → Request → option string.
(** [new URL(s).origin], [parseInt], [ONE_DAY_MILLISECONDS] and the
    addresses that [getHostAddresses(true, true)] are mapped to. *)
Variable urlOrigin : string → option string.
Variable parseInt : option string → option Z.
Variable ONE_DAY_MILLISECONDS : Z.
Variable addresses : list string.

(** [crypto.createHash('sha256').update(s).digest().toString('hex')]. *)
Definition sha256hex (s : string) : string := toHex (sha256 s).

(** The checker given to [httpAuth.basic]. *)
Definition basicAuthChecker (db : gmap string ScryptedUser) (username password : string)
    : bool :=
  match db !! username with
  | None => false
  | Some user =>
    let sha := sha256hex (su_salt user +:+ password) in
    bool_decide (sha = su_passwordHash user) || bool_decide (Some password = su_token user)
  end.

Definition createAuthorizationToken (login_user_token : string) : string :=
  let sha := sha256hex (login_user_token +:+ authSalt) in
  "Bearer " +:+ sha +:+ "#" +:+ login_user_token.

(** [validateToken], called at the time [clock]; the events are what it
    writes to the console. *)
Definition validateToken (clock : Z) (token : option string)
    : list Event * option UserToken :=
  match token with
  | Some token =>
    if negb (truthy_string token) then ([], None)
    else
      match UserToken_validateToken clock token with
      | inr userToken => ([], Some userToken)
      | inl _ => ([EvConsoleWarn "invalid token"], None)
      end
  | None => ([], None)
  end.

(** [getSignedLoginUserToken]. *)
Definition getSignedLoginUserToken (clock : Z) (req : Request)
    : list Event * option UserToken :=
  validateToken clock (getSignedLoginUserTokenRawValue req).

(** The branch of the authentication middleware for a header that starts
    with ['Bearer ']. *)
Definition bearer (clock : Z) (authorization : string) : list Event * option string :=
  match split hash (substring_from (String.length "Bearer ") authorization) with
  | checkHash :: tokenParts =>
    let tokenPart := join "#" tokenParts in
    if truthy_string checkHash && truthy_string tokenPart then
      let sha := sha256hex (tokenPart +:+ authSalt) in
      if bool_decide (checkHash = sha) then
        match validateToken clock (Some tokenPart) with
        | (evs, Some userToken) => (evs, Some (ut_username userToken))
        | (evs, None) => (evs, None)
        end
      else ([], None)
    else ([], None)
  | [] => ([], None)
  end.

(** The authentication middleware: what it writes to the console and the
    [res.locals.username] with which it calls [next]. [clock] is the time of
    the request and [env] is [process.env.SCRYPTED_DISABLE_AUTHENTICATION]. *)
Definition authenticate (clock : Z) (env : option string) (req : Request)
    : list Event * option string :=
  if bool_decide (env = Some "true") then ([], Some "anonymous")
  else
    match getSignedLoginUserToken clock req with
    | (evs, Some userToken) => (evs, Some (ut_username userToken))
    | (evs, None) =>
      match req_authorization req with
      | Some authorization =>
        if startsWith authorization "Bearer " then
          let '(evs', username) := bearer clock authorization in
          (evs ++ evs', username)
        else (evs, None)
      | None => (evs, None)
      end
    end.

(** The first handler of [/web/component/*]: basic auth over https. *)
Definition componentBasicAuth (db : gmap string ScryptedUser) (req : Request)
    (username : option string) : GuardOutcome :=
  if bool_decide (req_protocol req = "https")
     && truthy_opt (req_authorization req)
     && default false ((λ a, includes (toLowerCase a) "basic") <$> req_authorization req)
  then
    match httpAuth_basic (basicAuthChecker db) req with
    | Some user => Next (Some user)
    | None => BasicUnauthorized
    end
  else Next username.

(** The second handler of [/web/component/*]. *)
Definition componentGuard (username : option string) : GuardOutcome :=
  if negb (truthy_opt username) then NotAuthorized else Next username.

(** A request to [/web/component/*] through the authentication middleware
    and the two handlers, in the order in which they are registered. *)
Definition componentAccess (clock : Z) (env : option string)
    (db : gmap string ScryptedUser) (req : Request) : list Event * GuardOutcome :=
  let '(evs, username) := authenticate clock env req in
  (evs,
   match componentBasicAuth db req username with
   | Next username => componentGuard username
   | outcome => outcome
   end).

(** [db.upsert(user)]. *)
Definition upsertUser (user : ScryptedUser) (st : LoginState) : LoginState :=
  {| users := <[su_id user := user]> (users st); hasLogin := hasLogin st;
     resetLogin := resetLogin st |}.

(** The handler of [POST /login]. [timestamp] is [Date.now()], [random64]
    and [random16] what [crypto.randomBytes] draws. The result is the new
    state, the cookie that is set and what is sent; [None] when a login
    exists and the body has no [username]: what [db.tryGet] does with
    [undefined] is not part of the source. *)
Definition postLogin (st : LoginState) (req : Request) (body : LoginBody)
    (timestamp : Z) (random64 random16 : list Byte.byte)
    : option (LoginState * option Cookie * LoginReply) :=
  let maxAge :=
    match parseInt (body_maxAge body) with
    | Some n => if (n =? 0)%Z then ONE_DAY_MILLISECONDS else n
    | None => ONE_DAY_MILLISECONDS
    end in
  if hasLogin st then
    username ← body_username body;
    match users st !! username with
    | None => Some (st, None, SendError "User does not exist." (hasLogin st))
    | Some user =>
      let sha := sha256hex (concat_js (su_salt user) (body_password body)) in
      if bool_decide (su_passwordHash user ≠ sha)
         && bool_decide (su_token user ≠ body_password body)
      then Some (st, None, SendError "Incorrect password." (hasLogin st))
      else
        let login_user_token :=
          UserToken_toString (UserToken_new username timestamp (Some maxAge)) in
        let cookie :=
          {| cookie_name := getLoginUserToken (req_secure req);
             cookie_value := login_user_token; cookie_maxAge := maxAge;
             cookie_secure := req_secure req |} in
        let st :=
          if truthy_opt (body_change_password body) then
            let salt := toBase64 random64 in
            upsertUser
              {| su_id := su_id user; su_salt := salt;
                 su_passwordHash :=
                   sha256hex (concat_js salt (body_change_password body));
                 su_passwordDate := timestamp; su_token := su_token user |} st
          else st in
        Some (st, Some cookie,
              SendLogin (createAuthorizationToken login_user_token) username maxAge
                addresses)
    end
  else
    match body_username body, body_password body with
    | Some username, Some password =>
      if negb (truthy_string username) || negb (truthy_string password)
      then Some (st, None,
                 SendError "Username and password must not be empty." (hasLogin st))
      else
        let salt := toBase64 random64 in
        let user :=
          {| su_id := username; su_salt := salt;
             su_passwordHash := sha256hex (salt +:+ password);
             su_passwordDate := timestamp; su_token := Some (toHex random16) |} in
        let st := upsertUser user st in
        let st := {| users := users st; hasLogin := true; resetLogin := resetLogin st |} in
        let login_user_token :=
          UserToken_toString (UserToken_new username timestamp None) in
        let cookie :=
          {| cookie_name := getLoginUserToken (req_secure req);
             cookie_value := login_user_token; cookie_maxAge := maxAge;
             cookie_secure := req_secure req |} in
        Some (st, Some cookie,
              SendRegistered (createAuthorizationToken login_user_token) username
                (toHex random16) maxAge addresses)
    | _, _ =>
      Some (st, None,
            SendError "Username and password must not be empty." (hasLogin st))
    end.

(** [os.hostname()?.split('.')?.[0]]. *)
Definition shortHostname (hostname : option string) : option string :=
  hostname ≫= λ h, head (split dot h).

(** The handler of [GET /login]. [envOrigins], [cors] and the headers of
    the result are those of [addAccessControlHeaders], [envDisable] is
    [process.env.SCRYPTED_DISABLE_AUTHENTICATION], [clock] is the time at
    which [UserToken.validateToken] is called, [now] is the [Date.now()] of
    the answer after it, and [hostname] is [os.hostname()]. It throws when
    the basic-auth library names a user that the database does not have:
    reading the [token] of
    [undefined]. *)
Definition getLogin (envOrigins : option string) (cors : list string)
    (envDisable : option string) (rmThrows : bool) (st : LoginState) (req : Request)
    (clock now : Z) (random16 : list Byte.byte) (hostname : option string)
    : LoginState * list (string * string) * GetLoginOutcome :=
  let st := checkResetLogin rmThrows st in
  let headers := addAccessControlHeaders urlOrigin envOrigins cors (req_headers req) in
  let hostname := shortHostname hostname in
  if bool_decide (req_protocol req = "https") && truthy_opt (req_authorization req) then
    match httpAuth_basic (basicAuthChecker (users st)) req with
    | None => (st, headers, AnsweredByBasicAuth)
    | Some username =>
      match users st !! username with
      | None => (st, headers, Throws)
      | Some user =>
        if negb (truthy_opt (su_token user)) then
          let token := toHex random16 in
          let user :=
            {| su_id := su_id user; su_salt := su_salt user;
               su_passwordHash := su_passwordHash user;
               su_passwordDate := su_passwordDate user; su_token := Some token |} in
          (upsertUser user st, headers,
           Replied (SendToken username (Some token) addresses hostname))
        else
          (st, headers, Replied (SendToken username (su_token user) addresses hostname))
      end
    end
  else if bool_decide (envDisable = Some "true") then
    (st, headers, Replied (SendAnonymous ONE_DAY_MILLISECONDS addresses hostname))
  else
    let error message :=
      SendLoginError (if truthy_opt message then default "" message else "Unknown Error.")
        (hasLogin st) addresses hostname in
    match getSignedLoginUserTokenRawValue req with
    | Some login_user_token =>
      if negb (truthy_string login_user_token)
      then (st, headers, Replied (error (Some "Not logged in.")))
      else
        match UserToken_validateToken clock login_user_token with
        | inr userToken =>
          (st, headers,
           Replied (SendSession (createAuthorizationToken login_user_token)
                      (ut_timestamp userToken + ut_duration userToken - now)
                      (ut_username userToken) addresses hostname))
        | inl message => (st, headers, Replied (error message))
        end
    | None => (st, headers, Replied (error (Some "Not logged in.")))
    end.
End entry.

(** ** The debugger proxy *)

(** How a connection to [debugServer] ends. *)
Inductive DebugOutcome :=
| Destroyed
| Piped (attempt : nat)
| TimedOut.

(** The loop of the connection handler from attempt [i] on, with [n]
    attempts left; [doconnect i] tells whether attempt [i] connects. The
    result is the outcome and the number of calls to [sleep(500)]. *)
Fixpoint connectLoop (doconnect : nat → bool) (i n : nat) : DebugOutcome * nat :=
  match n with
  | 0 => (TimedOut, 0)
  | S n' =>
    if doconnect i then (Piped i, 0)
    else let '(outcome, sleeps) := connectLoop doconnect (S i) n' in (outcome, S sleeps)
  end.

(** The connection handler of [debugServer]: what it writes to the console,
    how the connection ends and the milliseconds it has slept. *)
Definition debugConnection (workerInspectPort : option N) (doconnect : nat → bool)
    : list Event * DebugOutcome * N :=
  if negb (default false ((λ port, negb (port =? 0)%N) <$> workerInspectPort))
  then ([], Destroyed, 0%N)
  else
    match connectLoop doconnect 0 10 with
    | (TimedOut, sleeps) =>
      ([EvConsoleWarn "debugger connect timed out"], TimedOut, (500 * N.of_nat sleeps)%N)
    | (outcome, sleeps) => ([], outcome, (500 * N.of_nat sleeps)%N)
    end.

(** ** Vocabulary of the properties of the HTTP side *)

(** [o] is the origin that a request names: its [Origin] header or, when it
    has none, the origin of the URL of its [Referer] header. *)
Definition requestOrigin (urlOrigin : string → option string) (headers : IncomingHttpHeaders)
    (o : string) : Prop :=
  hdr_origin headers = Some o
  ∨ truthy_opt (hdr_origin headers) = false
    ∧ ∃ referer, hdr_referer headers = Some referer ∧ referer ≠ ""
                 ∧ urlOrigin referer = Some o.

(** The origins that are configured: the entries of the environment
    variable and the servers of the CORS settings. *)
Definition configuredOrigins (env : option string) (cors : list string) : list string :=
  default [] (split comma <$> env) ++ cors.

(** Every user is stored under its [_id], as [db.upsert] stores it. *)
Definition keyedById (db : gmap string ScryptedUser) : Prop :=
  ∀ key user, db !! key = Some user → su_id user = key.

(** [hasLogin] tells whether the database has a user. *)
Definition loginConsistent (st : LoginState) : Prop :=
  (hasLogin st = true ↔ users st ≠ ∅) ∧ keyedById (users st).

(** The user that a [POST /login] with [change_password] writes when it
    succeeds for [user]. *)
Definition changedUser (sha256 : string → list Byte.byte)
    (toBase64 : list Byte.byte → string) (user : ScryptedUser) (body : LoginBody)
    (timestamp : Z) (random64 : list Byte.byte) : ScryptedUser :=
  {| su_id := su_id user; su_salt := toBase64 random64;
     su_passwordHash :=
       sha256hex sha256 (concat_js (toBase64 random64) (body_change_password body));
     su_passwordDate := timestamp; su_token := su_token user |}.

(** What happens to the login state while the server runs: the two login
    handlers, and the administrator putting the file [reset-login] into the
    volume. *)
Inductive LoginAction :=
| PostLogin (req : Request) (body : LoginBody) (timestamp : Z)
    (random64 random16 : list Byte.byte)
| GetLogin (envOrigins : option string) (cors : list string) (envDisable : option string)
    (rmThrows : bool) (req : Request) (clock now : Z) (random16 : list Byte.byte)
    (hostname : option string)
| TouchResetLogin.

Section login_machine.
Variable sha256 : string → list Byte.byte.
Variable toBase64 : list Byte.byte → string.
Variable authSalt : string.
Variable UserToken : Type.
Variable UserToken_new : string → Z → option Z → UserToken.
Variable UserToken_toString : UserToken → string.
Variable ut_username : UserToken → string.
Variable ut_timestamp : UserToken → Z.
Variable ut_duration : UserToken → Z.
Variable UserToken_validateToken : Z → string → option string + UserToken.
Variable httpAuth_basic : (string → string → bool) → Request → option string.
Variable urlOrigin : string → option string.
Variable parseInt : option string → option Z.
Variable ONE_DAY_MILLISECONDS : Z.
Variable addresses : list string.

(** The state after one action; [None] when the handler throws. *)
Definition loginStep (st : LoginState) (action : LoginAction) : option LoginState :=
  match action with
  | PostLogin req body timestamp random64 random16 =>
    (λ r, r.1.1)
      <$> postLogin sha256 toBase64 authSalt UserToken UserToken_new UserToken_toString
            parseInt ONE_DAY_MILLISECONDS addresses st req body timestamp random64
            random16
  | GetLogin envOrigins cors envDisable rmThrows req clock now random16 hostname =>
    match getLogin sha256 authSalt UserToken ut_username ut_timestamp ut_duration
            UserToken_validateToken httpAuth_basic urlOrigin ONE_DAY_MILLISECONDS
            addresses envOrigins cors envDisable rmThrows st req clock now random16
            hostname
    with
    | (_, _, Throws) => None
    | (st, _, _) => Some st
    end
  | TouchResetLogin =>
    Some {| users := users st; hasLogin := hasLogin st; resetLogin := true |}
  end.

Fixpoint loginRun (st : LoginState) (actions : list LoginAction) : option LoginState :=
  match actions with
  | [] => Some st
  | action :: actions' => st ← loginStep st action; loginRun st actions'
  end.
End login_machine.

(** ** Examples of the HTTP side *)

(** A stand-in for the digest in the examples: a zero byte and the bytes of
    the string. *)
Definition exampleDigest (s : string) : list Byte.byte :=
  Byte.x00 :: String.list_byte_of_string s.

(** A request over https without cookies or headers. *)
Definition plainRequest : Request :=
  {| req_secure := true; req_protocol := "https"; req_signedCookies := ∅;
     req_authorization := None;
     req_headers := {| hdr_origin := None; hdr_referer := None |} |}.

Definition withCookie (name value : string) (req : Request) : Request :=
  {| req_secure := req_secure req; req_protocol := req_protocol req;
     req_signedCookies := <[name := value]> (req_signedCookies req);
     req_authorization := req_authorization req; req_headers := req_headers req |}.

Definition withAuthorization (authorization : string) (req : Request) : Request :=
  {| req_secure := req_secure req; req_protocol := req_protocol req;
     req_signedCookies := req_signedCookies req;
     req_authorization := Some authorization; req_headers := req_headers req |}.

Definition loginBody (username password : string) : LoginBody :=
  {| body_username := Some username; body_password := Some password;
     body_change_password := None; body_maxAge := None |}.

(** The user [alice] with the password [secret], and a state whose database
    holds her. *)
Definition alice : ScryptedUser :=
  {| su_id := "alice"; su_salt := "c2FsdA==";
     su_passwordHash := sha256hex exampleDigest "c2FsdA==secret";
     su_passwordDate := 0; su_token := Some "0badcafe" |}.

Definition aliceState : LoginState :=
  {| users := {["alice" := alice]}; hasLogin := true; resetLogin := false |}.


(** Stand-ins for [UserToken] in the examples: a token is the user name, and
    no [maxAge] parses. *)
Definition examplePostLogin :=
  postLogin exampleDigest toHex "salt" string (λ username _ _, username) id (λ _, None)
    86400000 [].

(** * Installing a plugin and shutting down *)

(** [ScryptedInterface.Readme]. *)
Definition Readme : string := "Readme".

(** [installPlugin], without a debugger. [scrypted] is
    [plugin.packageJson.scrypted], which the record [Plugin] does not carry,
    and [readme] what looking for [README.md] in the zip of the plugin gives:
    [None] when reading the zip throws. The result is the new host. *)
Definition installPlugin `{InferDefaults} (rt : ScryptedRuntime) (plugin : Plugin)
    (scrypted : Device) (readme : option bool) : ScryptedRuntime * nat :=
  let interfaces :=
    if bool_decide (Readme ∈ dev_interfaces scrypted) then dev_interfaces scrypted
    else
      match readme with
      | Some true => dev_interfaces scrypted ++ [Readme]
      | _ => dev_interfaces scrypted
      end in
  let device :=
    {| dev_name := dev_name scrypted; dev_nativeId := dev_nativeId scrypted;
       dev_type := dev_type scrypted; dev_interfaces := interfaces;
       dev_info :=
         Some (JInfo (Some (packageJson_name plugin)) (Some (packageJson_version plugin)));
       dev_providerNativeId := dev_providerNativeId scrypted;
       dev_room := dev_room scrypted |} in
  let rt := (upsertDevice rt (plugin_id plugin) device).1 in
  runPlugin rt plugin.

(** [killall], up to [process.exit()]. [values] is [Object.values(this.plugins)]:
    the registered hosts, in the order in which the source enumerates them,
    which the map of the model does not record. *)
Definition killall (values : list nat) (rt : ScryptedRuntime) : ScryptedRuntime :=
  foldl (λ rt host, host_kill host rt) rt values.

(** [values] enumerates the registered hosts. *)
Definition registeredHosts (rt : ScryptedRuntime) (values : list nat) : Prop :=
  values ≡ₚ (map_to_list (plugins rt)).*2.
(** * Properties *)

(** ** The first pass of [invalidateMixins] *)

Lemma shrunk_refl h : shrunk h h.
Proof. split; auto. Qed.

Lemma shrunk_trans h0 h1 h2 : shrunk h0 h1 → shrunk h1 h2 → shrunk h0 h2.
Proof.
  intros [E1 H1] [E2 H2]. split; [congruence|].
  destruct H1 as [->|(t & k & Ht & Hk)]; [exact H2|].
  destruct H2 as [->|(t' & k' & Ht' & Hk')]; [right; eauto|].
  right. exists t, (k + k'). split; [done|].
  rewrite Hk in Ht'. injection Ht' as <-. by rewrite Hk', drop_drop.
Qed.

Lemma shrunk_mentions h0 h p : shrunk h0 h → chainMentions h p → chainMentions h0 p.
Proof.
  intros [_ [->|(t & k & Ht & Hk)]]; [done|].
  intros (t' & e & Ht' & He & Hp). exists t, e. split; [done|]. split; [|done].
  rewrite Hk in Ht'. injection Ht' as <-.
  by apply (subseteq_drop k t).
Qed.

Lemma firstPassEvent_mono ret ret' e :
  ret ⊆ ret' → firstPassEvent ret e → firstPassEvent ret' e.
Proof. intros Hsub. destruct e; simpl; auto. Qed.

Lemma firstPassEvent_release ret did l :
  did ∈ ret → Forall (firstPassEvent ret) (l ≫= invalidateEntry did).
Proof.
  intros Hin. induction l as [|e l IH]; simpl; [constructor|].
  repeat constructor; simpl; auto.
Qed.

(** What one turn of the inner loop does, in the form the loop invariants use. *)
Lemma scanDevice_facts id device st device' st' :
  scanDevice id device st = (device', st') →
  shrunk device device'
  ∧ (∃ new, p_ret st' = p_ret st ++ new
        ∧ p_remaining st' = reverse new ++ p_remaining st
        ∧ (new = [] ∨ (new = [h_id device] ∧ (h_id device ∉ p_ret st)
                        ∧ chainMentions device id)))
  ∧ (chainMentions device id → h_id device ∈ p_ret st')
  ∧ (device' = device ∨ h_id device ∈ p_ret st')
  ∧ (∃ evs, p_trace st' = p_trace st ++ evs ∧ Forall (firstPassEvent (p_ret st')) evs).
Proof.
  unfold scanDevice. intros Hscan.
  destruct (h_mixinTable device) as [table|] eqn:Htable.
  2:{ injection Hscan as <- <-. split_and!; auto using shrunk_refl.
      - exists []. rewrite app_nil_r. auto.
      - intros (t & e & Ht & _). congruence.
      - exists []. rewrite app_nil_r. auto. }
  destruct (list_find _ table) as [[foundIndex e]|] eqn:Hfind.
  2:{ injection Hscan as <- <-. split_and!; auto using shrunk_refl.
      - exists []. rewrite app_nil_r. auto.
      - intros (t & e & Ht & He & Hp). exfalso.
        rewrite Htable in Ht. injection Ht as <-.
        apply list_find_None in Hfind. rewrite Forall_forall in Hfind.
        by apply (Hfind e).
      - exists []. rewrite app_nil_r. auto. }
  apply list_find_Some in Hfind as (Hlook & Hprov & _).
  assert (chainMentions device id) as Hmention.
  { exists table, e. split_and!; auto. eapply list_elem_of_lookup_2; eauto. }
  set (st1 := if decide (h_id device ∈ p_ret st) then st
              else {| p_ret := p_ret st ++ [h_id device];
                      p_remaining := h_id device :: p_remaining st;
                      p_trace := p_trace st |}) in *.
  assert (h_id device ∈ p_ret st1) as Hin1.
  { subst st1. destruct (decide (h_id device ∈ p_ret st)); simpl; [done|set_solver]. }
  assert (∃ new, p_ret st1 = p_ret st ++ new
        ∧ p_remaining st1 = reverse new ++ p_remaining st
        ∧ (new = [] ∨ (new = [h_id device] ∧ (h_id device ∉ p_ret st)
                        ∧ chainMentions device id))) as Hnew.
  { subst st1. destruct (decide (h_id device ∈ p_ret st)); simpl.
    - exists []. rewrite app_nil_r. split_and!; auto.
    - exists [h_id device]. split_and!; auto. }
  assert (p_trace st1 = p_trace st) as Htr1.
  { subst st1. by destruct (decide (h_id device ∈ p_ret st)). }
  clearbody st1.
  case_decide as Hlast; injection Hscan as <- <-; simpl.
  - split_and!; auto using shrunk_refl.
    eexists. rewrite Htr1. split; [done|]. by repeat constructor.
  - split_and!; auto.
    + split; [done|]. right. exists table, (foundIndex + 1). auto.
    + eexists. rewrite Htr1. split; [done|]. by apply firstPassEvent_release.
Qed.

Lemma touched_trans ret ret' h0 h1 h2 :
  ret ⊆ ret' → touched ret h0 h1 → touched ret' h1 h2 → touched ret' h0 h2.
Proof.
  intros Hsub [Hs1 H1] [Hs2 H2]. split; [by eapply shrunk_trans|].
  destruct H1 as [->|H1]; [done|]. right. by apply Hsub.
Qed.

Lemma Forall2_touched_trans ret ret' ds0 : ∀ ds1 ds2,
  ret ⊆ ret' → Forall2 (touched ret) ds0 ds1 → Forall2 (touched ret') ds1 ds2 →
  Forall2 (touched ret') ds0 ds2.
Proof.
  induction ds0 as [|h0 ds0 IH]; intros ds1 ds2 Hsub H1 H2.
  - inversion H1; subst. inversion H2; subst. constructor.
  - inversion H1 as [|? h1 ? ds1' Ht1 Hr1]; subst.
    inversion H2 as [|? h2 ? ds2' Ht2 Hr2]; subst.
    constructor; [by eapply touched_trans|by eapply IH].
Qed.

Lemma Forall2_touched_refl ret ds : Forall2 (touched ret) ds ds.
Proof. induction ds; constructor; auto. split; auto using shrunk_refl. Qed.

Lemma touched_mono ret ret' h0 h : ret ⊆ ret' → touched ret h0 h → touched ret' h0 h.
Proof. intros Hsub [Hs [->|H]]; split; auto. Qed.

Lemma Forall2_touched_ids ret ds0 ds :
  Forall2 (touched ret) ds0 ds → h_id <$> ds = h_id <$> ds0.
Proof. induction 1 as [|h0 h ds0 ds [[Hid _] _] _ IH]; csimpl; congruence. Qed.

Lemma scanDevices_facts id ds : ∀ st ds' st',
  scanDevices id ds st = (ds', st') →
  Forall2 (touched (p_ret st')) ds ds'
  ∧ (∃ new, p_ret st' = p_ret st ++ new
        ∧ p_remaining st' = reverse new ++ p_remaining st
        ∧ NoDup new
        ∧ ∀ x, x ∈ new → (x ∉ p_ret st) ∧ ∃ h, h ∈ ds ∧ h_id h = x ∧ chainMentions h id)
  ∧ (∀ h, h ∈ ds → chainMentions h id → h_id h ∈ p_ret st')
  ∧ (∃ evs, p_trace st' = p_trace st ++ evs ∧ Forall (firstPassEvent (p_ret st')) evs).
Proof.
  induction ds as [|device ds IH]; intros st ds' st' Hscan; simpl in Hscan.
  - injection Hscan as <- <-. split_and!; try constructor.
    + exists []. rewrite app_nil_r. split_and!; auto using NoDup_nil_2. set_solver.
    + set_solver.
    + exists []. rewrite app_nil_r. auto.
  - destruct (scanDevice id device st) as [device1 st1] eqn:H1.
    destruct (scanDevices id ds st1) as [ds2 st2] eqn:H2.
    injection Hscan as <- <-.
    apply scanDevice_facts in H1 as (Hs1 & (new1 & Hr1 & Hm1 & Hn1) & Hc1 & Hu1 & (ev1 & Ht1 & He1)).
    apply IH in H2 as (Hs2 & (new2 & Hr2 & Hm2 & Hnd2 & Hn2) & Hc2 & (ev2 & Ht2 & He2)).
    assert (p_ret st1 ⊆ p_ret st2) as Hsub by (rewrite Hr2; set_solver).
    split_and!.
    + constructor; [|done]. split; [done|]. destruct Hu1; [by left|right; by apply Hsub].
    + exists (new1 ++ new2). split_and!.
      * by rewrite Hr2, Hr1, <-(assoc_L (++)).
      * by rewrite Hm2, Hm1, reverse_app, <-(assoc_L (++)).
      * apply NoDup_app. split_and!; [|..|done].
        -- destruct Hn1 as [->|[-> _]]; [apply NoDup_nil_2|apply NoDup_singleton].
        -- intros x Hx Hx2. apply Hn2 in Hx2 as [Hx2 _]. apply Hx2.
           rewrite Hr1. set_solver.
      * intros x [Hx|Hx]%elem_of_app.
        -- destruct Hn1 as [->|(-> & Hnot & Hmen)]; [set_solver|].
           apply list_elem_of_singleton in Hx as ->. split; [done|].
           exists device. set_solver.
        -- apply Hn2 in Hx as [Hx (h & Hh & Hid & Hmen)]. split.
           ++ rewrite Hr1 in Hx. set_solver.
           ++ exists h. set_solver.
    + intros h [->|Hh]%elem_of_cons Hmen; [apply Hsub; auto|by apply Hc2].
    + exists (ev1 ++ ev2). split; [by rewrite Ht2, Ht1, <-(assoc_L (++))|].
      apply Forall_app. split; [|done].
      eapply Forall_impl; [exact He1|]. intros e. by apply firstPassEvent_mono.
Qed.

Lemma unvisited_snoc_le all ret x : unvisited all (ret ++ [x]) ≤ unvisited all ret.
Proof.
  unfold unvisited. induction all as [|a all IH]; [done|].
  rewrite !filter_cons. repeat case_decide; simpl; try lia. set_solver.
Qed.

Lemma unvisited_snoc_lt all ret x :
  x ∈ all → x ∉ ret → S (unvisited all (ret ++ [x])) ≤ unvisited all ret.
Proof.
  unfold unvisited. induction all as [|a all IH]; [set_solver|].
  intros Hin Hnot. rewrite !filter_cons.
  destruct (decide (a = x)) as [->|Hne].
  - pose proof (unvisited_snoc_le all ret x) as Hle. unfold unvisited in Hle.
    repeat case_decide; simpl; try lia; set_solver.
  - assert (x ∈ all) as Hin' by set_solver. specialize (IH Hin' Hnot).
    repeat case_decide; simpl; try lia. set_solver.
Qed.

Lemma unvisited_app all new : ∀ ret,
  NoDup new → (∀ x, x ∈ new → (x ∉ ret) ∧ x ∈ all) →
  length new + unvisited all (ret ++ new) ≤ unvisited all ret.
Proof.
  induction new as [|x new IH]; intros ret Hnd Hnew.
  - by rewrite app_nil_r.
  - apply NoDup_cons in Hnd as [Hx Hnd].
    rewrite (cons_middle x), (assoc_L (++)). simpl.
    specialize (IH (ret ++ [x]) Hnd).
    assert ((x ∉ ret) ∧ x ∈ all) as [Hxr Hxa] by (apply Hnew; set_solver).
    pose proof (unvisited_snoc_lt all ret x Hxa Hxr).
    enough (length new + unvisited all ((ret ++ [x]) ++ new)
            ≤ unvisited all (ret ++ [x])) by lia.
    apply IH. intros y Hy. destruct (Hnew y) as [? ?]; [set_solver|].
    split; [|done]. set_solver.
Qed.

(** One turn of the [while] loop keeps the invariant. *)
Lemma passInv_step ds0 S ds st id rest ds' st' :
  passInv ds0 S ds st →
  p_remaining st = id :: rest →
  scanDevices id ds {| p_ret := p_ret st; p_remaining := rest; p_trace := p_trace st |}
    = (ds', st') →
  passInv ds0 S ds' st'
  ∧ length (p_remaining st') + unvisited (h_id <$> ds') (p_ret st')
    ≤ length rest + unvisited (h_id <$> ds) (p_ret st).
Proof.
  intros (Ht & Hleast & Hrem & Hclo & Htr & Hnd) Hpop Hscan.
  apply scanDevices_facts in Hscan
    as (Ht' & (new & Hr & Hm & Hndn & Hnew) & Hc & (evs & He & Hevs)).
  simpl in *.
  assert (p_ret st ⊆ p_ret st') as Hsub by (rewrite Hr; set_solver).
  assert (∀ h, h ∈ ds → ∃ h0, h0 ∈ ds0 ∧ touched (p_ret st) h0 h) as Horig.
  { intros h [i Hi]%list_elem_of_lookup.
    destruct (Forall2_lookup_r _ _ _ _ _ Ht Hi) as (h0 & Hi0 & Hth).
    exists h0. split; [by eapply list_elem_of_lookup_2|done]. }
  assert (id ∈ S ∨ id ∈ p_ret st) as Hid by (apply Hrem; rewrite Hpop; set_solver).
  split; [split_and!|].
  - by eapply Forall2_touched_trans.
  - intros R HR x. rewrite Hr. intros [Hx|Hx]%elem_of_app; [by eapply Hleast|].
    apply Hnew in Hx as (_ & h & Hh & <- & Hmen).
    destruct (Horig h Hh) as (h0 & Hh0 & [Hs _]).
    replace (h_id h) with (h_id h0) by (symmetry; apply Hs).
    apply (HR h0 id); [done|by eapply shrunk_mentions|].
    destruct Hid as [?|Hid]; [by left|right; by eapply Hleast].
  - intros x. rewrite Hm, Hr. intros [Hx|Hx]%elem_of_app.
    + right. apply elem_of_reverse in Hx. set_solver.
    + destruct (Hrem x) as [?|?]; [rewrite Hpop; set_solver|by left|right; set_solver].
  - intros p Hp. destruct (decide (p = id)) as [->|Hne].
    + right. intros h0 [i Hi0]%list_elem_of_lookup Hmen.
      destruct (Forall2_lookup_l _ _ _ _ _ Ht Hi0) as (h & Hi & [Hs Hu]).
      destruct Hu as [->|Hu]; [|by apply Hsub].
      apply Hc; [by eapply list_elem_of_lookup_2|done].
    + rewrite Hr in Hp. rewrite Hm.
      destruct Hp as [Hp|[Hp|Hp]%elem_of_app].
      * destruct (Hclo p) as [Hq|Hq]; [by left|..].
        -- left. rewrite Hpop in Hq. set_solver.
        -- right. intros h0 ? ?. apply Hsub. by apply Hq.
      * destruct (Hclo p) as [Hq|Hq]; [by right|..].
        -- left. rewrite Hpop in Hq. set_solver.
        -- right. intros h0 ? ?. apply Hsub. by apply Hq.
      * left. apply elem_of_app. left. by apply elem_of_reverse.
  - rewrite He. apply Forall_app. split; [|done].
    eapply Forall_impl; [exact Htr|]. intros e. by apply firstPassEvent_mono.
  - rewrite Hr. apply NoDup_app. split_and!; [done| |done].
    intros x Hx Hx'. by apply Hnew in Hx' as [? _].
  - rewrite (Forall2_touched_ids _ _ _ Ht'), Hm, Hr, length_app, length_reverse.
    pose proof (unvisited_app (h_id <$> ds) new (p_ret st) Hndn) as Hu.
    enough (length new + unvisited (h_id <$> ds) (p_ret st ++ new)
            ≤ unvisited (h_id <$> ds) (p_ret st)) by lia.
    apply Hu. intros x Hx. apply Hnew in Hx as (Hx & h & Hh & <- & _).
    split; [done|]. by apply list_elem_of_fmap_2.
Qed.

Lemma whileRemaining_inv ds0 S fuel : ∀ ds st,
  passInv ds0 S ds st →
  length (p_remaining st) + unvisited (h_id <$> ds) (p_ret st) ≤ fuel →
  ∃ ds' st', whileRemaining fuel ds st = Some (ds', st')
             ∧ passInv ds0 S ds' st' ∧ p_remaining st' = [].
Proof.
  induction fuel as [|fuel IH]; intros ds st Hinv Hfuel.
  - destruct (p_remaining st) eqn:Hrem; simpl in Hfuel; [|lia].
    exists ds, st. simpl. rewrite Hrem. auto.
  - simpl. destruct (p_remaining st) as [|id rest] eqn:Hrem; [by eauto|].
    destruct (scanDevices id ds _) as [ds' st'] eqn:Hscan.
    destruct (passInv_step _ _ _ _ _ _ _ _ Hinv Hrem Hscan) as [Hinv' Hm].
    apply IH; [done|]. simpl in Hfuel. lia.
Qed.

Lemma firstPass_inv ds ids :
  ∃ ds' st', firstPass ds ids = Some (ds', st')
             ∧ passInv ds ids ds' st' ∧ p_remaining st' = [].
Proof.
  apply whileRemaining_inv.
  - split_and!; simpl.
    + apply Forall2_touched_refl.
    + set_solver.
    + intros x Hx. left. by apply elem_of_reverse.
    + intros p [Hp|Hp]; [|set_solver]. left. by apply elem_of_reverse.
    + constructor.
    + apply NoDup_nil_2.
  - simpl. rewrite length_reverse. unfold unvisited.
    pose proof (length_filter (λ x, x ∉ []) (h_id <$> ds)) as Hle.
    rewrite length_fmap in Hle. lia.
Qed.

Lemma firstPass_total ds ids : is_Some (firstPass ds ids).
Proof. destruct (firstPass_inv ds ids) as (ds' & st' & -> & _). eauto. Qed.

(** The match that [findIndex] reports, and what the loop body does with it. *)
Lemma scanDevice_match id device st table i e :
  h_mixinTable device = Some table →
  table !! i = Some e →
  mixinProviderId e = Some id →
  (∀ j e', table !! j = Some e' → mixinProviderId e' = Some id → i ≤ j) →
  h_id device ∈ p_ret (scanDevice id device st).2
  ∧ (i ≠ length table - 1 →
       (scanDevice id device st).1
         = {| h_id := h_id device; h_mixinTable := Some (drop (S i) table) |}
       ∧ p_trace (scanDevice id device st).2
         = p_trace st ++ (take (S i) table ≫= invalidateEntry (h_id device)))
  ∧ (i = length table - 1 →
       (scanDevice id device st).1 = device
       ∧ p_trace (scanDevice id device st).2
         = p_trace st ++ [EvConsoleWarn "attempt to invalidate mixin on actual device?"]).
Proof.
  intros Htable Hi He Hfirst. unfold scanDevice. rewrite Htable.
  assert (list_find (λ mt, mixinProviderId mt = Some id) table = Some (i, e)) as ->.
  { apply list_find_Some. split_and!; [done..|].
    intros j y Hj Hlt Hy. specialize (Hfirst j y Hj Hy). lia. }
  replace (i + 1) with (S i) by lia.
  destruct (decide (h_id device ∈ p_ret st)) as [Hin|Hin];
    destruct (decide (i = length table - 1)) as [Hl|Hl]; simpl;
    (split_and!; [set_solver|done..]).
Qed.

Lemma elem_of_secondPass ret e :
  e ∈ secondPass ret ↔ ∃ did, did ∈ ret ∧ e = EvRebuildMixinTable did.
Proof.
  unfold secondPass, rebuildMixinTable. rewrite list_elem_of_bind. split.
  - intros (did & He & Hdid). apply list_elem_of_singleton in He. eauto.
  - intros (did & Hdid & ->). exists did. split; [|done]. by apply list_elem_of_singleton.
Qed.

Lemma secondPass_fmap ret : secondPass ret = EvRebuildMixinTable <$> ret.
Proof. unfold secondPass. induction ret as [|x ret IH]; csimpl; congruence. Qed.

Lemma firstPassEvent_no_rebuild ret tr did :
  Forall (firstPassEvent ret) tr → EvRebuildMixinTable did ∉ tr.
Proof. rewrite Forall_forall. intros Hall Hin. by apply Hall in Hin. Qed.

(** ** What the first pass makes of the chains *)

Lemma splicedThrough_mono (R R' P P' : string → Prop) evs evs' h0 h :
  (∀ p, R p → R' p) → (∀ p, P' p → P p) → (∀ e, e ∈ evs → e ∈ evs') →
  splicedThrough R P evs h0 h → splicedThrough R' P' evs' h0 h.
Proof.
  intros HR HP Hev [Hid Hh]. split; [done|].
  destruct (h_mixinTable h0) as [table|]; [|done].
  destruct Hh as (k & Hk & Hlt & Hend & Hrel & Hmatch). exists k.
  split_and!; [done|done|..].
  - destruct Hend as [->|(e & p & He & Hp & Hr)]; [by left|right].
    exists e, p. auto.
  - intros e He. auto.
  - intros p i e Hp Hi He Hfirst. destruct (Hmatch p i e) as [H1 H2]; auto.
Qed.

Lemma splicedThrough_refl (R P : string → Prop) evs h :
  (∀ p, ¬ P p) → splicedThrough R P evs h h.
Proof.
  intros HP. split; [done|]. destruct (h_mixinTable h) as [table|]; [|done].
  exists 0. rewrite drop_0. split_and!; auto.
  - intros e He. by apply elem_of_nil in He.
  - intros p i e Hp. by apply HP in Hp.
Qed.

Lemma elem_of_released did did' l e :
  EvInvalidateEntry did' e ∈ (l ≫= invalidateEntry did) ↔ did' = did ∧ e ∈ l.
Proof.
  rewrite list_elem_of_bind. unfold invalidateEntry. split.
  - intros (y & Hin & Hy). apply elem_of_cons in Hin as [[=]|Hin].
    apply list_elem_of_singleton in Hin as [= -> ->]. done.
  - intros [-> He]. exists e. split; [|done]. apply elem_of_cons. right.
    by apply list_elem_of_singleton.
Qed.

Lemma elem_of_take_le {A} (x : A) n m l : x ∈ take n l → n ≤ m → x ∈ take m l.
Proof.
  rewrite !elem_of_take. intros (i & Hi & Hlt) Hle. exists i. split; [done|lia].
Qed.

(** One turn of the inner loop, for the chain of one device. *)
Lemma scanDevice_splice (R R' P : string → Prop) id h0 h st h' st' :
  scanDevice id h st = (h', st') →
  R id → (∀ p, R p → R' p) →
  splicedThrough R P (p_trace st) h0 h →
  splicedThrough R' (λ p, P p ∨ p = id) (p_trace st') h0 h'
  ∧ ∃ evs, p_trace st' = p_trace st ++ evs
      ∧ ∀ did e, EvInvalidateEntry did e ∈ evs →
          did = h_id h0
          ∧ ∃ table rest, h_mixinTable h0 = Some table ∧ h_mixinTable h' = Some rest
                          ∧ e ∈ take (length table - length rest) table.
Proof.
  intros Hscan Hid HR [Hhid Hh]. unfold scanDevice in Hscan.
  destruct (h_mixinTable h0) as [table|] eqn:Htable0.
  2:{ rewrite Hh in Hscan. injection Hscan as <- <-. split.
      - split; [done|]. by rewrite Htable0.
      - exists []. rewrite app_nil_r. split; [done|]. by intros did e ?%elem_of_nil. }
  destruct Hh as (k & Hk & Hlt & Hend & Hrel & Hmatch). rewrite Hk in Hscan.
  assert (k = 0 ∨ ∃ e p, table !! (k - 1) = Some e ∧ mixinProviderId e = Some p ∧ R' p)
    as Hend'.
  { destruct Hend as [->|(e & p & He & Hp & Hr)]; [by left|right]. exists e, p. auto. }
  destruct (list_find _ (drop k table)) as [[fi e]|] eqn:Hfind.
  2:{ injection Hscan as <- <-. split.
      - split; [done|]. rewrite Htable0. exists k. split_and!; [done..|].
        intros p i e' [Hp| ->] Hi He Hfirst; [by apply (Hmatch p i e')|].
        apply list_find_None in Hfind. rewrite Forall_forall in Hfind.
        assert (i < k) as Hik.
        { destruct (decide (i < k)); [done|]. exfalso. apply (Hfind e'); [|done].
          apply list_elem_of_lookup. exists (i - k). rewrite lookup_drop.
          by replace (k + (i - k)) with i by lia. }
        split; [done|]. intros Hlast. apply lookup_lt_Some in Hi. lia.
      - exists []. rewrite app_nil_r. split; [done|]. by intros did e ?%elem_of_nil. }
  apply list_find_Some in Hfind as (Hfi & Hprov & Hbefore).
  rewrite lookup_drop in Hfi. pose proof (lookup_lt_Some _ _ _ Hfi) as Hfilt.
  rewrite length_drop in Hscan.
  set (st1 := if decide (h_id h ∈ p_ret st) then st
              else {| p_ret := p_ret st ++ [h_id h];
                      p_remaining := h_id h :: p_remaining st;
                      p_trace := p_trace st |}) in *.
  assert (p_trace st1 = p_trace st) as Htr1
    by (subst st1; by destruct (decide (h_id h ∈ p_ret st))).
  clearbody st1.
  assert (∀ i e', table !! i = Some e' → mixinProviderId e' = Some id →
                  (∀ j e'', table !! j = Some e'' → mixinProviderId e'' = Some id → i ≤ j) →
                  i ≤ k + fi ∧ (k ≤ i → i = k + fi)) as Hfirstmatch.
  { intros i e' Hi He Hfirst. assert (i ≤ k + fi) by (by apply (Hfirst _ e)).
    split; [done|]. intros Hki.
    destruct (decide (i - k < fi)) as [Hlt'|]; [|lia]. exfalso.
    apply (Hbefore (i - k) e'); [|done..]. rewrite lookup_drop.
    by replace (k + (i - k)) with i by lia. }
  case_decide as Hlast; injection Hscan as <- <-; cbn [p_trace].
  - split.
    + split; [done|]. rewrite Htable0. exists k. split_and!; [done..| |].
      * intros e0 He0. rewrite Htr1. apply elem_of_app. left. auto.
      * intros p i e' [Hp| ->] Hi He Hfirst.
        -- destruct (Hmatch p i e' Hp Hi He Hfirst) as [H1 H2]. split; [done|].
           intros Hl. rewrite Htr1. apply elem_of_app. left. auto.
        -- destruct (Hfirstmatch i e' Hi He Hfirst) as [Hle Heq]. split.
           ++ intros Hnl. destruct (decide (i < k)); [done|]. lia.
           ++ intros _. apply elem_of_app. right. by apply list_elem_of_singleton.
    + eexists. split; [by rewrite Htr1|].
      intros did e0 Hin. by apply list_elem_of_singleton in Hin.
  - split.
    + split; [done|]. rewrite Htable0. exists (k + (fi + 1)). split_and!.
      * cbn. by rewrite drop_drop.
      * right. lia.
      * right. exists e, id. replace (k + (fi + 1) - 1) with (k + fi) by lia. auto.
      * intros e0 He0. rewrite <-take_take_drop in He0.
        apply elem_of_app in He0 as [He0|He0].
        -- rewrite Htr1. apply elem_of_app. left. auto.
        -- apply elem_of_app. right. apply elem_of_released. by split.
      * intros p i e' [Hp| ->] Hi He Hfirst.
        -- destruct (Hmatch p i e' Hp Hi He Hfirst) as [H1 H2]. split.
           ++ intros Hnl. specialize (H1 Hnl). lia.
           ++ intros Hl. rewrite Htr1. apply elem_of_app. left. auto.
        -- destruct (Hfirstmatch i e' Hi He Hfirst) as [Hle Heq]. split; [lia|].
           intros Hl. lia.
    + eexists. split; [by rewrite Htr1|].
      intros did e0 [-> He0]%elem_of_released. split; [done|].
      exists table, (drop (k + (fi + 1)) table). split_and!; [done|cbn; by rewrite drop_drop|].
      rewrite length_drop.
      replace (length table - (length table - (k + (fi + 1)))) with (k + (fi + 1)) by lia.
      rewrite <-take_take_drop. apply elem_of_app. by right.
Qed.

(** One turn of the [while] loop, for the chains of all devices. *)
Lemma scanDevices_splice (R R' P : string → Prop) id ds0 : ∀ ds st ds' st',
  scanDevices id ds st = (ds', st') →
  R id → (∀ p, R p → R' p) →
  Forall2 (splicedThrough R P (p_trace st)) ds0 ds →
  Forall2 (splicedThrough R' (λ p, P p ∨ p = id) (p_trace st')) ds0 ds'
  ∧ ∃ evs, p_trace st' = p_trace st ++ evs
      ∧ ∀ did e, EvInvalidateEntry did e ∈ evs →
          ∃ i h0 h' table rest,
            ds0 !! i = Some h0 ∧ ds' !! i = Some h' ∧ h_id h0 = did
            ∧ h_mixinTable h0 = Some table ∧ h_mixinTable h' = Some rest
            ∧ e ∈ take (length table - length rest) table.
Proof.
  induction ds0 as [|h0 ds0 IH]; intros ds st ds' st' Hscan Hid HR Hall.
  - apply Forall2_nil_inv_l in Hall as ->. simpl in Hscan. injection Hscan as <- <-.
    split; [constructor|]. exists []. rewrite app_nil_r. split; [done|].
    by intros did e ?%elem_of_nil.
  - apply Forall2_cons_inv_l in Hall as (h & ds1 & Hh & Hall & ->). simpl in Hscan.
    destruct (scanDevice id h st) as [h1 st1] eqn:H1.
    destruct (scanDevices id ds1 st1) as [ds2 st2] eqn:H2.
    injection Hscan as <- <-.
    destruct (scanDevice_splice R R' P id h0 h st h1 st1 H1 Hid HR Hh)
      as (Hh1 & ev1 & Ht1 & Hrel1).
    destruct (IH ds1 st1 ds2 st2 H2 Hid HR) as (Hall2 & ev2 & Ht2 & Hrel2).
    { eapply Forall2_impl; [exact Hall|]. intros a b.
      apply splicedThrough_mono; [done|done|]. intros e He. rewrite Ht1.
      apply elem_of_app. by left. }
    split.
    + constructor; [|done]. revert Hh1. apply splicedThrough_mono; [done|done|].
      intros e He. rewrite Ht2. apply elem_of_app. by left.
    + exists (ev1 ++ ev2). split; [by rewrite Ht2, Ht1, <-(assoc_L (++))|].
      intros did e [Hin|Hin]%elem_of_app.
      * destruct (Hrel1 did e Hin) as (-> & table & rest & Ht & Hr & He).
        exists 0, h0, h1, table, rest. by split_and!.
      * destruct (Hrel2 did e Hin) as (i & a & b & table & rest & Ha & Hb & Hd & Ht & Hr & He).
        exists (S i), a, b, table, rest. by split_and!.
Qed.

(** The first pass keeps [spliceInv]. *)
Lemma whileRemaining_splice ds0 S fuel : ∀ ds st ds' st',
  whileRemaining fuel ds st = Some (ds', st') →
  spliceInv ds0 S ds st → spliceInv ds0 S ds' st'.
Proof.
  induction fuel as [|fuel IH]; intros ds st ds' st'; simpl.
  - destruct (p_remaining st); [|done]. by intros [= <- <-].
  - destruct (p_remaining st) as [|id rest] eqn:Hpop; [by intros [= <- <-]|].
    destruct (scanDevices id ds _) as [ds1 st1] eqn:Hscan.
    intros Hrun (Hall & Hrel & Hrem). apply (IH ds1 st1); [done|]. clear Hrun IH.
    assert (id ∈ S ∨ id ∈ p_ret st) as Hid by (apply Hrem; rewrite Hpop; set_solver).
    pose proof (scanDevices_facts _ _ _ _ _ Hscan)
      as (Htouched & (new & Hr & Hm & _ & _) & _ & _).
    cbn [p_ret p_remaining p_trace] in Hr, Hm.
    destruct (scanDevices_splice (λ p, p ∈ S ∨ p ∈ p_ret st)
                (λ p, p ∈ S ∨ p ∈ p_ret st1)
                (λ p, (p ∈ S ∨ p ∈ p_ret st) ∧ p ∉ id :: rest)
                id ds0 ds _ ds1 st1 Hscan Hid)
      as (Hall1 & evs & Ht & Hnew).
    { intros p [Hp|Hp]; [by left|right]. rewrite Hr. set_solver. }
    { cbn [p_trace]. eapply Forall2_impl; [exact Hall|]. intros a b.
      apply splicedThrough_mono; [done| |done]. intros p. by rewrite Hpop. }
    cbn [p_trace] in Ht. split_and!.
    + eapply Forall2_impl; [exact Hall1|]. intros a b.
      apply splicedThrough_mono; [done| |done].
      intros p [Hp Hnot]. rewrite Hm, Hr in *.
      destruct (decide (p = id)) as [->|Hne]; [by right|left].
      split.
      * destruct Hp as [Hp|[Hp|Hp]%elem_of_app]; [by left|by right|].
        exfalso. apply Hnot. apply elem_of_app. left. by apply elem_of_reverse.
      * intros [->|Hin]%elem_of_cons; [done|]. apply Hnot. apply elem_of_app. by right.
    + intros did e. rewrite Ht. intros [Hin|Hin]%elem_of_app; [|by apply Hnew].
      destruct (Hrel did e Hin) as (i & a & b & table & rest0 & Ha & Hb & Hd & Htab & Hb' & He).
      destruct (Forall2_lookup_l _ _ _ _ _ Htouched Hb) as (b1 & Hb1 & [[_ Hshr] _]).
      destruct Hshr as [->|(t & k & Ht0 & Ht1)].
      * exists i, a, b, table, rest0. by split_and!.
      * rewrite Hb' in Ht0. injection Ht0 as <-.
        exists i, a, b1, table, (drop k rest0). split_and!; try done.
        eapply elem_of_take_le; [exact He|]. rewrite length_drop. lia.
    + intros x. rewrite Hm, Hr. intros [Hx|Hx]%elem_of_app.
      * right. apply elem_of_reverse in Hx. set_solver.
      * destruct (Hrem x) as [?|?]; [rewrite Hpop; set_solver|by left|right; set_solver].
Qed.

Lemma firstPass_splice ds ids ds' st' :
  firstPass ds ids = Some (ds', st') → p_remaining st' = [] →
  Forall2 (splicedThrough (λ p, p ∈ ids ∨ p ∈ p_ret st')
             (λ p, p ∈ ids ∨ p ∈ p_ret st') (p_trace st')) ds ds'
  ∧ releasesSpliced ds ds' (p_trace st').
Proof.
  intros Hrun Hdone. unfold firstPass in Hrun.
  apply (whileRemaining_splice ds ids) in Hrun as (Hall & Hrel & _).
  - split; [|done]. eapply Forall2_impl; [exact Hall|]. intros a b.
    apply splicedThrough_mono; [done| |done]. intros p Hp. split; [done|].
    rewrite Hdone. apply not_elem_of_nil.
  - split_and!; cbn [p_ret p_remaining p_trace].
    + apply Forall_Forall2_diag, Forall_forall. intros h _.
      apply splicedThrough_refl. intros p [[Hp|Hp] Hnot].
      * apply Hnot. by apply elem_of_reverse.
      * by apply elem_of_nil in Hp.
    + by intros did e ?%elem_of_nil.
    + intros x Hx. left. by apply elem_of_reverse.
Qed.

(** C1. [invalidateMixins] always returns; the set [ret] of its first pass
    is the least set that holds the id of every device whose chain mentions
    an id of [ids] or of [ret]; at a match that is not the last entry of the
    chain the entries from the head through the match are spliced out and
    released and the entries after it are kept, at a match on the last entry
    a warning is logged and the chain is left as it is; a device that is not
    in [ret] keeps its handler, and nothing is released or rebuilt for it.
    In the result every device keeps its place and its id, and its chain is
    the chain before without its first [k] entries, all of them released:
    for every id of [ids] and of [ret], the first entry of the chain that
    matches the id is among them, with the entries before it, unless it is
    the last entry, for which the warning is logged; the last of the [k]
    entries is such a match, so that the entries after the matches are
    kept; and nothing is released that is not spliced out. *)
Theorem invalidateMixins_propagation (rt : ScryptedRuntime) (ids : list string) :
  ∃ rt' ret evs,
    invalidateMixins rt ids = Some (rt', ret)
    ∧ trace rt' = trace rt ++ evs
    ∧ closedUnder (devices rt) ids (λ x, x ∈ ret)
    ∧ (∀ R, closedUnder (devices rt) ids R → ∀ x, x ∈ ret → R x)
    ∧ (∀ id device st table i e,
         h_mixinTable device = Some table →
         table !! i = Some e →
         mixinProviderId e = Some id →
         (∀ j e', table !! j = Some e' → mixinProviderId e' = Some id → i ≤ j) →
         h_id device ∈ p_ret (scanDevice id device st).2
         ∧ (i ≠ length table - 1 →
              (scanDevice id device st).1
                = {| h_id := h_id device; h_mixinTable := Some (drop (S i) table) |}
              ∧ p_trace (scanDevice id device st).2
                = p_trace st ++ (take (S i) table ≫= invalidateEntry (h_id device)))
         ∧ (i = length table - 1 →
              (scanDevice id device st).1 = device
              ∧ p_trace (scanDevice id device st).2
                = p_trace st
                  ++ [EvConsoleWarn "attempt to invalidate mixin on actual device?"]))
    ∧ (∀ i h, devices rt !! i = Some h → h_id h ∉ ret →
         devices rt' !! i = Some h
         ∧ (∀ e, EvInvalidateEntry (h_id h) e ∉ evs)
         ∧ EvRebuildMixinTable (h_id h) ∉ evs)
    ∧ (∀ i h0, devices rt !! i = Some h0 →
         ∃ h, devices rt' !! i = Some h
              ∧ splicedThrough (λ p, p ∈ ids ∨ p ∈ ret) (λ p, p ∈ ids ∨ p ∈ ret)
                  evs h0 h)
    ∧ length (devices rt') = length (devices rt)
    ∧ releasesSpliced (devices rt) (devices rt') evs.
Proof.
  destruct (firstPass_inv (devices rt) ids)
    as (ds & st & Hfirst & (Ht & Hleast & _ & Hclo & Htr & _) & Hdone).
  destruct (firstPass_splice (devices rt) ids ds st Hfirst Hdone) as (Hspl & Hrel).
  exists (emit (p_trace st ++ secondPass (p_ret st)) (set_devices ds rt)),
    (p_ret st), (p_trace st ++ secondPass (p_ret st)).
  split_and!.
  - unfold invalidateMixins. by rewrite Hfirst.
  - done.
  - intros device p Hdev Hmen Hp.
    destruct (Hclo p Hp) as [Hrem|Hall]; [rewrite Hdone in Hrem; set_solver|].
    by apply Hall.
  - exact Hleast.
  - intros id device st0 table i e ? ? ? ?. by eapply scanDevice_match.
  - intros i h Hi Hnot. simpl.
    destruct (Forall2_lookup_l _ _ _ _ _ Ht Hi) as (h' & Hi' & [_ [->|Hin]]);
      [|done].
    split_and!; [done|..].
    + intros e [Hin|Hin]%elem_of_app.
      * rewrite Forall_forall in Htr. by apply Htr in Hin.
      * apply elem_of_secondPass in Hin as (did & _ & [=]).
    + intros [Hin|Hin]%elem_of_app.
      * by apply (firstPassEvent_no_rebuild _ _ _ Htr) in Hin.
      * apply elem_of_secondPass in Hin as (did & Hdid & [= <-]). done.
  - intros i h0 Hi. cbn [devices emit set_devices].
    destruct (Forall2_lookup_l _ _ _ _ _ Hspl Hi) as (h & Hi' & Hh).
    exists h. split; [done|]. revert Hh. apply splicedThrough_mono; [done|done|].
    intros e He. apply elem_of_app. by left.
  - cbn [devices emit set_devices]. symmetry. by eapply Forall2_length.
  - cbn [devices emit set_devices]. intros did e [Hin|Hin]%elem_of_app.
    + by apply Hrel.
    + apply elem_of_secondPass in Hin as (did' & _ & [=]).
Qed.

(** C8. The first pass ends with an empty worklist and starts no rebuild;
    the rebuilds come after all its events, one for each id of its result
    set and for no other device. *)
Theorem invalidateMixins_two_passes (rt : ScryptedRuntime) (ids : list string) :
  ∃ ds st rt',
    firstPass (devices rt) ids = Some (ds, st)
    ∧ p_remaining st = []
    ∧ (∀ did, EvRebuildMixinTable did ∉ p_trace st)
    ∧ invalidateMixins rt ids = Some (rt', p_ret st)
    ∧ trace rt' = trace rt ++ p_trace st ++ (EvRebuildMixinTable <$> p_ret st)
    ∧ NoDup (p_ret st)
    ∧ (∀ did, EvRebuildMixinTable did ∈ trace rt' →
         EvRebuildMixinTable did ∈ trace rt ∨ did ∈ p_ret st).
Proof.
  destruct (firstPass_inv (devices rt) ids)
    as (ds & st & Hfirst & (_ & _ & _ & _ & Htr & Hnd) & Hdone).
  exists ds, st, (emit (p_trace st ++ secondPass (p_ret st)) (set_devices ds rt)).
  split_and!; [done|done|..|done|].
  - intros did. by apply (firstPassEvent_no_rebuild (p_ret st)).
  - unfold invalidateMixins. by rewrite Hfirst.
  - simpl. by rewrite secondPass_fmap.
  - simpl. intros did [Hin|[Hin|Hin]%elem_of_app]%elem_of_app.
    + by left.
    + by apply (firstPassEvent_no_rebuild _ _ _ Htr) in Hin.
    + apply elem_of_secondPass in Hin as (did' & Hdid & [= ->]). by right.
Qed.

(** Invalidating [C] in [chainRuntime]: [A] and [B] mention [C], [D]
    mentions [A], and [E] is left alone. *)
Example invalidate_chain :
  (λ r, (r.2, devices r.1, trace r.1)) <$> invalidateMixins chainRuntime ["C"]
  = Some (["A"; "B"; "D"],
          [{| h_id := "A"; h_mixinTable := Some [{| mixinProviderId := None; entry := 3 |}] |};
           {| h_id := "B"; h_mixinTable := Some [{| mixinProviderId := None; entry := 5 |}] |};
           {| h_id := "D"; h_mixinTable := Some [{| mixinProviderId := None; entry := 7 |}] |};
           {| h_id := "E"; h_mixinTable := Some [{| mixinProviderId := None; entry := 8 |}] |}],
          [EvConsoleLog "invalidating mixin";
           EvInvalidateEntry "A" {| mixinProviderId := Some "B"; entry := 1 |};
           EvConsoleLog "invalidating mixin";
           EvInvalidateEntry "A" {| mixinProviderId := Some "C"; entry := 2 |};
           EvConsoleLog "invalidating mixin";
           EvInvalidateEntry "B" {| mixinProviderId := Some "C"; entry := 4 |};
           EvConsoleLog "invalidating mixin";
           EvInvalidateEntry "D" {| mixinProviderId := Some "A"; entry := 6 |};
           EvRebuildMixinTable "A"; EvRebuildMixinTable "B"; EvRebuildMixinTable "D"]).
Proof. vm_compute. reflexivity. Qed.

(** C1 at [chainRuntime] and the id [C]. *)
Lemma invalidateMixins_propagation_witness :
  ∃ rt' ret,
    invalidateMixins chainRuntime ["C"] = Some (rt', ret)
    ∧ closedUnder (devices chainRuntime) ["C"] (λ x, x ∈ ret)
    ∧ devices rt' !! 3 = devices chainRuntime !! 3.
Proof.
  destruct (invalidateMixins_propagation chainRuntime ["C"])
    as (rt' & ret & evs & Hrun & _ & Hclosed & _ & _ & Hkept & _).
  exists rt', ret. split; [exact Hrun|]. split; [exact Hclosed|].
  pose proof Hrun as Hret. vm_compute in Hret. injection Hret as _ Hret.
  destruct (Hkept 3 {| h_id := "E";
                       h_mixinTable := Some [{| mixinProviderId := None; entry := 8 |}] |}
              eq_refl) as (Hsame & _).
  - rewrite <-Hret. simpl. intros Hin. by repeat (apply elem_of_cons in Hin as [?|Hin]);
      try apply elem_of_nil in Hin.
  - by rewrite Hsame.
Defined.

(** C8 at [chainRuntime] and the id [C]. *)
Lemma invalidateMixins_two_passes_witness :
  ∃ st rt',
    p_remaining st = []
    ∧ invalidateMixins chainRuntime ["C"] = Some (rt', p_ret st)
    ∧ trace rt' = trace chainRuntime ++ p_trace st ++ (EvRebuildMixinTable <$> p_ret st).
Proof.
  destruct (invalidateMixins_two_passes chainRuntime ["C"])
    as (ds & st & rt' & _ & Hdone & _ & Hrun & Htrace & _).
  exists st, rt'. split; [exact Hdone|]. split; [exact Hrun|exact Htrace].
Defined.

(** ** The order of interface names and [sortInterfaces] *)

Lemma ascii_compare_lt_trans a b c :
  Ascii.compare a b = Lt → Ascii.compare b c = Lt → Ascii.compare a c = Lt.
Proof.
  unfold Ascii.compare. rewrite !N.compare_lt_iff. apply N.lt_trans.
Qed.

Lemma string_compare_refl a : String.compare a a = Eq.
Proof.
  induction a as [|x a IH]; simpl; [done|].
  unfold Ascii.compare. by rewrite N.compare_refl.
Qed.

Lemma string_compare_lt_trans a : ∀ b c,
  String.compare a b = Lt → String.compare b c = Lt → String.compare a c = Lt.
Proof.
  induction a as [|x a IH]; intros [|y b] [|z c]; simpl; try done.
  destruct (Ascii.compare x y) eqn:Hxy; try done;
    destruct (Ascii.compare y z) eqn:Hyz; try done; intros Hab Hbc.
  - apply Ascii.compare_eq_iff in Hxy as ->. apply Ascii.compare_eq_iff in Hyz as ->.
    unfold Ascii.compare. rewrite N.compare_refl. by eapply IH.
  - apply Ascii.compare_eq_iff in Hxy as ->. by rewrite Hyz.
  - apply Ascii.compare_eq_iff in Hyz as <-. by rewrite Hxy.
  - by rewrite (ascii_compare_lt_trans _ _ _ Hxy Hyz).
Qed.

Global Instance string_le_trans : Transitive string_le.
Proof.
  intros a b c. unfold string_le, String.leb.
  destruct (String.compare a b) eqn:Hab; try done;
    destruct (String.compare b c) eqn:Hbc; try done; intros _ _.
  - apply String.compare_eq_iff in Hab as ->. by rewrite Hbc.
  - apply String.compare_eq_iff in Hab as ->. by rewrite Hbc.
  - apply String.compare_eq_iff in Hbc as <-. by rewrite Hab.
  - by rewrite (string_compare_lt_trans _ _ _ Hab Hbc).
Qed.

Global Instance string_le_total : Total string_le.
Proof. intros a b. apply String.leb_total. Qed.

Global Instance string_le_antisym : AntiSymm (=) string_le.
Proof. intros a b. apply String.leb_antisym. Qed.

Lemma elem_of_sortInterfaces x l : x ∈ sortInterfaces l ↔ x ∈ l.
Proof.
  unfold sortInterfaces. rewrite (merge_sort_Permutation string_le).
  apply elem_of_remove_dups.
Qed.

Lemma NoDup_sortInterfaces l : NoDup (sortInterfaces l).
Proof.
  unfold sortInterfaces. rewrite (merge_sort_Permutation string_le).
  apply NoDup_remove_dups.
Qed.

Lemma Sorted_sortInterfaces l : Sorted string_le (sortInterfaces l).
Proof. apply (Sorted_merge_sort string_le). Qed.

(** [sortInterfaces] depends on the set of the names only. *)
Lemma sortInterfaces_ext l1 l2 :
  (∀ x, x ∈ l1 ↔ x ∈ l2) → sortInterfaces l1 = sortInterfaces l2.
Proof.
  intros Hext. apply (Sorted_unique string_le); try apply Sorted_sortInterfaces.
  apply NoDup_Permutation; try apply NoDup_sortInterfaces.
  intros x. by rewrite !elem_of_sortInterfaces.
Qed.

Lemma sortInterfaces_absorb l p :
  p ⊆ l → sortInterfaces (sortInterfaces l ++ p) = sortInterfaces l.
Proof.
  intros Hsub. apply sortInterfaces_ext. intros x.
  rewrite elem_of_app, elem_of_sortInterfaces. set_solver.
Qed.

Lemma sortInterfaces_idemp l : sortInterfaces (sortInterfaces l) = sortInterfaces l.
Proof. apply sortInterfaces_ext. intros x. apply elem_of_sortInterfaces. Qed.

Lemma strings_js l : strings (as_array (js_of_strings l)) = l.
Proof. unfold strings. simpl. induction l as [|x l IH]; csimpl; congruence. Qed.

(** ** Reading and writing a device's state *)

Lemma setState_fields pd k v :
  pd_id (setState pd k v).1 = pd_id pd
  ∧ pd_pluginId (setState pd k v).1 = pd_pluginId pd
  ∧ pd_nativeId (setState pd k v).1 = pd_nativeId pd
  ∧ (is_Some (pd_state pd) → is_Some (pd_state (setState pd k v).1)).
Proof. unfold setState. destruct (pd_state pd) eqn:E; simpl; rewrite ?E; eauto. Qed.

Lemma getState_setState pd k v k' :
  is_Some (pd_state pd) →
  getState (setState pd k v).1 k' = if decide (k = k') then v else getState pd k'.
Proof.
  intros [st Hst]. unfold setState, getState. rewrite Hst. simpl.
  case_decide as Hk; [subst; by rewrite lookup_insert_eq|by rewrite lookup_insert_ne].
Qed.

Lemma setState_changed pd k v :
  is_Some (pd_state pd) →
  (setState pd k v).2 = bool_decide (getState pd k ≠ v).
Proof. intros [st Hst]. unfold setState. by rewrite Hst. Qed.

Lemma setPluginDeviceState_spec pd k v :
  setPluginDeviceState pd k v
  = ((setState pd k v).1, (setState pd k v).2,
     [EvPropertyEvent (pd_id pd) k (setState pd k v).2]).
Proof. unfold setPluginDeviceState. by destruct (setState pd k v). Qed.

Lemma agree_trans pd1 pd2 pd3 : agree pd1 pd2 → agree pd2 pd3 → agree pd1 pd3.
Proof. unfold agree. intros (?&?&?&?&?&?&?) (?&?&?&?&?&?&?). split_and!; congruence. Qed.

Lemma agree_refl pd : is_Some (pd_state pd) → agree pd pd.
Proof. unfold agree. auto 10. Qed.

Lemma agree_setState pd k v :
  is_Some (pd_state pd) →
  k ≠ Property_interfaces → k ≠ Property_providedInterfaces → k ≠ Property_mixins →
  agree pd (setState pd k v).1.
Proof.
  intros Hst ? ? ?. destruct (setState_fields pd k v) as (?&?&?&?).
  unfold agree. rewrite !getState_setState by done.
  repeat case_decide; try done. split_and!; auto.
Qed.

Lemma mixinInterfacesOf_agree pd pd' p :
  agree pd pd' → mixinInterfacesOf pd' p = mixinInterfacesOf pd p.
Proof. intros (_&_&_&_&Hi&_&Hm). unfold mixinInterfacesOf. by rewrite Hi, Hm. Qed.

Lemma setState_is_Some pd k v : is_Some (pd_state pd) → is_Some (pd_state (setState pd k v).1).
Proof. apply setState_fields. Qed.
Lemma setState_id pd k v : pd_id (setState pd k v).1 = pd_id pd.
Proof. apply setState_fields. Qed.
Lemma setState_pluginId pd k v : pd_pluginId (setState pd k v).1 = pd_pluginId pd.
Proof. apply setState_fields. Qed.
Lemma setState_nativeId pd k v : pd_nativeId (setState pd k v).1 = pd_nativeId pd.
Proof. apply setState_fields. Qed.

Lemma getState_setState_eq pd k v :
  is_Some (pd_state pd) → getState (setState pd k v).1 k = v.
Proof. intros. rewrite getState_setState by done. by rewrite decide_True. Qed.

Lemma getState_setState_ne pd k v k' :
  is_Some (pd_state pd) → k ≠ k' → getState (setState pd k v).1 k' = getState pd k'.
Proof. intros. rewrite getState_setState by done. by rewrite decide_False. Qed.

Lemma upsertInterfaces_spec pd pluginId device :
  is_Some (pd_state pd) →
  let r := upsertInterfaces pd pluginId device in
  let P := providedInterfacesOf device in
  pd_id r.1.1 = pd_id pd ∧ pd_pluginId r.1.1 = pd_pluginId pd
  ∧ pd_nativeId r.1.1 = pd_nativeId pd ∧ is_Some (pd_state r.1.1)
  ∧ getState r.1.1 Property_providedInterfaces = js_of_strings P
  ∧ getState r.1.1 Property_interfaces = js_of_strings (mixinInterfacesOf pd P)
  ∧ getState r.1.1 Property_mixins = getState pd Property_mixins
  ∧ r.1.2 = bool_decide (getState pd Property_interfaces ≠ js_of_strings (mixinInterfacesOf pd P))
            || bool_decide (getState pd Property_providedInterfaces ≠ js_of_strings P).
Proof.
  intros Hst r P. subst r P. unfold upsertInterfaces.
  rewrite setPluginDeviceState_spec. cbv beta iota zeta.
  rewrite setPluginDeviceState_spec. cbv beta iota zeta.
  rewrite setPluginDeviceState_spec. cbv beta iota zeta.
  cbn [fst snd].
  set (pd1 := (setState pd Property_pluginId (JString pluginId)).1).
  assert (is_Some (pd_state pd1)) as H1 by (by apply setState_is_Some).
  set (pd2 := (setState pd1 Property_providedInterfaces _).1).
  assert (is_Some (pd_state pd2)) as H2 by (by apply setState_is_Some).
  rewrite !setState_changed by done.
  rewrite getState_setState_eq by done.
  rewrite (getState_setState_ne pd2) by done.
  rewrite (getState_setState_ne pd2) by done.
  subst pd2.
  rewrite !setState_id, !setState_pluginId, !setState_nativeId.
  rewrite getState_setState_eq by done.
  rewrite !(getState_setState_ne pd1) by done.
  subst pd1.
  rewrite !setState_id, !setState_pluginId, !setState_nativeId.
  rewrite !(getState_setState_ne pd) by done.
  split_and!; auto using setState_is_Some.
Qed.

Lemma setPluginDeviceState_agree pd0 pd k v pd' c ev :
  setPluginDeviceState pd k v = (pd', c, ev) →
  agree pd0 pd →
  k ≠ Property_interfaces → k ≠ Property_providedInterfaces → k ≠ Property_mixins →
  agree pd0 pd'.
Proof.
  rewrite setPluginDeviceState_spec. intros [= <- _ _] Hag ? ? ?.
  eapply agree_trans; [exact Hag|]. apply agree_setState; try done. apply Hag.
Qed.

Ltac agree_step :=
  match goal with
  | Hag : agree ?pd0 ?pd |- context [setPluginDeviceState ?pd ?k ?v] =>
    let pd' := fresh "pd" in
    let c := fresh "c" in
    let ev := fresh "ev" in
    let E := fresh "E" in
    destruct (setPluginDeviceState pd k v) as [[pd' c] ev] eqn:E;
    apply (setPluginDeviceState_agree pd0) in E; [|exact Hag|done..];
    clear Hag
  end.

Lemma upsertDescriptor_agree `{InferDefaults} rt pd pluginId device b1 b2 b3 :
  is_Some (pd_state pd) →
  agree pd (upsertDescriptor rt pd pluginId device b1 b2 b3).1.
Proof.
  intros Hst. unfold upsertDescriptor.
  pose proof (agree_refl pd Hst) as H0.
  destruct (dev_info device) as [info|], b1, b2, b3; repeat agree_step; done.
Qed.

(** ** The device tables *)

Lemma snd_list_find_shift {A} (o : option (nat * A)) :
  snd <$> (prod_map S id <$> o) = snd <$> o.
Proof. by destruct o as [[]|]. Qed.

Lemma storeDevice_elem pd T : pd ∈ storeDevice pd T.
Proof.
  induction T as [|x T IH]; simpl; [set_solver|].
  case_decide; [set_solver|].
  destruct (keyBefore _ _ && bool_decide _); set_solver.
Qed.

Lemma storeDevice_has pd T : pd_id pd ∈ pd_id <$> storeDevice pd T.
Proof.
  induction T as [|x T IH]; csimpl; [set_solver|].
  case_decide; csimpl; [set_solver|].
  destruct (keyBefore _ _ && bool_decide _); csimpl; set_solver.
Qed.

Lemma storeDevice_storeDevice a b T :
  pd_id a = pd_id b → storeDevice b (storeDevice a T) = storeDevice b T.
Proof.
  intros Hid. induction T as [|x T IH]; simpl.
  - by rewrite decide_True.
  - destruct (decide (pd_id x = pd_id a)) as [Hx|Hx]; simpl.
    + rewrite decide_True by done. by rewrite decide_True by congruence.
    + rewrite (decide_False (P := pd_id x = pd_id b)) by congruence. rewrite <-Hid.
      destruct (keyBefore (pd_id a) (pd_id x) && bool_decide (pd_id a ∉ pd_id <$> T))
        eqn:Hins; simpl.
      * by rewrite decide_True.
      * rewrite decide_False by congruence. rewrite <-Hid.
        rewrite (bool_decide_false (pd_id a ∉ pd_id <$> storeDevice a T))
          by (intros Hnot; apply Hnot, storeDevice_has).
        rewrite andb_false_r. by rewrite IH.
Qed.

Lemma elem_of_storeDevice pd T x :
  x ∈ storeDevice pd T → x = pd ∨ x ∈ T.
Proof.
  induction T as [|y T IH]; simpl.
  - intros ->%list_elem_of_singleton. by left.
  - case_decide; [rewrite !elem_of_cons; naive_solver|].
    destruct (keyBefore _ _ && bool_decide _); rewrite !elem_of_cons; naive_solver.
Qed.

Lemma storeDevice_ids pd T :
  pd_id pd ∈ pd_id <$> T → pd_id <$> storeDevice pd T = pd_id <$> T.
Proof.
  induction T as [|y T IH]; csimpl; [by intros ?%elem_of_nil|].
  case_decide as Hy; csimpl; [by rewrite Hy|].
  intros [?|Hin]%elem_of_cons; [congruence|].
  rewrite (bool_decide_false (pd_id pd ∉ pd_id <$> T)) by (intros Hnot; by apply Hnot).
  rewrite andb_false_r. csimpl. by rewrite IH.
Qed.

(** After [table[pd._id] = pd] the first device that satisfies [P] is [pd],
    when [pd] satisfies [P] and takes a place not after that of the first
    device of the table that does. *)
Lemma list_find_storeDevice (P : PluginDevice → Prop) `{!∀ x, Decision (P x)} pd T :
  P pd →
  (∀ i x, T !! i = Some x → P x →
     ∃ j y, j ≤ i ∧ T !! j = Some y ∧ pd_id y = pd_id pd) →
  snd <$> list_find P (storeDevice pd T) = Some pd.
Proof.
  intros Hpd. induction T as [|x T IH]; intros Hfirst; simpl.
  - by rewrite decide_True.
  - destruct (decide (pd_id x = pd_id pd)) as [Hx|Hx]; simpl.
    + by rewrite decide_True.
    + destruct (keyBefore _ _ && bool_decide _); simpl; [by rewrite decide_True|].
      rewrite decide_False.
      * destruct (list_find P (storeDevice pd T)) as [[i y]|] eqn:Hfind;
          simpl in *; apply IH.
        all: intros i' x' Hi' Hx'.
        all: destruct (Hfirst (S i') x' Hi' Hx') as (j & z & Hj & Hz & Hid).
        all: destruct j as [|j]; [simpl in Hz; congruence|].
        all: exists j, z; split_and!; [lia|done..].
      * intros HPx. destruct (Hfirst 0 x eq_refl HPx) as (j & z & Hj & Hz & Hid).
        assert (j = 0) as -> by lia. simpl in Hz. congruence.
Qed.

Lemma findPluginDevice_storeDevice rt pluginId nid pd0 pd :
  (findPluginDevice rt pluginId nid = Some pd0 ∧ pd_id pd = pd_id pd0
   ∨ findPluginDevice rt pluginId nid = None) →
  pd_pluginId pd = pluginId →
  pd_nativeId pd = normalizeNativeId nid →
  findPluginDevice
    (set_pluginDevices (storeDevice pd (pluginDevices rt)) rt) pluginId nid = Some pd.
Proof.
  intros Hfound Hp Hn. unfold findPluginDevice in *. simpl.
  apply list_find_storeDevice.
  - split; [done|]. rewrite Hn. by destruct (normalizeNativeId nid); simpl;
      rewrite ?bool_decide_eq_true.
  - intros i x Hi Hx. destruct Hfound as [[Hfound Hid]|Hnone].
    + destruct (list_find _ (pluginDevices rt)) as [[i0 y]|] eqn:Hfind;
        simpl in Hfound; [|done]. injection Hfound as ->.
      apply list_find_Some in Hfind as (Hi0 & _ & Hmin).
      exists i0, pd0. split_and!; [|done..].
      destruct (decide (i0 ≤ i)) as [|Hlt]; [done|].
      exfalso. apply (Hmin i x); [done|lia|done].
    + destruct (list_find _ (pluginDevices rt)) as [[i0 y]|] eqn:Hfind;
        simpl in Hnone; [done|].
      apply list_find_None in Hfind. rewrite Forall_forall in Hfind.
      exfalso. apply (Hfind x); [by eapply list_elem_of_lookup_2|done].
Qed.

Lemma persisted_storeDevice rt pd devs :
  ds_devices (datastore rt) = storeDevice pd devs →
  persisted rt (pd_id pd) = Some pd.
Proof.
  intros Hds. unfold persisted. rewrite Hds.
  apply (list_find_storeDevice (λ d, pd_id d = pd_id pd)); [done|].
  intros i x Hi Hx. exists i, x. auto.
Qed.

Lemma normalizeNativeId_idemp n : normalizeNativeId (normalizeNativeId n) = normalizeNativeId n.
Proof. by destruct n. Qed.

(** ** [upsertDevice], stage by stage *)

Lemma upsertRecord_spec rt pluginId nid :
  let r := upsertRecord rt pluginId nid in
  let pd0 := upsertBase rt pluginId nid in
  pd_id r.1 = pd_id pd0 ∧ pd_pluginId r.1 = pluginId ∧ pd_nativeId r.1 = nid
  ∧ is_Some (pd_state r.1)
  ∧ (∀ k, k ≠ Property_nativeId → getState r.1 k = getState pd0 k)
  ∧ (∃ pdx, pd_id pdx = pd_id pd0 ∧ pluginDevices r.2 = storeDevice pdx (pluginDevices rt))
  ∧ ds_devices (datastore r.2) = ds_devices (datastore rt).
Proof.
  intros r pd0. subst r pd0. unfold upsertRecord, upsertBase.
  destruct (findPluginDevice rt pluginId nid) as [pd|]; cbn [nextId fst snd].
  all: match goal with
       | |- context [decide (getState ?p Property_nativeId ≠ ?v)] =>
         set (pdn := p); destruct (decide (getState pdn Property_nativeId ≠ v))
       end.
  all: assert (is_Some (pd_state pdn)) as Hst by (subst pdn; simpl; eauto).
  all: cbn [fst snd].
  all: rewrite ?setState_id, ?setState_pluginId, ?setState_nativeId.
  all: split_and!; try done; auto using setState_is_Some.
  all: try (intros k Hk; rewrite ?getState_setState_ne by done; subst pdn;
            unfold getState; simpl; rewrite ?lookup_empty; try done;
            try by destruct (pd_state pd)).
  all: try (by eexists pdn).
Qed.

Lemma mixinInterfacesOf_keys pd pd' p :
  getState pd' Property_interfaces = getState pd Property_interfaces →
  getState pd' Property_mixins = getState pd Property_mixins →
  mixinInterfacesOf pd' p = mixinInterfacesOf pd p.
Proof. intros Hi Hm. unfold mixinInterfacesOf. by rewrite Hi, Hm. Qed.

(** What one call of [upsertDevice] leaves. *)
Lemma upsertDevice_spec `{InferDefaults} rt pluginId device :
  let nid := normalizeNativeId (dev_nativeId device) in
  let pd0 := upsertBase rt pluginId nid in
  let P := providedInterfacesOf device in
  let r := upsertDevice rt pluginId device in
  let pd := pluginDevicePromise r.2 in
  pd_id pd = pd_id pd0 ∧ pd_pluginId pd = pluginId ∧ pd_nativeId pd = nid
  ∧ getState pd Property_providedInterfaces = js_of_strings P
  ∧ getState pd Property_interfaces = js_of_strings (mixinInterfacesOf pd0 P)
  ∧ getState pd Property_mixins = getState pd0 Property_mixins
  ∧ interfacesChanged r.2
    = bool_decide (getState pd0 Property_interfaces
                   ≠ js_of_strings (mixinInterfacesOf pd0 P))
      || bool_decide (getState pd0 Property_providedInterfaces ≠ js_of_strings P)
  ∧ pluginDevices r.1 = storeDevice pd (pluginDevices rt)
  ∧ ds_devices (datastore r.1) = storeDevice pd (ds_devices (datastore rt)).
Proof.
  intros nid pd0 P r pd. subst r pd P. unfold upsertDevice. fold nid.
  pose proof (upsertRecord_spec rt pluginId nid) as Hrec. cbv zeta in Hrec.
  fold pd0 in Hrec.
  destruct (upsertRecord rt pluginId nid) as [pd1 rt1].
  destruct Hrec as (Hid1 & Hp1 & Hn1 & Hst1 & Hk1 & (pdx & Hidx & Htab1) & Hds1).
  cbn [fst snd] in *.
  pose proof (upsertInterfaces_spec pd1 pluginId device Hst1) as Hint.
  cbv zeta in Hint.
  destruct (upsertInterfaces pd1 pluginId device) as [[pd2 changed] evs1].
  destruct Hint as (Hid2 & Hp2 & Hn2 & Hst2 & Hpi2 & Hi2 & Hm2 & Hc2).
  cbn [fst snd] in *.
  match goal with
  | |- context [upsertDescriptor ?a ?b ?c ?d ?e ?f ?g] =>
    pose proof (upsertDescriptor_agree a b c d e f g Hst2) as Hdesc;
    destruct (upsertDescriptor a b c d e f g) as [pd3 evs2]
  end.
  destruct Hdesc as (Hid3 & Hp3 & Hn3 & Hst3 & Hi3 & Hpi3 & Hm3).
  cbn [fst snd pluginDevicePromise interfacesChanged] in *.
  assert (∀ P, mixinInterfacesOf pd1 P = mixinInterfacesOf pd0 P) as Hmix.
  { intros P. apply mixinInterfacesOf_keys; by apply Hk1. }
  split_and!.
  - congruence.
  - congruence.
  - congruence.
  - by rewrite Hpi3.
  - by rewrite Hi3, Hi2, Hmix.
  - rewrite Hm3, Hm2. by apply Hk1.
  - rewrite Hc2, Hmix. by rewrite !Hk1.
  - simpl. rewrite Htab1. apply storeDevice_storeDevice. congruence.
  - simpl. by rewrite Hds1.
Qed.

Lemma findPluginDevice_ext rt rt' pluginId nid :
  pluginDevices rt' = pluginDevices rt →
  findPluginDevice rt' pluginId nid = findPluginDevice rt pluginId nid.
Proof. unfold findPluginDevice. by intros ->. Qed.

(** The device that a call worked on is the one that the next call finds. *)
Lemma findPluginDevice_upsertDevice `{InferDefaults} rt pluginId device :
  findPluginDevice (upsertDevice rt pluginId device).1 pluginId
    (normalizeNativeId (dev_nativeId device))
  = Some (pluginDevicePromise (upsertDevice rt pluginId device).2).
Proof.
  destruct (upsertDevice_spec rt pluginId device)
    as (Hid & Hp & Hn & _ & _ & _ & _ & Htab & _).
  set (nid := normalizeNativeId (dev_nativeId device)) in *.
  set (pd := pluginDevicePromise (upsertDevice rt pluginId device).2) in *.
  rewrite (findPluginDevice_ext
             (set_pluginDevices (storeDevice pd (pluginDevices rt)) rt)) by done.
  unfold upsertBase in Hid.
  destruct (findPluginDevice rt pluginId nid) as [pd0|] eqn:Hfind.
  - apply (findPluginDevice_storeDevice _ _ _ pd0); auto.
    subst nid. by rewrite normalizeNativeId_idemp.
  - apply (findPluginDevice_storeDevice _ _ _ pd); auto.
    subst nid. by rewrite normalizeNativeId_idemp.
Qed.

Lemma mixinInterfacesOf_stable pd0 pd1 p :
  getState pd1 Property_mixins = getState pd0 Property_mixins →
  getState pd1 Property_interfaces = js_of_strings (mixinInterfacesOf pd0 p) →
  mixinInterfacesOf pd1 p = mixinInterfacesOf pd0 p.
Proof.
  intros Hm Hi. unfold mixinInterfacesOf at 1. rewrite Hm, Hi.
  unfold mixinInterfacesOf. case_decide; [done|].
  rewrite strings_js. apply sortInterfaces_absorb. set_solver.
Qed.

(** C3. A second [upsertDevice] with the same plugin id and the same device
    reports [interfacesChanged = false], works on the same record, and leaves
    in the datastore the interfaces that the first call left there. *)
Theorem upsertDevice_idempotent `{InferDefaults} (rt : ScryptedRuntime)
    (pluginId : string) (device : Device) :
  let r1 := upsertDevice rt pluginId device in
  let r2 := upsertDevice r1.1 pluginId device in
  let id := pd_id (pluginDevicePromise r1.2) in
  interfacesChanged r2.2 = false
  ∧ pd_id (pluginDevicePromise r2.2) = id
  ∧ ∃ pd1 pd2,
      persisted r1.1 id = Some pd1 ∧ persisted r2.1 id = Some pd2
      ∧ getState pd2 Property_interfaces = getState pd1 Property_interfaces
      ∧ getState pd2 Property_providedInterfaces
        = getState pd1 Property_providedInterfaces.
Proof.
  intros r1 r2 id. subst r2 id.
  destruct (upsertDevice_spec rt pluginId device)
    as (Hid1 & Hp1 & Hn1 & Hpi1 & Hi1 & Hm1 & _ & _ & Hds1).
  destruct (upsertDevice_spec r1.1 pluginId device)
    as (Hid2 & Hp2 & Hn2 & Hpi2 & Hi2 & Hm2 & Hc2 & _ & Hds2).
  unfold upsertBase in Hid2, Hi2, Hm2, Hc2.
  subst r1. rewrite findPluginDevice_upsertDevice in Hid2, Hi2, Hm2, Hc2.
  set (pd1 := pluginDevicePromise (upsertDevice rt pluginId device).2) in *.
  set (r1 := upsertDevice rt pluginId device) in *.
  set (pd2 := pluginDevicePromise (upsertDevice r1.1 pluginId device).2) in *.
  assert (mixinInterfacesOf pd1 (providedInterfacesOf device)
          = mixinInterfacesOf (upsertBase rt pluginId
                                 (normalizeNativeId (dev_nativeId device)))
              (providedInterfacesOf device)) as Hstable.
  { by apply mixinInterfacesOf_stable. }
  split_and!.
  - rewrite Hc2, Hstable, Hi1, Hpi1.
    by rewrite !bool_decide_eq_false_2 by (intros Hne; by apply Hne).
  - done.
  - exists pd1, pd2. split_and!.
    + by eapply persisted_storeDevice.
    + rewrite <-Hid2. by eapply persisted_storeDevice.
    + by rewrite Hi2, Hstable, Hi1.
    + by rewrite Hpi2, Hpi1.
Qed.

(** One more call on a device that has mixins: the interfaces only grow. *)
Lemma upsertDevice_grows `{InferDefaults} rt pluginId device pd0 :
  findPluginDevice rt pluginId (normalizeNativeId (dev_nativeId device)) = Some pd0 →
  as_array (getState pd0 Property_mixins) ≠ [] →
  let pd := pluginDevicePromise (upsertDevice rt pluginId device).2 in
  pd_id pd = pd_id pd0
  ∧ getState pd Property_mixins = getState pd0 Property_mixins
  ∧ (∃ ifaces, getState pd Property_interfaces = js_of_strings ifaces
               ∧ Sorted string_le ifaces ∧ NoDup ifaces)
  ∧ strings (as_array (getState pd0 Property_interfaces))
    ⊆ strings (as_array (getState pd Property_interfaces))
  ∧ providedInterfacesOf device
    ⊆ strings (as_array (getState pd Property_interfaces)).
Proof.
  intros Hfind Hmix pd. subst pd.
  destruct (upsertDevice_spec rt pluginId device)
    as (Hid & _ & _ & _ & Hi & Hm & _).
  unfold upsertBase in Hid, Hi, Hm. rewrite Hfind in Hid, Hi, Hm.
  split_and!; [done|done|..].
  - eexists. split; [exact Hi|]. unfold mixinInterfacesOf.
    split; [apply Sorted_sortInterfaces|apply NoDup_sortInterfaces].
  - rewrite Hi, strings_js. unfold mixinInterfacesOf.
    rewrite decide_False by (by destruct (as_array (getState pd0 Property_mixins))).
    intros x Hx. apply elem_of_sortInterfaces. set_solver.
  - rewrite Hi, strings_js. unfold mixinInterfacesOf.
    intros x Hx. apply elem_of_sortInterfaces. set_solver.
Qed.

(** What a sequence of [upsertDevice] calls for one device leaves of the
    record it started from. *)
Lemma upsertDevice_sequence `{InferDefaults} (updates : list Device) :
  ∀ (rt : ScryptedRuntime) (pluginId : string) (nid : ScryptedNativeId),
  Forall (λ d, normalizeNativeId (dev_nativeId d) = normalizeNativeId nid) updates →
  let base := upsertBase rt pluginId (normalizeNativeId nid) in
  let cur :=
    upsertBase (foldl (λ rt d, (upsertDevice rt pluginId d).1) rt updates) pluginId
      (normalizeNativeId nid) in
  pd_id cur = pd_id base
  ∧ getState cur Property_mixins = getState base Property_mixins
  ∧ (as_array (getState base Property_mixins) ≠ [] →
       strings (as_array (getState base Property_interfaces))
       ⊆ strings (as_array (getState cur Property_interfaces))
       ∧ Forall (λ d, providedInterfacesOf d
                      ⊆ strings (as_array (getState cur Property_interfaces))) updates).
Proof.
  induction updates as [|d updates IH]; intros rt pluginId nid Hall; cbn [foldl].
  - by split_and!.
  - apply Forall_cons in Hall as [Hd Hall].
    destruct (upsertDevice_spec rt pluginId d) as (Hid & _ & _ & _ & Hi & Hm & _).
    pose proof (findPluginDevice_upsertDevice rt pluginId d) as Hnext.
    rewrite Hd in Hid, Hi, Hm, Hnext.
    set (rt1 := (upsertDevice rt pluginId d).1) in *.
    set (pd1 := pluginDevicePromise (upsertDevice rt pluginId d).2) in *.
    assert (upsertBase rt1 pluginId (normalizeNativeId nid) = pd1) as Hbase1
      by (unfold upsertBase; by rewrite Hnext).
    destruct (IH rt1 pluginId nid Hall) as (Hid' & Hm' & Hgrow).
    rewrite Hbase1 in Hid', Hm', Hgrow.
    split_and!; [congruence|congruence|].
    intros Hmix.
    destruct Hgrow as [Hold Hprov]; [by rewrite Hm|].
    assert (strings (as_array (getState (upsertBase rt pluginId (normalizeNativeId nid))
                                 Property_interfaces))
            ⊆ strings (as_array (getState pd1 Property_interfaces))) as Hold1.
    { rewrite Hi, strings_js. unfold mixinInterfacesOf.
      rewrite decide_False
        by (by destruct (as_array
                           (getState (upsertBase rt pluginId (normalizeNativeId nid))
                              Property_mixins))).
      intros x Hx. apply elem_of_sortInterfaces. set_solver. }
    assert (providedInterfacesOf d ⊆ strings (as_array (getState pd1 Property_interfaces)))
      as Hprov1.
    { rewrite Hi, strings_js. unfold mixinInterfacesOf.
      intros x Hx. apply elem_of_sortInterfaces. set_solver. }
    split; [by etrans|]. constructor; [by etrans|done].
Qed.

(** C2, amended. After any sequence of one or more [upsertDevice] calls for
    a device, the record found for it is the one the sequence started from
    (the one found then, or the new one), and its stored interfaces are in
    ascending order without repetition. When the device has mixins, they
    hold the interfaces stored before the sequence and the provided
    interfaces of every call of the sequence. When it has none, they are
    exactly the provided interfaces of the last call. *)
Theorem upsertDevice_union_with_mixins `{InferDefaults} (updates : list Device)
    (final : Device) :
  ∀ (rt : ScryptedRuntime) (pluginId : string) (nid : ScryptedNativeId),
  Forall (λ d, normalizeNativeId (dev_nativeId d) = normalizeNativeId nid)
    (updates ++ [final]) →
  let base := upsertBase rt pluginId (normalizeNativeId nid) in
  ∃ pd ifaces,
    findPluginDevice
      (foldl (λ rt d, (upsertDevice rt pluginId d).1) rt (updates ++ [final]))
      pluginId nid = Some pd
    ∧ pd_id pd = pd_id base
    ∧ getState pd Property_mixins = getState base Property_mixins
    ∧ getState pd Property_interfaces = js_of_strings ifaces
    ∧ Sorted string_le ifaces ∧ NoDup ifaces
    ∧ (as_array (getState base Property_mixins) ≠ [] →
         findPluginDevice rt pluginId nid = Some base
         ∧ strings (as_array (getState base Property_interfaces)) ⊆ ifaces
         ∧ Forall (λ d, providedInterfacesOf d ⊆ ifaces) (updates ++ [final]))
    ∧ (as_array (getState base Property_mixins) = [] →
         ifaces = providedInterfacesOf final).
Proof.
  intros rt pluginId nid Hall base.
  apply Forall_app in Hall as [Hall Hfinal]. apply Forall_cons in Hfinal as [Hfinal _].
  destruct (upsertDevice_sequence updates rt pluginId nid Hall) as (Hid & Hm & Hgrow).
  fold base in Hid, Hm, Hgrow. rewrite foldl_app. cbn [foldl].
  set (rt1 := foldl (λ rt d, (upsertDevice rt pluginId d).1) rt updates) in *.
  set (cur := upsertBase rt1 pluginId (normalizeNativeId nid)) in *.
  destruct (upsertDevice_spec rt1 pluginId final) as (Hid2 & _ & _ & _ & Hi2 & Hm2 & _).
  pose proof (findPluginDevice_upsertDevice rt1 pluginId final) as Hnext.
  rewrite Hfinal in Hid2, Hi2, Hm2, Hnext. fold cur in Hid2, Hi2, Hm2.
  set (pd := pluginDevicePromise (upsertDevice rt1 pluginId final).2) in *.
  exists pd, (mixinInterfacesOf cur (providedInterfacesOf final)).
  split_and!.
  - rewrite <-Hnext. unfold findPluginDevice. by rewrite normalizeNativeId_idemp.
  - congruence.
  - congruence.
  - done.
  - apply Sorted_sortInterfaces.
  - apply NoDup_sortInterfaces.
  - intros Hmix. destruct (Hgrow Hmix) as [Hold Hprov]. split_and!.
    + assert (findPluginDevice rt pluginId nid
              = findPluginDevice rt pluginId (normalizeNativeId nid)) as ->
        by (unfold findPluginDevice; by rewrite normalizeNativeId_idemp).
      subst base. unfold upsertBase in *.
      destruct (findPluginDevice rt pluginId (normalizeNativeId nid)); [done|].
      exfalso. apply Hmix. reflexivity.
    + etrans; [exact Hold|]. unfold mixinInterfacesOf.
      rewrite Hm. rewrite decide_False
        by (by destruct (as_array (getState base Property_mixins))).
      intros x Hx. apply elem_of_sortInterfaces. set_solver.
    + apply Forall_app. split.
      * eapply Forall_impl; [exact Hprov|]. intros d Hd. etrans; [exact Hd|].
        unfold mixinInterfacesOf.
        rewrite Hm. rewrite decide_False
          by (by destruct (as_array (getState base Property_mixins))).
        intros x Hx. apply elem_of_sortInterfaces. set_solver.
      * constructor; [|constructor]. unfold mixinInterfacesOf.
        intros x Hx. apply elem_of_sortInterfaces. set_solver.
  - intros Hnone. unfold mixinInterfacesOf. rewrite Hm, Hnone.
    rewrite decide_True by done. cbn [app].
    unfold providedInterfacesOf. apply sortInterfaces_idemp.
Qed.

(** Two reports of the device [c1] of plugin [p], which has no mixins. *)
Example upsert_twice_without_mixins :
  let rt := foldl (λ rt d, (@upsertDevice noInferredDefaults rt "p" d).1) emptyRuntime
              [declare (NidString "c1") ["OnOff"]; declare (NidString "c1") ["Battery"]] in
  (λ pd, getState pd Property_interfaces) <$> findPluginDevice rt "p" (NidString "c1")
  = Some (js_of_strings ["Battery"]).
Proof. vm_compute. reflexivity. Qed.

(** C2 as stated fails: a device without mixins keeps the provided
    interfaces of its last report only. *)
Lemma upsertDevice_union_counterexample :
  ¬ (∀ (I : InferDefaults) (rt : ScryptedRuntime) (pluginId : string)
       (nid : ScryptedNativeId) (updates : list Device) (pd : PluginDevice),
       Forall (λ d, normalizeNativeId (dev_nativeId d) = normalizeNativeId nid) updates →
       findPluginDevice (foldl (λ rt d, (upsertDevice rt pluginId d).1) rt updates)
         pluginId nid = Some pd →
       Forall (λ d, providedInterfacesOf d
                    ⊆ strings (as_array (getState pd Property_interfaces))) updates).
Proof.
  intros Hclaim.
  pose proof (Hclaim noInferredDefaults emptyRuntime "p" (NidString "c1")
                [declare (NidString "c1") ["OnOff"]; declare (NidString "c1") ["Battery"]])
    as Hc.
  destruct (findPluginDevice _ "p" (NidString "c1")) as [pd|] eqn:Hfind;
    [|vm_compute in Hfind; discriminate].
  specialize (Hc pd ltac:(by repeat constructor) eq_refl).
  apply Forall_cons in Hc as [Hc _]. specialize (Hc "OnOff").
  vm_compute in Hfind. injection Hfind as <-.
  assert ("OnOff" ∈ providedInterfacesOf (declare (NidString "c1") ["OnOff"])) as Hin.
  { apply (bool_decide_eq_true_1 _). vm_compute. reflexivity. }
  apply Hc in Hin. apply (bool_decide_eq_true_2 _) in Hin. vm_compute in Hin.
  discriminate.
Qed.

(** The amended C2 at a device with one mixin, reported twice. *)
Lemma upsertDevice_union_with_mixins_witness :
  ∃ pd ifaces,
    findPluginDevice
      (foldl (λ rt d, (@upsertDevice noInferredDefaults rt "p" d).1) mixedRuntime
         ([declare (NidString "c1") ["OnOff"]] ++ [declare (NidString "c1") ["Battery"]]))
      "p" (NidString "c1") = Some pd
    ∧ pd_id pd = "7"
    ∧ getState pd Property_interfaces = js_of_strings ifaces
    ∧ Sorted string_le ifaces ∧ NoDup ifaces
    ∧ strings (as_array (js_of_strings ["Zed"])) ⊆ ifaces
    ∧ Forall (λ d, providedInterfacesOf d ⊆ ifaces)
        ([declare (NidString "c1") ["OnOff"]] ++ [declare (NidString "c1") ["Battery"]]).
Proof.
  destruct (@upsertDevice_union_with_mixins noInferredDefaults
              [declare (NidString "c1") ["OnOff"]] (declare (NidString "c1") ["Battery"])
              mixedRuntime "p" (NidString "c1"))
    as (pd & ifaces & Hfind & Hid & _ & Hi & Hsorted & Hnd & Hmix & _).
  - by repeat constructor.
  - exists pd, ifaces. destruct Hmix as (_ & Hold & Hprov); [vm_compute; discriminate|].
    split_and!; done.
Defined.

(** C3 at the first report of the root device of plugin [p]. *)
Lemma upsertDevice_idempotent_witness :
  interfacesChanged
    (@upsertDevice noInferredDefaults
       (@upsertDevice noInferredDefaults emptyRuntime "p"
          (declare NidUndefined ["OnOff"])).1
       "p" (declare NidUndefined ["OnOff"])).2 = false.
Proof.
  exact (proj1 (@upsertDevice_idempotent noInferredDefaults emptyRuntime "p"
                  (declare NidUndefined ["OnOff"]))).
Defined.

(** ** [removeDevice] *)

Lemma invalidateMixins_fields rt ids :
  ∃ rt' ret, invalidateMixins rt ids = Some (rt', ret)
    ∧ pluginDevices rt' = pluginDevices rt ∧ datastore rt' = datastore rt
    ∧ plugins rt' = plugins rt ∧ hosts rt' = hosts rt
    ∧ timers rt' = timers rt ∧ lookups rt' = lookups rt ∧ now rt' = now rt
    ∧ ∃ evs, trace rt' = trace rt ++ evs
        ∧ Forall (λ e, match e with
                       | EvConsoleLog _ | EvConsoleWarn _ | EvInvalidateEntry _ _
                       | EvRebuildMixinTable _ => True
                       | _ => False
                       end) evs.
Proof.
  destruct (firstPass_inv (devices rt) ids)
    as (ds & st & Hfirst & (_ & _ & _ & _ & Htr & _) & _).
  unfold invalidateMixins. rewrite Hfirst. simpl.
  eexists _, _. split; [done|]. simpl. split_and!; try done.
  eexists. split; [done|]. apply Forall_app. split.
  - eapply Forall_impl; [exact Htr|]. by intros [].
  - rewrite secondPass_fmap. apply Forall_fmap, Forall_forall. by intros.
Qed.

Lemma invalidatePluginDevice_fields rt id :
  pluginDevices (invalidatePluginDevice rt id) = pluginDevices rt
  ∧ datastore (invalidatePluginDevice rt id) = datastore rt
  ∧ plugins (invalidatePluginDevice rt id) = plugins rt
  ∧ hosts (invalidatePluginDevice rt id) = hosts rt
  ∧ (trace (invalidatePluginDevice rt id) = trace rt
     ∨ trace (invalidatePluginDevice rt id) = trace rt ++ [EvInvalidate id]).
Proof.
  unfold invalidatePluginDevice. destruct (lookupDevice rt id); simpl; auto 10.
Qed.

Lemma deleteDevice_clearState id T : deleteDevice id (clearState id T) = deleteDevice id T.
Proof.
  unfold deleteDevice, clearState. induction T as [|x T IH]; [done|]. csimpl.
  destruct (decide (pd_id x = id)) as [Hx|Hx].
  - rewrite !filter_cons_False by (simpl; auto). done.
  - rewrite !filter_cons_True by done. by rewrite IH.
Qed.

Lemma elem_of_deleteDevice id T x : x ∈ deleteDevice id T ↔ pd_id x ≠ id ∧ x ∈ T.
Proof. unfold deleteDevice. by rewrite list_elem_of_filter. Qed.

Lemma deleteDevice_ids id T y :
  y ∈ pd_id <$> deleteDevice id T ↔ y ≠ id ∧ y ∈ pd_id <$> T.
Proof.
  rewrite !list_elem_of_fmap. split.
  - intros (x & -> & [Hx Hin]%elem_of_deleteDevice). eauto.
  - intros (Hne & x & -> & Hin). exists x. split; [done|]. by apply elem_of_deleteDevice.
Qed.

Lemma killPlugin_spec rt pluginId :
  plugins (killPlugin rt pluginId) !! pluginId = None
  ∧ pluginDevices (killPlugin rt pluginId) = pluginDevices rt
  ∧ datastore (killPlugin rt pluginId) = datastore rt
  ∧ (∀ q, q ≠ pluginId → plugins (killPlugin rt pluginId) !! q = plugins rt !! q)
  ∧ length (hosts (killPlugin rt pluginId)) = length (hosts rt)
  ∧ match plugins rt !! pluginId with
    | Some h => trace (killPlugin rt pluginId) = trace rt ++ [EvHostKill h]
    | None => killPlugin rt pluginId = rt
    end.
Proof.
  unfold killPlugin. destruct (plugins rt !! pluginId) as [h|] eqn:Hp; simpl.
  - rewrite lookup_delete_eq. split_and!; try done.
    + intros q Hq. by rewrite lookup_delete_ne.
    + by rewrite length_alter.
  - split_and!; done.
Qed.

Lemma list_find_deleteDevice_None id T :
  list_find (λ d, pd_id d = id) (deleteDevice id T) = None.
Proof.
  apply list_find_None, Forall_forall. by intros x [Hx _]%elem_of_deleteDevice.
Qed.

Lemma datastore_tryGet_removeId rt pluginId :
  datastore_tryGet (datastore_removeId pluginId rt) pluginId = None.
Proof.
  unfold datastore_tryGet. simpl. rewrite (proj2 (list_find_None _ _)); [done|].
  apply Forall_forall. by intros x [Hx _]%list_elem_of_filter.
Qed.

(** What [removeDevice] does after the loop. *)
Lemma removeRecord_spec rt device :
  ∃ rt' evs,
    removeRecord rt device = Some rt'
    ∧ pluginDevices rt' = deleteDevice (pd_id device) (pluginDevices rt)
    ∧ ds_devices (datastore rt') = deleteDevice (pd_id device) (ds_devices (datastore rt))
    ∧ trace rt' = trace rt ++ evs
    ∧ EvDatastoreRemove (pd_id device) ∈ evs
    ∧ EvStateManagerRemoveDevice (pd_id device) ∈ evs
    ∧ (∃ rt1 rt2 ret, invalidateMixins rt1 [pd_id device] = Some (rt2, ret)
         ∧ devices rt1 = devices (invalidatePluginDevice rt (pd_id device))
         ∧ devices rt' = devices rt2
         ∧ ∀ did, did ∈ ret → EvRebuildMixinTable did ∈ evs)
    ∧ (truthy_nativeId (pd_nativeId device) = false →
         plugins rt' !! pd_pluginId device = None
         ∧ datastore_tryGet rt' (pd_pluginId device) = None
         ∧ (∀ h, plugins rt !! pd_pluginId device = Some h → EvHostKill h ∈ evs)
         ∧ EvDatastoreRemoveId (pd_pluginId device) ∈ evs
         ∧ EvRimraf (pd_pluginId device) ∈ evs)
    ∧ (truthy_nativeId (pd_nativeId device) = true →
         plugins rt' = plugins rt ∧ hosts rt' = hosts rt
         ∧ ds_plugins (datastore rt') = ds_plugins (datastore rt)
         ∧ (∀ h, EvHostKill h ∉ evs)
         ∧ (∀ p, EvDatastoreRemoveId p ∉ evs) ∧ (∀ p, EvRimraf p ∉ evs)
         ∧ (notifyOutcome rt device ≠ Delivered →
            EvConsoleWarn "error while reporting device removal to plugin remote" ∈ evs)).
Proof.
  unfold removeRecord.
  set (rt0 := set_pluginDevices (clearState (pd_id device) (pluginDevices rt)) rt).
  destruct (invalidatePluginDevice_fields rt0 (pd_id device)) as (Hpd & Hds & Hpl & Hho & Htr).
  set (rtA := invalidatePluginDevice rt0 (pd_id device)) in *.
  set (rt1 := emit [EvStateManagerRemoveDevice (pd_id device)]
                (datastore_remove (pd_id device)
                   (set_pluginDevices (deleteDevice (pd_id device) (pluginDevices rtA)) rtA))).
  destruct (invalidateMixins_fields rt1 [pd_id device])
    as (rt2 & ret & Hinv & Hpd2 & Hds2 & Hpl2 & Hho2 & _ & _ & _ & (mix & Htr2 & Hmix)).
  rewrite Hinv. cbn [mbind option_bind].
  assert (∃ pre, trace rt2 = trace rt ++ pre ++ [EvDatastoreRemove (pd_id device);
            EvStateManagerRemoveDevice (pd_id device)] ++ mix
          ∧ (pre = [] ∨ pre = [EvInvalidate (pd_id device)])) as (pre & Htrace & Hpre).
  { destruct Htr as [Htr|Htr].
    - exists []. split; [|by left]. rewrite Htr2. subst rt1. simpl. rewrite Htr.
      subst rt0. simpl. by rewrite <-!(assoc_L (++)).
    - exists [EvInvalidate (pd_id device)]. split; [|by right].
      rewrite Htr2. subst rt1. simpl. rewrite Htr. subst rt0. simpl.
      by rewrite <-!(assoc_L (++)). }
  assert (pluginDevices rt2 = deleteDevice (pd_id device) (pluginDevices rt)) as Htab.
  { rewrite Hpd2. subst rt1. simpl. rewrite Hpd. subst rt0. simpl.
    apply deleteDevice_clearState. }
  assert (ds_devices (datastore rt2)
          = deleteDevice (pd_id device) (ds_devices (datastore rt))) as Hstore.
  { rewrite Hds2. subst rt1. simpl. by rewrite Hds. }
  assert (plugins rt2 = plugins rt) as Hplug.
  { rewrite Hpl2. subst rt1. simpl. by rewrite Hpl. }
  assert (hosts rt2 = hosts rt) as Hhosts.
  { rewrite Hho2. subst rt1. simpl. by rewrite Hho. }
  assert (ds_plugins (datastore rt2) = ds_plugins (datastore rt)) as Hdsp.
  { rewrite Hds2. subst rt1. simpl. by rewrite Hds. }
  assert (∀ did, did ∈ ret → EvRebuildMixinTable did ∈ mix) as Hreb.
  { intros did Hdid. unfold invalidateMixins in Hinv.
    destruct (firstPass (devices rt1) [pd_id device]) as [[ds st]|]; [|done].
    simpl in Hinv. injection Hinv as <- <-. simpl in Htr2.
    apply app_inv_head in Htr2 as <-. apply elem_of_app. right.
    apply elem_of_secondPass. eauto. }
  assert (notifyOutcome rt2 device = notifyOutcome rt device) as Hout.
  { unfold notifyOutcome. by rewrite Hplug, Hhosts. }
  destruct (truthy_nativeId (pd_nativeId device)) eqn:Htruthy.
  - (* a provided device: the plugin is told *)
    assert (∃ tail, trace (notifyRemoved rt2 device) = trace rt2 ++ tail
              ∧ Forall (λ e, match e with
                             | EvSetNativeId _ _ | EvConsoleWarn _ => True
                             | _ => False end) tail
              ∧ (notifyOutcome rt device ≠ Delivered →
                 EvConsoleWarn "error while reporting device removal to plugin remote"
                   ∈ tail)) as (tail & Htail & Hshape & Hwarn).
    { unfold notifyRemoved. rewrite Hout.
      destruct (notifyOutcome rt device); simpl; eexists; (split; [done|]);
        (split; [by repeat constructor|]); intros ?; set_solver. }
    assert (pluginDevices (notifyRemoved rt2 device) = pluginDevices rt2
            ∧ datastore (notifyRemoved rt2 device) = datastore rt2
            ∧ plugins (notifyRemoved rt2 device) = plugins rt2
            ∧ hosts (notifyRemoved rt2 device) = hosts rt2
            ∧ devices (notifyRemoved rt2 device) = devices rt2) as (N1 & N2 & N3 & N4 & N5).
    { unfold notifyRemoved. by destruct (notifyOutcome rt2 device). }
    eexists _, (pre ++ [EvDatastoreRemove (pd_id device);
                        EvStateManagerRemoveDevice (pd_id device)] ++ mix ++ tail).
    split; [done|]. rewrite N1, N2, N3, N4, Htail, Htrace.
    assert (∀ e, e ∈ pre ++ [EvDatastoreRemove (pd_id device);
                             EvStateManagerRemoveDevice (pd_id device)] ++ mix ++ tail →
              e = EvInvalidate (pd_id device) ∨ e = EvDatastoreRemove (pd_id device)
              ∨ e = EvStateManagerRemoveDevice (pd_id device) ∨ e ∈ mix ∨ e ∈ tail)
      as Hcases.
    { intros e. rewrite !elem_of_app, !elem_of_cons.
      destruct Hpre as [-> | ->]; set_solver. }
    rewrite Forall_forall in Hmix, Hshape.
    split_and!; try done.
    + by rewrite <-!(assoc_L (++)).
    + set_solver.
    + set_solver.
    + exists rt1, rt2, ret. split_and!; [done|..].
      * subst rt1 rtA rt0. simpl. unfold invalidatePluginDevice, lookupDevice. simpl.
        by destruct (list_find _ (devices rt)).
      * done.
      * intros did Hdid. specialize (Hreb did Hdid). set_solver.
    + intros _. split_and!; try done.
      * intros h Hin. apply Hcases in Hin as [?|[?|[?|[Hin|Hin]]]]; try done.
        -- by apply Hmix in Hin.
        -- by apply Hshape in Hin.
      * intros p Hin. apply Hcases in Hin as [?|[?|[?|[Hin|Hin]]]]; try done.
        -- by apply Hmix in Hin.
        -- by apply Hshape in Hin.
      * intros p Hin. apply Hcases in Hin as [?|[?|[?|[Hin|Hin]]]]; try done.
        -- by apply Hmix in Hin.
        -- by apply Hshape in Hin.
      * intros Hne. specialize (Hwarn Hne). set_solver.
  - (* the plugin itself: process, record and volume go *)
    destruct (killPlugin_spec rt2 (pd_pluginId device))
      as (K1 & K2 & K3 & _ & _ & K4).
    set (rtK := killPlugin rt2 (pd_pluginId device)) in *.
    assert (∃ kill, trace rtK = trace rt2 ++ kill
              ∧ (∀ h, plugins rt !! pd_pluginId device = Some h → EvHostKill h ∈ kill))
      as (kill & Hkill & Hkilled).
    { rewrite Hplug in K4. destruct (plugins rt !! pd_pluginId device) as [h|].
      - exists [EvHostKill h]. split; [done|]. intros ? [= <-]. set_solver.
      - exists []. rewrite K4, app_nil_r. split; [done|]. by intros. }
    eexists _, (pre ++ [EvDatastoreRemove (pd_id device);
                        EvStateManagerRemoveDevice (pd_id device)] ++ mix ++ kill
                ++ [EvDatastoreRemoveId (pd_pluginId device);
                    EvRimraf (pd_pluginId device)]).
    split; [done|]. simpl. rewrite K2, K3, Hkill, Htrace.
    split_and!; try done.
    + by rewrite <-!(assoc_L (++)).
    + set_solver.
    + set_solver.
    + exists rt1, rt2, ret. split_and!; [done|..].
      * subst rt1 rtA rt0. simpl. unfold invalidatePluginDevice, lookupDevice. simpl.
        by destruct (list_find _ (devices rt)).
      * subst rtK. unfold killPlugin. by destruct (plugins rt2 !! pd_pluginId device).
      * intros did Hdid. specialize (Hreb did Hdid). set_solver.
    + intros _. split_and!.
      * done.
      * apply datastore_tryGet_removeId.
      * intros h Hh. specialize (Hkilled h Hh). set_solver.
      * set_solver.
      * set_solver.
Qed.

(** The loop over the provided devices, for any [removeDevice] that removes
    what it is given from the table and otherwise only shrinks the table. *)
Lemma removeProvided_spec T0 rec device (Q : PluginDevice → Prop) :
  (∀ rt c, Q c → (∀ x, x ∈ pluginDevices rt → x ∈ T0) →
     ∃ rt', rec rt c = Some rt'
       ∧ (∀ x, x ∈ pluginDevices rt' → x ∈ pluginDevices rt)
       ∧ (pd_id c ∉ pd_id <$> pluginDevices rt')
       ∧ (providersKept T0 (pluginDevices rt) → providersKept T0 (pluginDevices rt'))) →
  ∀ provided rt,
    (∀ c, c ∈ provided → pd_id c ≠ pd_id device → Q c) →
    (∀ x, x ∈ pluginDevices rt → x ∈ T0) →
    ∃ rt', removeProvided rec device provided rt = Some rt'
      ∧ (∀ x, x ∈ pluginDevices rt' → x ∈ pluginDevices rt)
      ∧ (∀ c, c ∈ provided → pd_id c ≠ pd_id device →
           pd_id c ∉ pd_id <$> pluginDevices rt')
      ∧ (providersKept T0 (pluginDevices rt) → providersKept T0 (pluginDevices rt')).
Proof.
  intros Hrec. induction provided as [|c provided IH]; intros rt HQ Hsub; simpl.
  - exists rt. split_and!; auto. by intros c ?%elem_of_nil.
  - case_decide as Hself.
    + destruct (IH rt) as (rt' & Hrun & Hsub' & Hgone & Hkept);
        [intros; apply HQ; set_solver|done|].
      exists rt'. split_and!; auto.
      intros c' [->|Hc']%elem_of_cons Hne; [done|by apply Hgone].
    + destruct (Hrec rt c) as (rt1 & Hrun1 & Hsub1 & Hgone1 & Hkept1);
        [apply HQ; [set_solver|done]|done|].
      rewrite Hrun1. simpl.
      destruct (IH rt1) as (rt' & Hrun & Hsub' & Hgone & Hkept);
        [intros; apply HQ; set_solver|by auto|].
      exists rt'. split_and!; auto.
      intros c' [->|Hc']%elem_of_cons Hne; [|by apply Hgone].
      intros (x & Hx & Hin)%list_elem_of_fmap. apply Hgone1.
      apply list_elem_of_fmap. exists x. auto.
Qed.

Lemma elem_of_providedDevices rt device c :
  c ∈ providedDevices rt device
  ↔ getState c Property_providerId = JString (pd_id device) ∧ c ∈ pluginDevices rt.
Proof. unfold providedDevices. by rewrite list_elem_of_filter. Qed.

(** [removeDevice] returns when its fuel exceeds the number of devices that
    can still be on the path below the devices [P] it has gone through. *)
Lemma removeDevice_descends T0 :
  acyclicProviders T0 →
  ∀ fuel rt device P,
    (∀ x, x ∈ pluginDevices rt → x ∈ T0) →
    NoDup P → (∀ a, a ∈ P → a ∈ pd_id <$> T0) →
    (∀ a, a ∈ P → rtc (provides T0) a (pd_id device)) →
    length T0 < fuel + length P →
    ∃ rt', removeDevice fuel rt device = Some rt'
      ∧ (∀ x, x ∈ pluginDevices rt' → x ∈ pluginDevices rt)
      ∧ (pd_id device ∉ pd_id <$> pluginDevices rt')
      ∧ (providersKept T0 (pluginDevices rt) → providersKept T0 (pluginDevices rt')).
Proof.
  intros Hacyc. induction fuel as [|fuel IH]; intros rt device P Hsub Hnd HP Hpath Hfuel.
  - exfalso. pose proof (submseteq_length _ _ (NoDup_submseteq _ _ Hnd HP)) as Hle.
    rewrite length_fmap in Hle. lia.
  - simpl.
    destruct (removeProvided_spec T0 (removeDevice fuel) device
                (λ c, c ∈ T0 ∧ getState c Property_providerId = JString (pd_id device)
                      ∧ pd_id c ≠ pd_id device))
      with (provided := providedDevices rt device) (rt := rt)
      as (rt1 & Hloop & Hsub1 & Hgone & Hkept1).
    + intros rt0 c (HcT & Hprov & Hne) Hsub0.
      assert (provides T0 (pd_id device) (pd_id c)) as Hedge by (exists c; auto).
      apply (IH rt0 c (pd_id c :: P)); [done|..].
      * apply NoDup_cons. split; [|done]. intros Hin.
        apply (Hacyc (pd_id c)). eapply tc_rtc_l; [by apply Hpath|by apply tc_once].
      * intros a [->|Ha]%elem_of_cons; [by apply list_elem_of_fmap_2|by apply HP].
      * intros a [->|Ha]%elem_of_cons; [done|]. eapply rtc_r; [by apply Hpath|done].
      * simpl. lia.
    + intros c [Hprov Hc]%elem_of_providedDevices Hne. auto.
    + done.
    + rewrite Hloop. simpl.
      destruct (removeRecord_spec rt1 device) as (rt' & evs & Hrec & Htab & _).
      exists rt'. split; [done|]. rewrite Htab. split_and!.
      * intros x [_ Hx]%elem_of_deleteDevice. auto.
      * intros [Hne _]%deleteDevice_ids. done.
      * intros Hkept pd y [Hpd Hin]%elem_of_deleteDevice Hprov Hself Hy.
        apply deleteDevice_ids. split.
        -- intros ->. apply (Hgone pd); [|done|by apply list_elem_of_fmap_2].
           apply elem_of_providedDevices. auto.
        -- by apply (Hkept1 Hkept pd).
Qed.

(** A provider relation with a rank that decreases along it has no cycle. *)
Lemma acyclicProviders_rank T (rank : string → nat) :
  (∀ p c, provides T p c → rank c < rank p) → acyclicProviders T.
Proof.
  intros Hrank x Hcycle.
  assert (∀ a b, tc (provides T) a b → rank b < rank a) as Hlt.
  { induction 1 as [a b Hab|a b c Hab _ IH]; [by apply Hrank|].
    apply Hrank in Hab. lia. }
  apply Hlt in Hcycle. lia.
Qed.

(** The devices below [a] are gone from a table that has lost [a] and in
    which every device finds its provider. *)
Lemma providersKept_descendants T0 T a x :
  NoDup (pd_id <$> T0) → (∀ y, y ∈ T → y ∈ T0) → providersKept T0 T →
  tc (provides T0) a x → a ∈ pd_id <$> T0 → a ∉ pd_id <$> T → x ∉ pd_id <$> T.
Proof.
  intros Hnd Hsub Hkept Htc. induction Htc as [a x Hax|a c x Hac _ IH]; intros HaT0 Ha.
  - destruct Hax as (pd & Hpd & <- & Hprov & Hne).
    intros (pd' & Hid & Hpd')%list_elem_of_fmap.
    assert (pd' = pd) as ->.
    { apply Hsub in Hpd'.
      apply list_elem_of_lookup in Hpd' as [i Hi]. apply list_elem_of_lookup in Hpd as [j Hj].
      assert (i = j) as ->; [|congruence].
      eapply NoDup_lookup; [exact Hnd|..]; rewrite list_lookup_fmap.
      - by rewrite Hi.
      - rewrite Hj. simpl. by rewrite Hid. }
    apply Ha. by apply (Hkept pd).
  - apply IH.
    + destruct Hac as (pd & Hpd & <- & _). by apply list_elem_of_fmap_2.
    + destruct Hac as (pd & Hpd & <- & Hprov & Hne).
      intros (pd' & Hid & Hpd')%list_elem_of_fmap.
      assert (pd' = pd) as ->.
      { apply Hsub in Hpd'.
        apply list_elem_of_lookup in Hpd' as [i Hi]. apply list_elem_of_lookup in Hpd as [j Hj].
        assert (i = j) as ->; [|congruence].
        eapply NoDup_lookup; [exact Hnd|..]; rewrite list_lookup_fmap.
        - by rewrite Hi.
        - rewrite Hj. simpl. by rewrite Hid. }
      apply Ha. by apply (Hkept pd).
Qed.

(** C10. On a device table whose provider relation has no cycle other than
    self-loops [removeDevice] returns: a recursion depth of one more than the
    number of devices is never exceeded; and a provided device that is the
    device itself is passed over by the loop. *)
Theorem removeDevice_terminates (rt : ScryptedRuntime) (device : PluginDevice) :
  acyclicProviders (pluginDevices rt) →
  (∀ fuel, length (pluginDevices rt) < fuel → is_Some (removeDevice fuel rt device))
  ∧ (∀ rec provided rest rt0,
       pd_id provided = pd_id device →
       removeProvided rec device (provided :: rest) rt0
       = removeProvided rec device rest rt0).
Proof.
  intros Hacyc. split.
  - intros fuel Hfuel.
    destruct (removeDevice_descends (pluginDevices rt) Hacyc fuel rt device [])
      as (rt' & -> & _); eauto using NoDup_nil_2.
    + by intros a ?%elem_of_nil.
    + by intros a ?%elem_of_nil.
    + simpl. lia.
  - intros rec provided rest rt0 Hself. simpl. by rewrite decide_True.
Qed.

(** The loop of [removeDevice] at the top of the recursion. *)
Lemma removeDevice_loop rt device :
  acyclicProviders (pluginDevices rt) →
  ∃ rt1,
    removeProvided (removeDevice (length (pluginDevices rt))) device
      (providedDevices rt device) rt = Some rt1
    ∧ (∀ x, x ∈ pluginDevices rt1 → x ∈ pluginDevices rt)
    ∧ (∀ c, c ∈ providedDevices rt device → pd_id c ≠ pd_id device →
         pd_id c ∉ pd_id <$> pluginDevices rt1)
    ∧ providersKept (pluginDevices rt) (pluginDevices rt1).
Proof.
  intros Hacyc. set (T0 := pluginDevices rt).
  destruct (removeProvided_spec T0 (removeDevice (length T0)) device
              (λ c, c ∈ T0 ∧ getState c Property_providerId = JString (pd_id device)
                    ∧ pd_id c ≠ pd_id device))
    with (provided := providedDevices rt device) (rt := rt)
    as (rt1 & Hloop & Hsub1 & Hgone & Hkept1).
  - intros rt0 c (HcT & Hprov & Hne) Hsub0.
    apply (removeDevice_descends T0 Hacyc (length T0) rt0 c [pd_id c]); [done|..].
    + apply NoDup_singleton.
    + intros a ->%list_elem_of_singleton. by apply list_elem_of_fmap_2.
    + by intros a ->%list_elem_of_singleton.
    + simpl. lia.
  - intros c [Hprov Hc]%elem_of_providedDevices Hne. auto.
  - done.
  - exists rt1. split_and!; try done. apply Hkept1.
    intros pd y Hpd _ _ Hy. done.
Qed.

(** What [removeRecord] keeps, [removeDevice] keeps. *)
Lemma removeDevice_preserves (P : ScryptedRuntime → Prop) :
  (∀ rt device rt', removeRecord rt device = Some rt' → P rt → P rt') →
  ∀ fuel rt device rt', removeDevice fuel rt device = Some rt' → P rt → P rt'.
Proof.
  intros Hrec. induction fuel as [|fuel IH]; intros rt device rt'; simpl; [done|].
  destruct (removeProvided _ _ _ rt) as [rt1|] eqn:Hloop; csimpl; [|done].
  intros Hrun HP. apply (Hrec rt1 device rt' Hrun).
  clear Hrun. revert Hloop. generalize (providedDevices rt device). intros l.
  revert rt rt1 HP. induction l as [|c l IHl]; intros rt0 rt1 HP; simpl.
  - by intros [= <-].
  - case_decide; [by apply IHl|].
    destruct (removeDevice fuel rt0 c) as [rt2|] eqn:Hc; csimpl; [|done].
    apply IHl. by apply (IH rt0 c).
Qed.

Lemma removeDevice_subset (T0 : list PluginDevice) fuel rt device rt' :
  removeDevice fuel rt device = Some rt' →
  (∀ y, y ∈ pluginDevices rt → y ∈ T0) → (∀ y, y ∈ pluginDevices rt' → y ∈ T0).
Proof.
  apply (removeDevice_preserves (λ r, ∀ y, y ∈ pluginDevices r → y ∈ T0)).
  intros r d r' Hrec Hsub y.
  destruct (removeRecord_spec r d) as (r2 & evs & Hrec2 & Htab & _).
  rewrite Hrec in Hrec2. injection Hrec2 as <-.
  rewrite Htab. intros [_ Hy]%elem_of_deleteDevice. by apply Hsub.
Qed.

Lemma removeDevice_keeps T0 (f : ScryptedRuntime → list PluginDevice) :
  (∀ rt d rt', removeRecord rt d = Some rt' → f rt' = deleteDevice (pd_id d) (f rt)) →
  ∀ fuel rt device rt',
    (∀ y, y ∈ pluginDevices rt → y ∈ T0) →
    removeDevice fuel rt device = Some rt' →
    ∀ x, x ∈ f rt → ¬ providedBy T0 (pd_id device) (pd_id x) → x ∈ f rt'.
Proof.
  intros Hf. induction fuel as [|fuel IH]; intros rt device rt' Hsub; simpl; [done|].
  destruct (removeProvided _ _ _ rt) as [rt1|] eqn:Hloop; csimpl; [|done].
  intros Hrec x Hx Hnot.
  rewrite (Hf _ _ _ Hrec). apply elem_of_deleteDevice. split.
  { intros Heq. apply Hnot. rewrite Heq. apply rtc_refl. }
  clear Hrec.
  assert (∀ c, c ∈ providedDevices rt device → pd_id c ≠ pd_id device →
               provides T0 (pd_id device) (pd_id c)) as Hchild.
  { intros c [Hprov Hc]%elem_of_providedDevices Hne. exists c. split_and!; auto. }
  revert Hloop Hchild. generalize (providedDevices rt device). intros l.
  revert rt Hsub Hx. induction l as [|c l IHl]; intros rt0 Hsub Hx; simpl.
  - by intros [= <-].
  - intros Hloop Hchild. case_decide as Hc.
    + apply (IHl rt0); try done. intros c' Hc'. apply Hchild. apply elem_of_cons. by right.
    + destruct (removeDevice fuel rt0 c) as [rt2|] eqn:Hrun; csimpl in Hloop; [|done].
      apply (IHl rt2); try done.
      * by apply (removeDevice_subset T0 fuel rt0 c).
      * apply (IH rt0 c rt2); try done. intros Hreach. apply Hnot.
        eapply rtc_l; [|exact Hreach]. apply Hchild; [apply elem_of_cons; by left|done].
      * intros c' Hc'. apply Hchild. apply elem_of_cons. by right.
Qed.

Lemma list_find_filter_snd {A} (P Q : A → Prop) `{!∀ x, Decision (P x)}
    `{!∀ x, Decision (Q x)} (l : list A) :
  (∀ x, P x → Q x) → snd <$> list_find P (filter Q l) = snd <$> list_find P l.
Proof.
  intros HPQ. induction l as [|a l IH]; [done|].
  destruct (decide (Q a)) as [Ha|Ha].
  - rewrite filter_cons_True by done. simpl. destruct (decide (P a)); [done|].
    destruct (list_find P (filter Q l)) as [[i x]|], (list_find P l) as [[j y]|];
      simpl in *; congruence.
  - rewrite filter_cons_False by done. simpl.
    rewrite decide_False by (intros HP; by apply Ha, HPQ).
    destruct (list_find P (filter Q l)) as [[i x]|], (list_find P l) as [[j y]|];
      simpl in *; congruence.
Qed.

(** The plugin that [removeRecord] removes is the plugin of the device. *)
Lemma removeRecord_plugins rt device rt' evs :
  removeRecord rt device = Some rt' → trace rt' = trace rt ++ evs →
  (∀ q, q ≠ pd_pluginId device →
     plugins rt' !! q = plugins rt !! q
     ∧ datastore_tryGet rt' q = datastore_tryGet rt q)
  ∧ (∀ h, EvHostKill h ∈ evs → plugins rt !! pd_pluginId device = Some h)
  ∧ (∀ q, EvDatastoreRemoveId q ∈ evs ∨ EvRimraf q ∈ evs → q = pd_pluginId device).
Proof.
  intros Hrec Htrace.
  destruct (truthy_nativeId (pd_nativeId device)) eqn:Htruthy.
  - destruct (removeRecord_spec rt device)
      as (rt2 & evs2 & Hrec2 & _ & _ & Htr2 & _ & _ & _ & _ & Hchild).
    rewrite Hrec in Hrec2. injection Hrec2 as <-. rewrite Htrace in Htr2.
    apply app_inv_head in Htr2 as <-.
    destruct (Hchild Htruthy) as (Hp & _ & Hd & Hk & Hr & Hm & _). split_and!.
    + intros q _. rewrite Hp. unfold datastore_tryGet. by rewrite Hd.
    + intros h Hin. by apply Hk in Hin.
    + intros q [Hin|Hin]; [by apply Hr in Hin|by apply Hm in Hin].
  - unfold removeRecord in Hrec.
    set (rt0 := set_pluginDevices (clearState (pd_id device) (pluginDevices rt)) rt) in Hrec.
    destruct (invalidatePluginDevice_fields rt0 (pd_id device))
      as (Hpd & Hds & Hpl & Hho & Htr).
    set (rtA := invalidatePluginDevice rt0 (pd_id device)) in *.
    set (rt1 := emit [EvStateManagerRemoveDevice (pd_id device)]
                  (datastore_remove (pd_id device)
                     (set_pluginDevices (deleteDevice (pd_id device) (pluginDevices rtA)) rtA)))
      in Hrec.
    destruct (invalidateMixins_fields rt1 [pd_id device])
      as (rt2 & ret & Hinv & Hpd2 & Hds2 & Hpl2 & Hho2 & _ & _ & _ & (mix & Htr2 & Hmix)).
    rewrite Hinv in Hrec. cbn [mbind option_bind] in Hrec. rewrite Htruthy in Hrec.
    injection Hrec as <-.
    assert (plugins rt2 = plugins rt) as Hplug.
    { rewrite Hpl2. subst rt1. simpl. by rewrite Hpl. }
    assert (ds_plugins (datastore rt2) = ds_plugins (datastore rt)) as Hdsp.
    { rewrite Hds2. subst rt1. simpl. by rewrite Hds. }
    assert (∃ pre, trace rt2 = trace rt ++ pre
              ∧ Forall (λ e, match e with
                             | EvHostKill _ | EvDatastoreRemoveId _ | EvRimraf _ => False
                             | _ => True
                             end) pre) as (pre & Hpre & Hshape).
    { exists ((if decide (trace rtA = trace rt0) then [] else [EvInvalidate (pd_id device)])
              ++ [EvDatastoreRemove (pd_id device);
                  EvStateManagerRemoveDevice (pd_id device)] ++ mix).
      split.
      - rewrite Htr2. subst rt1. simpl. case_decide as Hc.
        + rewrite Hc. subst rt0. simpl. by rewrite <-!(assoc_L (++)).
        + destruct Htr as [Htr|Htr]; [done|]. rewrite Htr. subst rt0. simpl.
          by rewrite <-!(assoc_L (++)).
      - apply Forall_app. split; [by case_decide; repeat constructor|].
        repeat constructor. eapply Forall_impl; [exact Hmix|]. by intros []. }
    destruct (killPlugin_spec rt2 (pd_pluginId device)) as (_ & _ & K3 & K4 & _ & K6).
    rewrite Hplug in K6.
    assert (∃ kill, trace (killPlugin rt2 (pd_pluginId device)) = trace rt2 ++ kill
              ∧ ∀ e, e ∈ kill → ∃ h, e = EvHostKill h
                                     ∧ plugins rt !! pd_pluginId device = Some h)
      as (kill & Hkill & Hkilled).
    { destruct (plugins rt !! pd_pluginId device) as [h|].
      - exists [EvHostKill h]. split; [done|].
        intros e ->%list_elem_of_singleton. eauto.
      - exists []. rewrite K6, app_nil_r. split; [done|]. by intros e ?%elem_of_nil. }
    cbn [trace emit datastore_removeId set_datastore] in Htrace.
    rewrite Hkill, Hpre, <-!(assoc_L (++)) in Htrace. apply app_inv_head in Htrace as <-.
    rewrite Forall_forall in Hshape.
    split_and!.
    + intros q Hq. cbn [plugins emit datastore_removeId set_datastore].
      rewrite (K4 q Hq), Hplug. split; [done|]. unfold datastore_tryGet.
      cbn [datastore emit datastore_removeId set_datastore ds_plugins]. rewrite K3, Hdsp.
      apply list_find_filter_snd. intros x Hx. by rewrite Hx.
    + intros h [Hin|[Hin|Hin]%elem_of_app]%elem_of_app.
      * by apply Hshape in Hin.
      * by destruct (Hkilled _ Hin) as (h' & [= <-] & Hh).
      * set_solver.
    + intros q [[Hin|[Hin|Hin]%elem_of_app]%elem_of_app
               |[Hin|[Hin|Hin]%elem_of_app]%elem_of_app].
      * by apply Hshape in Hin.
      * by destruct (Hkilled _ Hin) as (h' & [=] & Hh).
      * set_solver.
      * by apply Hshape in Hin.
      * by destruct (Hkilled _ Hin) as (h' & [=] & Hh).
      * set_solver.
Qed.

(** What [removeRecord] keeps on the devices that [removeDevice] hands it,
    [removeDevice] keeps. *)
Lemma removeDevice_preserves_among (Q : PluginDevice → Prop)
    (P : ScryptedRuntime → Prop) :
  (∀ rt d c, P rt → Q d → c ∈ providedDevices rt d → pd_id c ≠ pd_id d → Q c) →
  (∀ rt d rt', Q d → removeRecord rt d = Some rt' → P rt → P rt') →
  ∀ fuel rt device rt',
    Q device → removeDevice fuel rt device = Some rt' → P rt → P rt'.
Proof.
  intros Hdown Hrec. induction fuel as [|fuel IH]; intros rt device rt'; simpl; [done|].
  destruct (removeProvided _ _ _ rt) as [rt1|] eqn:Hloop; csimpl; [|done].
  intros HQ Hrun HP. apply (Hrec rt1 device rt' HQ Hrun). clear Hrun.
  assert (∀ c, c ∈ providedDevices rt device → pd_id c ≠ pd_id device → Q c) as Hl
    by (intros c; by apply Hdown).
  revert Hloop Hl. generalize (providedDevices rt device). intros l.
  revert rt rt1 HP. induction l as [|c l IHl]; intros rt0 rt1 HP; simpl.
  - by intros [= <-].
  - intros Hloop Hl. case_decide as Hc.
    + apply (IHl rt0); [done|done|]. intros c' Hc'. apply Hl. apply elem_of_cons. by right.
    + destruct (removeDevice fuel rt0 c) as [rt2|] eqn:Hrun; csimpl in Hloop; [|done].
      apply (IHl rt2); [|done|].
      * apply (IH rt0 c); [|done|done]. apply Hl; [apply elem_of_cons; by left|done].
      * intros c' Hc'. apply Hl. apply elem_of_cons. by right.
Qed.

Lemma removeRecord_rootsFollowed T0 device0 rt0 rt d rt' :
  NoDup (pd_id <$> T0) →
  d ∈ T0 → rtc (provides T0) (pd_id device0) (pd_id d) →
  removeRecord rt d = Some rt' →
  rootsFollowed T0 device0 rt0 rt → rootsFollowed T0 device0 rt0 rt'.
Proof.
  intros Hnd Hd Hreach Hrec (Hsub & evs & Htr & HA & HB & HC & HD).
  destruct (removeRecord_spec rt d)
    as (rt2 & new & Hrec2 & Htab & _ & Htr2 & _ & _ & _ & Hroot & Hchild).
  rewrite Hrec in Hrec2. injection Hrec2 as <-.
  destruct (removeRecord_plugins rt d rt' new Hrec Htr2) as (Hother & Hkill & Hrm).
  assert (∀ x, x ∈ T0 → pd_id x = pd_id d → x = d) as Hsame.
  { intros x Hx Hid.
    apply list_elem_of_lookup in Hx as [i Hi]. apply list_elem_of_lookup in Hd as [j Hj].
    assert (i = j) as ->; [|congruence].
    eapply NoDup_lookup; [exact Hnd|..]; rewrite list_lookup_fmap.
    - by rewrite Hi.
    - rewrite Hj. simpl. by rewrite Hid. }
  assert (truthy_nativeId (pd_nativeId d) = false →
          removesRootOf T0 device0 (pd_pluginId d)) as Hroot_d
    by (intros Hf; exists d; done).
  assert (∀ q, plugins rt !! q = None → plugins rt' !! q = None) as Hnone.
  { intros q Hq. destruct (decide (q = pd_pluginId d)) as [->|Hne];
      [|by rewrite (proj1 (Hother q Hne))].
    destruct (truthy_nativeId (pd_nativeId d)) eqn:Ht.
    - destruct (Hchild eq_refl) as (-> & _). done.
    - by destruct (Hroot eq_refl) as (? & _). }
  assert (∀ q, datastore_tryGet rt q = None → datastore_tryGet rt' q = None) as Hnone2.
  { intros q Hq. destruct (decide (q = pd_pluginId d)) as [->|Hne];
      [|by rewrite (proj2 (Hother q Hne))].
    destruct (truthy_nativeId (pd_nativeId d)) eqn:Ht.
    - destruct (Hchild eq_refl) as (_ & _ & Hds & _). unfold datastore_tryGet in *.
      by rewrite Hds.
    - by destruct (Hroot eq_refl) as (_ & ? & _). }
  assert (truthy_nativeId (pd_nativeId d) = false →
          ∀ h, plugins rt0 !! pd_pluginId d = Some h → EvHostKill h ∈ evs ++ new)
    as Hkills.
  { intros Hf h Hh. destruct (Hroot Hf) as (_ & _ & R3 & _).
    destruct (HD (pd_pluginId d)) as [[E _]|(_ & _ & K)].
    - apply elem_of_app. right. apply R3. by rewrite E.
    - apply elem_of_app. left. by apply K. }
  split.
  { intros y. rewrite Htab. intros [_ Hy]%elem_of_deleteDevice. auto. }
  exists (evs ++ new). split; [by rewrite Htr2, Htr, (assoc_L (++))|]. split_and!.
  - intros x Hx Hgone Hfalsy.
    destruct (decide (pd_id x ∈ pd_id <$> pluginDevices rt)) as [Hstill|Hgone0].
    + assert (pd_id x = pd_id d) as Hid.
      { destruct (decide (pd_id x = pd_id d)); [done|]. exfalso. apply Hgone.
        rewrite Htab. by apply deleteDevice_ids. }
      apply Hsame in Hid as ->; [|done].
      destruct (Hroot Hfalsy) as (R1 & R2 & R3 & R4 & R5).
      split_and!; [set_solver|set_solver|done|done|by apply Hkills].
    + destruct (HA x Hx Hgone0 Hfalsy) as (A1 & A2 & A3 & A4 & A5).
      split_and!; [set_solver|set_solver|by apply Hnone|by apply Hnone2|].
      intros h Hh. apply elem_of_app. left. by apply A5.
  - intros q Hq.
    assert ((EvDatastoreRemoveId q ∈ evs ∨ EvRimraf q ∈ evs)
            ∨ (EvDatastoreRemoveId q ∈ new ∨ EvRimraf q ∈ new)) as [Hold|Hnew]
      by (rewrite !elem_of_app in Hq; tauto).
    + by apply HB.
    + pose proof (Hrm q Hnew) as ->.
      destruct (truthy_nativeId (pd_nativeId d)) eqn:Ht; [|by apply Hroot_d].
      destruct (Hchild eq_refl) as (_ & _ & _ & _ & Hr & Hm & _).
      destruct Hnew as [Hin|Hin]; [by apply Hr in Hin|by apply Hm in Hin].
  - intros h [Hh|Hh]%elem_of_app; [by apply HC|].
    pose proof (Hkill h Hh) as Hreg.
    destruct (truthy_nativeId (pd_nativeId d)) eqn:Ht.
    { destruct (Hchild eq_refl) as (_ & _ & _ & Hk & _). by apply Hk in Hh. }
    exists (pd_pluginId d). split; [by apply Hroot_d|].
    destruct (HD (pd_pluginId d)) as [[E _]|(N & _)]; [by rewrite <-E|congruence].
  - intros q. destruct (decide (q = pd_pluginId d)) as [->|Hne].
    + destruct (truthy_nativeId (pd_nativeId d)) eqn:Ht.
      * destruct (Hchild eq_refl) as (Hp & _ & Hds & _).
        destruct (HD (pd_pluginId d)) as [[E1 E2]|(N & R & K)].
        -- left. rewrite Hp. split; [done|]. unfold datastore_tryGet in *.
           by rewrite Hds.
        -- right. rewrite Hp. split_and!; [done|done|].
           intros h Hh. apply elem_of_app. left. by apply K.
      * right. destruct (Hroot eq_refl) as (R1 & _).
        split_and!; [done|by apply Hroot_d|by apply Hkills].
    + destruct (Hother q Hne) as [E1 E2].
      destruct (HD q) as [[F1 F2]|(N & R & K)].
      * left. by rewrite E1, E2.
      * right. rewrite E1. split_and!; [done|done|].
        intros h Hh. apply elem_of_app. left. by apply K.
Qed.

Lemma removeDevice_rootsFollowed T0 device0 rt0 fuel rt device rt' :
  NoDup (pd_id <$> T0) →
  device ∈ T0 → rtc (provides T0) (pd_id device0) (pd_id device) →
  removeDevice fuel rt device = Some rt' →
  rootsFollowed T0 device0 rt0 rt → rootsFollowed T0 device0 rt0 rt'.
Proof.
  intros Hnd Hd Hreach.
  apply (removeDevice_preserves_among
           (λ d, d ∈ T0 ∧ rtc (provides T0) (pd_id device0) (pd_id d))
           (rootsFollowed T0 device0 rt0)); [..|done].
  - intros r d c (Hsub & _) [Hd' Hr'] [Hprov Hc]%elem_of_providedDevices Hne.
    split; [by apply Hsub|]. eapply rtc_r; [exact Hr'|].
    exists c. split_and!; auto.
  - intros r d r' [Hd' Hr']. by apply removeRecord_rootsFollowed.
Qed.

(** C5, amended. On a table with one record for each id and without
    provider cycles other than self-loops, [removeDevice] removes the
    devices that [device] provides, directly or through other devices, then
    the record of [device] from the table and the store, tells the state
    manager and invalidates the mixin chains that mention it: the ids left
    in the table are those that are neither [device] nor provided by it.
    In this last step ([evs]) the plugin is killed and its record and volume
    are deleted when the native id of [device] is undefined, null or empty,
    and only then; otherwise the plugin is told, and a failure to tell it is
    logged after everything else was done. Over the whole call ([all]) the
    record and the volume of a plugin are deleted exactly when one of the
    removed devices, [device] or one that it provides, is a device of that
    plugin whose native id is undefined, null or empty; the hosts killed are
    those registered for these plugins; these plugins end without
    registration and without record, and every other plugin keeps both. *)
Theorem removeDevice_cascade (rt : ScryptedRuntime) (device : PluginDevice) :
  NoDup (pd_id <$> pluginDevices rt) →
  acyclicProviders (pluginDevices rt) →
  device ∈ pluginDevices rt →
  ∃ rt1 rt' evs all,
    removeProvided (removeDevice (length (pluginDevices rt))) device
      (providedDevices rt device) rt = Some rt1
    ∧ removeRecord rt1 device = Some rt'
    ∧ removeDevice (S (length (pluginDevices rt))) rt device = Some rt'
    ∧ (∀ x, tc (provides (pluginDevices rt)) (pd_id device) x →
         (x ∉ pd_id <$> pluginDevices rt1) ∧ (x ∉ pd_id <$> pluginDevices rt'))
    ∧ (∀ x, x ∈ pd_id <$> pluginDevices rt'
            ↔ x ∈ pd_id <$> pluginDevices rt
              ∧ ¬ rtc (provides (pluginDevices rt)) (pd_id device) x)
    ∧ (pd_id device ∉ pd_id <$> pluginDevices rt')
    ∧ persisted rt' (pd_id device) = None
    ∧ trace rt' = trace rt1 ++ evs
    ∧ EvDatastoreRemove (pd_id device) ∈ evs
    ∧ EvStateManagerRemoveDevice (pd_id device) ∈ evs
    ∧ (∃ rtA rtB ret, invalidateMixins rtA [pd_id device] = Some (rtB, ret)
         ∧ devices rtA = devices (invalidatePluginDevice rt1 (pd_id device))
         ∧ devices rt' = devices rtB
         ∧ ∀ did, did ∈ ret → EvRebuildMixinTable did ∈ evs)
    ∧ (truthy_nativeId (pd_nativeId device) = false →
         plugins rt' !! pd_pluginId device = None
         ∧ datastore_tryGet rt' (pd_pluginId device) = None
         ∧ (∀ h, plugins rt1 !! pd_pluginId device = Some h → EvHostKill h ∈ evs)
         ∧ EvDatastoreRemoveId (pd_pluginId device) ∈ evs
         ∧ EvRimraf (pd_pluginId device) ∈ evs)
    ∧ (truthy_nativeId (pd_nativeId device) = true →
         plugins rt' = plugins rt1 ∧ hosts rt' = hosts rt1
         ∧ ds_plugins (datastore rt') = ds_plugins (datastore rt1)
         ∧ (∀ h, EvHostKill h ∉ evs)
         ∧ (∀ p, EvDatastoreRemoveId p ∉ evs) ∧ (∀ p, EvRimraf p ∉ evs)
         ∧ (notifyOutcome rt1 device ≠ Delivered →
            EvConsoleWarn "error while reporting device removal to plugin remote"
              ∈ evs))
    ∧ trace rt' = trace rt ++ all
    ∧ (∀ q, EvDatastoreRemoveId q ∈ all ↔ removesRootOf (pluginDevices rt) device q)
    ∧ (∀ q, EvRimraf q ∈ all ↔ removesRootOf (pluginDevices rt) device q)
    ∧ (∀ h, EvHostKill h ∈ all
            ↔ ∃ q, removesRootOf (pluginDevices rt) device q ∧ plugins rt !! q = Some h)
    ∧ (∀ q, removesRootOf (pluginDevices rt) device q →
         plugins rt' !! q = None ∧ datastore_tryGet rt' q = None)
    ∧ (∀ q, ¬ removesRootOf (pluginDevices rt) device q →
         plugins rt' !! q = plugins rt !! q
         ∧ datastore_tryGet rt' q = datastore_tryGet rt q).
Proof.
  intros Hnd Hacyc Hdev.
  destruct (removeDevice_loop rt device Hacyc) as (rt1 & Hloop & Hsub1 & Hgone & Hkept).
  destruct (removeRecord_spec rt1 device)
    as (rt' & evs & Hrec & Htab & Hstore & Htrace & Hev1 & Hev2 & Hmix & Hroot & Hchild).
  assert (removeDevice (S (length (pluginDevices rt))) rt device = Some rt') as Hrun
    by (simpl; by rewrite Hloop).
  destruct (removeDevice_rootsFollowed (pluginDevices rt) device rt _ rt device rt'
              Hnd Hdev (rtc_refl _ _) Hrun)
    as (_ & all & Hall & HA & HB & HC & HD).
  { split; [done|]. exists []. rewrite app_nil_r. split; [done|]. split_and!.
    - intros x Hx Hgone0. destruct Hgone0. by apply list_elem_of_fmap_2.
    - intros q [Hin|Hin]; by apply elem_of_nil in Hin.
    - by intros h ?%elem_of_nil.
    - intros q. by left. }
  exists rt1, rt', evs, all.
  assert (∀ x, tc (provides (pluginDevices rt)) (pd_id device) x →
               x ∉ pd_id <$> pluginDevices rt1) as Hdesc.
  { intros x Htc.
    assert (∀ c, provides (pluginDevices rt) (pd_id device) c →
                 c ∈ pd_id <$> pluginDevices rt ∧ c ∉ pd_id <$> pluginDevices rt1)
      as Hchildren.
    { intros c (pd & Hpd & <- & Hprov & Hne). split; [by apply list_elem_of_fmap_2|].
      apply Hgone; [|done]. apply elem_of_providedDevices. auto. }
    inversion Htc as [? ? Hedge|? c ? Hedge Hrest]; subst.
    - by apply Hchildren.
    - destruct (Hchildren c Hedge) as [Hc0 Hc1].
      by eapply providersKept_descendants. }
  assert (∀ x, rtc (provides (pluginDevices rt)) (pd_id device) x →
               x ∉ pd_id <$> pluginDevices rt') as Hleft.
  { intros x [Heq|Htc]%rtc_tc; rewrite Htab.
    - rewrite <-Heq. by intros [Hne _]%deleteDevice_ids.
    - intros [_ Hx]%deleteDevice_ids. by apply (Hdesc x). }
  assert (∀ q, removesRootOf (pluginDevices rt) device q →
               EvDatastoreRemoveId q ∈ all ∧ EvRimraf q ∈ all
               ∧ plugins rt' !! q = None ∧ datastore_tryGet rt' q = None
               ∧ ∀ h, plugins rt !! q = Some h → EvHostKill h ∈ all) as Hremoved.
  { intros q (x & Hx & Hreach & Hfalsy & <-). apply HA; [done| |done]. by apply Hleft. }
  split_and!; try done.
  - intros x Htc. split; [by apply Hdesc|]. rewrite Htab.
    intros [_ Hx]%deleteDevice_ids. by apply (Hdesc x).
  - intros x. split.
    + intros Hx. split.
      * rewrite Htab in Hx. apply deleteDevice_ids in Hx as [_ Hx].
        apply list_elem_of_fmap in Hx as (y & -> & Hy). apply list_elem_of_fmap_2. auto.
      * intros Hreach. by apply (Hleft x).
    + intros [(y & -> & Hy)%list_elem_of_fmap Hnot]. apply list_elem_of_fmap_2.
      apply (removeDevice_keeps (pluginDevices rt) pluginDevices)
        with (S (length (pluginDevices rt))) rt device; try done.
      intros r d r' Hrec'.
      destruct (removeRecord_spec r d) as (r2 & evs2 & Hrec2 & Htab2 & _).
      rewrite Hrec' in Hrec2. by injection Hrec2 as <-.
  - rewrite Htab. by intros [Hne _]%deleteDevice_ids.
  - unfold persisted. rewrite Hstore. by rewrite list_find_deleteDevice_None.
  - intros q. split; [intros Hin; apply HB; by left|]. intros Hq.
    by destruct (Hremoved q Hq) as (? & _).
  - intros q. split; [intros Hin; apply HB; by right|]. intros Hq.
    by destruct (Hremoved q Hq) as (_ & ? & _).
  - intros h. split; [by apply HC|]. intros (q & Hq & Hh).
    destruct (Hremoved q Hq) as (_ & _ & _ & _ & Hk). by apply Hk.
  - intros q Hq. by destruct (Hremoved q Hq) as (_ & _ & ? & ? & _).
  - intros q Hnot. by destruct (HD q) as [?|(_ & ? & _)].
Qed.

Lemma familyDevices_acyclic : acyclicProviders familyDevices.
Proof.
  apply (acyclicProviders_rank _
           (λ x, if decide (x = "1") then 2 else if decide (x = "2") then 1 else 0)).
  intros p c (pd & Hpd & <- & Hprov & Hne). unfold familyDevices in Hpd.
  repeat (apply elem_of_cons in Hpd as [->|Hpd]); [..|by apply elem_of_nil in Hpd];
    vm_compute in Hprov; injection Hprov as <-; vm_compute; try lia.
  by vm_compute in Hne.
Qed.

(** C10 at the root device of [familyRuntime], which is its own provider. *)
Lemma removeDevice_terminates_witness :
  acyclicProviders (pluginDevices familyRuntime)
  ∧ is_Some (removeDevice 4 familyRuntime
               (deviceRecord "1" NidUndefined [] ["ScryptedPlugin"] (JString "1"))).
Proof.
  split; [exact familyDevices_acyclic|].
  apply (removeDevice_terminates familyRuntime _ familyDevices_acyclic). simpl. lia.
Defined.

(** Removing the root device of [familyRuntime]: every device goes, and the
    plugin with them. *)
Example remove_root_device :
  (λ rt, (pluginDevices rt, ds_devices (datastore rt), plugins rt !! "p",
          ds_plugins (datastore rt), trace rt))
    <$> removeDevice 4 familyRuntime
          (deviceRecord "1" NidUndefined [] ["ScryptedPlugin"] (JString "1"))
  = Some ([], [], None, [],
          [EvDatastoreRemove "3"; EvStateManagerRemoveDevice "3";
           EvSetNativeId "p" (NidString "c2");
           EvDatastoreRemove "2"; EvStateManagerRemoveDevice "2";
           EvSetNativeId "p" (NidString "c1");
           EvDatastoreRemove "1"; EvStateManagerRemoveDevice "1";
           EvHostKill 0; EvDatastoreRemoveId "p"; EvRimraf "p"]).
Proof. vm_compute. reflexivity. Qed.

(** The amended C5 at device [2] of [familyRuntime], which provides [3]. *)
Lemma removeDevice_cascade_witness :
  NoDup (pd_id <$> pluginDevices familyRuntime)
  ∧ acyclicProviders (pluginDevices familyRuntime)
  ∧ deviceRecord "2" (NidString "c1") [] ["OnOff"] (JString "1")
    ∈ pluginDevices familyRuntime
  ∧ ∃ rt', removeDevice 4 familyRuntime
             (deviceRecord "2" (NidString "c1") [] ["OnOff"] (JString "1")) = Some rt'
           ∧ ("2" ∉ pd_id <$> pluginDevices rt')
           ∧ plugins rt' !! "p" = Some 0.
Proof.
  assert (NoDup (pd_id <$> pluginDevices familyRuntime)) as Hnd.
  { apply (bool_decide_unpack _). vm_compute. exact I. }
  assert (deviceRecord "2" (NidString "c1") [] ["OnOff"] (JString "1")
          ∈ pluginDevices familyRuntime) as Hin.
  { simpl. unfold familyDevices. set_solver. }
  split_and!; [done|exact familyDevices_acyclic|done|].
  destruct (removeDevice_cascade familyRuntime _ Hnd familyDevices_acyclic Hin)
    as (rt1 & rt' & evs & all & Hloop & _ & Hrun & _ & _ & Hgone & _ & _ & _ & _ & _ & _
        & Hkeep & _).
  exists rt'. split; [exact Hrun|]. split; [exact Hgone|].
  destruct (Hkeep eq_refl) as (Hplugins & _). rewrite Hplugins.
  vm_compute in Hloop. injection Hloop as <-. reflexivity.
Defined.

Lemma loopRuntime_never_returns fuel :
  removeDevice fuel loopRuntime (deviceRecord "1" (NidString "a") [] [] (JString "2")) = None
  ∧ removeDevice fuel loopRuntime (deviceRecord "2" (NidString "b") [] [] (JString "1")) = None.
Proof.
  induction fuel as [|fuel [IH1 IH2]]; [done|].
  split; simpl.
  - replace (providedDevices loopRuntime _)
      with [deviceRecord "2" (NidString "b") [] [] (JString "1")]
      by (vm_compute; reflexivity).
    cbn [removeProvided]. rewrite decide_False by (by vm_compute). by rewrite IH2.
  - replace (providedDevices loopRuntime _)
      with [deviceRecord "1" (NidString "a") [] [] (JString "2")]
      by (vm_compute; reflexivity).
    cbn [removeProvided]. rewrite decide_False by (by vm_compute). by rewrite IH1.
Qed.

(** C5 as stated fails twice: a device whose native id is the empty string
    has a native id, and removing it kills the plugin and deletes its record
    and volume; and where two devices provide each other [removeDevice]
    removes nothing, as it does not return. *)
Lemma removeDevice_cascade_counterexample :
  (pd_nativeId emptyNativeIdDevice = NidString ""
   ∧ ∃ rt', removeDevice 3 emptyNativeIdRuntime emptyNativeIdDevice = Some rt'
       ∧ plugins emptyNativeIdRuntime !! "p" = Some 0
       ∧ plugins rt' !! "p" = None
       ∧ datastore_tryGet rt' "p" = None
       ∧ trace rt' = [EvDatastoreRemove "2"; EvStateManagerRemoveDevice "2";
                      EvHostKill 0; EvDatastoreRemoveId "p"; EvRimraf "p"])
  ∧ (∀ fuel, removeDevice fuel loopRuntime
               (deviceRecord "1" (NidString "a") [] [] (JString "2")) = None).
Proof.
  split.
  - split; [reflexivity|]. eexists. split; [vm_compute; reflexivity|].
    split_and!; vm_compute; reflexivity.
  - intros fuel. apply loopRuntime_never_returns.
Qed.

(** ** The mixin cycle check *)

Lemma list_find_id_storeDevice pd T x :
  snd <$> list_find (λ d, pd_id d = x) (storeDevice pd T)
  = if decide (x = pd_id pd) then Some pd
    else snd <$> list_find (λ d, pd_id d = x) T.
Proof.
  induction T as [|y T IH]; simpl.
  - repeat case_decide; done || congruence.
  - destruct (decide (pd_id y = pd_id pd)) as [Hy|Hy]; simpl.
    + repeat case_decide; simpl; done || congruence.
    + destruct (keyBefore _ _ && bool_decide _); simpl.
      * destruct (decide (pd_id pd = x)) as [Hp|Hp]; simpl.
        -- by rewrite decide_True.
        -- rewrite (decide_False (P := x = pd_id pd)) by congruence.
           by rewrite snd_list_find_shift.
      * destruct (decide (pd_id y = x)) as [Hx|Hx]; simpl.
        -- rewrite decide_False by congruence. done.
        -- rewrite <-!option_fmap_compose in *. simpl.
           destruct (list_find _ (storeDevice pd T)) as [[i a]|];
             destruct (list_find _ T) as [[j b]|]; simpl in *; done.
Qed.

Lemma storeDevice_ids_NoDup pd T :
  NoDup (pd_id <$> T) → NoDup (pd_id <$> storeDevice pd T).
Proof.
  induction T as [|y T IH]; csimpl; intros Hnd.
  - apply NoDup_singleton.
  - apply NoDup_cons in Hnd as [Hy Hnd]. case_decide as Hid; csimpl.
    + apply NoDup_cons. by rewrite <-Hid.
    + destruct (keyBefore _ _ && bool_decide _) eqn:Hins; csimpl.
      * apply andb_true_iff in Hins as [_ Hnew%bool_decide_eq_true].
        apply NoDup_cons. split; [|by apply NoDup_cons].
        intros [?|?]%elem_of_cons; [congruence|done].
      * apply NoDup_cons. split; [|by apply IH].
        intros (z & Hz & Hin)%list_elem_of_fmap.
        apply elem_of_storeDevice in Hin as [->|Hin]; [done|].
        apply Hy. apply list_elem_of_fmap. eauto.
Qed.

Lemma storeDevice_same_ids pd T :
  pd_id pd ∈ pd_id <$> T → pd_id <$> storeDevice pd T = pd_id <$> T.
Proof. apply storeDevice_ids. Qed.

Lemma list_find_id_elem T x pd :
  snd <$> list_find (λ d, pd_id d = x) T = Some pd → pd ∈ T ∧ pd_id pd = x.
Proof.
  destruct (list_find _ T) as [[i a]|] eqn:Hfind; simpl; [|done].
  intros [= ->]. apply list_find_Some in Hfind as (Hi & Hid & _).
  split; [by eapply list_elem_of_lookup_2|done].
Qed.

Lemma list_find_id_NoDup T pd :
  NoDup (pd_id <$> T) → pd ∈ T →
  snd <$> list_find (λ d, pd_id d = pd_id pd) T = Some pd.
Proof.
  intros Hnd [i Hi]%list_elem_of_lookup.
  destruct (list_find (λ d, pd_id d = pd_id pd) T) as [[j a]|] eqn:Hfind; simpl.
  - apply list_find_Some in Hfind as (Hj & Hid & _).
    assert (i = j) as ->; [|congruence].
    eapply NoDup_lookup; [exact Hnd|..]; rewrite list_lookup_fmap.
    + by rewrite Hi.
    + rewrite Hj. simpl. by rewrite Hid.
  - apply list_find_None in Hfind. rewrite Forall_forall in Hfind.
    exfalso. apply (Hfind pd); [by eapply list_elem_of_lookup_2|done].
Qed.

Lemma mixinWeight_mono T visited m :
  mixinWeight T (m :: visited) ≤ mixinWeight T visited.
Proof.
  unfold mixinWeight. induction T as [|pd T IH]; csimpl; [done|].
  repeat case_decide; try lia; set_solver.
Qed.

Lemma mixinWeight_visit rt visited m :
  m ∉ visited →
  length (getMixins rt m) + mixinWeight (pluginDevices rt) (m :: visited)
  ≤ mixinWeight (pluginDevices rt) visited.
Proof.
  intros Hm. unfold getMixins, findPluginDeviceById.
  induction (pluginDevices rt) as [|pd T IH]; simpl; [done|].
  unfold mixinWeight in *. csimpl.
  destruct (decide (pd_id pd = m)) as [Hid|Hid]; simpl.
  - rewrite decide_True by set_solver. rewrite decide_False by (by rewrite Hid).
    pose proof (mixinWeight_mono T visited m) as Hmono. unfold mixinWeight in Hmono.
    simpl. lia.
  - rewrite <-option_fmap_compose in *. simpl.
    destruct (list_find _ T) as [[i a]|]; simpl in *;
      repeat case_decide; try lia; set_solver.
Qed.

(** The search keeps what it has visited and only visits ids that are
    reached from the ids it started from. *)
Lemma visitMixins_sound rt (Q : string → Prop) :
  (∀ x y, Q x → mixes rt x y → Q y) →
  ∀ fuel stack visited,
    (∀ y, y ∈ stack → Q y) → (∀ y, y ∈ visited → Q y) →
    ∀ y, y ∈ visitMixins fuel rt stack visited → Q y.
Proof.
  intros HQ. induction fuel as [|fuel IH]; intros stack visited Hs Hv; [done|].
  simpl. destruct stack as [|m rest]; [done|]. case_decide.
  - apply IH; [|done]. intros; apply Hs; set_solver.
  - apply IH.
    + intros y [Hy|Hy]%elem_of_app; [|apply Hs; set_solver].
      apply (HQ m); [apply Hs; set_solver|done].
    + intros y [->|Hy]%elem_of_cons; [apply Hs; set_solver|by apply Hv].
Qed.

(** With enough fuel the search ends on a set that holds the stack and the
    visited ids it was given and is closed under the mixin edges. *)
Lemma visitMixins_closed rt :
  ∀ fuel stack visited,
    length stack + mixinWeight (pluginDevices rt) visited < fuel →
    (∀ x y, x ∈ visited → mixes rt x y → y ∈ visited ∨ y ∈ stack) →
    let V := visitMixins fuel rt stack visited in
    (∀ y, y ∈ stack → y ∈ V) ∧ (∀ y, y ∈ visited → y ∈ V)
    ∧ (∀ x y, x ∈ V → mixes rt x y → y ∈ V).
Proof.
  induction fuel as [|fuel IH]; intros stack visited Hfuel Hinv; [lia|].
  simpl. destruct stack as [|m rest].
  - split_and!; [by intros y ?%elem_of_nil|done|].
    intros x y Hx Hxy. destruct (Hinv x y Hx Hxy) as [?|?%elem_of_nil]; done.
  - case_decide as Hm.
    + destruct (IH rest visited) as (Hs & Hv & Hc).
      * simpl in Hfuel. lia.
      * intros x y Hx Hxy. destruct (Hinv x y Hx Hxy) as [?|[->|?]%elem_of_cons]; auto.
      * split_and!; [|done..]. intros y [->|Hy]%elem_of_cons; auto.
    + destruct (IH (getMixins rt m ++ rest) (m :: visited)) as (Hs & Hv & Hc).
      * pose proof (mixinWeight_visit rt visited m Hm). rewrite length_app.
        simpl in Hfuel. lia.
      * intros x y [->|Hx]%elem_of_cons Hxy.
        -- right. apply elem_of_app. by left.
        -- destruct (Hinv x y Hx Hxy) as [?|[->|?]%elem_of_cons].
           ++ left. set_solver.
           ++ left. set_solver.
           ++ right. set_solver.
      * split_and!; [|intros; apply Hv; set_solver|done].
        intros y [->|Hy]%elem_of_cons; [apply Hv; set_solver|apply Hs; set_solver].
Qed.

(** The check answers whether [id] is on a mixin cycle. *)
Lemma hasMixinCycle_spec rt id : hasMixinCycle rt id = true ↔ inMixinCycle rt id.
Proof.
  unfold hasMixinCycle, inMixinCycle. rewrite bool_decide_eq_true. split.
  - apply (visitMixins_sound rt (λ y, tc (mixes rt) id y)).
    + intros x y Hx Hxy. by eapply tc_r.
    + intros y Hy. by apply tc_once.
    + by intros y ?%elem_of_nil.
  - intros Hcycle.
    destruct (visitMixins_closed rt
                (S (length (getMixins rt id) + mixinWeight (pluginDevices rt) []))
                (getMixins rt id) [])
      as (Hs & _ & Hc); [lia|by intros x y ?%elem_of_nil|].
    assert (∀ x y, tc (mixes rt) x y →
              (x = id ∨ x ∈ visitMixins
                              (S (length (getMixins rt id)
                                  + mixinWeight (pluginDevices rt) []))
                              rt (getMixins rt id) []) →
              y ∈ visitMixins
                    (S (length (getMixins rt id) + mixinWeight (pluginDevices rt) []))
                    rt (getMixins rt id) []) as Hreach.
    { induction 1 as [x y Hxy|x y z Hxy _ IH]; intros Hx.
      - destruct Hx as [->|Hx]; [by apply Hs|by eapply Hc].
      - apply IH. right. destruct Hx as [->|Hx]; [by apply Hs|by eapply Hc]. }
    apply (Hreach id id Hcycle). by left.
Qed.

(** ** The cycle guard of [start] *)

Lemma getMixins_ext rt rt' x :
  pluginDevices rt' = pluginDevices rt → getMixins rt' x = getMixins rt x.
Proof. unfold getMixins, findPluginDeviceById. by intros ->. Qed.

Lemma getMixins_absent rt x : x ∉ pd_id <$> pluginDevices rt → getMixins rt x = [].
Proof.
  intros Hx. unfold getMixins, findPluginDeviceById.
  destruct (list_find _ (pluginDevices rt)) as [[i a]|] eqn:Hfind; [|done].
  apply list_find_Some in Hfind as (Hi & Hid & _). exfalso. apply Hx.
  rewrite <-Hid. apply list_elem_of_fmap_2. by eapply list_elem_of_lookup_2.
Qed.

(** Storing a device under its id changes the mixins of that id only. *)
Lemma getMixins_storeDevice rt pd x :
  getMixins (set_pluginDevices (storeDevice pd (pluginDevices rt)) rt) x
  = if decide (x = pd_id pd) then strings (as_array (getState pd Property_mixins))
    else getMixins rt x.
Proof.
  unfold getMixins, findPluginDeviceById. simpl. rewrite list_find_id_storeDevice.
  by case_decide.
Qed.

Lemma getMixins_setState_other pd k v :
  k ≠ Property_mixins →
  strings (as_array (getState (setState pd k v).1 Property_mixins))
  = strings (as_array (getState pd Property_mixins)).
Proof.
  intros Hk. destruct (pd_state pd) as [st|] eqn:Hst.
  - by rewrite getState_setState_ne by (done || eauto).
  - unfold setState. by rewrite Hst.
Qed.

Lemma clearMixinCycle_mixins rt id x :
  hasMixinCycle rt id = true →
  getMixins (clearMixinCycle rt id) x = if decide (x = id) then [] else getMixins rt x.
Proof.
  intros Hcycle. unfold clearMixinCycle. rewrite Hcycle.
  unfold findPluginDeviceById at 1. simpl.
  destruct (list_find _ (pluginDevices rt)) as [[i pd]|] eqn:Hfind; simpl.
  - assert (pd_id pd = id) as Hid by (by apply list_find_Some in Hfind as (_ & ? & _)).
    rewrite (getMixins_storeDevice (emit _ rt)), setState_id, Hid.
    rewrite (getMixins_ext rt (emit _ rt)) by done.
    case_decide; [|done].
    destruct (pd_state pd) as [st|] eqn:Hst.
    + by rewrite getState_setState_eq by eauto.
    + unfold setState. rewrite Hst. simpl. unfold getState. by rewrite Hst.
  - rewrite (getMixins_ext rt (emit _ rt)) by done. case_decide as Hx; [|done].
    subst x. unfold getMixins, findPluginDeviceById. by rewrite Hfind.
Qed.

Lemma clearMixinCycle_ids rt id :
  pd_id <$> pluginDevices (clearMixinCycle rt id) = pd_id <$> pluginDevices rt.
Proof.
  unfold clearMixinCycle. destruct (hasMixinCycle rt id); [|done].
  destruct (findPluginDeviceById _ id) as [pd|] eqn:Hfind; [|done]. simpl.
  apply list_find_id_elem in Hfind as [Hin Hid]. simpl in Hin.
  apply storeDevice_same_ids. rewrite setState_id. by apply list_elem_of_fmap_2.
Qed.

Lemma clearMixinCycle_providedInterfaces rt id pd :
  pd ∈ pluginDevices (clearMixinCycle rt id) →
  ∃ pd0, pd0 ∈ pluginDevices rt ∧ pd_nativeId pd = pd_nativeId pd0
         ∧ getState pd Property_providedInterfaces
           = getState pd0 Property_providedInterfaces.
Proof.
  unfold clearMixinCycle. destruct (hasMixinCycle rt id); [|by eauto].
  destruct (findPluginDeviceById _ id) as [pd1|] eqn:Hfind; [|by eauto]. simpl.
  apply list_find_id_elem in Hfind as [Hin Hid]. simpl in Hin.
  intros [->|Hpd]%elem_of_storeDevice; [|by eauto].
  exists pd1. rewrite setState_nativeId. split_and!; [done..|].
  destruct (pd_state pd1) as [st|] eqn:Hst.
  - by rewrite getState_setState_ne by (done || eauto).
  - unfold setState. by rewrite Hst.
Qed.

Lemma tc_mixes_mono rt rt' x y :
  (∀ a b, mixes rt' a b → mixes rt a b) → tc (mixes rt') x y → tc (mixes rt) x y.
Proof.
  intros Hsub. induction 1 as [a b Hab|a b c Hab _ IH];
    [apply tc_once|eapply tc_l]; eauto.
Qed.

Lemma inMixinCycle_edge rt x : inMixinCycle rt x → getMixins rt x ≠ [].
Proof.
  unfold inMixinCycle. intros Hcycle Hnil.
  inversion Hcycle as [? ? Hxy|? y ? Hxy _]; subst; unfold mixes in Hxy;
    rewrite Hnil in Hxy; by apply elem_of_nil in Hxy.
Qed.

(** The loop of the guard over a list of ids. *)
Lemma cycleGuard_loop ids : ∀ rt,
  let rt' := foldl clearMixinCycle rt ids in
  (∀ x, getMixins rt' x = getMixins rt x ∨ (getMixins rt' x = [] ∧ inMixinCycle rt x))
  ∧ (∀ x, x ∈ ids → ¬ inMixinCycle rt' x)
  ∧ pd_id <$> pluginDevices rt' = pd_id <$> pluginDevices rt.
Proof.
  induction ids as [|id ids IH]; intros rt; simpl.
  - split_and!; auto. by intros x ?%elem_of_nil.
  - set (rt1 := clearMixinCycle rt id).
    destruct (IH rt1) as (Hmix & Hfree & Hids).
    assert (∀ x, getMixins rt1 x = getMixins rt x
                 ∨ (getMixins rt1 x = [] ∧ inMixinCycle rt x)) as Hstep.
    { intros x. subst rt1. destruct (hasMixinCycle rt id) eqn:Hcycle.
      - rewrite clearMixinCycle_mixins by done. case_decide as Hx; [|by left].
        right. subst x. split; [done|]. by apply hasMixinCycle_spec.
      - left. unfold clearMixinCycle. by rewrite Hcycle. }
    assert (∀ a b, mixes rt1 a b → mixes rt a b) as Hsub1.
    { intros a b. unfold mixes. destruct (Hstep a) as [->|[-> _]]; [done|].
      by intros ?%elem_of_nil. }
    assert (∀ a b, mixes (foldl clearMixinCycle rt1 ids) a b → mixes rt1 a b) as Hsub.
    { intros a b. unfold mixes. destruct (Hmix a) as [->|[-> _]]; [done|].
      by intros ?%elem_of_nil. }
    split_and!.
    + intros x. destruct (Hmix x) as [->|[-> Hc]]; [by apply Hstep|].
      right. split; [done|]. by eapply tc_mixes_mono.
    + intros x [->|Hx]%elem_of_cons; [|by apply Hfree].
      intros Hcycle. apply (tc_mixes_mono rt1) in Hcycle; [|done].
      subst rt1. destruct (hasMixinCycle rt id) eqn:Hc.
      * apply inMixinCycle_edge in Hcycle. apply Hcycle.
        rewrite clearMixinCycle_mixins by done. by rewrite decide_True.
      * unfold clearMixinCycle in Hcycle. rewrite Hc in Hcycle.
        apply hasMixinCycle_spec in Hcycle. congruence.
    + rewrite Hids. apply clearMixinCycle_ids.
Qed.

(** After the guard no device is on a mixin cycle, and a device whose
    mixins changed was on a cycle and has none left. *)
Lemma cycleGuard_spec rt :
  (∀ x, ¬ inMixinCycle (cycleGuard rt) x)
  ∧ (∀ x, getMixins (cycleGuard rt) x = getMixins rt x
          ∨ (getMixins (cycleGuard rt) x = [] ∧ inMixinCycle rt x))
  ∧ pd_id <$> pluginDevices (cycleGuard rt) = pd_id <$> pluginDevices rt.
Proof.
  destruct (cycleGuard_loop (pd_id <$> pluginDevices rt) rt) as (Hmix & Hfree & Hids).
  fold (cycleGuard rt) in *. split_and!; [|done..].
  intros x Hcycle. destruct (decide (x ∈ pd_id <$> pluginDevices rt)) as [Hx|Hx].
  - by apply (Hfree x).
  - apply inMixinCycle_edge in Hcycle. apply Hcycle, getMixins_absent. by rewrite Hids.
Qed.

(** ** The repairs of [start] *)

Lemma elem_of_strings x l : x ∈ strings l ↔ Some x ∈ l.
Proof.
  unfold strings. rewrite list_elem_of_omap. split.
  - intros (y & Hy & Hid). simpl in Hid. by subst.
  - intros Hx. by exists (Some x).
Qed.

Lemma keepsProvided_refl pd : keepsProvided pd pd.
Proof. by split_and!. Qed.

Lemma keepsProvided_setState pd k v :
  k ≠ Property_providedInterfaces → keepsProvided pd (setState pd k v).1.
Proof.
  intros Hk. unfold keepsProvided.
  rewrite setState_id, setState_nativeId. split_and!; [done..|apply setState_is_Some|].
  destruct (pd_state pd) as [st|] eqn:Hst.
  - by rewrite getState_setState_ne by (done || eauto).
  - unfold setState. by rewrite Hst.
Qed.

Lemma repairMixins_keeps pd : keepsProvided pd (repairMixins pd).1.
Proof.
  unfold repairMixins. case_bool_decide; simpl;
    [by apply keepsProvided_setState|apply keepsProvided_refl].
Qed.

Lemma repairPluginId_keeps pd : keepsProvided pd (repairPluginId pd).1.
Proof.
  unfold repairPluginId. destruct (truthy _); simpl;
    [apply keepsProvided_refl|by apply keepsProvided_setState].
Qed.

Lemma repairNativeId_keeps pd : keepsProvided pd (repairNativeId pd).1.
Proof.
  unfold repairNativeId. case_decide; simpl;
    [by apply keepsProvided_setState|apply keepsProvided_refl].
Qed.

(** The marker repair returns when [providedInterfaces] is an array, and
    leaves the marker on a device whose native id is falsy. *)
Lemma repairMarker_spec pd :
  is_Some (pd_state pd) →
  (truthy_nativeId (pd_nativeId pd) = false →
   ∃ interfaces, getState pd Property_providedInterfaces = JArray interfaces) →
  ∃ pd' dirty, repairMarker pd = Some (pd', dirty)
    ∧ pd_id pd' = pd_id pd ∧ pd_nativeId pd' = pd_nativeId pd
    ∧ is_Some (pd_state pd')
    ∧ (truthy_nativeId (pd_nativeId pd) = false →
       ScryptedPlugin ∈ strings (as_array (getState pd' Property_providedInterfaces))).
Proof.
  intros Hst Htyped. unfold repairMarker.
  destruct (truthy_nativeId (pd_nativeId pd)) eqn:Htruthy.
  - exists pd, false. by split_and!.
  - destruct (Htyped eq_refl) as [interfaces Hifaces]. rewrite Hifaces.
    case_bool_decide as Hmarker.
    + exists pd, false. split_and!; [done..|]. intros _.
      rewrite Hifaces. simpl. by apply elem_of_strings.
    + eexists _, true. split; [done|].
      rewrite setState_id, setState_nativeId. split_and!; [done..|by apply setState_is_Some|].
      intros _. rewrite getState_setState_eq by done. rewrite strings_js.
      apply elem_of_sortInterfaces, elem_of_strings. set_solver.
Qed.

(** The marker of a falsy native id holds for the undefined one. *)
Lemma truthy_nativeId_undefined n : n = NidUndefined → truthy_nativeId n = false.
Proof. by intros ->. Qed.

Lemma loadDevice_spec rt pd :
  (is_Some (pd_state pd) → truthy_nativeId (pd_nativeId pd) = false →
   ∃ interfaces, getState pd Property_providedInterfaces = JArray interfaces) →
  ∃ rt', loadDevice rt pd = Some rt'
    ∧ (pluginDevices rt' = pluginDevices rt
       ∨ ∃ pd', pluginDevices rt' = storeDevice pd' (pluginDevices rt)
                ∧ (truthy_nativeId (pd_nativeId pd') = false →
                   ScryptedPlugin
                     ∈ strings (as_array (getState pd' Property_providedInterfaces)))).
Proof.
  intros Htyped. unfold loadDevice. destruct (pd_state pd) as [st|] eqn:Hst.
  2:{ eexists. split; [done|]. by left. }
  destruct (repairMixins_keeps pd) as (Hid1 & Hn1 & Hs1 & Hp1).
  destruct (repairMixins pd) as [pd1 dirty1]. simpl in *.
  destruct (repairMarker_spec pd1) as (pd2 & dirty2 & -> & Hid2 & Hn2 & Hs2 & Hm2).
  { apply Hs1. rewrite Hst. eauto. }
  { rewrite Hn1, Hp1. intros. apply Htyped; [eauto|done]. }
  simpl.
  destruct (repairPluginId_keeps pd2) as (Hid3 & Hn3 & Hs3 & Hp3).
  destruct (repairPluginId pd2) as [pd3 dirty3]. simpl in *.
  destruct (repairNativeId_keeps pd3) as (Hid4 & Hn4 & Hs4 & Hp4).
  destruct (repairNativeId pd3) as [pd4 dirty4]. simpl in *.
  eexists. split; [done|]. right. exists pd4. split.
  - by destruct (dirty1 || dirty2 || dirty3 || dirty4).
  - rewrite Hp4, Hp3, Hn4, Hn3, Hn2. done.
Qed.

Lemma rootMarked_storeDevice pd T :
  rootMarked T →
  (pd_nativeId pd = NidUndefined →
   ScryptedPlugin ∈ strings (as_array (getState pd Property_providedInterfaces))) →
  rootMarked (storeDevice pd T).
Proof. intros HT Hpd x [->|Hx]%elem_of_storeDevice Hroot; [by apply Hpd|by apply HT]. Qed.

Lemma loadDevices_spec l : ∀ rt,
  storeWellTyped l →
  ∃ rt', loadDevices l rt = Some rt'
    ∧ (rootMarked (pluginDevices rt) → rootMarked (pluginDevices rt'))
    ∧ (NoDup (pd_id <$> pluginDevices rt) → NoDup (pd_id <$> pluginDevices rt')).
Proof.
  induction l as [|pd l IH]; intros rt Htyped; simpl; [by eauto|].
  destruct (loadDevice_spec rt pd) as (rt1 & -> & Htab).
  { intros. apply Htyped; [set_solver|done..]. }
  simpl. destruct (IH rt1) as (rt' & -> & Hmark & Hnd).
  { intros x Hx. apply Htyped. set_solver. }
  exists rt'. split; [done|].
  destruct Htab as [Htab|(pd' & Htab & Hpd')]; rewrite Htab in Hmark, Hnd; [done|].
  split.
  - intros HT. apply Hmark. apply rootMarked_storeDevice; [done|].
    intros Hn. apply Hpd'. by rewrite Hn.
  - intros HT. apply Hnd. by apply storeDevice_ids_NoDup.
Qed.

(** ** Launching the plugins *)

Lemma foldl_invalidatePluginDevice_pluginDevices l : ∀ rt,
  pluginDevices (foldl (λ rt pd, invalidatePluginDevice rt (pd_id pd)) rt l)
  = pluginDevices rt
  ∧ datastore (foldl (λ rt pd, invalidatePluginDevice rt (pd_id pd)) rt l) = datastore rt
  ∧ plugins (foldl (λ rt pd, invalidatePluginDevice rt (pd_id pd)) rt l) = plugins rt
  ∧ hosts (foldl (λ rt pd, invalidatePluginDevice rt (pd_id pd)) rt l) = hosts rt
  ∧ timers (foldl (λ rt pd, invalidatePluginDevice rt (pd_id pd)) rt l) = timers rt
  ∧ lookups (foldl (λ rt pd, invalidatePluginDevice rt (pd_id pd)) rt l) = lookups rt
  ∧ now (foldl (λ rt pd, invalidatePluginDevice rt (pd_id pd)) rt l) = now rt.
Proof.
  induction l as [|pd l IH]; intros rt; simpl; [done|].
  destruct (IH (invalidatePluginDevice rt (pd_id pd))) as (->&->&->&->&->&->&->).
  unfold invalidatePluginDevice. by destruct (lookupDevice rt (pd_id pd)).
Qed.

Lemma foldl_probe_fields l : ∀ rt,
  pluginDevices (foldl probeDevice rt l) = pluginDevices rt
  ∧ datastore (foldl probeDevice rt l) = datastore rt
  ∧ plugins (foldl probeDevice rt l) = plugins rt
  ∧ hosts (foldl probeDevice rt l) = hosts rt
  ∧ timers (foldl probeDevice rt l) = timers rt
  ∧ lookups (foldl probeDevice rt l) = lookups rt
  ∧ now (foldl probeDevice rt l) = now rt.
Proof.
  induction l as [|pd l IH]; intros rt; simpl; [done|].
  destruct (IH (probeDevice rt pd)) as (->&->&->&->&->&->&->).
  unfold probeDevice, getDevice.
  destruct (lookupDevice rt (pd_id pd)); [done|].
  by destruct (findPluginDeviceById rt (pd_id pd)).
Qed.

(** [runPlugin] registers a new host for the plugin and leaves the device
    table, the store, the timers and the clock as they are. *)
Lemma runPlugin_spec rt plugin :
  let r := runPlugin rt plugin in
  pluginDevices r.1 = pluginDevices rt ∧ datastore r.1 = datastore rt
  ∧ timers r.1 = timers rt ∧ lookups r.1 = lookups rt ∧ now r.1 = now rt
  ∧ r.2 = length (hosts rt)
  ∧ plugins r.1 = <[plugin_id plugin := length (hosts rt)]> (plugins rt)
  ∧ length (hosts r.1) = S (length (hosts rt))
  ∧ hosts r.1 !! length (hosts rt)
    = Some {| host_pluginId := plugin_id plugin; host_killed := false;
              host_exitListener := true; host_unreachable := false |}.
Proof.
  unfold runPlugin. cbv zeta.
  destruct (killPlugin_spec rt (plugin_id plugin)) as (K1 & K2 & K3 & K4 & K5 & K6).
  set (rtK := killPlugin rt (plugin_id plugin)) in *.
  destruct (foldl_invalidatePluginDevice_pluginDevices
              (findPluginDevices rtK (plugin_id plugin)) rtK)
    as (I1 & I2 & I3 & I4 & I5 & I6 & I7).
  set (rtI := foldl _ rtK _) in *.
  match goal with
  | |- context [foldl probeDevice ?a ?l] =>
    destruct (foldl_probe_fields l a) as (P1 & P2 & P3 & P4 & P5 & P6 & P7)
  end.
  cbn [fst snd].
  rewrite P1, P2, P3, P4, P5, P6, P7. simpl.
  rewrite I1, I2, I3, I4, I5, I6, I7, K2, K3, K5.
  assert (timers rtK = timers rt ∧ lookups rtK = lookups rt ∧ now rtK = now rt)
    as (-> & -> & ->).
  { subst rtK. unfold killPlugin. by destruct (plugins rt !! plugin_id plugin). }
  split_and!; try done.
  - apply map_eq. intros q. destruct (decide (q = plugin_id plugin)) as [->|Hq].
    + by rewrite !lookup_insert_eq.
    + rewrite !lookup_insert_ne by done. by apply K4.
  - rewrite length_app. simpl. lia.
  - rewrite <-K5. by rewrite lookup_app_r, Nat.sub_diag by lia.
Qed.

Lemma launchPlugin_spec rt plugin :
  NoDup (pd_id <$> pluginDevices rt) →
  NoDup (pd_id <$> pluginDevices (launchPlugin rt plugin))
  ∧ datastore (launchPlugin rt plugin) = datastore rt
  ∧ (∀ x, getMixins (launchPlugin rt plugin) x = getMixins rt x)
  ∧ (rootMarked (pluginDevices rt) → rootMarked (pluginDevices (launchPlugin rt plugin))).
Proof.
  intros Hnd. unfold launchPlugin.
  destruct (findPluginDevice rt (plugin_id plugin) NidUndefined) as [pd|] eqn:Hfind;
    [|by split_and!].
  assert (pd ∈ pluginDevices rt) as Hin.
  { unfold findPluginDevice in Hfind.
    destruct (list_find _ (pluginDevices rt)) as [[i a]|] eqn:Hf; [|done].
    injection Hfind as ->. apply list_find_Some in Hf as (Hi & _).
    by eapply list_elem_of_lookup_2. }
  destruct (runPlugin_spec
              (set_pluginDevices
                 (storeDevice (setState pd Property_info
                                 (JInfo (Some (packageJson_name plugin))
                                    (Some (packageJson_version plugin)))).1
                    (pluginDevices rt)) rt) plugin) as (R1 & R2 & _).
  cbv zeta. rewrite R1, R2. simpl. split_and!.
  - by apply storeDevice_ids_NoDup.
  - done.
  - intros x. erewrite getMixins_ext by exact R1.
    rewrite getMixins_storeDevice, setState_id. case_decide as Hx; [|done].
    rewrite getMixins_setState_other by done. subst x.
    unfold getMixins, findPluginDeviceById. by rewrite list_find_id_NoDup.
  - intros HT. apply rootMarked_storeDevice; [done|].
    destruct (keepsProvided_setState pd Property_info
                (JInfo (Some (packageJson_name plugin))
                   (Some (packageJson_version plugin)))) as (_ & Hn & _ & Hp); [done|].
    rewrite Hn, Hp. intros Hroot. by apply HT.
Qed.

Lemma foldl_launchPlugin_spec l : ∀ rt,
  NoDup (pd_id <$> pluginDevices rt) →
  (∀ x, getMixins (foldl launchPlugin rt l) x = getMixins rt x)
  ∧ (rootMarked (pluginDevices rt) → rootMarked (pluginDevices (foldl launchPlugin rt l))).
Proof.
  induction l as [|plugin l IH]; intros rt Hnd; simpl; [done|].
  destruct (launchPlugin_spec rt plugin Hnd) as (Hnd' & _ & Hmix & Hmark).
  destruct (IH (launchPlugin rt plugin) Hnd') as (Hmix' & Hmark').
  split; [|by auto]. intros x. by rewrite Hmix', Hmix.
Qed.

Lemma foldl_clearMixinCycle_rootMarked ids : ∀ rt,
  rootMarked (pluginDevices rt) →
  rootMarked (pluginDevices (foldl clearMixinCycle rt ids)).
Proof.
  induction ids as [|id ids IH]; intros rt HT; simpl; [done|].
  apply IH. intros pd Hpd Hroot.
  destruct (clearMixinCycle_providedInterfaces rt id pd Hpd) as (pd0 & Hin & Hn & ->).
  apply HT; [done|congruence].
Qed.


(** What [start] leaves: the table of [loadDevices] with the cycles cleared. *)
Lemma start_spec rt :
  NoDup (pd_id <$> pluginDevices rt) →
  storeWellTyped (ds_devices (datastore rt)) →
  ∃ rt1 rt',
    loadDevices (ds_devices (datastore rt)) rt = Some rt1
    ∧ start rt = Some rt'
    ∧ (∀ x, getMixins rt' x = getMixins (cycleGuard rt1) x)
    ∧ (rootMarked (pluginDevices rt) →
       rootMarked (pluginDevices rt1) ∧ rootMarked (pluginDevices rt')).
Proof.
  intros Hnd Htyped.
  destruct (loadDevices_spec (ds_devices (datastore rt)) rt Htyped)
    as (rt1 & Hload & Hmark1 & Hnd1).
  destruct (cycleGuard_spec rt1) as (_ & _ & Hids).
  assert (NoDup (pd_id <$> pluginDevices (cycleGuard rt1))) as Hnd2
    by (rewrite Hids; auto).
  destruct (foldl_launchPlugin_spec (ds_plugins (datastore (cycleGuard rt1)))
              (cycleGuard rt1) Hnd2) as (Hmix & Hmark3).
  exists rt1, (foldl launchPlugin (cycleGuard rt1) (ds_plugins (datastore (cycleGuard rt1)))).
  split_and!; [done| |done|].
  - unfold start. by rewrite Hload.
  - intros HT. split; [by auto|]. apply Hmark3.
    apply foldl_clearMixinCycle_rootMarked. auto.
Qed.





(** ** The plugin marker *)

Lemma truthy_normalizeNativeId n :
  truthy_nativeId (normalizeNativeId n) = truthy_nativeId n.
Proof. by destruct n. Qed.

Lemma providedInterfacesOf_marker device :
  ScryptedPlugin ∈ providedInterfacesOf device
  ↔ truthy_nativeId (dev_nativeId device) = false.
Proof.
  unfold providedInterfacesOf. rewrite truthy_normalizeNativeId, elem_of_sortInterfaces.
  destruct (truthy_nativeId (dev_nativeId device)).
  - rewrite list_elem_of_filter. split; [by intros [? _]|done].
  - split; [done|]. intros _. set_solver.
Qed.

(** C7, amended. [upsertDevice] and [start] keep the invariant that a device
    of the table whose native id is undefined carries the [ScryptedPlugin]
    marker; [upsertDevice] leaves the marker on the device it is called for
    when the native id is undefined, null or empty, and removes it when the
    native id is a non-empty string. *)
Theorem plugin_marker_invariant `{InferDefaults} :
  (∀ rt pluginId device,
     let r := upsertDevice rt pluginId device in
     let provided :=
       strings (as_array (getState (pluginDevicePromise r.2)
                            Property_providedInterfaces)) in
     (rootMarked (pluginDevices rt) → rootMarked (pluginDevices r.1))
     ∧ (truthy_nativeId (dev_nativeId device) = false → ScryptedPlugin ∈ provided)
     ∧ (truthy_nativeId (dev_nativeId device) = true → ScryptedPlugin ∉ provided))
  ∧ (∀ rt,
       NoDup (pd_id <$> pluginDevices rt) →
       storeWellTyped (ds_devices (datastore rt)) →
       ∃ rt1 rt',
         loadDevices (ds_devices (datastore rt)) rt = Some rt1
         ∧ start rt = Some rt'
         ∧ (rootMarked (pluginDevices rt) →
            rootMarked (pluginDevices rt1) ∧ rootMarked (pluginDevices rt'))).
Proof.
  split.
  - intros rt pluginId device r provided. subst r provided.
    destruct (upsertDevice_spec rt pluginId device)
      as (_ & _ & Hn & Hpi & _ & _ & _ & Htab & _).
    rewrite Hpi, strings_js. split_and!.
    + intros HT. rewrite Htab. apply rootMarked_storeDevice; [done|].
      rewrite Hn, Hpi, strings_js. intros Hroot. apply providedInterfacesOf_marker.
      rewrite <-truthy_normalizeNativeId. by rewrite Hroot.
    + by intros ?%providedInterfacesOf_marker.
    + intros Htruthy Hin%providedInterfacesOf_marker. congruence.
  - intros rt Hnd Htyped.
    destruct (start_spec rt Hnd Htyped) as (rt1 & rt' & Hload & Hstart & _ & Hmark).
    by exists rt1, rt'.
Qed.

(** C7 as stated fails: a device reported with the empty string as its
    native id has a defined native id and gets the marker. *)
Lemma plugin_marker_counterexample :
  ¬ (∀ (I : InferDefaults) (rt : ScryptedRuntime) (pluginId : string)
       (device : Device) (s : string),
       dev_nativeId device = NidString s →
       ScryptedPlugin
         ∉ strings (as_array
                      (getState (pluginDevicePromise (upsertDevice rt pluginId device).2)
                         Property_providedInterfaces))).
Proof.
  intros Hclaim.
  apply (Hclaim noInferredDefaults emptyRuntime "p" (declare (NidString "") ["OnOff"]) "");
    [done|].
  apply (bool_decide_unpack _). vm_compute. exact I.
Qed.

Lemma unmarkedStore_wellTyped : storeWellTyped (ds_devices (datastore unmarkedStore)).
Proof.
  intros pd Hin _ Hfalsy. simpl in Hin.
  repeat (apply elem_of_cons in Hin as [->|Hin]); [..|by apply elem_of_nil in Hin];
    try (by vm_compute in Hfalsy).
  eexists. vm_compute. reflexivity.
Qed.

(** The root device that [unmarkedStore] holds without marker gets it. *)
Example start_repairs_marker :
  (λ rt, (λ pd, getState pd Property_providedInterfaces)
           <$> findPluginDevice rt "p" NidUndefined) <$> start unmarkedStore
  = Some (Some (js_of_strings ["OnOff"; "ScryptedPlugin"])).
Proof. vm_compute. reflexivity. Qed.

(** The amended C7 at [unmarkedStore]. *)
Lemma plugin_marker_invariant_witness :
  NoDup (pd_id <$> pluginDevices unmarkedStore)
  ∧ storeWellTyped (ds_devices (datastore unmarkedStore))
  ∧ ∃ rt', start unmarkedStore = Some rt' ∧ rootMarked (pluginDevices rt').
Proof.
  assert (NoDup (pd_id <$> pluginDevices unmarkedStore)) as Hnd by apply NoDup_nil_2.
  split_and!; [done|exact unmarkedStore_wellTyped|].
  destruct (@plugin_marker_invariant noInferredDefaults) as [_ Hstart].
  destruct (Hstart unmarkedStore Hnd unmarkedStore_wellTyped)
    as (rt1 & rt' & _ & Hrun & Hmark).
  exists rt'. split; [exact Hrun|]. apply Hmark. by intros pd ?%elem_of_nil.
Defined.

(** ** Automatic restart *)

Lemma take_out_subseteq {A} `{EqDecision A} (x : A) l rest y :
  take_out x l = Some rest → y ∈ rest → y ∈ l.
Proof.
  revert rest. induction l as [|z l IH]; intros rest; simpl; [done|].
  case_decide.
  - intros [= ->] Hy. set_solver.
  - destruct (take_out x l) as [rest'|]; simpl; [|done].
    intros [= <-] [->|Hy]%elem_of_cons; [set_solver|].
    apply elem_of_cons. right. by apply IH with rest'.
Qed.

Lemma take_out_None {A} `{EqDecision A} (x : A) l : x ∉ l → take_out x l = None.
Proof.
  induction l as [|z l IH]; simpl; [done|]. intros Hx.
  rewrite decide_False by set_solver. rewrite IH by set_solver. done.
Qed.

Lemma workerExit_fields rt h rt' :
  workerExit rt h = Some rt' →
  plugins rt' = plugins rt ∧ lookups rt' = lookups rt
  ∧ length (hosts rt') = length (hosts rt) ∧ datastore rt' = datastore rt.
Proof.
  unfold workerExit. destruct (hosts rt !! h) as [host|]; simpl; [|done].
  destruct (host_exitListener host); [|done].
  destruct (host_killed host); intros [= <-]; simpl; by rewrite ?length_alter.
Qed.

Lemma restartTimerFired_retired h rt :
  retired h rt →
  restartTimerFired rt h = rt
  ∨ restartTimerFired rt h
    = emit [EvConsoleLog "scheduled plugin restart cancelled, plugin was restarted by user"] rt.
Proof.
  intros (Hplug & _ & _). unfold restartTimerFired.
  destruct (hosts rt !! h) as [host|]; [|by left].
  right. rewrite decide_True; [done|]. apply Hplug.
Qed.

Lemma runPlugin_retired h rt plugin :
  h < length (hosts rt) → h ∉ lookups rt →
  (∀ q, plugins rt !! q = Some h → q = plugin_id plugin) →
  retired h (runPlugin rt plugin).1.
Proof.
  intros Hh Hlook Hreg.
  destruct (runPlugin_spec rt plugin) as (_ & _ & _ & Hl & _ & _ & Hp & Hlen & _).
  split_and!.
  - intros q. rewrite Hp. destruct (decide (q = plugin_id plugin)) as [->|Hq].
    + rewrite lookup_insert_eq. intros [= Heq]. lia.
    + rewrite lookup_insert_ne by done. intros Hq'. by apply Hreg in Hq'.
  - by rewrite Hl.
  - rewrite Hlen. lia.
Qed.

Lemma step_retired h rt a rt' : retired h rt → step rt a = Some rt' → retired h rt'.
Proof.
  intros (Hplug & Hlook & Hh) Hstep. destruct a as [h'|h'|h'|plugin|q|q|ms]; simpl in Hstep.
  - apply workerExit_fields in Hstep as (Hp & Hl & Hlen & _).
    unfold retired. by rewrite Hp, Hl, Hlen.
  - destruct (list_find _ (timers rt)) as [[i t]|]; [|done].
    destruct (take_out t (timers rt)) as [rest|]; simpl in Hstep; [|done].
    injection Hstep as <-. unfold restartTimerFired. simpl.
    destruct (hosts rt !! h') as [host|]; [|by split_and!].
    case_decide as Hex; [by split_and!|].
    split_and!; simpl; [done| |done].
    intros [Hin|Hin]%elem_of_app; [done|].
    apply list_elem_of_singleton in Hin as ->. by apply (Hplug (host_pluginId host)).
  - destruct (take_out h' (lookups rt)) as [rest|] eqn:Hrest; simpl in Hstep; [|done].
    injection Hstep as <-. unfold restartLookupDone. simpl.
    assert (h ∉ rest) as Hrest' by (intros ?; eapply Hlook, take_out_subseteq; eauto).
    destruct (hosts rt !! h') as [host|]; [|by split_and!].
    destruct (datastore_tryGet _ _) as [plugin|]; [|by split_and!].
    apply runPlugin_retired; simpl; [done..|]. intros q Hq. by apply Hplug in Hq.
  - injection Hstep as <-. apply runPlugin_retired; [done..|].
    intros q Hq. by apply Hplug in Hq.
  - injection Hstep as <-.
    destruct (killPlugin_spec rt q) as (K1 & _ & _ & K4 & K5 & _).
    split_and!.
    + intros q'. destruct (decide (q' = q)) as [->|Hq]; [by rewrite K1|].
      rewrite K4 by done. apply Hplug.
    + unfold killPlugin. by destruct (plugins rt !! q).
    + by rewrite K5.
  - injection Hstep as <-. by split_and!.
  - injection Hstep as <-. by split_and!.
Qed.

Lemma run_retired h acts : ∀ rt rt',
  retired h rt → run rt acts = Some rt' → retired h rt'.
Proof.
  induction acts as [|a acts IH]; intros rt rt' Hret; simpl.
  - by intros [= <-].
  - destruct (step rt a) as [rt1|] eqn:Hstep; simpl; [|done].
    apply IH. by eapply step_retired.
Qed.

(** C4. An exit of the worker of a host that was not killed arms one timer,
    due 60000 ms later, and starts nothing; the timer cannot fire before it
    is due; when it fires the restart goes on to the lookup of the plugin
    record only if the host is still the one registered for its plugin, and
    from there to [runPlugin] only if the record exists, and is abandoned
    with a log line otherwise; once the plugin was started again by
    [runPlugin], no later firing of the timer of the old host restarts it;
    and with nothing in between the plugin is restarted by a new host. *)
Theorem auto_restart_after_cooldown :
  (∀ rt h host,
     hosts rt !! h = Some host → host_exitListener host = true →
     (host_killed host = false →
      ∃ rt', workerExit rt h = Some rt'
        ∧ timers rt' = timers rt ++ [{| timer_due := (now rt + 60000)%N; timer_host := h |}]
        ∧ plugins rt' = plugins rt ∧ lookups rt' = lookups rt
        ∧ length (hosts rt') = length (hosts rt)
        ∧ host_killed <$> hosts rt' !! h = Some true)
     ∧ (host_killed host = true →
        ∃ rt', workerExit rt h = Some rt' ∧ timers rt' = timers rt
          ∧ plugins rt' = plugins rt ∧ lookups rt' = lookups rt))
  ∧ (∀ rt h rt',
       step rt (ActTimer h) = Some rt' →
       ∃ t, t ∈ timers rt ∧ timer_host t = h ∧ (timer_due t ≤ now rt)%N)
  ∧ (∀ rt h host,
       hosts rt !! h = Some host →
       (plugins rt !! host_pluginId host ≠ Some h →
        restartTimerFired rt h
        = emit [EvConsoleLog
                  "scheduled plugin restart cancelled, plugin was restarted by user"] rt)
       ∧ (plugins rt !! host_pluginId host = Some h →
          restartTimerFired rt h = set_lookups (lookups rt ++ [h]) rt)
       ∧ (datastore_tryGet rt (host_pluginId host) = None →
          restartLookupDone rt h
          = emit [EvConsoleLog
                    "scheduled plugin restart cancelled, plugin no longer exists"] rt)
       ∧ (∀ plugin, datastore_tryGet rt (host_pluginId host) = Some plugin →
          restartLookupDone rt h = (runPlugin rt plugin).1))
  ∧ (∀ rt h plugin acts rt',
       h < length (hosts rt) → h ∉ lookups rt →
       (∀ q, plugins rt !! q = Some h → q = plugin_id plugin) →
       run (runPlugin rt plugin).1 acts = Some rt' →
       step rt' (ActLookup h) = None
       ∧ ∀ rt'', step rt' (ActTimer h) = Some rt'' →
           plugins rt'' = plugins rt' ∧ hosts rt'' = hosts rt'
           ∧ lookups rt'' = lookups rt')
  ∧ (∀ rt h host plugin,
       hosts rt !! h = Some host → host_exitListener host = true →
       host_killed host = false → timers rt = [] → lookups rt = [] →
       plugins rt !! host_pluginId host = Some h →
       datastore_tryGet rt (host_pluginId host) = Some plugin →
       (∀ ms, (ms < 60000)%N →
          run rt [ActWorkerExit h; ActElapse ms; ActTimer h] = None)
       ∧ ∃ rt', run rt [ActWorkerExit h; ActElapse 60000; ActTimer h; ActLookup h]
                = Some rt'
           ∧ plugins rt' !! host_pluginId host = Some (length (hosts rt))
           ∧ hosts rt' !! length (hosts rt)
             = Some {| host_pluginId := plugin_id plugin; host_killed := false;
                       host_exitListener := true; host_unreachable := false |}).
Proof.
  split_and!.
  - intros rt h host Hhost Hlisten. unfold workerExit. rewrite Hhost. simpl.
    rewrite Hlisten. split; intros ->.
    + eexists. split; [done|]. simpl. rewrite !length_alter, !list_lookup_alter_eq, Hhost.
      by split_and!.
    + eexists. split; [done|]. by split_and!.
  - intros rt h rt' Hstep. simpl in Hstep.
    destruct (list_find _ (timers rt)) as [[i t]|] eqn:Hfind; [|done].
    apply list_find_Some in Hfind as (Hi & [Hh Hdue] & _).
    exists t. split_and!; [by eapply list_elem_of_lookup_2|done..].
  - intros rt h host Hhost. unfold restartTimerFired, restartLookupDone. rewrite Hhost.
    split_and!.
    + intros Hne. by rewrite decide_True.
    + intros Heq. rewrite decide_False; [done|]. intros Hne. by apply Hne.
    + by intros ->.
    + by intros plugin ->.
  - intros rt h plugin acts rt' Hh Hlook Hreg Hrun.
    pose proof (runPlugin_retired h rt plugin Hh Hlook Hreg) as Hret.
    pose proof (run_retired h acts _ _ Hret Hrun) as (Hplug & Hlook' & Hh').
    split.
    + simpl. by rewrite take_out_None.
    + intros rt'' Hstep. simpl in Hstep.
      destruct (list_find _ (timers rt')) as [[i t]|]; [|done].
      destruct (take_out t (timers rt')) as [rest|]; simpl in Hstep; [|done].
      injection Hstep as <-.
      destruct (restartTimerFired_retired h (set_timers rest rt')) as [-> | ->];
        by split_and!.
  - intros rt h host plugin Hhost Hlisten Halive Htimers Hlookups Hreg Hrecord.
    assert (plugin_id plugin = host_pluginId host) as Hpid.
    { unfold datastore_tryGet in Hrecord.
      destruct (list_find _ (ds_plugins (datastore rt))) as [[i p]|] eqn:Hfind; [|done].
      injection Hrecord as ->. by apply list_find_Some in Hfind as (_ & ? & _). }
    split.
    + intros ms Hms. simpl. unfold workerExit. rewrite Hhost. simpl.
      rewrite Hlisten, Halive. simpl. rewrite Htimers. simpl.
      rewrite decide_False; [done|]. intros [_ Hdue]. simpl in Hdue. lia.
    + cbn -[runPlugin]. unfold workerExit. rewrite Hhost. cbn -[runPlugin].
      rewrite Hlisten, Halive. cbn -[runPlugin]. rewrite Htimers. cbn -[runPlugin].
      rewrite decide_True by (split; [done|simpl; lia]). cbn -[runPlugin].
      rewrite decide_True by done. cbn -[runPlugin].
      unfold restartTimerFired. cbn -[runPlugin].
      rewrite !list_lookup_alter_eq, Hhost. cbn -[runPlugin].
      rewrite decide_False by (intros Hne; by apply Hne).
      cbn -[runPlugin]. rewrite Hlookups. cbn -[runPlugin].
      rewrite decide_True by done. cbn -[runPlugin].
      unfold restartLookupDone. cbn -[runPlugin].
      rewrite !list_lookup_alter_eq, Hhost. cbn -[runPlugin].
      unfold datastore_tryGet in *. cbn -[runPlugin]. rewrite Hrecord.
      cbn -[runPlugin].
      eexists. split; [done|].
      match goal with
      | |- context [runPlugin ?r plugin] =>
        destruct (runPlugin_spec r plugin) as (_ & _ & _ & _ & _ & _ & Hp & _ & Hnew)
      end.
      cbn -[runPlugin] in Hp, Hnew. rewrite !length_alter in Hp, Hnew.
      split; [|exact Hnew]. rewrite Hp, <-Hpid. by rewrite lookup_insert_eq.
Qed.

(** ** Unhandled rejections *)

(** C9. A rejection whose error was constructed by [RPCResultError] or by
    [PluginError] is logged as a warning and the host goes on; any other
    rejection is logged and thrown again. *)
Theorem unhandledRejection_fatal_unless_remote (constructor : option ErrorConstructor) :
  (constructor = Some RPCResultError ∨ constructor = Some PluginError →
   unhandledRejection constructor
   = ([EvConsoleWarn "unhandled rejection of RPC Result"], HostContinues))
  ∧ (constructor ≠ Some RPCResultError ∧ constructor ≠ Some PluginError →
     unhandledRejection constructor = ([EvConsoleError "pending crash"], Rethrown)).
Proof.
  unfold unhandledRejection. split.
  - intros [-> | ->]; reflexivity.
  - intros [H1 H2]. by rewrite !bool_decide_eq_true_2.
Qed.

Example rejection_of_type_error :
  unhandledRejection (Some (OtherConstructor "TypeError"))
  = ([EvConsoleError "pending crash"], Rethrown).
Proof. reflexivity. Qed.

Example rejection_without_error :
  unhandledRejection None = ([EvConsoleError "pending crash"], Rethrown).
Proof. reflexivity. Qed.

(** C4 at [familyRuntime]: the worker of host 0 exits, and after the
    cooldown plugin [p] runs in the new host 1. *)
Lemma auto_restart_after_cooldown_witness :
  ∃ rt', run familyRuntime [ActWorkerExit 0; ActElapse 60000; ActTimer 0; ActLookup 0]
         = Some rt'
    ∧ plugins rt' !! "p" = Some 1.
Proof.
  destruct auto_restart_after_cooldown as (_ & _ & _ & _ & Hrestart).
  destruct (Hrestart familyRuntime 0
              {| host_pluginId := "p"; host_killed := false;
                 host_exitListener := true; host_unreachable := false |}
              {| plugin_id := "p"; packageJson_name := "p";
                 packageJson_version := "1.0.0" |})
    as (_ & rt' & Hrun & Hplug & _); try reflexivity.
  exists rt'. split; [exact Hrun|exact Hplug].
Defined.

(** A manual restart during the cooldown: the timer of host 0 fires, finds
    host 1 registered, and no third host is started. *)
Example manual_restart_during_cooldown :
  (λ rt, (plugins rt !! "p", length (hosts rt), lookups rt, timers rt))
    <$> run familyRuntime
          [ActWorkerExit 0; ActElapse 1000;
           ActRunPlugin {| plugin_id := "p"; packageJson_name := "p";
                           packageJson_version := "1.0.0" |};
           ActElapse 59000; ActTimer 0]
  = Some (Some 1, 2, [], []).
Proof. vm_compute. reflexivity. Qed.

(** C9 at a rejection with a [PluginError]. *)
Lemma unhandledRejection_fatal_unless_remote_witness :
  unhandledRejection (Some PluginError)
  = ([EvConsoleWarn "unhandled rejection of RPC Result"], HostContinues).
Proof.
  apply (proj1 (unhandledRejection_fatal_unless_remote (Some PluginError))).
  by right.
Defined.

(** * Further properties of the runtime *)

(** ** What [upsertDevice] writes *)

Lemma upsertRecord_written rt pluginId nid :
  let r := upsertRecord rt pluginId nid in
  getState r.1 Property_nativeId = js_of_nativeId nid
  ∧ (∃ pdx, pluginDevices r.2 = storeDevice pdx (pluginDevices rt)
            ∧ pd_id pdx = pd_id r.1 ∧ pd_pluginId pdx = pluginId
            ∧ pd_nativeId pdx = nid)
  ∧ plugins r.2 = plugins rt ∧ hosts r.2 = hosts rt ∧ devices r.2 = devices rt
  ∧ timers r.2 = timers rt ∧ lookups r.2 = lookups rt ∧ now r.2 = now rt
  ∧ trace r.2 = trace rt ∧ ds_plugins (datastore r.2) = ds_plugins (datastore rt).
Proof.
  unfold upsertRecord.
  destruct (findPluginDevice rt pluginId nid) as [pd0|]; cbn [fst snd].
  - set (pd := {| pd_id := pd_id pd0; pd_pluginId := pluginId; pd_nativeId := nid;
                  pd_stateVersion := pd_stateVersion pd0;
                  pd_state := Some (default ∅ (pd_state pd0)) |}).
    assert (is_Some (pd_state pd)) as Hst by (simpl; eauto).
    split_and!; try done.
    + destruct (decide (getState pd Property_nativeId ≠ js_of_nativeId nid)) as [Hne|He].
      * by apply getState_setState_eq.
      * by destruct (decide (getState pd Property_nativeId = js_of_nativeId nid)).
    + exists pd. split_and!; try done.
      case_decide; [by rewrite setState_id|done].
  - unfold nextId. cbn beta iota. cbn [fst snd pd_id pd_stateVersion pd_state].
    set (pd := {| pd_id := pretty (ds_nextId (datastore rt)); pd_pluginId := pluginId;
                  pd_nativeId := nid; pd_stateVersion := PLUGIN_DEVICE_STATE_VERSION;
                  pd_state := Some (default ∅ None) |}).
    assert (is_Some (pd_state pd)) as Hst by (simpl; eauto).
    split_and!; try done.
    + destruct (decide (getState pd Property_nativeId ≠ js_of_nativeId nid)) as [Hne|He].
      * by apply getState_setState_eq.
      * by destruct (decide (getState pd Property_nativeId = js_of_nativeId nid)).
    + exists pd. split_and!; try done.
      case_decide; [by rewrite setState_id|done].
Qed.

Ltac setState_is_Some := repeat apply setState_is_Some; done.

Lemma upsertInterfaces_written pd pluginId device :
  is_Some (pd_state pd) →
  let r := upsertInterfaces pd pluginId device in
  getState r.1.1 Property_pluginId = JString pluginId
  ∧ ∀ k, k ∉ [Property_pluginId; Property_providedInterfaces; Property_interfaces] →
         getState r.1.1 k = getState pd k.
Proof.
  intros Hst. unfold upsertInterfaces.
  repeat (rewrite setPluginDeviceState_spec; cbn beta iota). cbn [fst snd].
  split.
  - rewrite !getState_setState_ne by (done || setState_is_Some).
    by apply getState_setState_eq.
  - intros k Hk. rewrite !not_elem_of_cons in Hk. destruct Hk as (? & ? & ? & _).
    by rewrite !getState_setState_ne by (done || setState_is_Some).
Qed.

Lemma setPluginDeviceState_keeps pd k0 v pd' c ev k X :
  setPluginDeviceState pd k0 v = (pd', c, ev) →
  is_Some (pd_state pd) ∧ getState pd k = X → k ≠ k0 →
  is_Some (pd_state pd') ∧ getState pd' k = X.
Proof.
  rewrite setPluginDeviceState_spec. intros [= <- _ _] [Hst Hget] Hne.
  split; [by apply setState_is_Some|]. by rewrite getState_setState_ne.
Qed.

Lemma setPluginDeviceState_sets pd k v pd' c ev :
  setPluginDeviceState pd k v = (pd', c, ev) → is_Some (pd_state pd) →
  is_Some (pd_state pd') ∧ getState pd' k = v.
Proof.
  rewrite setPluginDeviceState_spec. intros [= <- _ _] Hst.
  split; [by apply setState_is_Some|]. by apply getState_setState_eq.
Qed.

Ltac keeps_step :=
  match goal with
  | Hk : is_Some (pd_state ?pd) ∧ getState ?pd ?k = ?X
    |- context [setPluginDeviceState ?pd ?k0 ?v] =>
    let pd' := fresh "pd" in
    let c := fresh "c" in
    let ev := fresh "ev" in
    let E := fresh "E" in
    destruct (setPluginDeviceState pd k0 v) as [[pd' c] ev] eqn:E;
    apply (setPluginDeviceState_keeps pd k0 v pd' c ev k X) in E; [|exact Hk|done];
    clear Hk
  end.

Lemma upsertDescriptor_written `{InferDefaults} rt pd pluginId device b1 b2 b3 :
  is_Some (pd_state pd) →
  let r := upsertDescriptor rt pd pluginId device b1 b2 b3 in
  getState r.1 Property_providerId
  = js_of_string (pd_id <$> findPluginDevice rt pluginId (dev_providerNativeId device))
  ∧ ∀ k, k ∉ [Property_info; Property_providerId; Property_providedName;
              Property_providedType; Property_type; Property_name;
              Property_providedRoom; Property_room] →
         getState r.1 k = getState pd k.
Proof.
  intros Hst. cbv zeta. split.
  - unfold upsertDescriptor.
    assert (∃ pd1 ev1,
              match dev_info device with
              | Some info =>
                let '(pd0, _, ev) := setPluginDeviceState pd Property_info info in (pd0, ev)
              | None => (pd, [])
              end = (pd1, ev1) ∧ is_Some (pd_state pd1)) as (pd1 & ev1 & -> & Hst1).
    { destruct (dev_info device) as [info|]; [|eauto].
      destruct (setPluginDeviceState pd Property_info info) as [[pd1 c1] ev1] eqn:E1.
      apply setPluginDeviceState_sets in E1 as [Hst1 _]; eauto. }
    match goal with
    | |- context [setPluginDeviceState pd1 ?k0 ?v] =>
      destruct (setPluginDeviceState pd1 k0 v) as [[pd2 c2] ev2] eqn:E2;
      apply setPluginDeviceState_sets in E2; [|exact Hst1]
    end.
    destruct b1, b2, b3; repeat keeps_step; cbn [fst]; tauto.
  - intros k Hk. rewrite !not_elem_of_cons in Hk.
    destruct Hk as (? & ? & ? & ? & ? & ? & ? & ? & _).
    assert (is_Some (pd_state pd) ∧ getState pd k = getState pd k) as Hkeep by done.
    unfold upsertDescriptor.
    destruct (dev_info device) as [info|], b1, b2, b3; repeat keeps_step; cbn [fst]; tauto.
Qed.

Lemma upsertDevice_written `{InferDefaults} rt pluginId device :
  let nid := normalizeNativeId (dev_nativeId device) in
  let r := upsertDevice rt pluginId device in
  let pd := pluginDevicePromise r.2 in
  getState pd Property_nativeId = js_of_nativeId nid
  ∧ getState pd Property_pluginId = JString pluginId
  ∧ (∃ pdx, pd_id pdx = pd_id pd ∧ pd_pluginId pdx = pluginId ∧ pd_nativeId pdx = nid
       ∧ getState pd Property_providerId
         = js_of_string
             (pd_id <$> findPluginDevice
                          (set_pluginDevices (storeDevice pdx (pluginDevices rt)) rt)
                          pluginId (dev_providerNativeId device)))
  ∧ (∀ k, k ∉ upsertWrites → getState pd k = getState (upsertBase rt pluginId nid) k)
  ∧ plugins r.1 = plugins rt ∧ hosts r.1 = hosts rt ∧ devices r.1 = devices rt
  ∧ timers r.1 = timers rt ∧ lookups r.1 = lookups rt ∧ now r.1 = now rt
  ∧ ds_plugins (datastore r.1) = ds_plugins (datastore rt)
  ∧ ∃ evs, trace r.1
           = trace rt ++ evs ++ [EvDatastoreUpsert (pd_id pd); EvUpdateDescriptor (pd_id pd);
                                 EvInterfaceEvent (pd_id pd) "ScryptedDevice"]
           ∧ Forall (λ e, ∃ k c, e = EvPropertyEvent (pd_id pd) k c) evs.
Proof.
  intros nid r pd. subst r pd. unfold upsertDevice. fold nid.
  pose proof (upsertRecord_spec rt pluginId nid) as Hrec. cbv zeta in Hrec.
  pose proof (upsertRecord_written rt pluginId nid) as Hrec'. cbv zeta in Hrec'.
  destruct (upsertRecord rt pluginId nid) as [pd1 rt1].
  destruct Hrec as (Hid1 & Hp1 & Hn1 & Hst1 & Hk1 & _ & Hds1).
  destruct Hrec' as (Hnat1 & (pdx & Htab1 & Hidx & Hpx & Hnx) & Hpl1 & Hh1 & Hd1
                     & Ht1 & Hl1 & Hnow1 & Htr1 & Hdp1).
  cbn [fst snd] in *.
  pose proof (upsertInterfaces_spec pd1 pluginId device Hst1) as Hint.
  pose proof (upsertInterfaces_written pd1 pluginId device Hst1) as Hint'.
  cbv zeta in Hint, Hint'.
  assert (Forall (λ e, ∃ k c, e = EvPropertyEvent (pd_id pd1) k c)
            (upsertInterfaces pd1 pluginId device).2) as Hev1.
  { unfold upsertInterfaces.
    repeat (rewrite setPluginDeviceState_spec; cbn beta iota). cbn [fst snd].
    rewrite !setState_id. repeat constructor; eauto. }
  destruct (upsertInterfaces pd1 pluginId device) as [[pd2 changed] evs1].
  destruct Hint as (Hid2 & Hp2 & Hn2 & Hst2 & _).
  destruct Hint' as (Hplug2 & Hk2).
  cbn [fst snd] in *.
  match goal with
  | |- context [upsertDescriptor ?a1 ?a2 ?a3 ?a4 ?a5 ?a6 ?a7] =>
    pose proof (upsertDescriptor_agree a1 a2 a3 a4 a5 a6 a7 Hst2) as Hdesc;
    pose proof (upsertDescriptor_written a1 a2 a3 a4 a5 a6 a7 Hst2) as Hdesc';
    assert (Forall (λ ev, ∃ k c, ev = EvPropertyEvent (pd_id a2) k c)
              (upsertDescriptor a1 a2 a3 a4 a5 a6 a7).2) as Hev2;
    [|destruct (upsertDescriptor a1 a2 a3 a4 a5 a6 a7) as [pd3 evs2]]
  end.
  { unfold upsertDescriptor.
    destruct (dev_info device) as [info|];
      repeat match goal with
             | |- context [if bool_decide ?P then _ else _] => destruct (bool_decide P)
             end;
      repeat (rewrite setPluginDeviceState_spec; cbn beta iota); cbn [fst snd];
      rewrite !setState_id; repeat constructor; eauto. }
  destruct Hdesc as (Hid3 & _). destruct Hdesc' as (Hprov3 & Hk3).
  cbn [fst snd pluginDevicePromise interfacesChanged] in *.
  split_and!.
  - rewrite Hk3, Hk2; [done|..]; by apply (bool_decide_unpack _).
  - rewrite Hk3; [done|]. by apply (bool_decide_unpack _).
  - exists pdx. split_and!; [congruence|done|done|].
    rewrite Hprov3. do 2 f_equal. unfold findPluginDevice. simpl. by rewrite Htab1.
  - intros k Hk. unfold upsertWrites in Hk. rewrite !not_elem_of_cons in Hk.
    destruct Hk as (?&?&?&?&?&?&?&?&?&?&?&?&_).
    rewrite Hk3, Hk2, Hk1; [done|done|..].
    + rewrite !not_elem_of_cons. split_and!; try done. apply not_elem_of_nil.
    + rewrite !not_elem_of_cons. split_and!; try done. apply not_elem_of_nil.
  - simpl. done.
  - simpl. done.
  - simpl. done.
  - simpl. done.
  - simpl. done.
  - simpl. done.
  - simpl. done.
  - exists (evs1 ++ evs2). split.
    + simpl. rewrite Htr1. by rewrite <-!app_assoc.
    + apply Forall_app. split.
      * by rewrite Hid3, Hid2.
      * by rewrite Hid3.
Qed.

Lemma findPluginDevice_normalize rt pluginId nid :
  findPluginDevice rt pluginId (normalizeNativeId nid) = findPluginDevice rt pluginId nid.
Proof. unfold findPluginDevice. by rewrite normalizeNativeId_idemp. Qed.

Lemma list_find_id_storeDevice_ne pd T x :
  x ≠ pd_id pd →
  snd <$> list_find (λ d, pd_id d = x) (storeDevice pd T)
  = snd <$> list_find (λ d, pd_id d = x) T.
Proof. intros Hx. rewrite list_find_id_storeDevice. by rewrite decide_False. Qed.

(** X1. The record that [upsertDevice] returns is the one that the table
    holds afterwards under its id and under the plugin id and native id of
    the report ([null] and [undefined] alike), and the one that the
    datastore holds; its fields and its [pluginId] and [nativeId] properties
    are those of the report; and the call ends with the write to the
    datastore and the two descriptor events, whether anything changed or
    not. *)
Theorem upsertDevice_lookup `{InferDefaults} (rt : ScryptedRuntime) (pluginId : string)
    (device : Device) :
  let r := upsertDevice rt pluginId device in
  let pd := pluginDevicePromise r.2 in
  findPluginDevice r.1 pluginId (dev_nativeId device) = Some pd
  ∧ (dev_nativeId device = NidNull →
     findPluginDevice r.1 pluginId NidUndefined = Some pd)
  ∧ findPluginDeviceById r.1 (pd_id pd) = Some pd
  ∧ persisted r.1 (pd_id pd) = Some pd
  ∧ pd_pluginId pd = pluginId
  ∧ pd_nativeId pd = normalizeNativeId (dev_nativeId device)
  ∧ getState pd Property_pluginId = JString pluginId
  ∧ mirrorsNativeId pd
  ∧ ∃ evs, trace r.1
           = trace rt ++ evs ++ [EvDatastoreUpsert (pd_id pd); EvUpdateDescriptor (pd_id pd);
                                 EvInterfaceEvent (pd_id pd) "ScryptedDevice"].
Proof.
  intros r pd. subst r pd.
  destruct (upsertDevice_spec rt pluginId device)
    as (_ & Hp & Hn & _ & _ & _ & _ & Htab & Hds).
  destruct (upsertDevice_written rt pluginId device)
    as (Hnat & Hplug & _ & _ & _ & _ & _ & _ & _ & _ & _ & evs & Htr & _).
  pose proof (findPluginDevice_upsertDevice rt pluginId device) as Hfind.
  rewrite findPluginDevice_normalize in Hfind.
  split_and!; try done.
  - intros Hnull. rewrite <-Hfind. unfold findPluginDevice. by rewrite Hnull.
  - unfold findPluginDeviceById. rewrite Htab, list_find_id_storeDevice.
    by rewrite decide_True.
  - by eapply persisted_storeDevice.
  - unfold mirrorsNativeId. by rewrite Hnat, Hn.
  - by exists evs.
Qed.

(** X1 at the first report of device [c1] of plugin [p]. *)
Lemma upsertDevice_lookup_witness :
  let r := @upsertDevice noInferredDefaults emptyRuntime "p"
             (declare (NidString "c1") ["OnOff"]) in
  findPluginDevice r.1 "p" (NidString "c1") = Some (pluginDevicePromise r.2)
  ∧ findPluginDeviceById r.1 "1" = Some (pluginDevicePromise r.2).
Proof.
  intros r.
  destruct (@upsertDevice_lookup noInferredDefaults emptyRuntime "p"
              (declare (NidString "c1") ["OnOff"])) as (Hfind & _ & Hid & _).
  split; [exact Hfind|]. exact Hid.
Defined.

(** X2. [upsertDevice] works on one record: every other record of the table
    and of the datastore is as before, the properties of the record that the
    call does not write (its mixins among them) are as before, and the call
    starts and kills no plugin, touches no proxy and arms no timer. *)
Theorem upsertDevice_frame `{InferDefaults} (rt : ScryptedRuntime) (pluginId : string)
    (device : Device) :
  let r := upsertDevice rt pluginId device in
  let pd := pluginDevicePromise r.2 in
  (∀ id, id ≠ pd_id pd →
     findPluginDeviceById r.1 id = findPluginDeviceById rt id
     ∧ persisted r.1 id = persisted rt id)
  ∧ (∀ x, x ∈ pluginDevices r.1 → x = pd ∨ x ∈ pluginDevices rt)
  ∧ (∀ k, k ∉ upsertWrites →
       getState pd k
       = getState (upsertBase rt pluginId (normalizeNativeId (dev_nativeId device))) k)
  ∧ plugins r.1 = plugins rt ∧ hosts r.1 = hosts rt ∧ devices r.1 = devices rt
  ∧ timers r.1 = timers rt ∧ ds_plugins (datastore r.1) = ds_plugins (datastore rt).
Proof.
  intros r pd. subst r pd.
  destruct (upsertDevice_spec rt pluginId device)
    as (_ & _ & _ & _ & _ & _ & _ & Htab & Hds).
  destruct (upsertDevice_written rt pluginId device)
    as (_ & _ & _ & Hk & Hpl & Hh & Hd & Ht & _ & _ & Hdp & _).
  split_and!; try done.
  - intros id Hid. unfold findPluginDeviceById, persisted. rewrite Htab, Hds.
    by rewrite !list_find_id_storeDevice_ne.
  - intros x. rewrite Htab. apply elem_of_storeDevice.
Qed.

(** X2 at a second report of device [c1] of [mixedRuntime]: the mixins stay. *)
Lemma upsertDevice_frame_witness :
  let r := @upsertDevice noInferredDefaults mixedRuntime "p"
             (declare (NidString "c1") ["OnOff"]) in
  getState (pluginDevicePromise r.2) Property_mixins = js_of_strings ["m"]
  ∧ plugins r.1 = plugins mixedRuntime.
Proof.
  intros r.
  destruct (@upsertDevice_frame noInferredDefaults mixedRuntime "p"
              (declare (NidString "c1") ["OnOff"])) as (_ & _ & Hk & Hpl & _).
  split; [|exact Hpl]. rewrite Hk; [reflexivity|].
  apply (bool_decide_unpack _). vm_compute. exact I.
Defined.

Lemma list_find_storeDevice_alike (P : PluginDevice → Prop) `{!∀ x, Decision (P x)}
    pdx pd T :
  pd_id pdx = pd_id pd → (P pdx ↔ P pd) →
  pd_id <$> (snd <$> list_find P (storeDevice pdx T))
  = pd_id <$> (snd <$> list_find P (storeDevice pd T)).
Proof.
  intros Hid HP. induction T as [|x T IH]; simpl.
  - destruct (decide (P pdx)), (decide (P pd)); csimpl; first [tauto|congruence].
  - rewrite Hid. destruct (decide (pd_id x = pd_id pd)); simpl.
    + destruct (decide (P pdx)), (decide (P pd)); csimpl; first [tauto|congruence].
    + destruct (keyBefore _ _ && bool_decide _); simpl.
      * destruct (decide (P pdx)), (decide (P pd)); csimpl; first [tauto|congruence|done].
      * destruct (decide (P x)); simpl; [done|].
        rewrite <-!option_fmap_compose in *. simpl.
        destruct (list_find P (storeDevice pdx T)) as [[i a]|],
          (list_find P (storeDevice pd T)) as [[j b]|]; simpl in *; done.
Qed.

(** X3. The [providerId] that [upsertDevice] records is the id of the device
    that the plugin id and the [providerNativeId] of the report find in the
    table, the reported device included, and [undefined] when they find
    none. A device reported with its own native id as [providerNativeId],
    as the root device of a plugin reported without one, is recorded as its
    own provider and is among the devices that [removeDevice] finds provided
    by it. *)
Theorem upsertDevice_provider `{InferDefaults} (rt : ScryptedRuntime) (pluginId : string)
    (device : Device) :
  let r := upsertDevice rt pluginId device in
  let pd := pluginDevicePromise r.2 in
  getState pd Property_providerId
  = js_of_string (pd_id <$> findPluginDevice r.1 pluginId (dev_providerNativeId device))
  ∧ (normalizeNativeId (dev_providerNativeId device)
     = normalizeNativeId (dev_nativeId device) →
     getState pd Property_providerId = JString (pd_id pd)
     ∧ pd ∈ providedDevices r.1 pd).
Proof.
  intros r pd. subst r pd.
  destruct (upsertDevice_spec rt pluginId device)
    as (_ & Hp & Hn & _ & _ & _ & _ & Htab & _).
  destruct (upsertDevice_written rt pluginId device)
    as (_ & _ & (pdx & Hidx & Hpx & Hnx & Hprov) & _).
  pose proof (findPluginDevice_upsertDevice rt pluginId device) as Hfind.
  set (r := upsertDevice rt pluginId device) in *.
  set (pd := pluginDevicePromise r.2) in *.
  assert (getState pd Property_providerId
          = js_of_string
              (pd_id <$> findPluginDevice r.1 pluginId (dev_providerNativeId device)))
    as Hgen.
  { rewrite Hprov. f_equal. unfold findPluginDevice. cbn [pluginDevices set_pluginDevices].
    rewrite Htab. apply list_find_storeDevice_alike; [done|]. by rewrite Hpx, Hnx, Hp, Hn. }
  split; [exact Hgen|].
  intros Hself.
  assert (getState pd Property_providerId = JString (pd_id pd)) as Hown.
  { rewrite Hgen. rewrite <-findPluginDevice_normalize, Hself, Hfind. done. }
  split; [exact Hown|].
  apply elem_of_providedDevices. split; [exact Hown|].
  rewrite Htab. apply storeDevice_elem.
Qed.

(** X3 at the first report of the root device of plugin [p]. *)
Lemma upsertDevice_provider_witness :
  let r := @upsertDevice noInferredDefaults emptyRuntime "p"
             (declare NidUndefined ["OnOff"]) in
  getState (pluginDevicePromise r.2) Property_providerId = JString "1".
Proof.
  intros r.
  destruct (@upsertDevice_provider noInferredDefaults emptyRuntime "p"
              (declare NidUndefined ["OnOff"])) as (_ & Hself).
  destruct (Hself eq_refl) as (Hown & _). exact Hown.
Defined.

(** ** Plugin hosts *)

Lemma host_kill_hosts h rt i :
  hosts (host_kill h rt) !! i
  = (λ host, if decide (i = h)
             then {| host_pluginId := host_pluginId host; host_killed := true;
                     host_exitListener := host_exitListener host;
                     host_unreachable := host_unreachable host |}
             else host) <$> hosts rt !! i.
Proof.
  unfold host_kill. cbn [hosts emit set_hosts].
  destruct (decide (i = h)) as [->|Hne].
  - rewrite list_lookup_alter_eq. by destruct (hosts rt !! h).
  - rewrite list_lookup_alter_ne by done. by destruct (hosts rt !! i).
Qed.

Lemma killPlugin_hosts rt pluginId i host :
  hosts (killPlugin rt pluginId) !! i = Some host →
  ∃ host0, hosts rt !! i = Some host0
    ∧ host_pluginId host = host_pluginId host0
    ∧ (host_killed host = false →
       host = host0 ∧ plugins rt !! pluginId ≠ Some i).
Proof.
  unfold killPlugin. destruct (plugins rt !! pluginId) as [h|] eqn:Hreg.
  - rewrite host_kill_hosts. cbn [hosts set_plugins].
    destruct (hosts rt !! i) as [host0|]; csimpl; [|done].
    intros [= <-]. exists host0. split; [done|].
    destruct (decide (i = h)) as [->|Hne]; simpl; [done|].
    split; [done|]. intros _. split; [done|congruence].
  - intros Hi. exists host. split_and!; try done.
Qed.

Lemma runPlugin_hosts rt plugin :
  hosts (runPlugin rt plugin).1
  = hosts (killPlugin rt (plugin_id plugin))
    ++ [{| host_pluginId := plugin_id plugin; host_killed := false;
           host_exitListener := true; host_unreachable := false |}].
Proof.
  unfold runPlugin. cbv zeta.
  set (rtK := killPlugin rt (plugin_id plugin)) in *.
  destruct (foldl_invalidatePluginDevice_pluginDevices
              (findPluginDevices rtK (plugin_id plugin)) rtK)
    as (_ & _ & _ & I4 & _).
  set (rtI := foldl _ rtK _) in *.
  match goal with
  | |- context [foldl probeDevice ?a ?l] =>
    destruct (foldl_probe_fields l a) as (_ & _ & _ & P4 & _)
  end.
  cbn [fst snd]. rewrite P4. simpl. by rewrite I4.
Qed.

Lemma killPlugin_registered rt pluginId :
  liveHostsRegistered rt → registeredHostsOwned rt →
  liveHostsRegistered (killPlugin rt pluginId)
  ∧ registeredHostsOwned (killPlugin rt pluginId).
Proof.
  intros Hlive Hown.
  destruct (killPlugin_spec rt pluginId) as (Hnone & _ & _ & Hother & _).
  split.
  - intros h host Hh Halive.
    apply killPlugin_hosts in Hh as (host0 & Hh0 & Hp & Hsame).
    destruct (Hsame Halive) as (-> & Hnot).
    pose proof (Hlive h host0 Hh0 Halive) as Hreg.
    rewrite Hother; [done|]. intros Heq. by rewrite Heq in Hreg.
  - intros p h Hreg.
    assert (p ≠ pluginId) as Hne by (intros ->; by rewrite Hnone in Hreg).
    rewrite Hother in Hreg by done.
    destruct (Hown p h Hreg) as (host0 & Hh0 & Hp0).
    unfold killPlugin. destruct (plugins rt !! pluginId) as [h0|]; [|eauto].
    rewrite host_kill_hosts. cbn [hosts set_plugins]. rewrite Hh0. csimpl.
    eexists. split; [done|]. by destruct (decide (h = h0)).
Qed.

Lemma runPlugin_registered rt plugin :
  liveHostsRegistered rt → registeredHostsOwned rt →
  liveHostsRegistered (runPlugin rt plugin).1
  ∧ registeredHostsOwned (runPlugin rt plugin).1.
Proof.
  intros Hlive Hown.
  destruct (killPlugin_registered rt (plugin_id plugin) Hlive Hown) as (HliveK & HownK).
  destruct (killPlugin_spec rt (plugin_id plugin)) as (Hnone & _ & _ & Hother & Hlen & _).
  destruct (runPlugin_spec rt plugin) as (_ & _ & _ & _ & _ & _ & Hpl & _ & _).
  pose proof (runPlugin_hosts rt plugin) as Hhosts.
  split.
  - intros h host Hh Halive. rewrite Hhosts in Hh. rewrite Hpl.
    apply lookup_app_Some in Hh as [Hh|[Hge Hh]].
    + pose proof (HliveK h host Hh Halive) as Hreg.
      assert (host_pluginId host ≠ plugin_id plugin) as Hne
        by (intros Heq; by rewrite Heq, Hnone in Hreg).
      rewrite lookup_insert_ne by done. by rewrite <-Hother.
    + apply list_lookup_singleton_Some in Hh as [Hz <-]. simpl.
      rewrite lookup_insert_eq. f_equal. lia.
  - intros p h Hreg. rewrite Hpl in Hreg. rewrite Hhosts.
    destruct (decide (p = plugin_id plugin)) as [->|Hne].
    + rewrite lookup_insert_eq in Hreg. injection Hreg as <-.
      eexists. split; [by apply list_lookup_middle|done].
    + rewrite lookup_insert_ne in Hreg by done. rewrite <-Hother in Hreg by done.
      destruct (HownK p h Hreg) as (host & Hh & Hp).
      exists host. split; [|done]. by apply lookup_app_l_Some.
Qed.

Lemma registered_weaken rt rt' :
  plugins rt' = plugins rt →
  (∀ i host', hosts rt' !! i = Some host' →
     ∃ host0, hosts rt !! i = Some host0 ∧ host_pluginId host' = host_pluginId host0
              ∧ (host_killed host' = false → host_killed host0 = false)) →
  (∀ i host0, hosts rt !! i = Some host0 →
     ∃ host', hosts rt' !! i = Some host' ∧ host_pluginId host' = host_pluginId host0) →
  liveHostsRegistered rt → registeredHostsOwned rt →
  liveHostsRegistered rt' ∧ registeredHostsOwned rt'.
Proof.
  intros Hpl Hback Hforth Hlive Hown. split.
  - intros h host' Hh Halive. rewrite Hpl.
    destruct (Hback h host' Hh) as (host0 & Hh0 & -> & Hk). by apply Hlive; auto.
  - intros p h Hreg. rewrite Hpl in Hreg.
    destruct (Hown p h Hreg) as (host0 & Hh0 & Hp).
    destruct (Hforth h host0 Hh0) as (host' & Hh' & Hp'). exists host'. split; congruence.
Qed.

Lemma workerExit_registered rt h rt' :
  workerExit rt h = Some rt' →
  liveHostsRegistered rt → registeredHostsOwned rt →
  liveHostsRegistered rt' ∧ registeredHostsOwned rt'.
Proof.
  unfold workerExit. destruct (hosts rt !! h) as [host|] eqn:Hhost; csimpl; [|done].
  destruct (host_exitListener host); [|done].
  set (rtL := set_hosts _ rt).
  assert (∀ i, hosts rtL !! i
               = (λ x, if decide (i = h)
                       then {| host_pluginId := host_pluginId x;
                               host_killed := host_killed x; host_exitListener := false;
                               host_unreachable := host_unreachable x |}
                       else x) <$> hosts rt !! i) as HL.
  { intros i. subst rtL. cbn [hosts set_hosts].
    destruct (decide (i = h)) as [->|Hne].
    - rewrite list_lookup_alter_eq. by destruct (hosts rt !! h).
    - rewrite list_lookup_alter_ne by done. by destruct (hosts rt !! i). }
  destruct (host_killed host) eqn:Hk; intros [= <-].
  - apply (registered_weaken rt); [done|..].
    + intros i host' Hi. rewrite HL in Hi.
      destruct (hosts rt !! i) as [host0|]; csimpl in *; [|done].
      injection Hi as <-. exists host0. by destruct (decide (i = h)).
    + intros i host0 Hi. rewrite HL, Hi. csimpl. eexists. split; [done|].
      by destruct (decide (i = h)).
  - apply (registered_weaken rt); [done|..].
    + intros i host'. cbn [hosts set_timers emit]. rewrite host_kill_hosts, HL.
      destruct (hosts rt !! i) as [host0|]; csimpl; [|done].
      intros [= <-]. exists host0. by destruct (decide (i = h)).
    + intros i host0 Hi. cbn [hosts set_timers emit]. rewrite host_kill_hosts, HL, Hi.
      csimpl. eexists. split; [done|]. by destruct (decide (i = h)).
Qed.

Lemma step_registered rt a rt' :
  step rt a = Some rt' →
  liveHostsRegistered rt → registeredHostsOwned rt →
  liveHostsRegistered rt' ∧ registeredHostsOwned rt'.
Proof.
  destruct a as [h|h|h|plugin|pluginId|pluginId|ms]; simpl.
  - apply workerExit_registered.
  - destruct (list_find _ (timers rt)) as [[i t]|]; [|done].
    destruct (take_out t (timers rt)) as [rest|]; csimpl; [|done].
    intros [= <-] Hlive Hown. unfold restartTimerFired. cbn [hosts set_timers].
    destruct (hosts rt !! h) as [host|]; [|done]. cbn [plugins set_timers].
    by case_decide.
  - destruct (take_out h (lookups rt)) as [rest|]; csimpl; [|done].
    intros [= <-] Hlive Hown. unfold restartLookupDone. cbn [hosts set_lookups].
    destruct (hosts rt !! h) as [host|]; [|done].
    unfold datastore_tryGet. cbn [datastore set_lookups].
    destruct (list_find _ (ds_plugins (datastore rt))) as [[i plugin]|]; csimpl; [|done].
    by apply runPlugin_registered.
  - intros [= <-]. apply runPlugin_registered.
  - intros [= <-]. apply killPlugin_registered.
  - by intros [= <-].
  - by intros [= <-].
Qed.

Lemma hostsConsistent_ext rt rt' :
  plugins rt' = plugins rt → hosts rt' = hosts rt →
  hostsConsistent rt → hostsConsistent rt'.
Proof.
  intros Hpl Hh [Hlive Hown]. split.
  - intros h host. rewrite Hpl, Hh. apply Hlive.
  - intros p h. rewrite Hpl, Hh. apply Hown.
Qed.

Lemma removeRecord_hostsConsistent rt device rt' :
  removeRecord rt device = Some rt' → hostsConsistent rt → hostsConsistent rt'.
Proof.
  unfold removeRecord. cbv zeta.
  set (rtA := emit _ _).
  destruct (invalidateMixins_fields rtA [pd_id device])
    as (rtB & ret & Hrun & _ & _ & Hpl & Hh & _).
  rewrite Hrun. csimpl. intros [= <-] Hinv.
  assert (plugins rtA = plugins rt ∧ hosts rtA = hosts rt) as [HplA HhA].
  { subst rtA. simpl.
    destruct (invalidatePluginDevice_fields
                (set_pluginDevices (clearState (pd_id device) (pluginDevices rt)) rt)
                (pd_id device)) as (_ & _ & E1 & E2 & _).
    by rewrite E1, E2. }
  assert (hostsConsistent rtB) as HB
    by (apply (hostsConsistent_ext rt); [congruence..|done]).
  destruct (truthy_nativeId (pd_nativeId device)).
  - apply (hostsConsistent_ext rtB); [..|done];
      unfold notifyRemoved; by destruct (notifyOutcome rtB device).
  - destruct HB as [Hlive Hown].
    destruct (killPlugin_registered rtB (pd_pluginId device) Hlive Hown).
    by apply (hostsConsistent_ext (killPlugin rtB (pd_pluginId device))).
Qed.

Lemma loadDevice_hosts rt pd rt' :
  loadDevice rt pd = Some rt' →
  plugins rt' = plugins rt ∧ hosts rt' = hosts rt ∧ devices rt' = devices rt
  ∧ timers rt' = timers rt ∧ lookups rt' = lookups rt
  ∧ ds_plugins (datastore rt') = ds_plugins (datastore rt).
Proof.
  unfold loadDevice. destruct (pd_state pd); [|by intros [= <-]].
  destruct (repairMixins pd) as [pd1 d1].
  destruct (repairMarker pd1) as [[pd2 d2]|]; csimpl; [|done].
  destruct (repairPluginId pd2) as [pd3 d3].
  destruct (repairNativeId pd3) as [pd4 d4].
  intros [= <-]. by destruct (d1 || d2 || d3 || d4).
Qed.

Lemma loadDevices_hosts l : ∀ rt rt',
  loadDevices l rt = Some rt' →
  plugins rt' = plugins rt ∧ hosts rt' = hosts rt ∧ devices rt' = devices rt
  ∧ timers rt' = timers rt ∧ lookups rt' = lookups rt
  ∧ ds_plugins (datastore rt') = ds_plugins (datastore rt).
Proof.
  induction l as [|pd l IH]; intros rt rt'; simpl; [by intros [= <-]|].
  destruct (loadDevice rt pd) as [rt1|] eqn:H1; csimpl; [|done].
  intros Hl. destruct (loadDevice_hosts _ _ _ H1) as (-> & -> & -> & -> & -> & ->)
    || destruct (loadDevice_hosts _ _ _ H1) as (E1 & E2 & E3 & E4 & E5 & E6).
  destruct (IH _ _ Hl) as (F1 & F2 & F3 & F4 & F5 & F6).
  split_and!; congruence.
Qed.

Lemma clearMixinCycle_hosts rt id :
  plugins (clearMixinCycle rt id) = plugins rt
  ∧ hosts (clearMixinCycle rt id) = hosts rt
  ∧ devices (clearMixinCycle rt id) = devices rt
  ∧ datastore (clearMixinCycle rt id) = datastore rt.
Proof.
  unfold clearMixinCycle. destruct (hasMixinCycle rt id); [|done].
  unfold findPluginDeviceById. cbn [pluginDevices emit].
  by destruct (list_find _ (pluginDevices rt)) as [[i pd]|].
Qed.

Lemma cycleGuard_hosts rt :
  plugins (cycleGuard rt) = plugins rt ∧ hosts (cycleGuard rt) = hosts rt
  ∧ devices (cycleGuard rt) = devices rt ∧ datastore (cycleGuard rt) = datastore rt.
Proof.
  unfold cycleGuard. generalize (pd_id <$> pluginDevices rt). intros ids.
  revert rt. induction ids as [|id ids IH]; intros rt; simpl; [done|].
  destruct (IH (clearMixinCycle rt id)) as (-> & -> & -> & ->).
  apply clearMixinCycle_hosts.
Qed.

Lemma launchPlugin_hostsConsistent rt plugin :
  hostsConsistent rt → hostsConsistent (launchPlugin rt plugin).
Proof.
  intros Hinv. unfold launchPlugin.
  destruct (findPluginDevice rt (plugin_id plugin) NidUndefined) as [pd|].
  - match goal with
    | |- hostsConsistent (runPlugin ?a _).1 =>
      assert (hostsConsistent a) as [Hl Ho] by (by apply (hostsConsistent_ext rt))
    end.
    by apply runPlugin_registered.
  - by apply (hostsConsistent_ext rt).
Qed.

Lemma start_hostsConsistent rt rt' :
  start rt = Some rt' → hostsConsistent rt → hostsConsistent rt'.
Proof.
  unfold start. destruct (loadDevices _ rt) as [rt1|] eqn:Hload; csimpl; [|done].
  intros [= <-] Hinv.
  destruct (loadDevices_hosts _ _ _ Hload) as (L1 & L2 & _).
  destruct (cycleGuard_hosts rt1) as (C1 & C2 & _).
  assert (hostsConsistent (cycleGuard rt1)) as HC.
  { apply (hostsConsistent_ext rt); [congruence|congruence|done]. }
  revert HC. generalize (ds_plugins (datastore (cycleGuard rt1))). generalize (cycleGuard rt1).
  intros rt0 l. revert rt0.
  induction l as [|p l IH]; intros rt0 H0; simpl; [done|].
  apply IH. by apply launchPlugin_hostsConsistent.
Qed.

Lemma hostsConsistent_fresh rt : hosts rt = [] → plugins rt = ∅ → hostsConsistent rt.
Proof.
  intros Hh Hp. split.
  - intros h host. by rewrite Hh.
  - intros p h. by rewrite Hp.
Qed.

(** X4. The registrations and the hosts stay consistent: in a runtime that
    starts without hosts, whatever the supervisor does (worker exits, restart
    timers and lookups, [runPlugin], [killPlugin]), and through
    [removeDevice], [upsertDevice] and [start], every host that was not
    killed is the host registered for its plugin, and every registered host
    belongs to the plugin it is registered for. So no two hosts of one
    plugin are alive at the same time. *)
Theorem live_hosts_are_registered :
  (∀ rt, hosts rt = [] → plugins rt = ∅ → hostsConsistent rt)
  ∧ (∀ acts rt rt', hostsConsistent rt → run rt acts = Some rt' → hostsConsistent rt')
  ∧ (∀ fuel rt device rt',
       hostsConsistent rt → removeDevice fuel rt device = Some rt' → hostsConsistent rt')
  ∧ (∀ (I : InferDefaults) rt pluginId device,
       hostsConsistent rt → hostsConsistent (upsertDevice rt pluginId device).1)
  ∧ (∀ rt rt', hostsConsistent rt → start rt = Some rt' → hostsConsistent rt')
  ∧ (∀ rt h1 h2 host1 host2,
       hostsConsistent rt →
       hosts rt !! h1 = Some host1 → hosts rt !! h2 = Some host2 →
       host_killed host1 = false → host_killed host2 = false →
       host_pluginId host1 = host_pluginId host2 → h1 = h2).
Proof.
  split_and!.
  - apply hostsConsistent_fresh.
  - induction acts as [|a acts IH]; intros rt rt' Hinv; simpl; [by intros [= <-]|].
    destruct (step rt a) as [rt1|] eqn:Hstep; csimpl; [|done].
    apply IH. destruct Hinv as [Hl Ho]. by apply (step_registered rt a).
  - intros fuel rt device rt' Hinv Hrun.
    by apply (removeDevice_preserves hostsConsistent removeRecord_hostsConsistent
                fuel rt device).
  - intros I rt pluginId device Hinv.
    destruct (upsertDevice_written rt pluginId device)
      as (_ & _ & _ & _ & Hpl & Hh & _).
    by apply (hostsConsistent_ext rt).
  - intros rt rt' Hinv Hstart. by apply (start_hostsConsistent rt).
  - intros rt h1 h2 host1 host2 [Hlive _] H1 H2 K1 K2 Hp.
    pose proof (Hlive h1 host1 H1 K1) as R1.
    pose proof (Hlive h2 host2 H2 K2) as R2.
    rewrite Hp in R1. congruence.
Qed.

(** X4 at a plugin that is run twice and whose second worker exits. *)
Lemma live_hosts_are_registered_witness :
  ∃ rt', run emptyRuntime
           [ActRunPlugin {| plugin_id := "p"; packageJson_name := "p";
                            packageJson_version := "1.0.0" |};
            ActRunPlugin {| plugin_id := "p"; packageJson_name := "p";
                            packageJson_version := "1.0.0" |};
            ActWorkerExit 1] = Some rt'
         ∧ hostsConsistent rt'.
Proof.
  destruct live_hosts_are_registered as (Hfresh & Hrun & _).
  match goal with
  | |- ∃ rt', ?r = Some rt' ∧ _ =>
    assert (is_Some r) as [rt' Hrt'] by (apply (bool_decide_unpack _); vm_compute; exact I)
  end.
  exists rt'. split; [exact Hrt'|].
  eapply Hrun; [apply (Hfresh emptyRuntime); reflexivity|exact Hrt'].
Defined.

Lemma killPlugin_other_hosts rt pluginId i :
  plugins rt !! pluginId ≠ Some i →
  hosts (killPlugin rt pluginId) !! i = hosts rt !! i.
Proof.
  intros Hne. unfold killPlugin.
  destruct (plugins rt !! pluginId) as [h|] eqn:Hreg; [|done].
  rewrite host_kill_hosts. cbn [hosts set_plugins].
  destruct (decide (i = h)) as [->|]; [done|]. by destruct (hosts rt !! i).
Qed.

(** X5. [killPlugin] unregisters the plugin and kills the host that was
    registered for it, and no other; for a plugin without host it does
    nothing, so that a second [killPlugin] changes nothing. *)
Theorem killPlugin_once (rt : ScryptedRuntime) (pluginId : string) :
  plugins (killPlugin rt pluginId) = delete pluginId (plugins rt)
  ∧ (∀ h, plugins rt !! pluginId = Some h →
       host_killed <$> hosts (killPlugin rt pluginId) !! h
       = (λ _, true) <$> hosts rt !! h
       ∧ trace (killPlugin rt pluginId) = trace rt ++ [EvHostKill h])
  ∧ (∀ i, plugins rt !! pluginId ≠ Some i →
       hosts (killPlugin rt pluginId) !! i = hosts rt !! i)
  ∧ (plugins rt !! pluginId = None → killPlugin rt pluginId = rt)
  ∧ killPlugin (killPlugin rt pluginId) pluginId = killPlugin rt pluginId.
Proof.
  assert (plugins (killPlugin rt pluginId) = delete pluginId (plugins rt)) as Hdel.
  { unfold killPlugin. destruct (plugins rt !! pluginId) eqn:E; [done|].
    by rewrite delete_id. }
  split_and!.
  - done.
  - intros h Hreg. unfold killPlugin. rewrite Hreg. split; [|done].
    rewrite host_kill_hosts. cbn [hosts set_plugins].
    destruct (decide (h = h)); [|done]. by destruct (hosts rt !! h).
  - apply killPlugin_other_hosts.
  - intros Hnone. unfold killPlugin. by rewrite Hnone.
  - unfold killPlugin at 1. by rewrite Hdel, lookup_delete_eq.
Qed.

(** X5 at the plugin of [familyRuntime]. *)
Lemma killPlugin_once_witness :
  host_killed <$> hosts (killPlugin familyRuntime "p") !! 0 = Some true
  ∧ killPlugin familyRuntime "q" = familyRuntime.
Proof.
  destruct (killPlugin_once familyRuntime "p") as (_ & Hkill & _).
  destruct (killPlugin_once familyRuntime "q") as (_ & _ & _ & Hnone & _).
  split; [exact (proj1 (Hkill 0 eq_refl))|]. apply Hnone. reflexivity.
Defined.

Lemma elem_of_findPluginDevices rt pluginId pd :
  pd ∈ findPluginDevices rt pluginId
  ↔ (is_Some (pd_state pd) ∧ pd_pluginId pd = pluginId) ∧ pd ∈ pluginDevices rt.
Proof. unfold findPluginDevices. by rewrite list_elem_of_filter. Qed.

Lemma findPluginDeviceById_elem rt pd :
  pd ∈ pluginDevices rt → is_Some (findPluginDeviceById rt (pd_id pd)).
Proof.
  intros Hin. unfold findPluginDeviceById.
  destruct (list_find (λ d, pd_id d = pd_id pd) (pluginDevices rt)) as [[i x]|] eqn:Hfind;
    [by eexists|].
  rewrite list_find_None, Forall_forall in Hfind. by destruct (Hfind pd Hin).
Qed.

Lemma lookupDevice_alterDevice id f ds x :
  (∀ h, h_id (f h) = h_id h) →
  is_Some (snd <$> list_find (λ h, h_id h = x) (alterDevice id f ds))
  ↔ is_Some (snd <$> list_find (λ h, h_id h = x) ds).
Proof.
  intros Hf. induction ds as [|h ds IH]; simpl; [done|].
  destruct (decide (h_id h = id)) as [Hh|Hh]; simpl.
  - rewrite Hf. destruct (decide (h_id h = x)); csimpl; [by split; eauto|done].
  - destruct (decide (h_id h = x)); csimpl; [by split; eauto|].
    rewrite !fmap_is_Some in *. done.
Qed.

Lemma list_find_storeProxy h ds x :
  list_find (λ a, h_id a = h_id h) ds = None →
  snd <$> list_find (λ a, h_id a = x) (storeProxy h ds)
  = if decide (x = h_id h) then Some h else snd <$> list_find (λ a, h_id a = x) ds.
Proof.
  induction ds as [|y ds IH]; simpl.
  - intros _. repeat case_decide; done || congruence.
  - destruct (decide (h_id y = h_id h)) as [Hy|Hy]; [done|].
    intros Hnone. destruct (list_find _ ds) as [[i a]|] eqn:Hds; [done|]. clear Hnone.
    specialize (IH eq_refl).
    destruct (keyBefore (h_id h) (h_id y)); simpl.
    + destruct (decide (h_id h = x)) as [Hh|Hh]; simpl.
      * by rewrite decide_True.
      * rewrite (decide_False (P := x = h_id h)) by congruence.
        by rewrite snd_list_find_shift.
    + destruct (decide (h_id y = x)) as [Hx|Hx]; simpl.
      * by rewrite decide_False by congruence.
      * by rewrite !snd_list_find_shift.
Qed.

Lemma lookupDevice_storeProxy rt id x :
  lookupDevice rt id = None →
  lookupDevice
    (set_devices (storeProxy {| h_id := id; h_mixinTable := None |} (devices rt)) rt) x
  = if decide (x = id) then Some {| h_id := id; h_mixinTable := None |}
    else lookupDevice rt x.
Proof.
  unfold lookupDevice. cbn [devices set_devices]. intros Hnone.
  apply (list_find_storeProxy {| h_id := id; h_mixinTable := None |}).
  simpl. by destruct (list_find _ (devices rt)).
Qed.

Lemma foldl_probeDevice_trace l : ∀ rt,
  (∀ pd, pd ∈ l → pd ∈ pluginDevices rt) →
  trace (foldl probeDevice rt l) = trace rt ++ (EvProbe ∘ pd_id <$> l)
  ∧ (∀ x, is_Some (lookupDevice rt x) ∨ x ∈ pd_id <$> l
          ↔ is_Some (lookupDevice (foldl probeDevice rt l) x)).
Proof.
  induction l as [|pd l IH]; intros rt Hin; simpl.
  - split; [by rewrite app_nil_r|]. intros x. split; [|by left].
    intros [Hx|Hx]; [done|]. by apply elem_of_nil in Hx.
  - assert (pd ∈ pluginDevices rt) as Hpd by (apply Hin; apply elem_of_cons; by left).
    destruct (findPluginDeviceById_elem rt pd Hpd) as [pd0 Hfind].
    assert (∃ rt1, probeDevice rt pd = rt1
                   ∧ pluginDevices rt1 = pluginDevices rt
                   ∧ trace rt1 = trace rt ++ [EvProbe (pd_id pd)]
                   ∧ ∀ x, is_Some (lookupDevice rt1 x)
                          ↔ is_Some (lookupDevice rt x) ∨ x = pd_id pd)
      as (rt1 & -> & Htab & Htr & Hdev).
    { unfold probeDevice, getDevice.
      destruct (lookupDevice rt (pd_id pd)) as [h|] eqn:Hlook.
      - eexists. split; [done|]. split_and!; try done.
        intros x. split; [by left|]. intros [Hx| ->]; [done|]. unfold lookupDevice in *.
        simpl. rewrite Hlook. eauto.
      - rewrite Hfind. eexists. split; [done|]. split_and!; try done.
        intros x. cbn [fst snd emit]. 
        assert (∀ r, lookupDevice (emit [EvProbe (pd_id pd)] r) x = lookupDevice r x)
          as -> by done.
        rewrite lookupDevice_storeProxy by done.
        destruct (decide (x = pd_id pd)) as [->|Hne].
        + split; [by right|by eauto].
        + split; [by left|]. by intros [?|?]. }
    destruct (IH rt1) as (Htr' & Hdev').
    { intros x Hx. rewrite Htab. apply Hin. apply elem_of_cons. by right. }
    split.
    + rewrite Htr', Htr. csimpl. by rewrite <-app_assoc.
    + intros x. rewrite <-Hdev', Hdev. csimpl. rewrite elem_of_cons. tauto.
Qed.

Lemma invalidatePluginDevice_lookup rt id x :
  is_Some (lookupDevice (invalidatePluginDevice rt id) x) ↔ is_Some (lookupDevice rt x).
Proof.
  unfold invalidatePluginDevice. destruct (lookupDevice rt id); [|done].
  unfold lookupDevice. cbn [devices emit set_devices].
  by apply lookupDevice_alterDevice.
Qed.

Lemma foldl_invalidatePluginDevice_trace l : ∀ rt,
  (∃ evs, trace (foldl (λ rt pd, invalidatePluginDevice rt (pd_id pd)) rt l)
          = trace rt ++ evs
          ∧ Forall (λ e, ∃ pd, pd ∈ l ∧ e = EvInvalidate (pd_id pd)) evs)
  ∧ (∀ x, is_Some (lookupDevice
                     (foldl (λ rt pd, invalidatePluginDevice rt (pd_id pd)) rt l) x)
          ↔ is_Some (lookupDevice rt x)).
Proof.
  induction l as [|pd l IH]; intros rt; simpl.
  - split; [|done]. exists []. by rewrite app_nil_r.
  - destruct (IH (invalidatePluginDevice rt (pd_id pd))) as ((evs & Htr & Hevs) & Hlook).
    split.
    + destruct (invalidatePluginDevice_fields rt (pd_id pd)) as (_ & _ & _ & _ & [E|E]).
      * exists evs. rewrite Htr, E. split; [done|].
        eapply Forall_impl; [exact Hevs|]. intros e (x & Hx & ->). exists x.
        split; [|done]. apply elem_of_cons. by right.
      * exists (EvInvalidate (pd_id pd) :: evs). rewrite Htr, E, <-app_assoc.
        split; [done|]. constructor.
        -- exists pd. split; [|done]. apply elem_of_cons. by left.
        -- eapply Forall_impl; [exact Hevs|]. intros e (x & Hx & ->). exists x.
           split; [|done]. apply elem_of_cons. by right.
    + intros x. rewrite Hlook. apply invalidatePluginDevice_lookup.
Qed.

Lemma runPlugin_trace rt plugin :
  ∃ released,
    trace (runPlugin rt plugin).1
    = trace (killPlugin rt (plugin_id plugin)) ++ released
      ++ [EvHostStart (length (hosts rt)) (plugin_id plugin)]
      ++ (EvProbe ∘ pd_id <$> findPluginDevices rt (plugin_id plugin))
    ∧ Forall (λ e, ∃ pd, pd ∈ findPluginDevices rt (plugin_id plugin)
                         ∧ e = EvInvalidate (pd_id pd)) released.
Proof.
  unfold runPlugin. cbv zeta. cbn [fst].
  destruct (killPlugin_spec rt (plugin_id plugin)) as (_ & K2 & _ & _ & K5 & _).
  set (rtK := killPlugin rt (plugin_id plugin)) in *.
  assert (findPluginDevices rtK (plugin_id plugin)
          = findPluginDevices rt (plugin_id plugin)) as ->
    by (unfold findPluginDevices; by rewrite K2).
  set (l := findPluginDevices rt (plugin_id plugin)).
  destruct (foldl_invalidatePluginDevice_trace l rtK) as ((evs & Htr & Hevs) & _).
  destruct (foldl_invalidatePluginDevice_pluginDevices l rtK)
    as (I1 & _ & _ & I4 & _).
  set (rtI := foldl _ rtK l) in *.
  match goal with
  | |- context [foldl probeDevice ?a l] =>
    destruct (foldl_probeDevice_trace l a) as (Hp & _)
  end.
  { intros pd [_ Hin]%elem_of_findPluginDevices. simpl. by rewrite I1, K2. }
  exists evs. split; [|done]. rewrite Hp. simpl. rewrite Htr, I4, K5.
  by rewrite <-!app_assoc.
Qed.










(** ** Proxies *)

Lemma lookupDevice_is_Some rt x :
  is_Some (lookupDevice rt x) ↔ x ∈ h_id <$> devices rt.
Proof.
  unfold lookupDevice. rewrite fmap_is_Some. split.
  - intros [[i h] Hfind]. apply list_find_Some in Hfind as (Hi & <- & _).
    apply list_elem_of_fmap. exists h. split; [done|]. by eapply list_elem_of_lookup_2.
  - intros (h & -> & Hin)%list_elem_of_fmap.
    destruct (list_find (λ h0, h_id h0 = h_id h) (devices rt)) as [r|] eqn:Hfind;
      [by eexists|].
    rewrite list_find_None, Forall_forall in Hfind. by destruct (Hfind h Hin).
Qed.

(** X7. [getDevice] returns a proxy when the table of proxies has one for
    the id, also for an id without record, or when the device table has a
    record for the id; it creates a proxy only in the second case, without
    chain, and warns in neither of the two cases. Once it returned a proxy, a
    second call returns it again and changes nothing. Other proxies and the
    device table are left alone. *)
Theorem getDevice_once (rt : ScryptedRuntime) (id : string) :
  let r := getDevice rt id in
  (r.2 = true ↔ is_Some (lookupDevice rt id) ∨ is_Some (findPluginDeviceById rt id))
  ∧ (r.2 = false →
     r.1 = emit [EvConsoleWarn "device not found"] rt)
  ∧ (r.2 = true →
     trace r.1 = trace rt
     ∧ lookupDevice r.1 id
       = Some (default {| h_id := id; h_mixinTable := None |} (lookupDevice rt id))
     ∧ getDevice r.1 id = (r.1, true))
  ∧ (is_Some (lookupDevice rt id) → r.1 = rt)
  ∧ (∀ x, x ≠ id → lookupDevice r.1 x = lookupDevice rt x)
  ∧ pluginDevices r.1 = pluginDevices rt ∧ plugins r.1 = plugins rt.
Proof.
  intros r. subst r. unfold getDevice.
  destruct (lookupDevice rt id) as [h|] eqn:Hlook.
  - cbn [fst snd]. split_and!; try done.
    + split; [by left; eexists|done].
    + intros _. by rewrite Hlook.
  - destruct (findPluginDeviceById rt id) as [pd|] eqn:Hfind; cbn [fst snd].
    + assert (lookupDevice
                (set_devices
                   (storeProxy {| h_id := id; h_mixinTable := None |} (devices rt)) rt) id
              = Some {| h_id := id; h_mixinTable := None |}) as Hnew.
      { rewrite lookupDevice_storeProxy by done. by rewrite decide_True. }
      split_and!; try done.
      * split; [by right; eexists|done].
      * intros _. split_and!; [done|done|]. by rewrite Hnew.
      * intros x Hx. rewrite lookupDevice_storeProxy by done.
        by rewrite decide_False.
    + split_and!; try done.
      split; [done|]. by intros [[y [=]]|[y [=]]].
Qed.

(** X7 at device [2] of [familyRuntime], which has no proxy yet, and at an
    id without record. *)
Lemma getDevice_once_witness :
  (getDevice familyRuntime "2").2 = true
  ∧ (getDevice familyRuntime "9").1
    = emit [EvConsoleWarn "device not found"] familyRuntime.
Proof.
  destruct (getDevice_once familyRuntime "2") as (Hiff & _).
  destruct (getDevice_once familyRuntime "9") as (_ & Hwarn & _).
  split.
  - apply Hiff. right. apply (bool_decide_unpack _). vm_compute. exact I.
  - apply Hwarn. vm_compute. reflexivity.
Defined.

Lemma invalidateMixins_touched rt ids rt' ret :
  invalidateMixins rt ids = Some (rt', ret) →
  Forall2 (touched ret) (devices rt) (devices rt').
Proof.
  unfold invalidateMixins.
  destruct (firstPass_inv (devices rt) ids) as (ds & st & -> & (Ht & _) & _).
  csimpl. by intros [= <- <-].
Qed.

Lemma list_find_touched ret ds0 ds x :
  Forall2 (touched ret) ds0 ds →
  match snd <$> list_find (λ h, h_id h = x) ds with
  | Some h => ∃ h0, snd <$> list_find (λ h, h_id h = x) ds0 = Some h0 ∧ touched ret h0 h
  | None => snd <$> list_find (λ h, h_id h = x) ds0 = None
  end.
Proof.
  induction 1 as [|h0 h ds0 ds Ht _ IH]; simpl; [done|].
  destruct Ht as [[Hid Hs] Hr].
  rewrite Hid. destruct (decide (h_id h0 = x)); csimpl.
  - exists h0. split; [done|]. by split.
  - destruct (list_find _ ds) as [[i a]|], (list_find _ ds0) as [[j b]|];
      csimpl in *; done.
Qed.

Lemma lookupDevice_invalidatePluginDevice rt id :
  lookupDevice (invalidatePluginDevice rt id) id = invalidate <$> lookupDevice rt id.
Proof.
  unfold invalidatePluginDevice. destruct (lookupDevice rt id) as [h|] eqn:Hlook; [|done].
  unfold lookupDevice in *. cbn [devices emit set_devices].
  induction (devices rt) as [|a ds IH]; simpl in *; [done|].
  destruct (decide (h_id a = id)) as [Ha|Ha]; simpl.
  - rewrite decide_True by done. by injection Hlook as <-.
  - rewrite decide_False by done. rewrite <-!option_fmap_compose in *. simpl in *.
    destruct (list_find _ ds) as [[i b]|]; simpl in *; [|done].
    specialize (IH Hlook).
    destruct (list_find _ (alterDevice id invalidate ds)) as [[j c]|]; simpl in *; done.
Qed.

Lemma removeRecord_devices rt device rt' :
  removeRecord rt device = Some rt' →
  h_id <$> devices rt' = h_id <$> devices rt
  ∧ (∀ h, lookupDevice rt' (pd_id device) = Some h → h_mixinTable h = None).
Proof.
  unfold removeRecord. cbv zeta.
  set (rtA := emit _ _).
  destruct (invalidateMixins_fields rtA [pd_id device]) as (rtB & ret & Hrun & _).
  rewrite Hrun. csimpl. intros [= <-].
  pose proof (invalidateMixins_touched _ _ _ _ Hrun) as Ht.
  assert (devices rtA
          = devices (invalidatePluginDevice
                       (set_pluginDevices (clearState (pd_id device) (pluginDevices rt)) rt)
                       (pd_id device))) as HA by done.
  assert (∀ r, devices
                 (if truthy_nativeId (pd_nativeId device) then notifyRemoved r device
                  else emit [EvRimraf (pd_pluginId device)]
                         (datastore_removeId (pd_pluginId device)
                            (killPlugin r (pd_pluginId device)))) = devices r) as Hend.
  { intros r. destruct (truthy_nativeId (pd_nativeId device)).
    - unfold notifyRemoved. by destruct (notifyOutcome r device).
    - simpl. unfold killPlugin. by destruct (plugins r !! pd_pluginId device). }
  split.
  - rewrite Hend, (Forall2_touched_ids _ _ _ Ht), HA.
    unfold invalidatePluginDevice. destruct (lookupDevice _ _); [|done].
    cbn [devices emit set_devices set_pluginDevices].
    induction (devices rt) as [|a ds IH]; simpl; [done|].
    case_decide; csimpl; [done|]. by rewrite IH.
  - intros h. unfold lookupDevice. rewrite Hend.
    pose proof (list_find_touched ret _ _ (pd_id device) Ht) as Hfind.
    intros Hh. rewrite Hh in Hfind. destruct Hfind as (h0 & Hh0 & [Hs Hr]).
    rewrite HA in Hh0. fold (lookupDevice
      (invalidatePluginDevice
         (set_pluginDevices (clearState (pd_id device) (pluginDevices rt)) rt)
         (pd_id device)) (pd_id device)) in Hh0.
    rewrite lookupDevice_invalidatePluginDevice in Hh0.
    destruct (lookupDevice _ (pd_id device)) as [h1|]; csimpl in Hh0; [|done].
    injection Hh0 as <-.
    destruct Hs as [_ [->|(t & k & Hnone & _)]]; [done|done].
Qed.

(** X8. [removeDevice] removes records, never proxies: the table of proxies
    has the same ids afterwards. The proxy of the removed device, when there
    is one, is left without chain, and a later [getDevice] for the removed
    id returns this proxy, without warning, although the record is gone. *)
Theorem removeDevice_keeps_proxies (fuel : nat) (rt : ScryptedRuntime)
    (device : PluginDevice) (rt' : ScryptedRuntime) :
  removeDevice fuel rt device = Some rt' →
  h_id <$> devices rt' = h_id <$> devices rt
  ∧ findPluginDeviceById rt' (pd_id device) = None
  ∧ (∀ h, lookupDevice rt' (pd_id device) = Some h → h_mixinTable h = None)
  ∧ (is_Some (lookupDevice rt (pd_id device)) →
     getDevice rt' (pd_id device) = (rt', true)).
Proof.
  intros Hrun.
  assert (h_id <$> devices rt' = h_id <$> devices rt) as Hids.
  { apply (removeDevice_preserves (λ r, h_id <$> devices r = h_id <$> devices rt))
      with fuel rt device; [|done..].
    intros r d r' Hrec <-. by apply removeRecord_devices in Hrec as [-> _]. }
  destruct fuel as [|fuel]; [done|]. simpl in Hrun.
  destruct (removeProvided _ _ _ rt) as [rt1|]; csimpl in Hrun; [|done].
  destruct (removeRecord_spec rt1 device) as (rt2 & evs & Hrec & Htab & _).
  rewrite Hrun in Hrec. injection Hrec as <-.
  apply removeRecord_devices in Hrun as [_ Hnone].
  split_and!; try done.
  - unfold findPluginDeviceById. by rewrite Htab, list_find_deleteDevice_None.
  - intros Hproxy. apply lookupDevice_is_Some in Hproxy. rewrite <-Hids in Hproxy.
    apply lookupDevice_is_Some in Hproxy as [h Hh]. unfold getDevice. by rewrite Hh.
Qed.

(** X8 at device [2] of [familyRuntime], removed after its proxy was made. *)
Lemma removeDevice_keeps_proxies_witness :
  ∃ rt', removeDevice 4 (getDevice familyRuntime "2").1
           (deviceRecord "2" (NidString "c1") [] ["OnOff"] (JString "1")) = Some rt'
         ∧ findPluginDeviceById rt' "2" = None
         ∧ getDevice rt' "2" = (rt', true).
Proof.
  match goal with
  | |- ∃ rt', ?r = Some rt' ∧ _ =>
    assert (is_Some r) as [rt' Hrt'] by (apply (bool_decide_unpack _); vm_compute; exact I)
  end.
  exists rt'. split; [exact Hrt'|].
  destruct (removeDevice_keeps_proxies _ _ _ _ Hrt') as (_ & Hgone & _ & Hstale).
  split; [exact Hgone|]. apply Hstale.
  apply (bool_decide_unpack _). vm_compute. exact I.
Defined.

(** ** What [removeDevice] keeps *)

Lemma removeDevice_trace fuel rt device rt' :
  removeDevice fuel rt device = Some rt' → ∃ evs, trace rt' = trace rt ++ evs.
Proof.
  intros Hrun.
  apply (removeDevice_preserves (λ r, ∃ evs, trace r = trace rt ++ evs))
    with fuel rt device; [|done|].
  - intros r d r' Hrec [evs Hevs].
    destruct (removeRecord_spec r d) as (r2 & new & Hrec2 & _ & _ & Htr & _).
    rewrite Hrec in Hrec2. injection Hrec2 as <-.
    exists (evs ++ new). by rewrite Htr, Hevs, (assoc_L (++)).
  - exists []. by rewrite app_nil_r.
Qed.

(** X9. When [removeDevice] returns, every record that is left has the id of
    a record of the table before, and not that of the removed device; and
    every record of the table and of the datastore that is neither the
    device nor provided by it, directly or through other devices, is still
    there under its id, for the same plugin and with the same native id. It
    is the record of before when the call did not start a rebuild of the
    mixin table of that device: a rebuild writes to the record of its device
    when it completes, which may be while [removeDevice] waits. *)
Theorem removeDevice_spares_others (fuel : nat) (rt : ScryptedRuntime)
    (device : PluginDevice) (rt' : ScryptedRuntime) :
  removeDevice fuel rt device = Some rt' →
  ∃ evs,
    trace rt' = trace rt ++ evs
    ∧ (∀ x, x ∈ pluginDevices rt' →
         pd_id x ∈ pd_id <$> pluginDevices rt ∧ pd_id x ≠ pd_id device)
    ∧ (∀ x, x ∈ pluginDevices rt →
         ¬ providedBy (pluginDevices rt) (pd_id device) (pd_id x) →
         ∃ x', x' ∈ pluginDevices rt'
               ∧ pd_id x' = pd_id x ∧ pd_pluginId x' = pd_pluginId x
               ∧ pd_nativeId x' = pd_nativeId x
               ∧ (EvRebuildMixinTable (pd_id x) ∉ evs → x' = x))
    ∧ (∀ x, x ∈ ds_devices (datastore rt) →
         ¬ providedBy (pluginDevices rt) (pd_id device) (pd_id x) →
         ∃ x', x' ∈ ds_devices (datastore rt')
               ∧ pd_id x' = pd_id x ∧ pd_pluginId x' = pd_pluginId x
               ∧ pd_nativeId x' = pd_nativeId x
               ∧ (EvRebuildMixinTable (pd_id x) ∉ evs → x' = x)).
Proof.
  intros Hrun. destruct (removeDevice_trace _ _ _ _ Hrun) as [evs Hevs].
  exists evs. split_and!; [done|..].
  - intros x Hx. split.
    + apply list_elem_of_fmap_2.
      by apply (removeDevice_subset (pluginDevices rt) fuel rt device rt').
    + destruct fuel as [|fuel]; [done|]. simpl in Hrun.
      destruct (removeProvided _ _ _ rt) as [rt1|]; csimpl in Hrun; [|done].
      destruct (removeRecord_spec rt1 device) as (rt2 & evs2 & Hrec & Htab & _).
      rewrite Hrun in Hrec. injection Hrec as <-. rewrite Htab in Hx.
      by apply elem_of_deleteDevice in Hx as [? _].
  - intros x Hx Hnot. exists x. split_and!; try done.
    apply (removeDevice_keeps (pluginDevices rt) pluginDevices) with fuel rt device;
      try done.
    intros r d r' Hrec.
    destruct (removeRecord_spec r d) as (r2 & evs2 & Hrec2 & Htab & _).
    rewrite Hrec in Hrec2. by injection Hrec2 as <-.
  - intros x Hx Hnot. exists x. split_and!; try done.
    apply (removeDevice_keeps (pluginDevices rt) (λ r, ds_devices (datastore r)))
      with fuel rt device; try done.
    intros r d r' Hrec.
    destruct (removeRecord_spec r d) as (r2 & evs2 & Hrec2 & _ & Hds & _).
    rewrite Hrec in Hrec2. by injection Hrec2 as <-.
Qed.

(** X9 at device [2] of [familyRuntime]: the root device [1] stays. *)
Lemma removeDevice_spares_others_witness :
  ∃ rt', removeDevice 4 familyRuntime
           (deviceRecord "2" (NidString "c1") [] ["OnOff"] (JString "1")) = Some rt'
         ∧ deviceRecord "1" NidUndefined [] ["ScryptedPlugin"] (JString "1")
           ∈ pluginDevices rt'.
Proof.
  match goal with
  | |- ∃ rt', ?r = Some rt' ∧ _ =>
    assert (is_Some r) as [rt' Hrt'] by (apply (bool_decide_unpack _); vm_compute; exact I)
  end.
  exists rt'. split; [exact Hrt'|].
  destruct (removeDevice_spares_others _ _ _ _ Hrt') as (evs & Hevs & _ & Hkeep & _).
  destruct (Hkeep (deviceRecord "1" NidUndefined [] ["ScryptedPlugin"] (JString "1")))
    as (x' & Hin & _ & _ & _ & Hsame).
  - simpl. unfold familyDevices. apply elem_of_cons. by left.
  - intros Hreach. apply rtc_inv in Hreach as [[=]|(y & Hstep & Hrest)].
    destruct Hstep as (pd & Hpd & <- & Hprov & Hne).
    simpl in Hpd. unfold familyDevices in Hpd.
    repeat (apply elem_of_cons in Hpd as [->|Hpd]); try by apply elem_of_nil in Hpd.
    + by vm_compute in Hprov.
    + by vm_compute in Hne.
    + clear Hprov Hne. apply rtc_inv in Hrest as [[=]|(y & Hstep & Hrest)].
      destruct Hstep as (pd & Hpd & <- & Hprov & Hne).
      simpl in Hpd. unfold familyDevices in Hpd.
      repeat (apply elem_of_cons in Hpd as [->|Hpd]); try by apply elem_of_nil in Hpd.
      * by vm_compute in Hprov.
      * by vm_compute in Hprov.
      * by vm_compute in Hne.
  - rewrite <-Hsame; [exact Hin|].
    vm_compute in Hrt'. injection Hrt' as <-. simpl in Hevs. subst evs.
    intros Hin'. by repeat (apply elem_of_cons in Hin' as [?|Hin']);
      try apply elem_of_nil in Hin'.
Defined.

(** * Further properties of [invalidateMixins] *)

Lemma scanDevice_miss id device st :
  ¬ chainMentions device id → scanDevice id device st = (device, st).
Proof.
  intros Hno. unfold scanDevice.
  destruct (h_mixinTable device) as [table|] eqn:Htab; [|done].
  destruct (list_find _ table) as [[i e]|] eqn:Hfind; [|done].
  apply list_find_Some in Hfind as (Hi & He & _).
  destruct Hno. exists table, e. split_and!; [done| |done].
  by eapply list_elem_of_lookup_2.
Qed.

Lemma scanDevices_miss id ds st :
  (∀ h, h ∈ ds → ¬ chainMentions h id) → scanDevices id ds st = (ds, st).
Proof.
  induction ds as [|h ds IH]; intros Hno; simpl; [done|].
  rewrite scanDevice_miss by (apply Hno; apply elem_of_cons; by left).
  rewrite IH; [done|]. intros h' Hh'. apply Hno. apply elem_of_cons. by right.
Qed.

Lemma whileRemaining_miss ds : ∀ fuel st,
  length (p_remaining st) ≤ fuel →
  (∀ id h, id ∈ p_remaining st → h ∈ ds → ¬ chainMentions h id) →
  whileRemaining fuel ds st
  = Some (ds, {| p_ret := p_ret st; p_remaining := []; p_trace := p_trace st |}).
Proof.
  induction fuel as [|fuel IH]; intros [ret remaining tr]; simpl; intros Hlen Hno.
  - destruct remaining; [done|simpl in Hlen; lia].
  - destruct remaining as [|id rest]; [done|].
    rewrite scanDevices_miss
      by (intros h Hh; apply (Hno id h); [apply elem_of_cons; by left|done]).
    rewrite IH; [done|simpl in *; lia|].
    simpl. intros id' h Hid' Hh. apply Hno; [apply elem_of_cons; by right|done].
Qed.

Lemma invalidateMixins_closed rt ids rt' ret :
  invalidateMixins rt ids = Some (rt', ret) →
  closedUnder (devices rt) ids (λ x, x ∈ ret).
Proof.
  destruct (firstPass_inv (devices rt) ids)
    as (ds & st & Hfirst & (_ & _ & _ & Hclo & _) & Hdone).
  unfold invalidateMixins. rewrite Hfirst. intros [= _ <-].
  intros device p Hdev Hmen Hp.
  destruct (Hclo p Hp) as [Hrem|Hall]; [rewrite Hdone in Hrem; set_solver|].
  by apply Hall.
Qed.

(** X10. [invalidateMixins] returns the empty set exactly when no chain of
    a proxy mentions one of the given ids, as for an empty set of ids, and
    then it changes no proxy, logs nothing and rebuilds nothing. *)
Theorem invalidateMixins_nothing_to_do (rt : ScryptedRuntime) (ids : list string) :
  ((∀ id h, id ∈ ids → h ∈ devices rt → ¬ chainMentions h id)
   ↔ ∃ rt', invalidateMixins rt ids = Some (rt', []))
  ∧ (∀ rt', invalidateMixins rt ids = Some (rt', []) →
       devices rt' = devices rt ∧ trace rt' = trace rt
       ∧ pluginDevices rt' = pluginDevices rt ∧ plugins rt' = plugins rt).
Proof.
  assert ((∀ id h, id ∈ ids → h ∈ devices rt → ¬ chainMentions h id) →
          invalidateMixins rt ids
          = Some (emit [] (set_devices (devices rt) rt), [])) as Hmiss.
  { intros Hno. unfold invalidateMixins, firstPass.
    rewrite whileRemaining_miss; [done|simpl; rewrite length_reverse; lia|].
    simpl. intros id h Hid Hh. rewrite elem_of_reverse in Hid. by apply Hno. }
  assert (∀ rt', invalidateMixins rt ids = Some (rt', []) →
                 ∀ id h, id ∈ ids → h ∈ devices rt → ¬ chainMentions h id) as Hconv.
  { intros rt' Hrun id h Hid Hh Hmen.
    pose proof (invalidateMixins_closed rt ids rt' [] Hrun) as Hclosed.
    apply (elem_of_nil (h_id h)). apply (Hclosed h id); auto. }
  split.
  - split; [intros Hno; eexists; by apply Hmiss|]. intros [rt' Hrun]. by eapply Hconv.
  - intros rt' Hrun. rewrite (Hmiss (Hconv rt' Hrun)) in Hrun.
    injection Hrun as <-. simpl. by rewrite app_nil_r.
Qed.

(** X10 at [chainRuntime] and an id that no chain mentions. *)
Lemma invalidateMixins_nothing_to_do_witness :
  ∃ rt', invalidateMixins chainRuntime ["Z"] = Some (rt', [])
         ∧ devices rt' = devices chainRuntime.
Proof.
  destruct (invalidateMixins_nothing_to_do chainRuntime ["Z"]) as (Hiff & Hsame).
  destruct (proj1 Hiff) as [rt' Hrun].
  - intros id h ->%list_elem_of_singleton Hh (table & e & Htab & He & Hp).
    simpl in Hh.
    repeat (apply elem_of_cons in Hh as [->|Hh]); try by apply elem_of_nil in Hh.
    all: injection Htab as <-.
    all: repeat (apply elem_of_cons in He as [->|He]); try by apply elem_of_nil in He.
    all: discriminate Hp.
  - exists rt'. split; [exact Hrun|]. by destruct (Hsame rt' Hrun).
Defined.

Lemma splicedBy_refl h : splicedBy 0 h h.
Proof. split; [done|]. destruct (h_mixinTable h); auto. Qed.

Lemma splicedBy_trans k1 k2 h0 h1 h2 :
  splicedBy k1 h0 h1 → splicedBy k2 h1 h2 → splicedBy (k1 + k2) h0 h2.
Proof.
  intros [Hid1 H1] [Hid2 H2]. split; [congruence|].
  destruct (h_mixinTable h0) as [t|].
  - destruct H1 as [H1 Hk1]. rewrite H1 in H2. destruct H2 as [H2 Hk2].
    rewrite drop_drop in H2. split; [done|].
    rewrite length_drop in Hk2. lia.
  - destruct H1 as [H1 ->]. rewrite H1 in H2. by destruct H2 as [H2 ->].
Qed.

Lemma scanDevice_spliced id device st :
  keepsTerminal device (scanDevice id device st).1.
Proof.
  unfold scanDevice.
  destruct (h_mixinTable device) as [table|] eqn:Htab; [|exists 0; apply splicedBy_refl].
  destruct (list_find _ table) as [[i e]|] eqn:Hfind; [|exists 0; apply splicedBy_refl].
  apply list_find_Some in Hfind as (Hi & _ & _). apply lookup_lt_Some in Hi.
  cbv zeta. case_decide as Hlast; [exists 0; apply splicedBy_refl|].
  exists (i + 1). split; [done|]. rewrite Htab. simpl. split; [done|]. lia.
Qed.

Lemma keepsTerminal_trans h0 h1 h2 :
  keepsTerminal h0 h1 → keepsTerminal h1 h2 → keepsTerminal h0 h2.
Proof. intros [k1 H1] [k2 H2]. exists (k1 + k2). by eapply splicedBy_trans. Qed.

Lemma Forall2_keepsTerminal_refl ds : Forall2 keepsTerminal ds ds.
Proof. induction ds; constructor; [exists 0; apply splicedBy_refl|done]. Qed.

Lemma Forall2_keepsTerminal_trans ds0 : ∀ ds1 ds2,
  Forall2 keepsTerminal ds0 ds1 → Forall2 keepsTerminal ds1 ds2 →
  Forall2 keepsTerminal ds0 ds2.
Proof.
  induction ds0 as [|h0 ds0 IH]; intros ds1 ds2 H1 H2.
  - apply Forall2_nil_inv_l in H1 as ->. by apply Forall2_nil_inv_l in H2 as ->.
  - apply Forall2_cons_inv_l in H1 as (h1 & ds1' & Hh1 & H1 & ->).
    apply Forall2_cons_inv_l in H2 as (h2 & ds2' & Hh2 & H2 & ->).
    constructor; [by eapply keepsTerminal_trans|by eapply IH].
Qed.

Lemma scanDevices_spliced id ds : ∀ st,
  Forall2 keepsTerminal ds (scanDevices id ds st).1.
Proof.
  induction ds as [|h ds IH]; intros st; simpl; [constructor|].
  pose proof (scanDevice_spliced id h st) as Hh.
  destruct (scanDevice id h st) as [h' st1].
  specialize (IH st1). destruct (scanDevices id ds st1) as [ds' st2].
  by constructor.
Qed.

Lemma whileRemaining_spliced fuel : ∀ ds st ds' st',
  whileRemaining fuel ds st = Some (ds', st') → Forall2 keepsTerminal ds ds'.
Proof.
  induction fuel as [|fuel IH]; intros ds st ds' st'; simpl.
  - destruct (p_remaining st); [|done]. intros [= <- <-].
    apply Forall2_keepsTerminal_refl.
  - destruct (p_remaining st) as [|id rest].
    + intros [= <- <-]. apply Forall2_keepsTerminal_refl.
    + match goal with
      | |- context [scanDevices id ds ?s] =>
        pose proof (scanDevices_spliced id ds s) as Hscan;
        destruct (scanDevices id ds s) as [ds1 st1]
      end.
      intros Hrun. eapply Forall2_keepsTerminal_trans; [exact Hscan|].
      by eapply IH.
Qed.

Lemma last_drop_lt {A} (l : list A) k : k < length l → last (drop k l) = last l.
Proof.
  intros Hk. rewrite !last_lookup, lookup_drop, length_drop. f_equal. lia.
Qed.

(** X11. [invalidateMixins] splices entries off the head of a chain only,
    and never the last one: every proxy keeps its place and its id, a proxy
    without chain stays without chain, and the chain of any other proxy is
    a suffix of the chain before with the same last entry, the device's own. *)
Theorem invalidateMixins_keeps_terminal (rt : ScryptedRuntime) (ids : list string) :
  ∃ rt' ret,
    invalidateMixins rt ids = Some (rt', ret)
    ∧ length (devices rt') = length (devices rt)
    ∧ ∀ i h0, devices rt !! i = Some h0 →
        ∃ h, devices rt' !! i = Some h ∧ h_id h = h_id h0
          ∧ (h_mixinTable h0 = None → h_mixinTable h = None)
          ∧ ∀ t, h_mixinTable h0 = Some t →
              ∃ k, h_mixinTable h = Some (drop k t)
                   ∧ last (drop k t) = last t
                   ∧ (t ≠ [] → drop k t ≠ []).
Proof.
  unfold invalidateMixins, firstPass.
  destruct (firstPass_total (devices rt) ids) as [[ds st] Hrun].
  unfold firstPass in Hrun. rewrite Hrun. csimpl.
  apply whileRemaining_spliced in Hrun.
  eexists _, _. split; [done|]. cbn [devices emit set_devices].
  split; [symmetry; by eapply Forall2_length|].
  intros i h0 Hi.
  destruct (Forall2_lookup_l _ _ _ _ _ Hrun Hi) as (h & Hi' & k & Hid & Hk).
  exists h. split_and!; try done.
  - intros Hnone. rewrite Hnone in Hk. by destruct Hk.
  - intros t Ht. rewrite Ht in Hk. destruct Hk as [Hk Hlt]. exists k.
    split; [done|]. destruct Hlt as [->|Hlt]; [done|].
    split; [by apply last_drop_lt|].
    intros _ Hnil. apply (f_equal length) in Hnil. rewrite length_drop in Hnil.
    simpl in Hnil. lia.
Qed.

(** X11 at [chainRuntime] and the id [C]: proxy [A] keeps its own entry. *)
Lemma invalidateMixins_keeps_terminal_witness :
  ∃ rt' ret h,
    invalidateMixins chainRuntime ["C"] = Some (rt', ret)
    ∧ devices rt' !! 0 = Some h
    ∧ ∃ k, h_mixinTable h
           = Some (drop k [{| mixinProviderId := Some "B"; entry := 1 |};
                           {| mixinProviderId := Some "C"; entry := 2 |};
                           {| mixinProviderId := None; entry := 3 |}])
           ∧ last (drop k [{| mixinProviderId := Some "B"; entry := 1 |};
                           {| mixinProviderId := Some "C"; entry := 2 |};
                           {| mixinProviderId := None; entry := 3 |}])
             = Some {| mixinProviderId := None; entry := 3 |}.
Proof.
  destruct (invalidateMixins_keeps_terminal chainRuntime ["C"])
    as (rt' & ret & Hrun & _ & Hkeep).
  destruct (Hkeep 0 _ eq_refl) as (h & Hh & _ & _ & Hchain).
  destruct (Hchain _ eq_refl) as (k & Hk & Hlast & _).
  exists rt', ret, h. split; [exact Hrun|]. split; [exact Hh|].
  exists k. split; [exact Hk|exact Hlast].
Defined.

(** * Further properties of [start] *)

Lemma loadDevice_repairDevice rt pd :
  loadDevice rt pd
  = match pd_state pd with
    | None => Some (datastore_remove (pd_id pd) rt)
    | Some _ =>
      repairDevice pd ≫= λ r : PluginDevice * bool,
        let rt1 := set_pluginDevices (storeDevice r.1 (pluginDevices rt)) rt in
        Some (if r.2 then datastore_upsert r.1 rt1 else rt1)
    end.
Proof.
  unfold loadDevice, repairDevice. destruct (pd_state pd); [|done].
  destruct (repairMixins pd) as [pd1 d1].
  destruct (repairMarker pd1) as [[pd2 d2]|]; csimpl; [|done].
  destruct (repairPluginId pd2) as [pd3 d3].
  by destruct (repairNativeId pd3) as [pd4 d4].
Qed.

Lemma repairMixins_spec pd :
  is_Some (pd_state pd) →
  let r := repairMixins pd in
  pd_id r.1 = pd_id pd ∧ pd_pluginId r.1 = pd_pluginId pd ∧ pd_nativeId r.1 = pd_nativeId pd
  ∧ is_Some (pd_state r.1)
  ∧ (None ∉ as_array (getState r.1 Property_mixins))
  ∧ (∀ k, k ≠ Property_mixins → getState r.1 k = getState pd k)
  ∧ (r.2 = false → r.1 = pd)
  ∧ (r.2 = false ↔ None ∉ as_array (getState pd Property_mixins)).
Proof.
  intros Hst. unfold repairMixins. cbv zeta. case_bool_decide as Hnull; cbn [fst snd].
  - rewrite setState_id, setState_pluginId, setState_nativeId.
    split_and!; try done.
    + by apply setState_is_Some.
    + rewrite getState_setState_eq by done. simpl. rewrite list_elem_of_filter.
      by intros [? _].
    + intros k Hk. by rewrite getState_setState_ne.
  - by split_and!.
Qed.

Lemma repairMarker_more pd pd' dirty :
  is_Some (pd_state pd) →
  repairMarker pd = Some (pd', dirty) →
  pd_id pd' = pd_id pd ∧ pd_pluginId pd' = pd_pluginId pd ∧ pd_nativeId pd' = pd_nativeId pd
  ∧ is_Some (pd_state pd')
  ∧ (truthy_nativeId (pd_nativeId pd) = false →
     ∃ interfaces, getState pd' Property_providedInterfaces = JArray interfaces
                   ∧ Some ScryptedPlugin ∈ interfaces)
  ∧ (∀ k, k ≠ Property_providedInterfaces → getState pd' k = getState pd k)
  ∧ (dirty = false → pd' = pd)
  ∧ (dirty = false ↔
     (truthy_nativeId (pd_nativeId pd) = false →
      ∃ interfaces, getState pd Property_providedInterfaces = JArray interfaces
                    ∧ Some ScryptedPlugin ∈ interfaces)).
Proof.
  intros Hst. unfold repairMarker.
  destruct (truthy_nativeId (pd_nativeId pd)) eqn:Htruthy.
  - intros [= <- <-]. by split_and!.
  - destruct (getState pd Property_providedInterfaces) as [| | |interfaces|] eqn:Hifaces;
      try done.
    case_bool_decide as Hmarker; intros [= <- <-].
    + split_and!; try done; eauto. split; eauto.
    + rewrite setState_id, setState_pluginId, setState_nativeId.
      split_and!; try done.
      * by apply setState_is_Some.
      * intros _. rewrite getState_setState_eq by done. eexists. split; [done|].
        apply list_elem_of_fmap. exists ScryptedPlugin. split; [done|].
        apply elem_of_sortInterfaces, elem_of_strings. set_solver.
      * intros k Hk. by rewrite getState_setState_ne.
      * split; [done|]. intros Hm. destruct (Hm eq_refl) as (l & [= <-] & Hin). done.
Qed.

Lemma repairPluginId_spec pd :
  is_Some (pd_state pd) →
  let r := repairPluginId pd in
  pd_id r.1 = pd_id pd ∧ pd_pluginId r.1 = pd_pluginId pd ∧ pd_nativeId r.1 = pd_nativeId pd
  ∧ is_Some (pd_state r.1)
  ∧ (truthy_string (pd_pluginId pd) = true →
     truthy (getState r.1 Property_pluginId) = true)
  ∧ (∀ k, k ≠ Property_pluginId → getState r.1 k = getState pd k)
  ∧ (r.2 = false → r.1 = pd)
  ∧ (r.2 = false ↔ truthy (getState pd Property_pluginId) = true).
Proof.
  intros Hst. unfold repairPluginId. cbv zeta.
  destruct (truthy (getState pd Property_pluginId)) eqn:Ht; cbn [fst snd].
  - by split_and!.
  - rewrite setState_id, setState_pluginId, setState_nativeId.
    split_and!; try done.
    + by apply setState_is_Some.
    + intros Hp. by rewrite getState_setState_eq.
    + intros k Hk. by rewrite getState_setState_ne.
Qed.

Lemma repairNativeId_spec pd :
  is_Some (pd_state pd) →
  let r := repairNativeId pd in
  pd_id r.1 = pd_id pd ∧ pd_pluginId r.1 = pd_pluginId pd ∧ pd_nativeId r.1 = pd_nativeId pd
  ∧ is_Some (pd_state r.1)
  ∧ mirrorsNativeId r.1
  ∧ (∀ k, k ≠ Property_nativeId → getState r.1 k = getState pd k)
  ∧ (r.2 = false → r.1 = pd)
  ∧ (r.2 = false ↔ mirrorsNativeId pd).
Proof.
  intros Hst. unfold repairNativeId, mirrorsNativeId. cbv zeta.
  destruct (decide (getState pd Property_nativeId ≠ js_of_nativeId (pd_nativeId pd)))
    as [Hne|He]; cbn [fst snd].
  - rewrite setState_id, setState_pluginId, setState_nativeId.
    split_and!; try done.
    + by apply setState_is_Some.
    + by apply getState_setState_eq.
    + intros k Hk. by rewrite getState_setState_ne.
  - assert (getState pd Property_nativeId = js_of_nativeId (pd_nativeId pd)) as Heq
      by (by destruct (decide (getState pd Property_nativeId
                               = js_of_nativeId (pd_nativeId pd)))).
    by split_and!.
Qed.

Lemma repairDevice_spec pd :
  is_Some (pd_state pd) →
  (truthy_nativeId (pd_nativeId pd) = false →
   ∃ interfaces, getState pd Property_providedInterfaces = JArray interfaces) →
  ∃ pd' dirty,
    repairDevice pd = Some (pd', dirty)
    ∧ pd_id pd' = pd_id pd ∧ pd_pluginId pd' = pd_pluginId pd
    ∧ pd_nativeId pd' = pd_nativeId pd ∧ is_Some (pd_state pd')
    ∧ (None ∉ as_array (getState pd' Property_mixins))
    ∧ (truthy_nativeId (pd_nativeId pd) = false →
       ∃ interfaces, getState pd' Property_providedInterfaces = JArray interfaces
                     ∧ Some ScryptedPlugin ∈ interfaces)
    ∧ (truthy_string (pd_pluginId pd) = true →
       truthy (getState pd' Property_pluginId) = true)
    ∧ mirrorsNativeId pd'
    ∧ (∀ k, k ∉ [Property_mixins; Property_providedInterfaces; Property_pluginId;
                Property_nativeId] → getState pd' k = getState pd k)
    ∧ (dirty = false → pd' = pd)
    ∧ (dirty = false ↔ stateClean pd).
Proof.
  intros Hst Htyped. unfold repairDevice.
  destruct (repairMixins_spec pd Hst) as (I1 & P1 & N1 & S1 & M1 & K1 & E1 & D1).
  destruct (repairMixins pd) as [pd1 d1]. cbn [fst snd] in *.
  destruct (repairMarker_spec pd1 S1) as (pd2 & d2 & Hrun & _).
  { rewrite N1, K1 by done. exact Htyped. }
  rewrite Hrun. csimpl.
  destruct (repairMarker_more pd1 pd2 d2 S1 Hrun) as (I2 & P2 & N2 & S2 & M2 & K2 & E2 & D2).
  destruct (repairPluginId_spec pd2 S2) as (I3 & P3 & N3 & S3 & M3 & K3 & E3 & D3).
  destruct (repairPluginId pd2) as [pd3 d3]. cbn [fst snd] in *.
  destruct (repairNativeId_spec pd3 S3) as (I4 & P4 & N4 & S4 & M4 & K4 & E4 & D4).
  destruct (repairNativeId pd3) as [pd4 d4]. cbn [fst snd] in *.
  exists pd4, (d1 || d2 || d3 || d4). split_and!; try congruence.
  - by rewrite K4, K3, K2.
  - intros Hf. rewrite K4, K3 by done. apply M2. by rewrite N1.
  - intros Hp. rewrite K4 by done. apply M3. by rewrite P2, P1.
  - intros k Hk. rewrite !not_elem_of_cons in Hk. destruct Hk as (? & ? & ? & ? & _).
    by rewrite K4, K3, K2, K1.
  - intros Hd. apply orb_false_iff in Hd as [Hd Hd4].
    apply orb_false_iff in Hd as [Hd Hd3]. apply orb_false_iff in Hd as [Hd1 Hd2].
    rewrite E4, E3, E2, E1; done.
  - unfold stateClean. split.
    + intros Hd. apply orb_false_iff in Hd as [Hd Hd4].
      apply orb_false_iff in Hd as [Hd Hd3]. apply orb_false_iff in Hd as [Hd1 Hd2].
      pose proof (E1 Hd1) as ->. pose proof (E2 Hd2) as ->. pose proof (E3 Hd3) as ->.
      split_and!; [by apply D1|by apply D2|by apply D3|by apply D4].
    + intros (C1 & C2 & C3 & C4).
      assert (d1 = false) as -> by (by apply D1). pose proof (E1 eq_refl) as ->.
      assert (d2 = false) as -> by (by apply D2). pose proof (E2 eq_refl) as ->.
      assert (d3 = false) as -> by (by apply D3). pose proof (E3 eq_refl) as ->.
      assert (d4 = false) as -> by (by apply D4). done.
Qed.

(** X12. The repair that [start] makes on a persisted record is made once:
    a record comes out of it dirty exactly when one of its four tests finds
    something to repair, a record that needs no repair is entered in the
    table as it is and is not written back, and the repaired record of a
    plugin with a non-empty id needs no repair, so that loading it again
    writes nothing. *)
Theorem start_repair_is_idempotent (rt : ScryptedRuntime) (pd : PluginDevice) :
  is_Some (pd_state pd) →
  (truthy_nativeId (pd_nativeId pd) = false →
   ∃ interfaces, getState pd Property_providedInterfaces = JArray interfaces) →
  ∃ pd' dirty,
    repairDevice pd = Some (pd', dirty)
    ∧ loadDevice rt pd
      = Some (let rt1 := set_pluginDevices (storeDevice pd' (pluginDevices rt)) rt in
              if dirty then datastore_upsert pd' rt1 else rt1)
    ∧ (dirty = false ↔ stateClean pd)
    ∧ (dirty = false → pd' = pd)
    ∧ (truthy_string (pd_pluginId pd) = true →
       stateClean pd'
       ∧ ∀ rt2, loadDevice rt2 pd'
                = Some (set_pluginDevices (storeDevice pd' (pluginDevices rt2)) rt2)).
Proof.
  intros Hst Htyped.
  destruct (repairDevice_spec pd Hst Htyped)
    as (pd' & dirty & Hrun & I & P & N & S & M & Hm & Hp & Hn & _ & E & D).
  exists pd', dirty. split_and!; try done.
  - rewrite loadDevice_repairDevice. destruct Hst as [st ->]. by rewrite Hrun.
  - intros Hplug.
    assert (stateClean pd') as Hclean.
    { split_and!; [done| |by apply Hp|done]. rewrite N. exact Hm. }
    split; [done|]. intros rt2.
    destruct (repairDevice_spec pd' S) as (pd2 & d2 & Hrun2 & _ & _ & _ & _ & _ & _ & _ & _
                                           & _ & E2 & D2).
    { intros Hf. rewrite N in Hf. destruct (Hm Hf) as (l & Hl & _). eauto. }
    apply D2 in Hclean as ->. rewrite (E2 eq_refl) in Hrun2.
    rewrite loadDevice_repairDevice. destruct S as [st ->]. by rewrite Hrun2.
Qed.

(** X12 at a root device persisted without marker, with a [null] among its
    mixins. *)
Lemma start_repair_is_idempotent_witness :
  ∃ pd', repairDevice
           {| pd_id := "1"; pd_pluginId := "p"; pd_nativeId := NidUndefined;
              pd_stateVersion := 2;
              pd_state := Some (<[Property_mixins := JArray [None; Some "m"]]>
                                (<[Property_providedInterfaces := js_of_strings ["OnOff"]]>
                                   ∅)) |} = Some (pd', true)
         ∧ stateClean pd'.
Proof.
  destruct (start_repair_is_idempotent emptyRuntime
              {| pd_id := "1"; pd_pluginId := "p"; pd_nativeId := NidUndefined;
                 pd_stateVersion := 2;
                 pd_state := Some (<[Property_mixins := JArray [None; Some "m"]]>
                                   (<[Property_providedInterfaces := js_of_strings ["OnOff"]]>
                                      ∅)) |})
    as (pd' & dirty & Hrun & _ & _ & _ & Hclean).
  - simpl. eauto.
  - intros _. eexists. vm_compute. reflexivity.
  - exists pd'. split; [|by apply Hclean].
    rewrite Hrun. f_equal. f_equal.
    pose proof Hrun as Hd. vm_compute in Hd. by injection Hd as _ <-.
Defined.

Lemma storeDevice_new_id pd T :
  pd_id pd ∉ pd_id <$> T → pd_id <$> storeDevice pd T ≡ₚ pd_id pd :: (pd_id <$> T).
Proof.
  induction T as [|x T IH]; csimpl; [done|].
  rewrite not_elem_of_cons. intros [Hne Hnot].
  rewrite decide_False by done.
  destruct (keyBefore _ _ && bool_decide _); csimpl; [done|].
  rewrite IH by done. apply Permutation_swap.
Qed.

Lemma storeDevice_ids_elem pd T x :
  x ∈ pd_id <$> storeDevice pd T ↔ x = pd_id pd ∨ x ∈ pd_id <$> T.
Proof.
  induction T as [|y T IH]; csimpl.
  - rewrite list_elem_of_singleton. split; [by left|]. intros [?|H]; [done|].
    by apply elem_of_nil in H.
  - case_decide as Hy; csimpl; rewrite ?elem_of_cons.
    + rewrite Hy. tauto.
    + destruct (keyBefore _ _ && bool_decide _); csimpl; rewrite !elem_of_cons.
      * tauto.
      * rewrite IH. tauto.
Qed.

Lemma deleteDevice_ids_elem id T x :
  x ∈ pd_id <$> deleteDevice id T ↔ x ≠ id ∧ x ∈ pd_id <$> T.
Proof. apply deleteDevice_ids. Qed.

Lemma loadDevices_table l : ∀ rt rt',
  loadDevices l rt = Some rt' →
  (∀ pd', pd' ∈ pluginDevices rt' →
     pd' ∈ pluginDevices rt
     ∨ ∃ pd dirty, pd ∈ l ∧ is_Some (pd_state pd) ∧ repairDevice pd = Some (pd', dirty))
  ∧ (NoDup (pd_id <$> l) →
     (∀ pd, pd ∈ l → pd_id pd ∉ pd_id <$> pluginDevices rt) →
     pd_id <$> pluginDevices rt'
     ≡ₚ (pd_id <$> pluginDevices rt)
        ++ (pd_id <$> filter (λ pd, is_Some (pd_state pd)) l))
  ∧ (∀ x, (x ∉ pd_id <$> filter (λ pd, is_Some (pd_state pd)) l) →
          x ∈ pd_id <$> filter (λ pd, pd_state pd = None) l
          ∨ x ∉ pd_id <$> ds_devices (datastore rt) →
          x ∉ pd_id <$> ds_devices (datastore rt')).
Proof.
  induction l as [|pd l IH]; intros rt rt'; simpl.
  - intros [= <-]. split_and!; [by left|by rewrite app_nil_r|].
    intros x _ [Hx|Hx]; [by apply elem_of_nil in Hx|done].
  - rewrite loadDevice_repairDevice.
    destruct (pd_state pd) as [st|] eqn:Hst.
    + destruct (repairDevice pd) as [[pd1 dirty]|] eqn:Hrep; csimpl; [|done].
      set (rt1 := if dirty then _ else _).
      assert (pluginDevices rt1 = storeDevice pd1 (pluginDevices rt)) as Htab
        by (subst rt1; by destruct dirty).
      assert (∀ x, x ∈ pd_id <$> ds_devices (datastore rt1) →
                   x = pd_id pd1 ∨ x ∈ pd_id <$> ds_devices (datastore rt)) as Hds.
      { intros x. subst rt1. destruct dirty; simpl; [|by right].
        by rewrite storeDevice_ids_elem. }
      assert (pd_id pd1 = pd_id pd) as Hid.
      { unfold repairDevice in Hrep.
        destruct (repairMixins_keeps pd) as (I1 & _).
        destruct (repairMixins pd) as [p1 d1]. cbn [fst] in *.
        destruct (repairMarker p1) as [[p2 d2]|] eqn:Hm; csimpl in Hrep; [|done].
        assert (pd_id p2 = pd_id p1) as I2.
        { unfold repairMarker in Hm. destruct (truthy_nativeId (pd_nativeId p1));
            [by injection Hm as <- <-|].
          destruct (getState p1 Property_providedInterfaces); try done.
          case_bool_decide; injection Hm as <- <-; [done|by rewrite setState_id]. }
        destruct (repairPluginId_keeps p2) as (I3 & _).
        destruct (repairPluginId p2) as [p3 d3]. cbn [fst] in *.
        destruct (repairNativeId_keeps p3) as (I4 & _).
        destruct (repairNativeId p3) as [p4 d4]. cbn [fst] in *.
        injection Hrep as <- _. congruence. }
      intros Hl. destruct (IH rt1 rt' Hl) as (Hfrom & Hids & Hstore).
      rewrite filter_cons_True by (rewrite Hst; eauto).
      rewrite filter_cons_False by (by rewrite Hst).
      split_and!.
      * intros pd' Hpd'. destruct (Hfrom pd' Hpd') as [Hin|(pd0 & d0 & Hin & Hs0 & Hr0)].
        -- rewrite Htab in Hin. apply elem_of_storeDevice in Hin as [->|Hin]; [|by left].
           right. exists pd, dirty. split_and!; [apply elem_of_cons; by left|by eauto|done].
        -- right. exists pd0, d0. split_and!; [apply elem_of_cons; by right|done..].
      * csimpl. intros Hnd Hfresh. apply NoDup_cons in Hnd as [Hnot Hnd].
        rewrite Hids; [| done |].
        -- rewrite Htab, storeDevice_new_id, Hid; [csimpl; apply Permutation_middle|].
           rewrite Hid. apply Hfresh. apply elem_of_cons. by left.
        -- intros pd0 Hpd0. rewrite Htab, storeDevice_ids_elem, Hid.
           intros [Heq|Hin].
           ++ apply Hnot. rewrite <-Heq. by apply list_elem_of_fmap_2.
           ++ revert Hin. apply Hfresh. apply elem_of_cons. by right.
      * csimpl. intros x Hnot Hx. rewrite not_elem_of_cons in Hnot.
        destruct Hnot as [Hne Hnot]. apply Hstore; [done|].
        destruct Hx as [Hx|Hx]; [by left|]. right. intros Hin.
        apply Hds in Hin as [Heq|Hin]; [|done]. congruence.
    + intros Hl. destruct (IH _ rt' Hl) as (Hfrom & Hids & Hstore).
      rewrite filter_cons_False by (rewrite Hst; by intros [? [=]]).
      rewrite filter_cons_True by done.
      split_and!.
      * intros pd' Hpd'. destruct (Hfrom pd' Hpd') as [Hin|(pd0 & d0 & Hin & Hs0 & Hr0)].
        -- by left.
        -- right. exists pd0, d0. split_and!; [apply elem_of_cons; by right|done..].
      * intros Hnd Hfresh. apply NoDup_cons in Hnd as [Hnot Hnd].
        apply Hids; [done|]. intros pd0 Hpd0. apply Hfresh. apply elem_of_cons. by right.
      * csimpl. intros x Hnot Hx. apply Hstore; [done|].
        destruct (decide (x = pd_id pd)) as [->|Hne].
        -- right. simpl. rewrite deleteDevice_ids_elem. by intros [? _].
        -- destruct Hx as [Hx|Hx].
           ++ apply elem_of_cons in Hx as [Hx|Hx]; [done|by left].
           ++ right. simpl. rewrite deleteDevice_ids_elem. by intros [_ ?].
Qed.

Lemma tableSound_storeDevice T pd :
  tableSound T →
  is_Some (pd_state pd) → mirrorsNativeId pd →
  (None ∉ as_array (getState pd Property_mixins)) →
  tableSound (storeDevice pd T).
Proof.
  intros HT ? ? ? x [->|Hx]%elem_of_storeDevice; [done|by apply HT].
Qed.

Lemma findPluginDevice_elem rt pluginId nid pd :
  findPluginDevice rt pluginId nid = Some pd →
  pd ∈ pluginDevices rt ∧ pd_pluginId pd = pluginId
  ∧ looseEq (pd_nativeId pd) (normalizeNativeId nid) = true.
Proof.
  unfold findPluginDevice.
  destruct (list_find _ (pluginDevices rt)) as [[i x]|] eqn:Hfind; [|done].
  intros [= <-]. apply list_find_Some in Hfind as (Hi & [Hp Hn] & _).
  split_and!; [by eapply list_elem_of_lookup_2|done..].
Qed.

Lemma clearMixinCycle_sound rt id :
  tableSound (pluginDevices rt) → tableSound (pluginDevices (clearMixinCycle rt id)).
Proof.
  intros HT. unfold clearMixinCycle. destruct (hasMixinCycle rt id); [|done].
  unfold findPluginDeviceById. cbn [pluginDevices emit].
  destruct (list_find _ (pluginDevices rt)) as [[i pd]|] eqn:Hfind; [|done].
  apply list_find_Some in Hfind as (Hi & _ & _). apply list_elem_of_lookup_2 in Hi.
  destruct (HT pd Hi) as (Hst & Hm & _).
  cbn [pluginDevices set_pluginDevices]. apply tableSound_storeDevice; [done|..].
  - by apply setState_is_Some.
  - unfold mirrorsNativeId. by rewrite getState_setState_ne, setState_nativeId.
  - rewrite getState_setState_eq by done. apply not_elem_of_nil.
Qed.

Lemma cycleGuard_sound rt :
  tableSound (pluginDevices rt) → tableSound (pluginDevices (cycleGuard rt)).
Proof.
  unfold cycleGuard. generalize (pd_id <$> pluginDevices rt). intros ids. revert rt.
  induction ids as [|id ids IH]; intros rt HT; simpl; [done|].
  apply IH. by apply clearMixinCycle_sound.
Qed.

Lemma launchPlugin_table rt plugin :
  (tableSound (pluginDevices rt) → tableSound (pluginDevices (launchPlugin rt plugin)))
  ∧ pd_id <$> pluginDevices (launchPlugin rt plugin) = pd_id <$> pluginDevices rt.
Proof.
  unfold launchPlugin.
  destruct (findPluginDevice rt (plugin_id plugin) NidUndefined) as [pd|] eqn:Hfind;
    [|done].
  apply findPluginDevice_elem in Hfind as (Hin & _).
  match goal with
  | |- context [runPlugin ?a plugin] =>
    destruct (runPlugin_spec a plugin) as (-> & _)
  end.
  cbn [pluginDevices set_pluginDevices]. split.
  - intros HT. destruct (HT pd Hin) as (Hst & Hm & Hno).
    apply tableSound_storeDevice; [done|..].
    + by apply setState_is_Some.
    + unfold mirrorsNativeId. by rewrite getState_setState_ne, setState_nativeId.
    + by rewrite getState_setState_ne.
  - apply storeDevice_ids. rewrite setState_id. by apply list_elem_of_fmap_2.
Qed.

Lemma foldl_launchPlugin_table l : ∀ rt,
  (tableSound (pluginDevices rt) → tableSound (pluginDevices (foldl launchPlugin rt l)))
  ∧ pd_id <$> pluginDevices (foldl launchPlugin rt l) = pd_id <$> pluginDevices rt
  ∧ datastore (foldl launchPlugin rt l) = datastore rt.
Proof.
  induction l as [|p l IH]; intros rt; simpl; [done|].
  destruct (IH (launchPlugin rt p)) as (HT & Hids & Hds).
  destruct (launchPlugin_table rt p) as (HT1 & Hids1).
  split_and!; [by auto|congruence|].
  rewrite Hds. unfold launchPlugin.
  destruct (findPluginDevice rt (plugin_id p) NidUndefined); [|done].
  match goal with
  | |- context [runPlugin ?a p] => by destruct (runPlugin_spec a p) as (_ & -> & _)
  end.
Qed.

(** X13. Started on an empty table, [start] enters the persisted records
    that have a state, each once, and no other: the ids of the table are
    those of the persisted records with a state, in whatever order the table
    is enumerated. A record without state is removed from the datastore and
    is not entered. Every record of the table then has a state, a [nativeId]
    property equal to its [nativeId] field, and no [null] among its mixins. *)
Theorem start_loads_records_with_state (rt : ScryptedRuntime) :
  pluginDevices rt = [] →
  NoDup (pd_id <$> ds_devices (datastore rt)) →
  storeWellTyped (ds_devices (datastore rt)) →
  ∃ rt',
    start rt = Some rt'
    ∧ pd_id <$> pluginDevices rt'
      ≡ₚ pd_id <$> filter (λ pd, is_Some (pd_state pd)) (ds_devices (datastore rt))
    ∧ (∀ pd, pd ∈ ds_devices (datastore rt) → pd_state pd = None →
         persisted rt' (pd_id pd) = None ∧ findPluginDeviceById rt' (pd_id pd) = None)
    ∧ tableSound (pluginDevices rt').
Proof.
  intros Hempty Hnd Htyped.
  destruct (loadDevices_spec (ds_devices (datastore rt)) rt Htyped) as (rt1 & Hload & _).
  destruct (loadDevices_table _ _ _ Hload) as (Hfrom & Hids & Hstore).
  destruct (cycleGuard_spec rt1) as (_ & _ & Hgids).
  destruct (cycleGuard_hosts rt1) as (_ & _ & _ & Hgds).
  destruct (foldl_launchPlugin_table (ds_plugins (datastore (cycleGuard rt1)))
              (cycleGuard rt1)) as (HT & Hlids & Hlds).
  exists (foldl launchPlugin (cycleGuard rt1) (ds_plugins (datastore (cycleGuard rt1)))).
  assert (pd_id <$> pluginDevices rt1
          ≡ₚ pd_id <$> filter (λ pd, is_Some (pd_state pd)) (ds_devices (datastore rt)))
    as Hids1.
  { rewrite Hids; [by rewrite Hempty|done|]. intros pd _. rewrite Hempty.
    apply not_elem_of_nil. }
  split_and!.
  - unfold start. by rewrite Hload.
  - by rewrite Hlids, Hgids, Hids1.
  - intros pd Hpd Hnone.
    assert (pd_id pd ∉ pd_id <$> filter (λ pd, is_Some (pd_state pd))
                                   (ds_devices (datastore rt))) as Hnot.
    { intros (pd0 & Heq & [Hs0 Hin0]%list_elem_of_filter)%list_elem_of_fmap.
      assert (pd0 = pd) as ->.
      { apply list_elem_of_lookup in Hin0 as [i Hi]. apply list_elem_of_lookup in Hpd as [j Hj].
        assert (i = j) as ->; [|congruence].
        apply (NoDup_lookup _ i j (pd_id pd) Hnd); rewrite list_lookup_fmap.
        - rewrite Hi. csimpl. congruence.
        - by rewrite Hj. }
      rewrite Hnone in Hs0. by destruct Hs0. }
    split.
    + unfold persisted. rewrite Hlds, Hgds.
      destruct (list_find _ (ds_devices (datastore rt1))) as [[i x]|] eqn:Hfind; [|done].
      apply list_find_Some in Hfind as (Hi & Hx & _).
      destruct (Hstore (pd_id pd) Hnot) as [].
      * left. apply list_elem_of_fmap. exists pd. split; [done|].
        apply list_elem_of_filter. by split.
      * rewrite <-Hx. apply list_elem_of_fmap_2. by eapply list_elem_of_lookup_2.
    + unfold findPluginDeviceById.
      destruct (list_find _ (pluginDevices _)) as [[i x]|] eqn:Hfind; [|done].
      apply list_find_Some in Hfind as (Hi & Hx & _).
      destruct Hnot. rewrite <-Hids1, <-Hgids, <-Hlids, <-Hx.
      apply list_elem_of_fmap_2. by eapply list_elem_of_lookup_2.
  - apply HT, cycleGuard_sound. intros pd' Hpd'.
    destruct (Hfrom pd' Hpd') as [Hin|(pd & dirty & Hin & Hst & Hrep)];
      [by rewrite Hempty in Hin; apply elem_of_nil in Hin|].
    destruct (repairDevice_spec pd Hst) as (pd2 & d2 & Hrep2 & _ & _ & _ & S & M & _ & _
                                            & Hm & _).
    { intros Hf. by apply Htyped. }
    rewrite Hrep in Hrep2. injection Hrep2 as <- <-. done.
Qed.

(** X13 at [unmarkedStore]. *)
Lemma start_loads_records_with_state_witness :
  ∃ rt', start unmarkedStore = Some rt'
         ∧ pd_id <$> pluginDevices rt' ≡ₚ ["1"; "2"]
         ∧ tableSound (pluginDevices rt').
Proof.
  destruct (start_loads_records_with_state unmarkedStore)
    as (rt' & Hstart & Hids & _ & Hsound).
  - reflexivity.
  - apply (bool_decide_unpack _). vm_compute. exact I.
  - exact unmarkedStore_wellTyped.
  - exists rt'. split; [exact Hstart|]. split; [exact Hids|exact Hsound].
Defined.

(** The table is enumerated by key and not in the order of the store:
    started on [numberedStore], which iterates [10] before [9], [start] has
    [9] before [10] in the table, and the cycle check clears the mixins of
    [9], which it meets first. *)
Example start_enumerates_by_key :
  (λ rt, (pd_id <$> pluginDevices rt, getMixins rt "9", getMixins rt "10"))
    <$> start numberedStore
  = Some (["9"; "10"], [], ["9"]).
Proof. vm_compute. reflexivity. Qed.

(** ** What the supervisor and [upsertDevice] keep of the table *)

Lemma step_pluginDevices rt a rt' :
  step rt a = Some rt' →
  pluginDevices rt' = pluginDevices rt ∧ devices_of_store rt' = devices_of_store rt.
Proof.
  unfold devices_of_store.
  destruct a as [h|h|h|plugin|pluginId|pluginId|ms]; cbn -[runPlugin killPlugin].
  - unfold workerExit. destruct (hosts rt !! h) as [host|]; csimpl; [|done].
    destruct (host_exitListener host); [|done].
    by destruct (host_killed host); intros [= <-].
  - destruct (list_find _ (timers rt)) as [[i t]|]; [|done].
    destruct (take_out t (timers rt)) as [rest|]; csimpl; [|done].
    intros [= <-]. unfold restartTimerFired. cbn [hosts set_timers].
    destruct (hosts rt !! h) as [host|]; [|done]. cbn [plugins set_timers].
    by case_decide.
  - destruct (take_out h (lookups rt)) as [rest|]; csimpl; [|done].
    intros [= <-]. unfold restartLookupDone. cbn [hosts set_lookups].
    destruct (hosts rt !! h) as [host|]; [|done].
    unfold datastore_tryGet. cbn [datastore set_lookups].
    destruct (list_find _ (ds_plugins (datastore rt))) as [[i plugin]|];
      cbn -[runPlugin]; [|done].
    match goal with
    | |- context [runPlugin ?a plugin] =>
      destruct (runPlugin_spec a plugin) as (E1 & E2 & _)
    end.
    split; [exact E1|f_equal; exact E2].
  - intros [= <-]. destruct (runPlugin_spec rt plugin) as (E1 & E2 & _).
    split; [exact E1|f_equal; exact E2].
  - intros [= <-]. destruct (killPlugin_spec rt pluginId) as (_ & E1 & E2 & _).
    split; [exact E1|f_equal; exact E2].
  - by intros [= <-].
  - by intros [= <-].
Qed.

(** X14. The device records are touched by [upsertDevice] and
    [removeDevice] only: whatever the supervisor does (worker exits, restart
    timers and lookups, [runPlugin], [killPlugin]) leaves the table and the
    persisted records as they are. [upsertDevice] and [removeDevice] keep
    what [start] establishes: every record of the table has a state, a
    [nativeId] property equal to its [nativeId] field, and no [null] among
    its mixins. *)
Theorem records_stay_sound :
  (∀ acts rt rt',
     run rt acts = Some rt' →
     pluginDevices rt' = pluginDevices rt ∧ devices_of_store rt' = devices_of_store rt)
  ∧ (∀ (I : InferDefaults) rt pluginId device,
       tableSound (pluginDevices rt) →
       tableSound (pluginDevices (upsertDevice rt pluginId device).1))
  ∧ (∀ fuel rt device rt',
       tableSound (pluginDevices rt) → removeDevice fuel rt device = Some rt' →
       tableSound (pluginDevices rt')).
Proof.
  split_and!.
  - induction acts as [|a acts IH]; intros rt rt'; simpl; [by intros [= <-]|].
    destruct (step rt a) as [rt1|] eqn:Hstep; csimpl; [|done].
    intros Hrun. destruct (IH _ _ Hrun) as [-> ->]. by apply step_pluginDevices in Hstep.
  - intros I rt pluginId device HT.
    destruct (upsertDevice_spec rt pluginId device)
      as (_ & _ & Hn & _ & _ & _ & _ & Htab & _).
    destruct (upsertDevice_written rt pluginId device) as (Hnat & Hplug & _ & Hk & _).
    rewrite Htab. apply tableSound_storeDevice; [done|..].
    + destruct (pd_state (pluginDevicePromise (upsertDevice rt pluginId device).2))
        eqn:Hst; [by eauto|].
      unfold getState in Hplug. by rewrite Hst in Hplug.
    + unfold mirrorsNativeId. by rewrite Hnat, Hn.
    + rewrite Hk by (apply (bool_decide_unpack _); by vm_compute).
      unfold upsertBase.
      destruct (findPluginDevice rt pluginId _) as [pd0|] eqn:Hfind.
      * apply findPluginDevice_elem in Hfind as (Hin & _). by apply HT.
      * unfold getState. simpl. apply not_elem_of_nil.
  - intros fuel rt device rt' HT Hrun pd Hpd. apply HT.
    by apply (removeDevice_subset (pluginDevices rt) fuel rt device rt').
Qed.

(** X14 at a restart of the plugin of [familyRuntime] by hand. *)
Lemma records_stay_sound_witness :
  ∃ rt', run familyRuntime
           [ActWorkerExit 0;
            ActRunPlugin {| plugin_id := "p"; packageJson_name := "p";
                            packageJson_version := "1.0.0" |}] = Some rt'
         ∧ pluginDevices rt' = familyDevices.
Proof.
  destruct records_stay_sound as (Hrun & _).
  match goal with
  | |- ∃ rt', ?r = Some rt' ∧ _ =>
    assert (is_Some r) as [rt' Hrt'] by (apply (bool_decide_unpack _); vm_compute; exact I)
  end.
  exists rt'. split; [exact Hrt'|]. by destruct (Hrun _ _ _ Hrt') as [-> _].
Defined.

(** ** The plugins that [start] launches *)

Lemma storeDevice_self pd T :
  NoDup (pd_id <$> T) → pd ∈ T → storeDevice pd T = T.
Proof.
  induction T as [|x T IH]; csimpl; [by intros _ ?%elem_of_nil|].
  intros [Hnot Hnd]%NoDup_cons [->|Hin]%elem_of_cons.
  - by rewrite decide_True.
  - rewrite decide_False.
    + rewrite (bool_decide_false (pd_id pd ∉ pd_id <$> T))
        by (intros Hno; by apply Hno, list_elem_of_fmap_2).
      rewrite andb_false_r. by rewrite IH.
    + intros Heq. apply Hnot. rewrite Heq. by apply list_elem_of_fmap_2.
Qed.

Lemma launchPlugin_find rt p q nid :
  NoDup (pd_id <$> pluginDevices rt) →
  pd_id <$> findPluginDevice (launchPlugin rt p) q nid
  = pd_id <$> findPluginDevice rt q nid.
Proof.
  intros Hnd. unfold launchPlugin.
  destruct (findPluginDevice rt (plugin_id p) NidUndefined) as [pd|] eqn:Hfind; [|done].
  apply findPluginDevice_elem in Hfind as (Hin & _).
  match goal with
  | |- context [runPlugin ?a p] => destruct (runPlugin_spec a p) as (Htab & _)
  end.
  unfold findPluginDevice. rewrite Htab. cbn [pluginDevices set_pluginDevices].
  rewrite <-(storeDevice_self pd (pluginDevices rt) Hnd Hin) at 2.
  apply list_find_storeDevice_alike; [by rewrite setState_id|].
  by rewrite setState_pluginId, setState_nativeId.
Qed.

Lemma launchPlugin_hasRootDevice rt p q :
  NoDup (pd_id <$> pluginDevices rt) →
  hasRootDevice (launchPlugin rt p) q ↔ hasRootDevice rt q.
Proof.
  intros Hnd. unfold hasRootDevice.
  pose proof (launchPlugin_find rt p q NidUndefined Hnd) as Heq.
  destruct (findPluginDevice (launchPlugin rt p) q NidUndefined),
    (findPluginDevice rt q NidUndefined); csimpl in Heq; try done.
  all: split; eauto.
Qed.

Lemma runPlugin_running rt plugin :
  hostsConsistent rt →
  pluginRunning (runPlugin rt plugin).1 (plugin_id plugin)
  ∧ ∀ q, q ≠ plugin_id plugin →
         (pluginRunning rt q → pluginRunning (runPlugin rt plugin).1 q)
         ∧ plugins (runPlugin rt plugin).1 !! q = plugins rt !! q.
Proof.
  intros [Hlive Hown].
  destruct (runPlugin_spec rt plugin) as (_ & _ & _ & _ & _ & _ & Hpl & _ & Hnew).
  pose proof (runPlugin_hosts rt plugin) as Hhosts.
  split.
  - exists (length (hosts rt)). eexists. rewrite Hpl, lookup_insert_eq. by split_and!.
  - intros q Hq. rewrite Hpl, lookup_insert_ne by done. split; [|done].
    intros (h & host & Hreg & Hh & Hk & Hp). exists h, host.
    rewrite Hpl, lookup_insert_ne by done. split_and!; try done.
    rewrite Hhosts. apply lookup_app_l_Some.
    rewrite killPlugin_other_hosts; [done|]. intros Hreg'.
    destruct (Hown _ _ Hreg') as (host' & Hh' & Hp'). congruence.
Qed.

Lemma launchPlugin_running rt p :
  hostsConsistent rt →
  (hasRootDevice rt (plugin_id p) → pluginRunning (launchPlugin rt p) (plugin_id p))
  ∧ (¬ hasRootDevice rt (plugin_id p) →
     launchPlugin rt p = emit [EvConsoleError "error starting plugin"] rt)
  ∧ (∀ q, q ≠ plugin_id p →
       (pluginRunning rt q → pluginRunning (launchPlugin rt p) q)
       ∧ plugins (launchPlugin rt p) !! q = plugins rt !! q)
  ∧ (∀ e, e ∈ trace rt → e ∈ trace (launchPlugin rt p)).
Proof.
  intros Hinv. unfold launchPlugin, hasRootDevice.
  destruct (findPluginDevice rt (plugin_id p) NidUndefined) as [pd|] eqn:Hfind.
  - match goal with
    | |- context [runPlugin ?a p] =>
      assert (hostsConsistent a) as Ha by (by apply (hostsConsistent_ext rt));
      destruct (runPlugin_running a p Ha) as (Hrun & Hother);
      destruct (runPlugin_trace a p) as (released & Htr & _)
    end.
    split_and!; try done.
    + intros Hno. destruct Hno. eauto.
    + intros e He. rewrite Htr. apply elem_of_app. left.
      match goal with
      | |- e ∈ trace (killPlugin ?a ?b) =>
        destruct (killPlugin_spec a b) as (_ & _ & _ & _ & _ & Hk)
      end.
      cbn [plugins set_pluginDevices] in Hk.
      destruct (plugins rt !! plugin_id p).
      * rewrite Hk. apply elem_of_app. by left.
      * by rewrite Hk.
  - split_and!; try done; try (by intros [y [=]]).
    intros e He. simpl. apply elem_of_app. by left.
Qed.

Lemma foldl_launchPlugin_running l : ∀ rt,
  hostsConsistent rt → NoDup (pd_id <$> pluginDevices rt) →
  let rt' := foldl launchPlugin rt l in
  (∀ q, hasRootDevice rt' q ↔ hasRootDevice rt q)
  ∧ (∀ q, pluginRunning rt q ∨ (q ∈ plugin_id <$> l ∧ hasRootDevice rt q) →
          pluginRunning rt' q)
  ∧ (∀ q, ¬ hasRootDevice rt q → plugins rt' !! q = plugins rt !! q)
  ∧ (∀ q, q ∈ plugin_id <$> l → ¬ hasRootDevice rt q →
          EvConsoleError "error starting plugin" ∈ trace rt')
  ∧ (∀ e, e ∈ trace rt → e ∈ trace rt').
Proof.
  induction l as [|p l IH]; intros rt Hinv Hnd; simpl.
  - split_and!; try done.
    + intros q [?|[Hq _]]; [done|]. by apply elem_of_nil in Hq.
    + intros q Hq. by apply elem_of_nil in Hq.
  - destruct (launchPlugin_running rt p Hinv) as (Hrun & Hnone & Hother & Hmono).
    destruct (launchPlugin_spec rt p Hnd) as (Hnd1 & _).
    assert (hostsConsistent (launchPlugin rt p)) as Hinv1
      by (by apply launchPlugin_hostsConsistent).
    destruct (IH (launchPlugin rt p) Hinv1 Hnd1) as (Hroot & Hkeep & Hreg & Herr & Hmono').
    assert (∀ q, hasRootDevice (launchPlugin rt p) q ↔ hasRootDevice rt q) as Hroot1
      by (intros q; by apply launchPlugin_hasRootDevice).
    split_and!.
    + intros q. by rewrite Hroot, Hroot1.
    + intros q Hq. apply Hkeep.
      destruct (decide (q = plugin_id p)) as [->|Hne].
      * destruct Hq as [Hq|[_ Hq]]; [|left; by apply Hrun].
        destruct (decide (hasRootDevice rt (plugin_id p))) as [Hr|Hr];
          [left; by apply Hrun|].
        left. rewrite (Hnone Hr). destruct Hq as (h & host & ? & ? & ? & ?).
        by exists h, host.
      * destruct Hq as [Hq|[Hq Hr]]; [left; by apply Hother|].
        right. rewrite Hroot1. split; [|done].
        csimpl in Hq. apply elem_of_cons in Hq as [?|?]; done.
    + intros q Hq. rewrite Hreg by (by rewrite Hroot1).
      destruct (decide (q = plugin_id p)) as [->|Hne]; [by rewrite (Hnone Hq)|].
      by apply Hother.
    + intros q Hq Hr. csimpl in Hq. apply elem_of_cons in Hq as [->|Hq].
      * apply Hmono'. rewrite (Hnone Hr). simpl. apply elem_of_app. right.
        by apply list_elem_of_singleton.
      * apply (Herr q Hq). by rewrite Hroot1.
    + intros e He. by apply Hmono', Hmono.
Qed.

(** X15. At the end of [start], every persisted plugin that has a root
    device in the table has a registered host that was not killed; for a
    persisted plugin without root device the error is logged, no host is
    started and the plugins after it are still launched. *)
Theorem start_launches_plugins (rt : ScryptedRuntime) :
  hostsConsistent rt →
  NoDup (pd_id <$> pluginDevices rt) →
  storeWellTyped (ds_devices (datastore rt)) →
  ∃ rt',
    start rt = Some rt'
    ∧ ∀ plugin, plugin ∈ ds_plugins (datastore rt) →
        (hasRootDevice rt' (plugin_id plugin) → pluginRunning rt' (plugin_id plugin))
        ∧ (¬ hasRootDevice rt' (plugin_id plugin) →
           plugins rt' !! plugin_id plugin = plugins rt !! plugin_id plugin
           ∧ EvConsoleError "error starting plugin" ∈ trace rt').
Proof.
  intros Hinv Hnd Htyped.
  destruct (loadDevices_spec (ds_devices (datastore rt)) rt Htyped)
    as (rt1 & Hload & _ & Hnd1).
  destruct (loadDevices_hosts _ _ _ Hload) as (L1 & L2 & _ & _ & _ & L6).
  destruct (cycleGuard_spec rt1) as (_ & _ & Hgids).
  destruct (cycleGuard_hosts rt1) as (C1 & C2 & _ & C4).
  assert (hostsConsistent (cycleGuard rt1)) as HinvG
    by (apply (hostsConsistent_ext rt); [congruence..|done]).
  assert (NoDup (pd_id <$> pluginDevices (cycleGuard rt1))) as HndG
    by (rewrite Hgids; by apply Hnd1).
  destruct (foldl_launchPlugin_running (ds_plugins (datastore (cycleGuard rt1)))
              (cycleGuard rt1) HinvG HndG) as (Hroot & Hrun & Hreg & Herr & _).
  eexists. split; [unfold start; by rewrite Hload|].
  intros plugin Hin.
  assert (plugin_id plugin ∈ plugin_id <$> ds_plugins (datastore (cycleGuard rt1))) as Hin'.
  { rewrite C4, L6. by apply list_elem_of_fmap_2. }
  split.
  - intros Hr. apply Hrun. right. split; [done|]. by apply Hroot.
  - intros Hr. rewrite Hroot in Hr. split.
    + rewrite Hreg by done. by rewrite C1, L1.
    + by apply (Herr (plugin_id plugin)).
Qed.

(** X15 at [unmarkedStore], whose plugin [p] has a root device. *)
Lemma start_launches_plugins_witness :
  ∃ rt', start unmarkedStore = Some rt' ∧ pluginRunning rt' "p".
Proof.
  destruct (start_launches_plugins unmarkedStore) as (rt' & Hstart & Hrun).
  - by apply hostsConsistent_fresh.
  - apply NoDup_nil_2.
  - exact unmarkedStore_wellTyped.
  - exists rt'. split; [exact Hstart|].
    apply (Hrun {| plugin_id := "p"; packageJson_name := "p";
                   packageJson_version := "1.0.0" |}).
    + simpl. apply elem_of_cons. by left.
    + assert ((λ r, bool_decide (is_Some (findPluginDevice r "p" NidUndefined)))
                <$> start unmarkedStore = Some true) as Hb by (vm_compute; reflexivity).
      rewrite Hstart in Hb. injection Hb as Hb. by apply (bool_decide_eq_true_1 _).
Defined.

(** * Properties of the HTTP side *)

(** ** Strings *)

Example comma_and_hash : String comma (String hash EmptyString) = ",#".
Proof. reflexivity. Qed.

Lemma split_nonempty sep s : split sep s ≠ [].
Proof.
  destruct s as [|c s]; simpl; [done|].
  destruct (Ascii.eqb c sep); [done|]. by destruct (split sep s).
Qed.

Lemma join_split sep s : join (String sep EmptyString) (split sep s) = s.
Proof.
  induction s as [|c s IH]; simpl; [done|].
  destruct (Ascii.eqb c sep) eqn:Hc.
  - apply Ascii.eqb_eq in Hc as ->.
    pose proof (split_nonempty sep s) as Hne.
    destruct (split sep s) as [|p ps]; [done|]. simpl in *. by rewrite IH.
  - pose proof (split_nonempty sep s) as Hne.
    destruct (split sep s) as [|p ps]; [done|].
    destruct ps as [|p' ps]; simpl in *; by rewrite <-IH.
Qed.

Lemma split_head sep h t :
  occurs sep h = false →
  split sep (h +:+ String sep t) = h :: split sep t.
Proof.
  induction h as [|c h IH]; simpl.
  - intros _. by rewrite Ascii.eqb_refl.
  - intros [Hc Hh]%orb_false_iff. rewrite Hc, IH by done. done.
Qed.

Lemma split_head_occurs sep s h parts :
  split sep s = h :: parts → occurs sep h = false.
Proof.
  revert h parts. induction s as [|c s IH]; intros h parts; simpl.
  - by intros [= <- <-].
  - destruct (Ascii.eqb c sep) eqn:Hc; [by intros [= <- <-]|].
    pose proof (split_nonempty sep s) as Hne.
    destruct (split sep s) as [|p ps] eqn:Hs; [done|].
    intros [= <- <-]. simpl. rewrite Hc. simpl. by eapply IH.
Qed.

Lemma app_String c (p s : string) : String c p +:+ s = String c (p +:+ s).
Proof. reflexivity. Qed.

Lemma startsWith_substring_from s p :
  startsWith s p = true → s = p +:+ substring_from (String.length p) s.
Proof.
  unfold startsWith. revert s. induction p as [|c p IH]; intros s; [done|].
  destruct s as [|c' s]; simpl; [done|].
  destruct (Ascii.ascii_dec c c') as [->|]; [|done].
  intros Hp. rewrite app_String. f_equal. by apply IH.
Qed.

Lemma startsWith_app p s : startsWith (p +:+ s) p = true.
Proof.
  unfold startsWith. induction p as [|c p IH]; [by destruct s|].
  rewrite app_String. simpl. by destruct (Ascii.ascii_dec c c).
Qed.

Lemma substring_from_app p s : substring_from (String.length p) (p +:+ s) = s.
Proof. induction p as [|c p IH]; [done|]. by rewrite app_String. Qed.

Lemma split_no_sep sep s : occurs sep s = false → split sep s = [s].
Proof.
  induction s as [|c s IH]; simpl; [done|].
  intros [Hc Hs]%orb_false_iff. rewrite Hc, IH by done. done.
Qed.

Lemma split_join sep parts :
  parts ≠ [] → Forall (λ part, occurs sep part = false) parts →
  split sep (join (String sep EmptyString) parts) = parts.
Proof.
  induction parts as [|p parts IH]; [done|]. intros _ Hparts.
  apply Forall_cons in Hparts as [Hp Hparts].
  destruct parts as [|q parts]; [by apply split_no_sep|].
  change (join (String sep "") (p :: q :: parts))
    with (p +:+ String sep "" +:+ join (String sep "") (q :: parts)).
  rewrite app_String. change ("" +:+ ?s) with s.
  rewrite split_head by done. f_equal. by apply IH.
Qed.

Lemma truthy_string_ne s : truthy_string s = true ↔ s ≠ "".
Proof.
  unfold truthy_string. rewrite negb_true_iff.
  destruct (String.eqb_spec s ""); [by split|]. split; [done|]. by intros _.
Qed.

Lemma truthy_string_false s : truthy_string s = false ↔ s = "".
Proof.
  unfold truthy_string. rewrite negb_false_iff. apply String.eqb_eq.
Qed.

Lemma truthy_opt_Some v : truthy_opt v = true ↔ ∃ s, v = Some s ∧ s ≠ "".
Proof.
  destruct v as [s|]; simpl.
  - rewrite truthy_string_ne. split; [by exists s|]. by intros (? & [= <-] & ?).
  - split; [done|]. by intros (? & ? & ?).
Qed.

(** ** Access control headers *)

Lemma getAccessControlAllowOrigin_Some urlOrigin env cors headers o :
  getAccessControlAllowOrigin urlOrigin env cors headers = Some o
  ↔ o ≠ "" ∧ o ∈ configuredOrigins env cors ∧ requestOrigin urlOrigin headers o.
Proof.
  unfold getAccessControlAllowOrigin, configuredOrigins, requestOrigin.
  destruct (truthy_opt (hdr_origin headers)) eqn:Ho; simpl.
  - apply truthy_opt_Some in Ho as (o' & Ho & Hne). rewrite Ho. simpl.
    apply truthy_string_ne in Hne as Hne'. rewrite Hne'. simpl.
    case_bool_decide as Hin.
    + split.
      * intros [= <-]. split_and!; auto.
      * intros (_ & _ & [[= <-]|[? _]]); done.
    + split; [done|]. intros (_ & Hin' & [[= <-]|[? _]]); done.
  - destruct (truthy_opt (hdr_referer headers)) eqn:Hr; simpl.
    + apply truthy_opt_Some in Hr as (r & Hr & Hne). rewrite Hr. simpl.
      destruct (urlOrigin r) as [o'|] eqn:Hu; simpl.
      * destruct (truthy_string o') eqn:Ho'; simpl.
        -- case_bool_decide as Hin.
           ++ split.
              ** intros [= <-]. apply truthy_string_ne in Ho'. split_and!; [done..|].
                 right. split; [done|]. by exists r.
              ** intros (Hne' & _ & [Hx|(_ & r' & [= <-] & _ & Hx)]).
                 --- rewrite Hx in Ho. simpl in Ho.
                     apply truthy_string_false in Ho. done.
                 --- congruence.
           ++ split; [done|].
              intros (Hne' & Hin' & [Hx|(_ & r' & [= <-] & _ & Hx)]).
              ** rewrite Hx in Ho. simpl in Ho. apply truthy_string_false in Ho.
                 done.
              ** congruence.
        -- split; [done|]. apply truthy_string_false in Ho'. subst o'.
           intros (Hne' & _ & [Hx|(_ & r' & [= <-] & _ & Hx)]).
           ++ rewrite Hx in Ho. simpl in Ho. apply truthy_string_false in Ho. done.
           ++ congruence.
      * split; [done|]. intros (Hne' & _ & [Hx|(_ & r' & [= <-] & _ & Hx)]).
        -- rewrite Hx in Ho. simpl in Ho. apply truthy_string_false in Ho. done.
        -- congruence.
    + rewrite Ho. simpl. split; [done|].
      intros (Hne' & _ & [Hx|(_ & r' & Hr' & Hne & _)]).
      * rewrite Hx in Ho. simpl in Ho. apply truthy_string_false in Ho. done.
      * rewrite Hr' in Hr. simpl in Hr. apply truthy_string_false in Hr. done.
Qed.

(** X16. The only headers that [addAccessControlHeaders] sets are [Vary] and
    [Access-Control-Allow-Origin], and the latter only to the origin that the
    request names, which is then not empty and is one of the configured
    origins: no other origin is ever echoed. *)
Theorem access_control_echoes_configured_origins (urlOrigin : string → option string)
    (env : option string) (cors : list string) (headers : IncomingHttpHeaders)
    (name value : string) :
  (name, value) ∈ addAccessControlHeaders urlOrigin env cors headers →
  name = "Vary" ∧ value = "Origin,Referer"
  ∨ name = "Access-Control-Allow-Origin" ∧ value ≠ ""
    ∧ value ∈ configuredOrigins env cors ∧ requestOrigin urlOrigin headers value.
Proof.
  unfold addAccessControlHeaders. intros [[= -> ->]|Hin]%elem_of_cons; [by left|].
  right.
  destruct (getAccessControlAllowOrigin urlOrigin env cors headers) as [o|] eqn:Ho;
    [|by apply elem_of_nil in Hin].
  apply getAccessControlAllowOrigin_Some in Ho as (Hne & Hconf & Hreq).
  apply truthy_string_ne in Hne as Hne'. rewrite Hne' in Hin.
  apply list_elem_of_singleton in Hin as [= -> ->]. done.
Qed.

Lemma access_control_echoes_configured_origins_witness :
  let headers := {| hdr_origin := Some "https://home.example"; hdr_referer := None |} in
  "https://home.example" ∈ configuredOrigins (Some "https://a.example,https://home.example") []
  ∧ requestOrigin (λ _, None) headers "https://home.example".
Proof.
  intros headers.
  destruct (access_control_echoes_configured_origins (λ _, None)
              (Some "https://a.example,https://home.example") [] headers
              "Access-Control-Allow-Origin" "https://home.example")
    as [[[=] _]|(_ & _ & Hconf & Hreq)]; [|done].
  vm_compute. apply list_elem_of_lookup. by exists 1.
Defined.

(** X17. An origin that the environment variable lists (its entries joined
    with commas, none containing one) or that the CORS settings name is
    allowed: for a request that names it, [addAccessControlHeaders] sets
    [Vary] and echoes the origin in [Access-Control-Allow-Origin]. *)
Theorem access_control_allows_listed_origins (urlOrigin : string → option string)
    (origins cors : list string) (headers : IncomingHttpHeaders) (o : string) :
  origins ≠ [] → Forall (λ entry, occurs comma entry = false) origins →
  o ≠ "" → o ∈ origins ++ cors → requestOrigin urlOrigin headers o →
  addAccessControlHeaders urlOrigin (Some (join "," origins)) cors headers
  = [("Vary", "Origin,Referer"); ("Access-Control-Allow-Origin", o)].
Proof.
  intros Hne Hcomma Ho Hin Hreq. unfold addAccessControlHeaders.
  assert (getAccessControlAllowOrigin urlOrigin (Some (join "," origins)) cors headers
          = Some o) as ->.
  { apply getAccessControlAllowOrigin_Some. split_and!; [done| |done].
    unfold configuredOrigins. simpl.
    change "," with (String comma EmptyString). by rewrite split_join. }
  apply truthy_string_ne in Ho. by rewrite Ho.
Qed.

Lemma access_control_allows_listed_origins_witness :
  addAccessControlHeaders (λ referer, Some (substring_from 0 referer))
    (Some "https://a.example,https://home.example") ["https://nvr.example"]
    {| hdr_origin := None; hdr_referer := Some "https://home.example" |}
  = [("Vary", "Origin,Referer"); ("Access-Control-Allow-Origin", "https://home.example")].
Proof.
  apply (access_control_allows_listed_origins (λ referer, Some (substring_from 0 referer))
           ["https://a.example"; "https://home.example"] ["https://nvr.example"]
           {| hdr_origin := None; hdr_referer := Some "https://home.example" |}
           "https://home.example").
  - done.
  - repeat constructor.
  - done.
  - apply list_elem_of_lookup. by exists 1.
  - right. split; [done|]. by exists "https://home.example".
Defined.

(** ** Digests *)

Lemma occurs_app c (a b : string) : occurs c (a +:+ b) = occurs c a || occurs c b.
Proof.
  induction a as [|c' a IH]; [done|]. rewrite app_String. simpl.
  by rewrite IH, orb_assoc.
Qed.

Lemma hexByte_plain (b : Byte.byte) :
  let digits := hexDigit (Byte.to_N b / 16) +:+ hexDigit (Byte.to_N b mod 16) in
  occurs hash digits = false ∧ String.length digits = 2.
Proof. by destruct b. Qed.

Lemma toHex_occurs_hash buffer : occurs hash (toHex buffer) = false.
Proof.
  induction buffer as [|b buffer IH]; [done|]. simpl.
  destruct (hexByte_plain b) as [Hb _]. rewrite !occurs_app in *.
  rewrite IH. by rewrite orb_false_r in *.
Qed.

Lemma toHex_nonempty buffer : buffer ≠ [] → toHex buffer ≠ "".
Proof.
  destruct buffer as [|b buffer]; [done|]. intros _. simpl.
  destruct (hexByte_plain b) as [_ Hb].
  destruct (hexDigit (Byte.to_N b / 16)) eqn:Hd; [|by rewrite app_String].
  exfalso. by destruct b.
Qed.

Lemma join_cons sep part part' parts :
  join sep (part :: part' :: parts) = part +:+ sep +:+ join sep (part' :: parts).
Proof. reflexivity. Qed.

Lemma app_empty_l (s : string) : "" +:+ s = s.
Proof. reflexivity. Qed.

Lemma app_assoc_string (a b c : string) : (a +:+ b) +:+ c = a +:+ b +:+ c.
Proof. induction a as [|x a IH]; [done|]. by rewrite !app_String, IH. Qed.

(** ** Authentication *)

Section entry_proofs.
Variable sha256 : string → list Byte.byte.
Variable authSalt : string.
Variable UserToken : Type.
Variable ut_username : UserToken → string.
Variable UserToken_validateToken : Z → string → option string + UserToken.
(** The time of the request. *)
Variable clock : Z.
Variable httpAuth_basic : (string → string → bool) → Request → option string.

Abbreviation createAuthorizationToken := (createAuthorizationToken sha256 authSalt).
Abbreviation validateToken := (validateToken UserToken UserToken_validateToken clock).
Abbreviation bearer :=
  (bearer sha256 authSalt UserToken ut_username UserToken_validateToken clock).
Abbreviation authenticate :=
  (authenticate sha256 authSalt UserToken ut_username UserToken_validateToken clock).

Lemma bearer_createAuthorizationToken (t : string) :
t ≠ "" → sha256 (t +:+ authSalt) ≠ [] →
bearer (createAuthorizationToken t)
= let '(evs, userToken) := validateToken (Some t) in (evs, ut_username <$> userToken).
Proof.
intros Ht Hsha. unfold bearer, createAuthorizationToken. cbv zeta.
rewrite substring_from_app.
change ("#" +:+ t) with (String hash t).
rewrite split_head by apply toHex_occurs_hash.
pose proof (split_nonempty hash t) as Hne. pose proof (join_split hash t) as Hjoin.
change (String hash "") with "#" in Hjoin. rewrite Hjoin.
apply truthy_string_ne in Ht as Ht'. rewrite Ht'.
apply (toHex_nonempty _), truthy_string_ne in Hsha.
unfold sha256hex at 1. rewrite Hsha. simpl. rewrite bool_decide_true by done.
rewrite Ht'. simpl. by destruct (UserToken_validateToken clock t).
Qed.

Lemma validateToken_Some (token : option string) evs userToken :
validateToken token = (evs, Some userToken)
↔ evs = [] ∧ ∃ t, token = Some t ∧ t ≠ "" ∧ UserToken_validateToken clock t = inr userToken.
Proof.
unfold validateToken. destruct token as [t|].
- destruct (truthy_string t) eqn:Ht; simpl.
  + apply truthy_string_ne in Ht.
    destruct (UserToken_validateToken clock t) as [message|userToken'] eqn:Hv.
    * split; [done|]. intros (_ & t' & [= <-] & _ & Hv'). congruence.
    * split.
      -- intros [= <- <-]. split; [done|]. by exists t.
      -- intros (-> & t' & [= <-] & _ & Hv'). congruence.
  + apply truthy_string_false in Ht as ->. split; [done|].
    by intros (_ & t' & [= <-] & Hne & _).
- split; [done|]. by intros (_ & t' & [=] & _).
Qed.
Lemma bearer_Some (authorization : string) evs username :
  startsWith authorization "Bearer " = true →
  bearer authorization = (evs, Some username) →
  evs = []
  ∧ ∃ t userToken, authorization = createAuthorizationToken t ∧ t ≠ ""
      ∧ UserToken_validateToken clock t = inr userToken ∧ ut_username userToken = username.
Proof.
  intros Hstart%startsWith_substring_from. unfold bearer.
  set (rest := substring_from (String.length "Bearer ") authorization) in *.
  pose proof (join_split hash rest) as Hjoin. change (String hash "") with "#" in Hjoin.
  destruct (split hash rest) as [|checkHash tokenParts]; [done|].
  cbv zeta. set (tokenPart := join "#" tokenParts) in *.
  destruct (truthy_string checkHash) eqn:Hc; [|done].
  destruct (truthy_string tokenPart) eqn:Ht; [|done]. cbn [andb].
  case_bool_decide as Hsha; [|done].
  destruct (validateToken (Some tokenPart)) as [evs' [userToken|]] eqn:Hv; [|done].
  intros [= <- <-]. apply validateToken_Some in Hv as (-> & t & [= <-] & Hne & Hv).
  split; [done|]. exists tokenPart, userToken. split_and!; [|done..].
  rewrite Hstart, <-Hjoin. unfold createAuthorizationToken. cbv zeta. rewrite <-Hsha.
  destruct tokenParts as [|part parts]; [done|]. by rewrite join_cons.
Qed.

(** X18. The header that [createAuthorizationToken] makes of a login token
    stands for that token: a request that carries it as [Authorization] and
    has no login cookie is authenticated by the middleware exactly as a
    request whose signed login cookie is the token, whatever characters the
    token holds. The digest is the one of SHA-256, which is not empty. *)
Theorem authorization_token_stands_for_cookie (env : option string) (req req' : Request)
    (t : string) :
  t ≠ "" → sha256 (t +:+ authSalt) ≠ [] →
  getSignedLoginUserTokenRawValue req = None →
  req_authorization req = Some (createAuthorizationToken t) →
  getSignedLoginUserTokenRawValue req' = Some t →
  req_authorization req' = None →
  authenticate env req = authenticate env req'.
Proof.
  intros Ht Hsha Hcookie Hauth Hcookie' Hauth'.
  unfold authenticate, getSignedLoginUserToken.
  rewrite Hcookie, Hauth, Hcookie', Hauth'.
  case_bool_decide; [done|]. unfold validateToken at 1.
  unfold createAuthorizationToken at 1. cbv zeta.
  rewrite startsWith_app, bearer_createAuthorizationToken by done.
  by destruct (validateToken (Some t)) as [evs [userToken|]].
Qed.

(** X19. The authentication middleware sets [res.locals.username] in three
    cases only: authentication is disabled and the name is [anonymous]; the
    signed login cookie is a token that [UserToken.validateToken] accepts
    for that user; or the [Authorization] header is exactly what
    [createAuthorizationToken] makes of such a token, so a header whose
    digest does not match the salted token is never accepted. *)
Theorem authenticate_sound (env : option string) (req : Request) evs (username : string) :
  authenticate env req = (evs, Some username) →
  env = Some "true" ∧ username = "anonymous"
  ∨ (∃ t userToken,
       getSignedLoginUserTokenRawValue req = Some t ∧ t ≠ ""
       ∧ UserToken_validateToken clock t = inr userToken ∧ ut_username userToken = username)
  ∨ (∃ t userToken,
       req_authorization req = Some (createAuthorizationToken t) ∧ t ≠ ""
       ∧ UserToken_validateToken clock t = inr userToken ∧ ut_username userToken = username).
Proof.
  unfold authenticate, getSignedLoginUserToken.
  case_bool_decide as Henv; [intros [= <- <-]; by left|].
  destruct (validateToken (getSignedLoginUserTokenRawValue req))
    as [evs0 [userToken|]] eqn:Hv.
  - intros [= <- <-]. apply validateToken_Some in Hv as (_ & t & Ht & Hne & Hv).
    right. left. by exists t, userToken.
  - destruct (req_authorization req) as [authorization|]; [|done].
    destruct (startsWith authorization "Bearer ") eqn:Hstart; [|done].
    destruct (bearer authorization) as [evs' [username'|]] eqn:Hb; [|done].
    intros [= <- <-]. apply bearer_Some in Hb as (_ & t & userToken & -> & Ht); [|done].
    right. right. by exists t, userToken.
Qed.

(** X20. A request to [/web/component/*] is passed on to the handlers
    registered after the guard only with a user name that is not empty, and
    that name is either the one that the basic-auth library has checked
    (over https, with an [Authorization] header that mentions basic) or the
    one that the authentication middleware has set. *)
Theorem component_requests_are_authenticated (env : option string)
    (db : gmap string ScryptedUser) (req : Request) evs (username : option string) :
  componentAccess sha256 authSalt UserToken ut_username UserToken_validateToken
    httpAuth_basic clock env db req = (evs, Next username) →
  ∃ name, username = Some name ∧ name ≠ ""
    ∧ (req_protocol req = "https"
       ∧ httpAuth_basic (basicAuthChecker sha256 db) req = Some name
       ∨ (authenticate env req).2 = Some name).
Proof.
  unfold componentAccess.
  destruct (authenticate env req) as [evs0 username0] eqn:Hauth.
  unfold componentBasicAuth, componentGuard.
  destruct (bool_decide (req_protocol req = "https")) eqn:Hhttps; simpl.
  - apply bool_decide_eq_true in Hhttps.
    destruct (truthy_opt (req_authorization req)
              && default false ((λ a, includes (toLowerCase a) "basic")
                                  <$> req_authorization req)); simpl.
    + destruct (httpAuth_basic (basicAuthChecker sha256 db) req) as [user|] eqn:Hbasic;
        [|done].
      simpl. destruct (truthy_string user) eqn:Hu; simpl; [|done].
      intros [= <- <-]. exists user. apply truthy_string_ne in Hu. split_and!; auto.
    + destruct (truthy_opt username0) eqn:Hu; simpl; [|done].
      intros [= <- <-]. apply truthy_opt_Some in Hu as (name & -> & Hne).
      exists name. split_and!; auto.
  - destruct (truthy_opt username0) eqn:Hu; simpl; [|done].
    intros [= <- <-]. apply truthy_opt_Some in Hu as (name & -> & Hne).
    exists name. split_and!; auto.
Qed.
End entry_proofs.

Lemma authorization_token_stands_for_cookie_witness :
  authenticate exampleDigest "salt" string id (λ _ t, inr t) 0 None
    (withAuthorization (createAuthorizationToken exampleDigest "salt" "alice#1")
       plainRequest)
  = authenticate exampleDigest "salt" string id (λ _ t, inr t) 0 None
      (withCookie "login_user_token" "alice#1" plainRequest).
Proof.
  apply (authorization_token_stands_for_cookie exampleDigest "salt" string id
           (λ _ t, inr t) 0 None
           (withAuthorization (createAuthorizationToken exampleDigest "salt" "alice#1")
              plainRequest)
           (withCookie "login_user_token" "alice#1" plainRequest) "alice#1");
    [done|done|reflexivity..].
Defined.

Lemma authenticate_sound_witness :
  let req := withCookie "login_user_token" "alice" plainRequest in
  None = Some "true" ∧ "alice" = "anonymous"
  ∨ (∃ t userToken : string,
       getSignedLoginUserTokenRawValue req = Some t ∧ t ≠ ""
       ∧ inr userToken = @inr (option string) string t ∧ id userToken = "alice")
  ∨ (∃ t userToken : string,
       req_authorization req = Some (createAuthorizationToken exampleDigest "salt" t)
       ∧ t ≠ "" ∧ inr userToken = @inr (option string) string t ∧ id userToken = "alice").
Proof.
  intros req.
  destruct (authenticate_sound exampleDigest "salt" string id (λ _ t, inr t) 0 None req []
              "alice") as [H|[(t & u & H1 & H2 & H3 & H4)|(t & u & H1 & H2 & H3 & H4)]].
  - reflexivity.
  - by left.
  - right. left. by exists t, u.
  - right. right. by exists t, u.
Defined.

Lemma component_requests_are_authenticated_witness :
  let req := withCookie "login_user_token" "alice" plainRequest in
  ∃ name, Some "alice" = Some name ∧ name ≠ ""
    ∧ (req_protocol req = "https"
       ∧ (λ _ _, None) (basicAuthChecker exampleDigest ∅) req = Some name
       ∨ (authenticate exampleDigest "salt" string id (λ _ t, inr t) 0 None req).2
         = Some name).
Proof.
  intros req.
  apply (component_requests_are_authenticated exampleDigest "salt" string id
           (λ _ t, inr t) 0 (λ _ _, None) None ∅ req []).
  reflexivity.
Defined.

(** ** Login *)

Section login_proofs.
Variable sha256 : string → list Byte.byte.
Variable toBase64 : list Byte.byte → string.
Variable authSalt : string.
Variable UserToken : Type.
Variable UserToken_new : string → Z → option Z → UserToken.
Variable UserToken_toString : UserToken → string.
Variable parseInt : option string → option Z.
Variable ONE_DAY_MILLISECONDS : Z.
Variable addresses : list string.

Abbreviation postLogin :=
  (postLogin sha256 toBase64 authSalt UserToken UserToken_new UserToken_toString parseInt
     ONE_DAY_MILLISECONDS addresses).
Abbreviation basicAuthChecker := (basicAuthChecker sha256).
Abbreviation changedUser := (changedUser sha256 toBase64).

(** The password check of [POST /login] is the one of the basic-auth
    checker. *)
Lemma password_check (user : ScryptedUser) (p : string) :
  bool_decide (su_passwordHash user ≠ sha256hex sha256 (concat_js (su_salt user) (Some p)))
  && bool_decide (su_token user ≠ Some p)
  = negb (bool_decide (sha256hex sha256 (su_salt user +:+ p) = su_passwordHash user)
          || bool_decide (Some p = su_token user)).
Proof.
  unfold concat_js. simpl. rewrite negb_orb. f_equal.
  - repeat case_bool_decide; simpl; congruence.
  - repeat case_bool_decide; simpl; congruence.
Qed.

(** What [POST /login] does while a login exists. *)
Lemma postLogin_hasLogin (st : LoginState) (req : Request) (body : LoginBody)
    (timestamp : Z) (random64 random16 : list Byte.byte) (u p : string) :
  hasLogin st = true → body_username body = Some u → body_password body = Some p →
  if basicAuthChecker (users st) u p then
    ∃ user cookie authorization expiration,
      users st !! u = Some user
      ∧ postLogin st req body timestamp random64 random16
        = Some (if truthy_opt (body_change_password body) then
                  upsertUser
                    {| su_id := su_id user; su_salt := toBase64 random64;
                       su_passwordHash :=
                         sha256hex sha256
                           (concat_js (toBase64 random64) (body_change_password body));
                       su_passwordDate := timestamp; su_token := su_token user |} st
                else st,
                Some cookie, SendLogin authorization u expiration addresses)
  else
    ∃ error,
      postLogin st req body timestamp random64 random16
      = Some (st, None, SendError error true).
Proof.
  intros Hlogin Hu Hp. unfold postLogin, basicAuthChecker. rewrite Hlogin, Hu, Hp.
  cbn [mbind option_bind]. destruct (users st !! u) as [user|] eqn:Huser.
  - rewrite password_check.
    destruct (bool_decide (sha256hex sha256 (su_salt user +:+ p) = su_passwordHash user)
              || bool_decide (Some p = su_token user)); cbn [negb].
    + eexists user, _, _, _. split; [done|]. reflexivity.
    + by eexists.
  - by eexists.
Qed.
Lemma basicAuthChecker_true (db : gmap string ScryptedUser) (u p : string) :
  basicAuthChecker db u p = true
  ↔ ∃ user, db !! u = Some user
      ∧ (sha256hex sha256 (su_salt user +:+ p) = su_passwordHash user
         ∨ Some p = su_token user).
Proof.
  unfold basicAuthChecker. destruct (db !! u) as [user|].
  - rewrite orb_true_iff, !bool_decide_eq_true. split.
    + intros H. by exists user.
    + by intros (user' & [= <-] & H).
  - split; [done|]. by intros (user' & [=] & _).
Qed.

Lemma postLogin_hasLogin_cases (st : LoginState) (req : Request) (body : LoginBody)
    (timestamp : Z) (random64 random16 : list Byte.byte) st' cookie reply :
  hasLogin st = true →
  postLogin st req body timestamp random64 random16 = Some (st', cookie, reply) →
  ∃ u, body_username body = Some u
    ∧ (st' = st ∧ cookie = None ∧ (∃ error, reply = SendError error true)
       ∧ (∀ p, body_password body = Some p → basicAuthChecker (users st) u p = false)
       ∨ ∃ user, users st !! u = Some user
           ∧ (∀ p, body_password body = Some p → basicAuthChecker (users st) u p = true)
           ∧ st' = (if truthy_opt (body_change_password body)
                    then upsertUser (changedUser user body timestamp random64) st
                    else st)
           ∧ is_Some cookie
           ∧ ∃ authorization expiration,
               reply = SendLogin authorization u expiration addresses).
Proof.
  intros Hlogin. unfold postLogin. rewrite Hlogin.
  destruct (body_username body) as [u|]; [|done]. cbn [mbind option_bind].
  intros Hpost. exists u. split; [done|].
  destruct (users st !! u) as [user|] eqn:Huser.
  - destruct (bool_decide (su_passwordHash user
                           ≠ sha256hex sha256 (concat_js (su_salt user) (body_password body)))
              && bool_decide (su_token user ≠ body_password body)) eqn:Hcheck.
    + injection Hpost as <- <- <-. left. split_and!; [done|done|by eexists|].
      intros p Hp. rewrite Hp, password_check in Hcheck.
      apply negb_true_iff in Hcheck. unfold basicAuthChecker. by rewrite Huser.
    + injection Hpost as <- <- <-. right. exists user. split_and!; [done| |done|done|].
      * intros p Hp. rewrite Hp, password_check in Hcheck.
        apply negb_false_iff in Hcheck. unfold basicAuthChecker. by rewrite Huser.
      * by eexists _, _.
  - injection Hpost as <- <- <-. left. split_and!; [done|done|by eexists|].
    intros p Hp. unfold basicAuthChecker. by rewrite Huser.
Qed.

(** X21. While a login exists, [POST /login] and the basic-auth checker
    accept the same credentials: for a user name and a password, the login
    cookie is set exactly when the checker accepts them (the password is the
    user's, by its salted digest, or it is the user's token); a request that
    is refused is answered with an error and changes nothing. *)
Theorem login_and_basic_auth_agree (st : LoginState) (req : Request) (body : LoginBody)
    (timestamp : Z) (random64 random16 : list Byte.byte) (u p : string) :
  hasLogin st = true → body_username body = Some u → body_password body = Some p →
  ∃ st' cookie reply,
    postLogin st req body timestamp random64 random16 = Some (st', cookie, reply)
    ∧ (is_Some cookie ↔ basicAuthChecker (users st) u p = true)
    ∧ (cookie = None → st' = st ∧ ∃ error, reply = SendError error true).
Proof.
  intros Hlogin Hu Hp.
  pose proof (postLogin_hasLogin st req body timestamp random64 random16 u p Hlogin Hu Hp)
    as Hpost.
  destruct (basicAuthChecker (users st) u p).
  - destruct Hpost as (user & cookie & authorization & expiration & _ & ->).
    eexists _, _, _. split; [done|]. split; [done|]. done.
  - destruct Hpost as (error & ->). eexists _, _, _. split; [done|].
    split; [split; [by intros [? [=]]|done]|]. intros _. split; [done|]. by eexists.
Qed.

(** X22. While the database has a user, [POST /login] registers nobody: it
    adds and removes no user, leaves every token as it is and changes no
    user but the one who logs in, and that one only when the request asks
    for a new password, which then is the password of that user. *)
Theorem no_registration_while_a_user_exists (st : LoginState) (req : Request)
    (body : LoginBody) (timestamp : Z) (random64 random16 : list Byte.byte)
    st' cookie reply :
  loginConsistent st → users st ≠ ∅ →
  postLogin st req body timestamp random64 random16 = Some (st', cookie, reply) →
  dom (users st') = dom (users st)
  ∧ hasLogin st' = true
  ∧ (∀ k, su_token <$> users st' !! k = su_token <$> users st !! k)
  ∧ (∀ k, body_username body ≠ Some k → users st' !! k = users st !! k)
  ∧ (truthy_opt (body_change_password body) = false → st' = st).
Proof.
  intros [Hhas Hkeys] Hne Hpost. apply Hhas in Hne as Hlogin.
  destruct (postLogin_hasLogin_cases _ _ _ _ _ _ _ _ _ Hlogin Hpost)
    as (u & Hu & [(-> & _)|(user & Huser & _ & -> & _)]).
  - split_and!; done.
  - destruct (truthy_opt (body_change_password body)); [|by split_and!].
    pose proof (Hkeys _ _ Huser) as Hid. unfold upsertUser, changedUser. cbn.
    rewrite Hid. split_and!; [|done| | |done].
    + rewrite dom_insert_L. apply elem_of_dom_2 in Huser. set_solver.
    + intros k. destruct (decide (k = u)) as [->|Hk].
      * by rewrite lookup_insert_eq, Huser.
      * by rewrite lookup_insert_ne.
    + intros k Hk. rewrite lookup_insert_ne; [done|]. congruence.
Qed.

(** X23. Registration and login round trip: while no login exists, a
    [POST /login] with a user name and a password that are not empty stores
    the user, sets the cookie and sends the new token; from then on the
    basic-auth checker accepts the user with the password and with the
    token, and every [POST /login] with either of them succeeds. *)
Theorem register_then_login (st : LoginState) (req : Request) (body : LoginBody)
    (timestamp : Z) (random64 random16 : list Byte.byte) (u p : string) :
  hasLogin st = false → body_username body = Some u → body_password body = Some p →
  u ≠ "" → p ≠ "" →
  ∃ st1 cookie authorization expiration,
    postLogin st req body timestamp random64 random16
    = Some (st1, Some cookie,
            SendRegistered authorization u (toHex random16) expiration addresses)
    ∧ hasLogin st1 = true
    ∧ (∃ user, users st1 !! u = Some user ∧ su_id user = u)
    ∧ (∀ k, k ≠ u → users st1 !! k = users st !! k)
    ∧ basicAuthChecker (users st1) u p = true
    ∧ basicAuthChecker (users st1) u (toHex random16) = true
    ∧ ∀ req' body' timestamp' random64' random16',
        body_username body' = Some u →
        body_password body' = Some p ∨ body_password body' = Some (toHex random16) →
        ∃ st2 cookie' authorization' expiration',
          postLogin st1 req' body' timestamp' random64' random16'
          = Some (st2, Some cookie', SendLogin authorization' u expiration' addresses).
Proof.
  intros Hlogin Hu Hp Hune Hpne. unfold postLogin at 1. rewrite Hlogin, Hu, Hp.
  apply truthy_string_ne in Hune as ->. apply truthy_string_ne in Hpne as ->.
  cbn [negb orb].
  set (user := {| su_id := u; su_salt := toBase64 random64;
                  su_passwordHash := sha256hex sha256 (toBase64 random64 +:+ p);
                  su_passwordDate := timestamp; su_token := Some (toHex random16) |}).
  set (st1 := {| users := users (upsertUser user st); hasLogin := true;
                 resetLogin := resetLogin (upsertUser user st) |}).
  assert (users st1 !! u = Some user) as Huser by apply lookup_insert_eq.
  assert (basicAuthChecker (users st1) u p = true) as Hcheck.
  { apply basicAuthChecker_true. exists user. split; [done|]. by left. }
  assert (basicAuthChecker (users st1) u (toHex random16) = true) as Hcheck'.
  { apply basicAuthChecker_true. exists user. split; [done|]. by right. }
  eexists st1, _, _, _. split_and!; [reflexivity|done|by exists user| |done|done|].
  - intros k Hk. subst st1. cbn. by rewrite lookup_insert_ne.
  - intros req' body' timestamp' random64' random16' Hu' Hp'.
    destruct Hp' as [Hp'|Hp'].
    + pose proof (postLogin_hasLogin st1 req' body' timestamp' random64' random16' u p
                    eq_refl Hu' Hp') as Hpost.
      rewrite Hcheck in Hpost.
      destruct Hpost as (user' & cookie' & authorization' & expiration' & _ & ->).
      by eexists _, _, _, _.
    + pose proof (postLogin_hasLogin st1 req' body' timestamp' random64' random16' u
                    (toHex random16) eq_refl Hu' Hp') as Hpost.
      rewrite Hcheck' in Hpost.
      destruct Hpost as (user' & cookie' & authorization' & expiration' & _ & ->).
      by eexists _, _, _, _.
Qed.

(** X24. A new password takes effect: after a [POST /login] that succeeds
    and asks for a new password, the basic-auth checker accepts the user
    with the new password and still with the token, which is unchanged, and
    a [POST /login] with the new password succeeds. *)
Theorem change_password_takes_effect (st : LoginState) (req : Request) (body : LoginBody)
    (timestamp : Z) (random64 random16 : list Byte.byte) (u np : string)
    st' cookie reply :
  loginConsistent st → hasLogin st = true →
  body_username body = Some u → body_change_password body = Some np → np ≠ "" →
  postLogin st req body timestamp random64 random16 = Some (st', Some cookie, reply) →
  basicAuthChecker (users st') u np = true
  ∧ (∀ token, users st !! u ≫= su_token = Some token →
              basicAuthChecker (users st') u token = true)
  ∧ hasLogin st' = true
  ∧ ∀ req' body' timestamp' random64' random16',
      body_username body' = Some u → body_password body' = Some np →
      ∃ st2 cookie' authorization' expiration',
        postLogin st' req' body' timestamp' random64' random16'
        = Some (st2, Some cookie', SendLogin authorization' u expiration' addresses).
Proof.
  intros [_ Hkeys] Hlogin Hu Hnp Hne Hpost.
  destruct (postLogin_hasLogin_cases _ _ _ _ _ _ _ _ _ Hlogin Hpost)
    as (u' & Hu' & [(_ & [=] & _)|(user & Huser & _ & -> & _)]).
  assert (u' = u) as -> by congruence.
  rewrite Hnp. cbn [truthy_opt]. apply truthy_string_ne in Hne as ->.
  pose proof (Hkeys _ _ Huser) as Hid.
  set (user' := changedUser user body timestamp random64).
  assert (users (upsertUser user' st) !! u = Some user') as Huser'.
  { unfold upsertUser. cbn [users]. subst user'. cbn [changedUser su_id].
    rewrite Hid. apply lookup_insert_eq. }
  assert (basicAuthChecker (users (upsertUser user' st)) u np = true) as Hcheck.
  { apply basicAuthChecker_true. exists user'. split; [done|]. left.
    subst user'. unfold changedUser. cbn. by rewrite Hnp. }
  split_and!; [done| |done|].
  - intros token Htoken. rewrite Huser in Htoken. cbn in Htoken.
    apply basicAuthChecker_true. exists user'. split; [done|]. by right.
  - intros req' body' timestamp' random64' random16' Hu'' Hp'.
    pose proof (postLogin_hasLogin (upsertUser user' st) req' body' timestamp' random64'
                  random16' u np Hlogin Hu'' Hp') as Hpost'.
    rewrite Hcheck in Hpost'.
    destruct Hpost' as (user'' & cookie' & authorization' & expiration' & _ & ->).
    by eexists _, _, _, _.
Qed.
Lemma postLogin_register (st : LoginState) (req : Request) (body : LoginBody)
    (timestamp : Z) (random64 random16 : list Byte.byte) (u p : string) :
  hasLogin st = false → body_username body = Some u → body_password body = Some p →
  u ≠ "" → p ≠ "" →
  ∃ user cookie authorization expiration,
    postLogin st req body timestamp random64 random16
    = Some ({| users := <[u := user]> (users st); hasLogin := true;
               resetLogin := resetLogin st |},
            Some cookie,
            SendRegistered authorization u (toHex random16) expiration addresses)
    ∧ su_id user = u ∧ su_token user = Some (toHex random16)
    ∧ su_passwordHash user = sha256hex sha256 (su_salt user +:+ p).
Proof.
  intros Hlogin Hu Hp Hune Hpne. unfold postLogin. rewrite Hlogin, Hu, Hp.
  apply truthy_string_ne in Hune as ->. apply truthy_string_ne in Hpne as ->.
  cbn [negb orb]. eexists _, _, _, _. split; [reflexivity|]. done.
Qed.

Lemma loginConsistent_upsertUser (st : LoginState) (user : ScryptedUser) :
  loginConsistent st → hasLogin st = true → loginConsistent (upsertUser user st).
Proof.
  intros [Hhas Hkeys] Hlogin. split.
  - cbn. split; [|done]. intros _. apply insert_non_empty.
  - intros k user'. cbn. destruct (decide (k = su_id user)) as [->|Hk].
    + rewrite lookup_insert_eq. by intros [= <-].
    + rewrite lookup_insert_ne by done. apply Hkeys.
Qed.

Lemma postLogin_consistent (st : LoginState) (req : Request) (body : LoginBody)
    (timestamp : Z) (random64 random16 : list Byte.byte) st' cookie reply :
  loginConsistent st →
  postLogin st req body timestamp random64 random16 = Some (st', cookie, reply) →
  loginConsistent st' ∧ resetLogin st' = resetLogin st.
Proof.
  intros Hst Hpost. destruct (hasLogin st) eqn:Hlogin.
  - destruct (postLogin_hasLogin_cases _ _ _ _ _ _ _ _ _ Hlogin Hpost)
      as (u & Hu & [(-> & _)|(user & Huser & _ & -> & _)]); [done|].
    destruct (truthy_opt (body_change_password body)); [|done].
    split; [|done]. by apply loginConsistent_upsertUser.
  - revert Hpost. unfold postLogin. rewrite Hlogin.
    destruct (body_username body) as [u|], (body_password body) as [p|];
      try (by intros [= <- <- <-]).
    destruct (negb (truthy_string u) || negb (truthy_string p));
      [by intros [= <- <- <-]|].
    intros [= <- <- <-]. split; [|done]. destruct Hst as [Hhas Hkeys]. split.
    + cbn. split; [|done]. intros _. apply insert_non_empty.
    + intros k user'. cbn. destruct (decide (k = u)) as [->|Hk].
      * rewrite lookup_insert_eq. by intros [= <-].
      * rewrite lookup_insert_ne by done. apply Hkeys.
Qed.
End login_proofs.

Lemma loginConsistent_openLogin (db : gmap string ScryptedUser) (resetLogin : bool) :
  keyedById db → loginConsistent (openLogin db resetLogin).
Proof.
  intros Hkeys. split; [|done]. cbn. rewrite bool_decide_eq_true.
  rewrite <-map_size_non_empty_iff. lia.
Qed.

Lemma loginConsistent_checkResetLogin (rmThrows : bool) (st : LoginState) :
  loginConsistent st → loginConsistent (checkResetLogin rmThrows st).
Proof.
  intros Hst. unfold checkResetLogin. by destruct (resetLogin st), rmThrows.
Qed.

Section login_machine_proofs.
Variable sha256 : string → list Byte.byte.
Variable toBase64 : list Byte.byte → string.
Variable authSalt : string.
Variable UserToken : Type.
Variable UserToken_new : string → Z → option Z → UserToken.
Variable UserToken_toString : UserToken → string.
Variable ut_username : UserToken → string.
Variable ut_timestamp : UserToken → Z.
Variable ut_duration : UserToken → Z.
Variable UserToken_validateToken : Z → string → option string + UserToken.
Variable httpAuth_basic : (string → string → bool) → Request → option string.
Variable urlOrigin : string → option string.
Variable parseInt : option string → option Z.
Variable ONE_DAY_MILLISECONDS : Z.
Variable addresses : list string.

Abbreviation getLogin :=
  (getLogin sha256 authSalt UserToken ut_username ut_timestamp ut_duration
     UserToken_validateToken httpAuth_basic urlOrigin ONE_DAY_MILLISECONDS addresses).
Abbreviation loginStep :=
  (loginStep sha256 toBase64 authSalt UserToken UserToken_new UserToken_toString
     ut_username ut_timestamp ut_duration UserToken_validateToken httpAuth_basic
     urlOrigin parseInt ONE_DAY_MILLISECONDS addresses).
Abbreviation loginRun :=
  (loginRun sha256 toBase64 authSalt UserToken UserToken_new UserToken_toString
     ut_username ut_timestamp ut_duration UserToken_validateToken httpAuth_basic
     urlOrigin parseInt ONE_DAY_MILLISECONDS addresses).

Lemma getLogin_state envOrigins cors envDisable rmThrows (st : LoginState)
    (req : Request) (clock now : Z) (random16 : list Byte.byte) hostname :
  let st0 := checkResetLogin rmThrows st in
  let r := getLogin envOrigins cors envDisable rmThrows st req clock now random16 hostname in
  r.1.1 = st0
  ∨ ∃ username user,
      users st0 !! username = Some user ∧ truthy_opt (su_token user) = false
      ∧ r.1.1 = upsertUser
                  {| su_id := su_id user; su_salt := su_salt user;
                     su_passwordHash := su_passwordHash user;
                     su_passwordDate := su_passwordDate user;
                     su_token := Some (toHex random16) |} st0
      ∧ r.2 = Replied (SendToken username (Some (toHex random16)) addresses
                         (shortHostname hostname)).
Proof.
  intros st0 r. subst r. unfold getLogin. fold st0.
  destruct (bool_decide (req_protocol req = "https")
            && truthy_opt (req_authorization req)).
  - destruct (httpAuth_basic (basicAuthChecker sha256 (users st0)) req) as [username|];
      [|by left].
    destruct (users st0 !! username) as [user|] eqn:Huser; [|by left].
    destruct (truthy_opt (su_token user)) eqn:Htoken; cbn [negb]; [by left|].
    right. by exists username, user.
  - destruct (bool_decide (envDisable = Some "true")); [by left|].
    destruct (getSignedLoginUserTokenRawValue req) as [token|]; [|by left].
    destruct (negb (truthy_string token)); [by left|].
    destruct (UserToken_validateToken clock token); by left.
Qed.

Lemma loginStep_consistent (st st' : LoginState) (action : LoginAction) :
  loginConsistent st → loginStep st action = Some st' → loginConsistent st'.
Proof.
  intros Hst. destruct action as [req body timestamp random64 random16
    |envOrigins cors envDisable rmThrows req clock now random16 hostname|]; cbn [loginStep].
  - destruct (postLogin _ _ _ _ _ _ _ _ _ st req body timestamp random64 random16)
      as [[[st1 cookie] reply]|] eqn:Hpost; [|done].
    intros [= <-]. by eapply postLogin_consistent.
  - pose proof (getLogin_state envOrigins cors envDisable rmThrows st req clock now
                  random16 hostname) as Hget.
    pose proof (loginConsistent_checkResetLogin rmThrows st Hst) as Hst0.
    destruct (getLogin envOrigins cors envDisable rmThrows st req clock now random16
                hostname) as [[st1 headers] outcome]. cbn [fst snd] in Hget.
    intros Hstep. assert (st' = st1) as -> by (destruct outcome; congruence).
    destruct Hget as [->|(username & user & Huser & _ & -> & _)]; [done|].
    destruct Hst0 as [Hhas Hkeys]. split.
    + cbn. split; [intros _; apply insert_non_empty|]. intros _. apply Hhas.
      intros Hempty. by rewrite Hempty, lookup_empty in Huser.
    + intros k user'. cbn. destruct (decide (k = su_id user)) as [->|Hk].
      * rewrite lookup_insert_eq. by intros [= <-].
      * rewrite lookup_insert_ne by done. apply Hkeys.
  - intros [= <-]. done.
Qed.

(** X25. [hasLogin] tells the truth: from a database whose users are stored
    under their ids, whatever sequence of [POST /login] and [GET /login]
    requests and of resets by the file [reset-login] the server goes
    through, [hasLogin] is set exactly when the database has a user, and
    every user is stored under its id. So the branch of [POST /login] that
    registers a user is taken only while the database has none. *)
Theorem hasLogin_tracks_the_users (db : gmap string ScryptedUser) (resetLogin : bool)
    (actions : list LoginAction) (st : LoginState) :
  keyedById db → loginRun (openLogin db resetLogin) actions = Some st →
  loginConsistent st.
Proof.
  intros Hkeys. pose proof (loginConsistent_openLogin db resetLogin Hkeys) as Hst0.
  revert Hst0. generalize (openLogin db resetLogin). clear Hkeys.
  induction actions as [|action actions IH]; intros st0 Hst0; cbn [loginRun].
  - by intros [= <-].
  - destruct (loginStep st0 action) as [st1|] eqn:Hstep; [|done]. cbn.
    apply IH. by eapply loginStep_consistent.
Qed.
(** X30. The file [reset-login] reopens registration: when it is in the
    volume and can be removed, the next [GET /login] removes it and every
    user and clears [hasLogin], so that the basic-auth checker accepts
    nobody; the [POST /login] after it, with a user name and a password that
    are not empty, registers that user as the only one. *)
Theorem reset_login_reopens_registration (envOrigins : option string)
    (cors : list string) (envDisable : option string) (st : LoginState) (req : Request)
    (clock now : Z) (random16 : list Byte.byte) (hostname : option string) :
  resetLogin st = true →
  let st1 :=
    (getLogin envOrigins cors envDisable false st req clock now random16
       hostname).1.1 in
  users st1 = ∅ ∧ hasLogin st1 = false ∧ resetLogin st1 = false
  ∧ (∀ u p, basicAuthChecker sha256 (users st1) u p = false)
  ∧ ∀ req' body timestamp random64 random16' u p,
      body_username body = Some u → body_password body = Some p → u ≠ "" → p ≠ "" →
      ∃ st2 cookie authorization expiration,
        postLogin sha256 toBase64 authSalt UserToken UserToken_new UserToken_toString
          parseInt ONE_DAY_MILLISECONDS addresses st1 req' body timestamp random64
          random16'
        = Some (st2, Some cookie,
                SendRegistered authorization u (toHex random16') expiration addresses)
        ∧ dom (users st2) = {[u]} ∧ hasLogin st2 = true
        ∧ basicAuthChecker sha256 (users st2) u p = true.
Proof.
  intros Hreset st1.
  pose proof (getLogin_state envOrigins cors envDisable false st req clock now random16
                hostname) as Hget. cbv zeta in Hget. fold st1 in Hget.
  assert (checkResetLogin false st = {| users := ∅; hasLogin := false; resetLogin := false |})
    as Hst0 by (unfold checkResetLogin; by rewrite Hreset).
  rewrite Hst0 in Hget.
  assert (st1 = {| users := ∅; hasLogin := false; resetLogin := false |}) as ->.
  { destruct Hget as [Hget|(username & user & Huser & _)]; [done|].
    cbn in Huser. by rewrite lookup_empty in Huser. }
  clear Hget. cbn [users hasLogin resetLogin]. split_and!; try done.
  intros req' body timestamp random64 random16' u p Hu Hp Hune Hpne.
  destruct (postLogin_register sha256 toBase64 authSalt UserToken UserToken_new
              UserToken_toString parseInt ONE_DAY_MILLISECONDS addresses
              {| users := ∅; hasLogin := false; resetLogin := false |}
              req' body timestamp random64 random16' u p eq_refl Hu Hp Hune Hpne)
    as (user & cookie & authorization & expiration & -> & Hid & Htoken & Hhash).
  eexists _, cookie, authorization, expiration. split; [done|].
  cbn [users hasLogin]. split_and!; [|done|].
  - by rewrite insert_empty, dom_singleton_L.
  - unfold basicAuthChecker. rewrite lookup_insert_eq. rewrite Hhash.
    by rewrite bool_decide_true.
Qed.
End login_machine_proofs.

Lemma loginConsistent_aliceState : loginConsistent aliceState.
Proof.
  split.
  - split; [|done]. intros _. apply insert_non_empty.
  - intros k user. unfold aliceState. cbn [users].
    intros [<- <-]%lookup_singleton_Some. done.
Qed.

Lemma login_and_basic_auth_agree_witness :
  ∃ st' cookie reply,
    examplePostLogin aliceState plainRequest (loginBody "alice" "secret") 1 [] []
    = Some (st', cookie, reply)
    ∧ (is_Some cookie ↔ basicAuthChecker exampleDigest (users aliceState) "alice" "secret"
                        = true)
    ∧ (cookie = None → st' = aliceState ∧ ∃ error, reply = SendError error true).
Proof.
  apply (login_and_basic_auth_agree exampleDigest toHex "salt" string
           (λ username _ _, username) id (λ _, None) 86400000 [] aliceState plainRequest
           (loginBody "alice" "secret") 1 [] [] "alice" "secret"); reflexivity.
Defined.

Lemma no_registration_while_a_user_exists_witness :
  let body :=
    {| body_username := Some "alice"; body_password := Some "secret";
       body_change_password := Some "hunter2"; body_maxAge := None |} in
  ∃ st' cookie reply,
    examplePostLogin aliceState plainRequest body 1 [Byte.x01] [] = Some (st', cookie, reply)
    ∧ dom (users st') = dom (users aliceState)
    ∧ hasLogin st' = true
    ∧ (∀ k, su_token <$> users st' !! k = su_token <$> users aliceState !! k)
    ∧ (∀ k, body_username body ≠ Some k → users st' !! k = users aliceState !! k)
    ∧ (truthy_opt (body_change_password body) = false → st' = aliceState).
Proof.
  intros body.
  destruct (examplePostLogin aliceState plainRequest body 1 [Byte.x01] [])
    as [[[st' cookie] reply]|] eqn:Hpost; [|by vm_compute in Hpost].
  exists st', cookie, reply. split; [done|].
  apply (no_registration_while_a_user_exists exampleDigest toHex "salt" string
           (λ username _ _, username) id (λ _, None) 86400000 [] aliceState plainRequest
           body 1 [Byte.x01] [] st' cookie reply loginConsistent_aliceState).
  - apply insert_non_empty.
  - exact Hpost.
Defined.

Lemma register_then_login_witness :
  let st := openLogin ∅ false in
  ∃ st1 cookie authorization expiration,
    examplePostLogin st plainRequest (loginBody "alice" "secret") 1 [Byte.x01] [Byte.x02]
    = Some (st1, Some cookie,
            SendRegistered authorization "alice" (toHex [Byte.x02]) expiration [])
    ∧ hasLogin st1 = true
    ∧ (∃ user, users st1 !! "alice" = Some user ∧ su_id user = "alice")
    ∧ (∀ k, k ≠ "alice" → users st1 !! k = users st !! k)
    ∧ basicAuthChecker exampleDigest (users st1) "alice" "secret" = true
    ∧ basicAuthChecker exampleDigest (users st1) "alice" (toHex [Byte.x02]) = true
    ∧ ∀ req' body' timestamp' random64' random16',
        body_username body' = Some "alice" →
        body_password body' = Some "secret"
        ∨ body_password body' = Some (toHex [Byte.x02]) →
        ∃ st2 cookie' authorization' expiration',
          examplePostLogin st1 req' body' timestamp' random64' random16'
          = Some (st2, Some cookie', SendLogin authorization' "alice" expiration' []).
Proof.
  intros st.
  apply (register_then_login exampleDigest toHex "salt" string
           (λ username _ _, username) id (λ _, None) 86400000 [] st plainRequest
           (loginBody "alice" "secret") 1 [Byte.x01] [Byte.x02] "alice" "secret");
    done.
Defined.

Lemma change_password_takes_effect_witness :
  let body :=
    {| body_username := Some "alice"; body_password := Some "secret";
       body_change_password := Some "hunter2"; body_maxAge := None |} in
  ∃ st' cookie reply,
    examplePostLogin aliceState plainRequest body 1 [Byte.x01] []
    = Some (st', Some cookie, reply)
    ∧ basicAuthChecker exampleDigest (users st') "alice" "hunter2" = true
    ∧ (∀ token, users aliceState !! "alice" ≫= su_token = Some token →
                basicAuthChecker exampleDigest (users st') "alice" token = true)
    ∧ hasLogin st' = true
    ∧ ∀ req' body' timestamp' random64' random16',
        body_username body' = Some "alice" → body_password body' = Some "hunter2" →
        ∃ st2 cookie' authorization' expiration',
          examplePostLogin st' req' body' timestamp' random64' random16'
          = Some (st2, Some cookie', SendLogin authorization' "alice" expiration' []).
Proof.
  intros body.
  destruct (examplePostLogin aliceState plainRequest body 1 [Byte.x01] [])
    as [[[st' [cookie|]] reply]|] eqn:Hpost; [|by vm_compute in Hpost..].
  exists st', cookie, reply. split; [done|].
  apply (change_password_takes_effect exampleDigest toHex "salt" string
           (λ username _ _, username) id (λ _, None) 86400000 [] aliceState plainRequest
           body 1 [Byte.x01] [] "alice" "hunter2" st' cookie reply
           loginConsistent_aliceState); [reflexivity..|done|exact Hpost].
Defined.

Lemma hasLogin_tracks_the_users_witness :
  let actions :=
    [PostLogin plainRequest (loginBody "alice" "secret") 1 [Byte.x01] [Byte.x02];
     TouchResetLogin;
     GetLogin None [] None false plainRequest 2 2 [] (Some "nvr.local");
     PostLogin plainRequest (loginBody "bob" "secret") 3 [Byte.x03] [Byte.x04]] in
  ∃ st,
    loginRun exampleDigest toHex "salt" string (λ username _ _, username) id id
      (λ _, 0%Z) (λ _, 0%Z) (λ _ t, inr t) (λ _ _, None) (λ _, None) (λ _, None) 86400000 []
      (openLogin ∅ false) actions = Some st
    ∧ loginConsistent st.
Proof.
  intros actions.
  destruct (loginRun exampleDigest toHex "salt" string (λ username _ _, username) id id
              (λ _, 0%Z) (λ _, 0%Z) (λ _ t, inr t) (λ _ _, None) (λ _, None) (λ _, None)
              86400000 [] (openLogin ∅ false) actions) as [st|] eqn:Hrun;
    [|by vm_compute in Hrun].
  exists st. split; [done|].
  apply (hasLogin_tracks_the_users exampleDigest toHex "salt" string
           (λ username _ _, username) id id (λ _, 0%Z) (λ _, 0%Z) (λ _ t, inr t)
           (λ _ _, None) (λ _, None) (λ _, None) 86400000 [] ∅ false actions st).
  - intros k user. by rewrite lookup_empty.
  - exact Hrun.
Defined.

Section session_proofs.
Variable sha256 : string → list Byte.byte.
Variable authSalt : string.
Variable UserToken : Type.
Variable ut_username : UserToken → string.
Variable ut_timestamp : UserToken → Z.
Variable ut_duration : UserToken → Z.
Variable UserToken_validateToken : Z → string → option string + UserToken.
Variable httpAuth_basic : (string → string → bool) → Request → option string.
Variable urlOrigin : string → option string.
Variable ONE_DAY_MILLISECONDS : Z.
Variable addresses : list string.

Abbreviation getLogin :=
  (getLogin sha256 authSalt UserToken ut_username ut_timestamp ut_duration
     UserToken_validateToken httpAuth_basic urlOrigin ONE_DAY_MILLISECONDS addresses).
Abbreviation authenticate :=
  (authenticate sha256 authSalt UserToken ut_username UserToken_validateToken).
Abbreviation createAuthorizationToken := (createAuthorizationToken sha256 authSalt).

End session_proofs.


Lemma reset_login_reopens_registration_witness :
  let st := {| users := {["alice" := alice]}; hasLogin := true; resetLogin := true |} in
  let st1 :=
    (getLogin exampleDigest "salt" string id (λ _, 0%Z) (λ _, 0%Z) (λ _ t, inr t)
       (λ _ _, None) (λ _, None) 86400000 [] None [] None false st plainRequest 5 5 []
       None).1.1 in
  users st1 = ∅ ∧ hasLogin st1 = false ∧ resetLogin st1 = false
  ∧ (∀ u p, basicAuthChecker exampleDigest (users st1) u p = false)
  ∧ ∀ req' body timestamp random64 random16' u p,
      body_username body = Some u → body_password body = Some p → u ≠ "" → p ≠ "" →
      ∃ st2 cookie authorization expiration,
        examplePostLogin st1 req' body timestamp random64 random16'
        = Some (st2, Some cookie,
                SendRegistered authorization u (toHex random16') expiration [])
        ∧ dom (users st2) = {[u]} ∧ hasLogin st2 = true
        ∧ basicAuthChecker exampleDigest (users st2) u p = true.
Proof.
  intros st.
  apply (reset_login_reopens_registration exampleDigest toHex "salt" string
           (λ username _ _, username) id id (λ _, 0%Z) (λ _, 0%Z) (λ _ t, inr t)
           (λ _ _, None) (λ _, None) (λ _, None) 86400000 [] None [] None st plainRequest
           5 5 [] None).
  reflexivity.
Defined.

(** ** The debugger proxy *)

Lemma connectLoop_spec (doconnect : nat → bool) (i n : nat) :
  match connectLoop doconnect i n with
  | (Piped k, sleeps) =>
    i ≤ k < i + n ∧ doconnect k = true ∧ (∀ j, i ≤ j < k → doconnect j = false)
    ∧ sleeps = k - i
  | (TimedOut, sleeps) => (∀ j, i ≤ j < i + n → doconnect j = false) ∧ sleeps = n
  | (Destroyed, _) => False
  end.
Proof.
  revert i. induction n as [|n IH]; intros i; cbn [connectLoop].
  - split; [lia|done].
  - destruct (doconnect i) eqn:Hi.
    + split_and!; [lia|lia|done|lia|lia].
    + specialize (IH (S i)).
      destruct (connectLoop doconnect (S i) n) as [[|k|] sleeps]; [done| |].
      * destruct IH as (Hk & Hdo & Hbefore & ->). split_and!; [lia|lia|done| |lia].
        intros j Hj. destruct (decide (j = i)) as [->|]; [done|]. apply Hbefore. lia.
      * destruct IH as (Hall & ->). split; [|done].
        intros j Hj. destruct (decide (j = i)) as [->|]; [done|]. apply Hall. lia.
Qed.

(** X26. The debugger proxy tries at most ten times and sleeps half a second
    after each refusal, five seconds at most. Without an inspect port the
    connection is destroyed at once; otherwise it is piped to the first
    attempt that connects, after as many sleeps as attempts were refused, and
    when all ten are refused the time-out is logged. *)
Theorem debugger_proxy_retries (workerInspectPort : option N) (doconnect : nat → bool) :
  let r := debugConnection workerInspectPort doconnect in
  let noPort := workerInspectPort = None ∨ workerInspectPort = Some 0%N in
  (r.2 ≤ 5000)%N
  ∧ match r.1.2 with
    | Destroyed => noPort ∧ r.2 = 0%N ∧ r.1.1 = []
    | Piped i =>
      ¬ noPort ∧ i < 10 ∧ doconnect i = true ∧ (∀ j, j < i → doconnect j = false)
      ∧ r.2 = (500 * N.of_nat i)%N ∧ r.1.1 = []
    | TimedOut =>
      ¬ noPort ∧ (∀ j, j < 10 → doconnect j = false) ∧ r.2 = 5000%N
      ∧ r.1.1 = [EvConsoleWarn "debugger connect timed out"]
    end.
Proof.
  intros r noPort. subst r noPort. unfold debugConnection.
  destruct workerInspectPort as [port|]; cbn -[connectLoop N.mul N.le N.of_nat].
  - destruct (N.eqb_spec port 0) as [->|Hport]; cbn -[connectLoop N.mul N.le N.of_nat].
    + split; [lia|]. split_and!; auto.
    + pose proof (connectLoop_spec doconnect 0 10) as Hloop.
      destruct (connectLoop doconnect 0 10) as [[|k|] sleeps]; [done| |];
        cbn -[N.mul N.le N.of_nat].
      * destruct Hloop as (Hk & Hdo & Hbefore & ->). split; [lia|].
        split_and!; [|lia|done| |f_equal; lia|done].
        -- intros [[=]|[=]]. done.
        -- intros j Hj. apply Hbefore. lia.
      * destruct Hloop as (Hall & ->). split; [lia|]. split_and!; [| |done|done].
        -- intros [[=]|[=]]. done.
        -- intros j Hj. apply Hall. lia.
  - split; [lia|]. split_and!; auto.
Qed.

(** * Properties of [installPlugin] *)

Lemma upsertDescriptor_info `{InferDefaults} rt pd pluginId device b1 b2 b3 info :
  is_Some (pd_state pd) → dev_info device = Some info →
  getState (upsertDescriptor rt pd pluginId device b1 b2 b3).1 Property_info = info.
Proof.
  intros Hst Hinfo. unfold upsertDescriptor. rewrite Hinfo.
  destruct (setPluginDeviceState pd Property_info info) as [[pd1 c1] ev1] eqn:E1.
  apply setPluginDeviceState_sets in E1; [|exact Hst].
  destruct b1, b2, b3; repeat keeps_step; cbn [fst]; tauto.
Qed.

Lemma upsertDevice_info `{InferDefaults} rt pluginId device info :
  dev_info device = Some info →
  let pd := pluginDevicePromise (upsertDevice rt pluginId device).2 in
  is_Some (pd_state pd) ∧ getState pd Property_info = info.
Proof.
  intros Hinfo pd. subst pd. unfold upsertDevice.
  set (nid := normalizeNativeId (dev_nativeId device)).
  pose proof (upsertRecord_spec rt pluginId nid) as Hrec. cbv zeta in Hrec.
  destruct (upsertRecord rt pluginId nid) as [pd1 rt1].
  destruct Hrec as (_ & _ & _ & Hst1 & _).
  cbn [fst snd] in *.
  pose proof (upsertInterfaces_spec pd1 pluginId device Hst1) as Hint.
  cbv zeta in Hint.
  destruct (upsertInterfaces pd1 pluginId device) as [[pd2 changed] evs1].
  destruct Hint as (_ & _ & _ & Hst2 & _).
  cbn [fst snd] in *.
  match goal with
  | |- context [upsertDescriptor ?a1 ?a2 ?a3 ?a4 ?a5 ?a6 ?a7] =>
    pose proof (upsertDescriptor_agree a1 a2 a3 a4 a5 a6 a7 Hst2) as Hdesc;
    pose proof (upsertDescriptor_info a1 a2 a3 a4 a5 a6 a7 info Hst2 Hinfo) as Hdesc';
    destruct (upsertDescriptor a1 a2 a3 a4 a5 a6 a7) as [pd3 evs2]
  end.
  cbn [fst snd pluginDevicePromise] in *. split; [|done].
  destruct (pd_state pd3) eqn:Hst3; [done|].
  unfold getState in Hdesc'. rewrite Hst3 in Hdesc'. subst info.
  destruct (dev_info device); [|done]. exfalso.
  clear -Hdesc Hst3 Hst2. destruct Hdesc as (_ & _ & _ & Hst & _).
  rewrite Hst3 in Hst. by destruct Hst.
Qed.

(** X27. [installPlugin] leaves the plugin with a root device and a running
    host: the root device is in the table with the name and the version of
    the package as its [info] and with the [ScryptedPlugin] marker among its
    provided interfaces, [Readme] is among them exactly when the manifest
    lists it or the zip has a [README.md], the host that is returned is new,
    registered for the plugin and alive, the root device is probed on it,
    and the registrations stay consistent. *)
Theorem installPlugin_registers_and_runs `{InferDefaults} (rt : ScryptedRuntime)
    (plugin : Plugin) (scrypted : Device) (readme : option bool) :
  hostsConsistent rt → normalizeNativeId (dev_nativeId scrypted) = NidUndefined →
  let r := installPlugin rt plugin scrypted readme in
  ∃ pd provided,
    findPluginDevice r.1 (plugin_id plugin) NidUndefined = Some pd
    ∧ getState pd Property_info
      = JInfo (Some (packageJson_name plugin)) (Some (packageJson_version plugin))
    ∧ getState pd Property_providedInterfaces = js_of_strings provided
    ∧ ScryptedPlugin ∈ provided
    ∧ (Readme ∈ provided ↔ Readme ∈ dev_interfaces scrypted ∨ readme = Some true)
    ∧ r.2 = length (hosts rt)
    ∧ plugins r.1 !! plugin_id plugin = Some r.2
    ∧ pluginRunning r.1 (plugin_id plugin)
    ∧ hostsConsistent r.1
    ∧ EvProbe (pd_id pd) ∈ trace r.1.
Proof.
  intros Hinv Hnid r. subst r. unfold installPlugin. cbv zeta.
  set (interfaces := if bool_decide (Readme ∈ dev_interfaces scrypted) then _ else _).
  set (device := {| dev_name := dev_name scrypted; dev_interfaces := interfaces |}).
  destruct (upsertDevice_spec rt (plugin_id plugin) device)
    as (_ & Hp & Hn & Hprov & _ & _ & _ & Htab & _).
  destruct (upsertDevice_written rt (plugin_id plugin) device)
    as (_ & _ & _ & _ & Hpl & Hh & _).
  destruct (upsertDevice_info rt (plugin_id plugin) device _ eq_refl) as (Hst & Hinfo).
  pose proof (findPluginDevice_upsertDevice rt (plugin_id plugin) device) as Hfind.
  change (dev_nativeId device) with (dev_nativeId scrypted) in *.
  rewrite Hnid in Hfind.
  set (rt1 := (upsertDevice rt (plugin_id plugin) device).1) in *.
  set (pd := pluginDevicePromise (upsertDevice rt (plugin_id plugin) device).2) in *.
  assert (hostsConsistent rt1) as Hinv1 by (by apply (hostsConsistent_ext rt)).
  destruct (runPlugin_spec rt1 plugin) as (Htab' & _ & _ & _ & _ & Hr & Hpl' & _).
  destruct (runPlugin_running rt1 plugin Hinv1) as (Hrun & _).
  destruct (runPlugin_registered rt1 plugin (proj1 Hinv1) (proj2 Hinv1)) as (Hl & Ho).
  destruct (runPlugin_trace rt1 plugin) as (released & Htr & _).
  exists pd, (providedInterfacesOf device).
  split_and!.
  - by rewrite (findPluginDevice_ext rt1).
  - done.
  - done.
  - unfold providedInterfacesOf.
    change (dev_nativeId device) with (dev_nativeId scrypted). rewrite Hnid.
    cbn [truthy_nativeId].
    apply elem_of_sortInterfaces, elem_of_app. right. by apply list_elem_of_singleton.
  - unfold providedInterfacesOf.
    change (dev_nativeId device) with (dev_nativeId scrypted). rewrite Hnid.
    cbn [truthy_nativeId].
    rewrite elem_of_sortInterfaces, elem_of_app, list_elem_of_singleton.
    change (dev_interfaces device) with interfaces. subst interfaces.
    case_bool_decide as Hin; [by intuition|].
    destruct readme as [[|]|].
    + rewrite elem_of_app, list_elem_of_singleton. by intuition.
    + split; [intros [?|[=]]; by left|]. intros [?|[=]]. by left.
    + split; [intros [?|[=]]; by left|]. intros [?|[=]]. by left.
  - by rewrite Hr, Hh.
  - by rewrite Hpl', Hr, lookup_insert_eq.
  - done.
  - done.
  - rewrite Htr, !elem_of_app. right. right. right.
    apply list_elem_of_fmap. exists pd. split; [done|].
    apply elem_of_findPluginDevices.
    apply findPluginDevice_elem in Hfind as (Hin & Hpid & _). by split_and!.
Qed.

(** X27 at the installation of a plugin with a [README.md] in
    [emptyRuntime]. *)
Lemma installPlugin_registers_and_runs_witness :
  let plugin :=
    {| plugin_id := "@scrypted/hue"; packageJson_name := "@scrypted/hue";
       packageJson_version := "0.0.5" |} in
  let r := @installPlugin noInferredDefaults emptyRuntime plugin
             (declare NidUndefined ["DeviceProvider"]) (Some true) in
  ∃ pd provided,
    findPluginDevice r.1 "@scrypted/hue" NidUndefined = Some pd
    ∧ getState pd Property_info = JInfo (Some "@scrypted/hue") (Some "0.0.5")
    ∧ getState pd Property_providedInterfaces = js_of_strings provided
    ∧ ScryptedPlugin ∈ provided
    ∧ (Readme ∈ provided
       ↔ Readme ∈ dev_interfaces (declare NidUndefined ["DeviceProvider"])
         ∨ Some true = Some true)
    ∧ r.2 = length (hosts emptyRuntime)
    ∧ plugins r.1 !! "@scrypted/hue" = Some r.2
    ∧ pluginRunning r.1 "@scrypted/hue"
    ∧ hostsConsistent r.1
    ∧ EvProbe (pd_id pd) ∈ trace r.1.
Proof.
  intros plugin r.
  apply (@installPlugin_registers_and_runs noInferredDefaults emptyRuntime plugin
           (declare NidUndefined ["DeviceProvider"]) (Some true)).
  - apply hostsConsistent_fresh; reflexivity.
  - reflexivity.
Defined.

(** * Properties of [killall] *)

Lemma killall_fields values : ∀ rt,
  plugins (killall values rt) = plugins rt
  ∧ pluginDevices (killall values rt) = pluginDevices rt
  ∧ devices (killall values rt) = devices rt
  ∧ datastore (killall values rt) = datastore rt
  ∧ length (hosts (killall values rt)) = length (hosts rt)
  ∧ trace (killall values rt) = trace rt ++ (EvHostKill <$> values)
  ∧ ∀ i, hosts (killall values rt) !! i
         = (λ host, if decide (i ∈ values)
                    then {| host_pluginId := host_pluginId host; host_killed := true;
                            host_exitListener := host_exitListener host;
                            host_unreachable := host_unreachable host |}
                    else host) <$> hosts rt !! i.
Proof.
  unfold killall. induction values as [|h values IH]; intros rt; cbn [foldl].
  - split_and!; try done; [by rewrite app_nil_r|].
    intros i. destruct (hosts rt !! i) as [host|]; [|done]. cbn.
    destruct (decide (i ∈ [])) as [Hin|]; [by apply elem_of_nil in Hin|done].
  - destruct (IH (host_kill h rt)) as (Hpl & Htab & Hdev & Hds & Hlen & Htr & Hhosts).
    split_and!; try done.
    + rewrite Hlen. unfold host_kill. cbn. by rewrite length_alter.
    + rewrite Htr. cbn. by rewrite <-app_assoc.
    + intros i. rewrite Hhosts, host_kill_hosts.
      destruct (hosts rt !! i) as [host|]; [|done].
      cbn. f_equal.
      destruct (decide (i ∈ h :: values)) as [Hin|Hnin],
               (decide (i ∈ values)) as [Hin'|Hnin'],
               (decide (i = h)) as [->|Hne]; try done.
      * apply elem_of_cons in Hin as [?|?]; done.
      * destruct Hnin. apply elem_of_cons. by right.
      * destruct Hnin. apply elem_of_cons. by right.
      * destruct Hnin. apply elem_of_cons. by left.
Qed.

(** X28. [killall] leaves no plugin process alive: when the registrations
    are consistent, after it every host is killed, whether it had been
    killed before or was registered; each registered host is sent one
    [kill], in the order of the enumeration, and the registrations and the
    tables stay as they are. *)
Theorem killall_leaves_no_host_alive (rt : ScryptedRuntime) (values : list nat) :
  hostsConsistent rt → registeredHosts rt values →
  let rt' := killall values rt in
  (∀ h host, hosts rt' !! h = Some host → host_killed host = true)
  ∧ length (hosts rt') = length (hosts rt)
  ∧ trace rt' = trace rt ++ (EvHostKill <$> values)
  ∧ NoDup values
  ∧ plugins rt' = plugins rt ∧ pluginDevices rt' = pluginDevices rt
  ∧ datastore rt' = datastore rt.
Proof.
  intros [Hlive Hown] Hvalues rt'. subst rt'.
  destruct (killall_fields values rt) as (Hpl & Htab & Hdev & Hds & Hlen & Htr & Hhosts).
  split_and!; try done.
  - intros h host. rewrite Hhosts.
    destruct (hosts rt !! h) as [host0|] eqn:Hh; [|done]. cbn. intros [= <-].
    destruct (decide (h ∈ values)) as [Hin|Hnin]; [done|].
    destruct (host_killed host0) eqn:Hk; [done|]. exfalso. apply Hnin.
    rewrite Hvalues. apply list_elem_of_fmap.
    exists (host_pluginId host0, h). split; [done|].
    apply elem_of_map_to_list. by apply Hlive.
  - rewrite Hvalues.
    assert (∀ p q h, plugins rt !! p = Some h → plugins rt !! q = Some h → p = q) as Hinj.
    { intros p q h Hp Hq. destruct (Hown p h Hp) as (host & Hh & <-).
      destruct (Hown q h Hq) as (host' & Hh' & <-). congruence. }
    apply NoDup_fmap_2_strong; [|apply NoDup_map_to_list].
    intros [p h] [q h'] Hp%elem_of_map_to_list Hq%elem_of_map_to_list. cbn.
    intros <-. f_equal. by eapply Hinj.
Qed.

(** X28 at a runtime with one plugin that was started twice. *)
Lemma killall_leaves_no_host_alive_witness :
  let plugin :=
    {| plugin_id := "p"; packageJson_name := "p"; packageJson_version := "1.0.0" |} in
  let rt := (runPlugin (runPlugin emptyRuntime plugin).1 plugin).1 in
  let rt' := killall [1] rt in
  (∀ h host, hosts rt' !! h = Some host → host_killed host = true)
  ∧ length (hosts rt') = length (hosts rt)
  ∧ trace rt' = trace rt ++ (EvHostKill <$> [1])
  ∧ NoDup [1]
  ∧ plugins rt' = plugins rt ∧ pluginDevices rt' = pluginDevices rt
  ∧ datastore rt' = datastore rt.
Proof.
  intros plugin rt.
  apply (killall_leaves_no_host_alive rt [1]).
  - subst rt. split.
    + apply runPlugin_registered; apply runPlugin_registered;
        by apply hostsConsistent_fresh.
    + apply runPlugin_registered; apply runPlugin_registered;
        by apply hostsConsistent_fresh.
  - unfold registeredHosts. vm_compute. reflexivity.
Defined.
